(* ===== verification/_CoqProject ===== *)
-Q . S2P
Prelude.v
GF16.v
Poly.v
SpqrUtil.v
Erasure.v
Crypto.v
Xeddsa.v
Keys.v
X3dh.v
Ratchet.v
RatchetProofs.v
RatchetHeap.v
RatchetHeapProofs.v
RatchetTalk.v
RatchetCodec.v
SpqrChain.v
SpqrChainProofs.v
SpqrCounters.v
SpqrMessage.v
SpqrMlkem.v
SpqrV1.v
SpqrV1Codec.v
SpqrV1Proofs.v
SpqrState.v
SpqrStateProofs.v
SpqrOrder.v
Protowire.v
Wire.v
Certificates.v
SealedSender.v
Store.v
MemoryStore.v
SenderKeys.v
SenderKeysProofs.v
SenderKeysGroup.v
Session.v
SessionProofs.v
SessionSafety.v
SessionTalk.v
SessionStart.v
SessionConversation.v
Sesame.v
SesameProofs.v
SesameConversation.v
Facade.v
