(* ===== verification/Prelude.v ===== *)
(** * A verification library for the Signal protocol implementation in Go

    The program (src/) is a Go implementation of the Signal protocol: the X3DH
    and PQXDH handshakes, the Double Ratchet, the sparse post-quantum ratchet
    (SPQR), sessions over pluggable stores, group messages with sender keys,
    conversations with all devices of a user, and sealed sender. This library models it function by function and proves that its
    parts do what the protocol needs them to do.

    ** How code is modelled

    - Bytes are [Byte.byte]; fixed-size arrays ([[32]byte]) are length-indexed
      vectors; slices are lists; machine integers are [Z] with their wrap-around
      written out ([u16], [u32], [u64]); Go maps are [gmap]s, and the order in
      which the code ranges over a map is a parameter wherever it can matter.
      Pointers and maps are modelled by what they hold; for the states of the
      Double Ratchet [RatchetHeapProofs] shows that no sharing is missed by this.
    - A function that can fail returns [res]: [Ok], [Err] with the sentinel error
      of src/errors/errors.go or src/spqr/errors.go, or [Panic] for a Go run-time
      panic (an index or slice out of range). Stateful code is [ST W], a state
      monad over [res] in which a failing computation still yields the state it
      has left behind. Decoders are [reader]s: an offset into the data, with
      reads that panic beyond its end.
    - Randomness is a tape of bytes threaded through the code; the clock is an
      argument.
    - Third-party code is a class with the laws the code relies on, and a toy
      instance that satisfies the laws and computes: [Primitives] (HMAC, HKDF,
      X25519, AES, AEADs; [Toy.primitives]), [KyberPrims] (Kyber1024), [GcmSiv]
      (AES-GCM-SIV), [Edwards25519] (scalars, field elements and points;
      [ToyEdwards.edwards]), [MLKEM] (ML-KEM-768; [ToyMlkem.mlkem]), [Protowire]
      ([ToyWire.wire]). The signature scheme is an interface between components,
      [XEdDSA], which [Xeddsa] implements and the others use. The store interfaces
      are classes too, with laws that [MemoryStore] satisfies.

    ** The parts

    - This file: integers, bytes, results, the monads, readers with one lemma per
      combinator ([reads], [reads_end]), big-endian integers, and the shared
      tactics and hints.
    - [GF16], [Poly], [Erasure] (src/spqr/encoding_*.go): the field of 2^16
      elements, polynomials over it, the erasure code. The arithmetic is a field,
      interpolation is correct, a decoder returns the message exactly when it has
      enough distinct chunks, in any order; encoders survive persistence.
    - [SpqrUtil], [SpqrChain], [SpqrMessage], [SpqrMlkem], [SpqrV1], [SpqrV1Codec],
      [SpqrState] (src/spqr/): the post-quantum ratchet. [SpqrChainProofs]: the
      keys of the two chains agree, receiving refines a window. [SpqrCounters]: how
      far a chain has got. [SpqrV1Proofs]: over a network that loses, reorders,
      repeats and delays messages the two parties agree on the epoch secrets and
      never fail. [SpqrStateProofs]: so do the salts, with persistence at any
      point; negotiation of the version. [SpqrOrder]: with in-order delivery
      nothing is ever refused.
    - [Crypto] (src/crypto/): padding, framing and checks around the primitives.
      [Xeddsa] (src/crypto/xeddsa.go): a signature verifies under the Curve25519 key.
    - [Keys] (src/keys/): key generation, bundles and their formats.
    - [X3dh] (src/x3dh/): both sides of the handshake derive the same secrets;
      the format of the initial message.
    - [Ratchet], [RatchetCodec] (src/ratchet/): the Double Ratchet. [RatchetProofs]:
      messages of a chain in any order, each once; changes of turns; atomicity of
      decryption; the invariant of reachable states. [RatchetTalk]: two states in
      step stay in step. [RatchetHeap], [RatchetHeapProofs]: the same methods on a
      heap of Go objects, with pointers and maps that are updated in place, refine
      the methods on values, for any number of states and clones of them.
    - [Protowire], [Wire] (src/protocol/wire/): the wire messages are parsed back
      from their bytes, and what the parsers accept is in range.
    - [Certificates], [SealedSender] (src/sealedsender/): certificates that are
      issued validate, also when parsed from their bytes, and what validation
      requires; both formats of sealed messages are opened by their recipient, the
      sender they name is the one whose key authenticated them, and decryption
      returns for every input.
    - [Store] (src/store/): the interfaces and their laws; [MemoryStore]
      (src/store/memory/): the implementation, which discharges the laws.
    - [SenderKeys] (src/senderkeys/): group messages. [SenderKeysProofs]: formats;
      [SenderKeysGroup]: the members of a group.
    - [Session] (src/session/): sessions, records, the wire cipher and the older
      cipher. [SessionProofs]: records as bytes. [SessionSafety]: atomicity of the
      operations of both ciphers against the store interface. [SessionTalk],
      [SessionStart], [SessionConversation]: from the first message on, what one
      party encrypts the other decrypts, through both stores.
    - [Sesame] (src/sesame/): the roster of a user's devices, its manager over a
      store, and conversations with all the devices of a user. [SesameProofs]: the
      manager refines a map of devices, the format of the roster, what pruning
      removes and what it keeps. [SesameConversation]: a message to a user reaches
      its devices.
    - [Facade] (src/*.go, src/protocol/): publishing a bundle of stored keys, which
      opens conversations; telling the formats of ciphertexts apart; encrypting for
      several devices; the message types.

    ** Fuel

    Every recursion of the code is bounded by data, and the fuel of the
    definitions is that bound: 32 rounds in [gf16Pow] (the exponent has at most 32
    bits), the number of skipped messages in the [skip_loop]s of the ratchet and of
    the sender keys and in [key_loop] of the chains, the length of the data in
    the field decoders, 10 bytes for a varint, the size of the map in
    [enforce_loop]. The theorems show that these loops reach their end.

    ** Not modelled

    Zeroing of dead buffers (src/crypto/zero.go), locks, generated
    protocol-buffer code (src/proto/), and the files of the root package that are
    aliases and one-line calls (src/cipher.go, envelope_cipher.go, group.go, keys.go,
    sesame.go, sesame_conversation.go). *)

From Stdlib Require Import ZArith Lia.
From Stdlib Require Import Strings.Byte.
From stdpp Require Import base gmap strings list list_numbers vector sorting.

#[global] Open Scope Z_scope.
#[export] Set Default Goal Selector "!".

(** ** Bytes

    A Go [byte] is the 256-constructor type of the standard library; the
    conversions to and from [Z] are Go's [int(b)] and [byte(z)] (which
    truncates modulo 256). *)

Abbreviation byte := Byte.byte.

#[export] Instance byte_eq_decision : EqDecision byte := Byte.byte_eq_dec.

Definition b2z (b : byte) : Z := Z.of_N (Byte.to_N b).

Definition z2b (z : Z) : byte :=
  match Byte.of_N (Z.to_N (z mod 256)) with Some b => b | None => Byte.x00 end.

Lemma b2z_range b : 0 <= b2z b < 256.
Proof. unfold b2z. pose proof (Byte.to_N_bounded b). lia. Qed.

Lemma b2z_z2b z : b2z (z2b z) = z mod 256.
Proof.
  unfold z2b, b2z. pose proof (Z.mod_pos_bound z 256 eq_refl) as Hb.
  destruct (Byte.of_N (Z.to_N (z mod 256))) as [b|] eqn:E.
  - apply Byte.to_of_N in E. rewrite E. lia.
  - apply Byte.of_N_None_iff in E. lia.
Qed.

Lemma z2b_b2z b : z2b (b2z b) = b.
Proof. destruct b; reflexivity. Qed.

#[export] Instance b2z_inj : Inj (=) (=) b2z.
Proof. intros a b E. rewrite <- (z2b_b2z a), <- (z2b_b2z b). by rewrite E. Qed.

#[export] Instance byte_countable : Countable byte :=
  inj_countable' Byte.to_N (fun n => z2b (Z.of_N n)) z2b_b2z.

(** ** Machine integers

    An unsigned [w]-bit Go integer is a [Z] in [0, 2^w); the wrap-around of
    its arithmetic is written out with these functions. *)

Definition u8 (z : Z) : Z := z mod 2 ^ 8.
Definition u16 (z : Z) : Z := z mod 2 ^ 16.
Definition u32 (z : Z) : Z := z mod 2 ^ 32.
Definition u64 (z : Z) : Z := z mod 2 ^ 64.

Definition MaxUint32 : Z := 2 ^ 32 - 1.

Definition is_u8 (z : Z) : Prop := 0 <= z < 2 ^ 8.
Definition is_u16 (z : Z) : Prop := 0 <= z < 2 ^ 16.
Definition is_u32 (z : Z) : Prop := 0 <= z < 2 ^ 32.
Definition is_u64 (z : Z) : Prop := 0 <= z < 2 ^ 64.

Lemma u16_range z : is_u16 (u16 z).
Proof. apply Z.mod_pos_bound. lia. Qed.
Lemma u32_range z : is_u32 (u32 z).
Proof. apply Z.mod_pos_bound. lia. Qed.
Lemma u64_range z : is_u64 (u64 z).
Proof. apply Z.mod_pos_bound. lia. Qed.
Lemma u16_id z : is_u16 z -> u16 z = z.
Proof. apply Z.mod_small. Qed.
Lemma u32_id z : is_u32 z -> u32 z = z.
Proof. apply Z.mod_small. Qed.
Lemma u64_id z : is_u64 z -> u64 z = z.
Proof. apply Z.mod_small. Qed.

(** Conversion to [int64] *)
Definition i64 (z : Z) : Z := (z + 2 ^ 63) mod 2 ^ 64 - 2 ^ 63.

Lemma i64_range z : - 2 ^ 63 <= i64 z < 2 ^ 63.
Proof. unfold i64. pose proof (Z.mod_pos_bound (z + 2 ^ 63) (2 ^ 64)). lia. Qed.

Lemma i64_id z : - 2 ^ 63 <= z < 2 ^ 63 -> i64 z = z.
Proof. intros Hz. unfold i64. rewrite Z.mod_small; lia. Qed.

Lemma i64_add_mod z k : i64 (z + k * 2 ^ 64) = i64 z.
Proof. unfold i64. by rewrite <- Z.add_assoc, (Z.add_comm (k * _)), Z.add_assoc, Z_mod_plus_full. Qed.

Lemma i64_u64 z : - 2 ^ 63 <= z < 2 ^ 63 -> i64 (u64 z) = z.
Proof.
  intros Hz. unfold u64. rewrite Z.mod_eq by lia.
  replace (z - 2 ^ 64 * (z / 2 ^ 64)) with (z + (- (z / 2 ^ 64)) * 2 ^ 64) by ring. rewrite i64_add_mod. by apply i64_id.
Qed.

(** Instants are numbers of nanoseconds since the zero time; the seconds between the zero time and the Unix epoch. *)
Definition unixToInternal : Z := 62135596800.

Create HintDb signal.
#[export] Hint Resolve b2z_range u16_range u32_range u64_range : signal.

(** [len] is Go's [len] on slices: a signed machine [int], modelled by [Z]. *)
Definition len {A} (l : list A) : Z := Z.of_nat (length l).

Lemma len_nil {A} : len (@nil A) = 0.
Proof. reflexivity. Qed.
Lemma len_cons {A} (x : A) l : len (x :: l) = 1 + len l.
Proof. unfold len. cbn [length]. lia. Qed.
Lemma len_app {A} (l1 l2 : list A) : len (l1 ++ l2) = len l1 + len l2.
Proof. unfold len. rewrite length_app. lia. Qed.
Lemma len_nonneg {A} (l : list A) : 0 <= len l.
Proof. unfold len. lia. Qed.
Lemma len_0_inv {A} (l : list A) : len l = 0 -> l = [].
Proof. destruct l; [done|]. rewrite len_cons. pose proof (len_nonneg l). lia. Qed.
Lemma len_fmap {A B} (f : A -> B) l : len (f <$> l) = len l.
Proof. unfold len. by rewrite length_fmap. Qed.
Lemma len_replicate {A} n (x : A) : 0 <= n -> len (replicate (Z.to_nat n) x) = n.
Proof. intros. unfold len. rewrite length_replicate. lia. Qed.

Create Rewrite HintDb len.
#[export] Hint Rewrite @len_nil @len_cons @len_app @len_fmap : len.
#[export] Hint Resolve len_nonneg : signal.

(** [lens] computes the lengths of concatenations in the goal and closes the
    arithmetic with the fact that lengths are not negative. *)
Ltac len_facts :=
  repeat match goal with
  | |- context [len ?l] =>
      lazymatch goal with _ : 0 <= len l |- _ => fail | _ => pose proof (len_nonneg l) end
  end.
Ltac lens := autorewrite with len; len_facts; lia.

Lemma mjoin_cons {A} (x : list A) (l : list (list A)) : mjoin (x :: l) = x ++ mjoin l.
Proof. reflexivity. Qed.

Lemma mjoin_snoc {A B} (f : A -> list B) (l : list A) (x : A) :
  mjoin (f <$> (l ++ [x])) = mjoin (f <$> l) ++ f x.
Proof. rewrite fmap_app, join_app. cbn. by rewrite app_nil_r. Qed.

Lemma mjoin_len_le {A B} (f : A -> list B) (l : list A) c :
  (forall x, x ∈ l -> len (f x) <= c) -> len (mjoin (f <$> l)) <= c * len l.
Proof.
  induction l as [|x l IH]; intros Hc; cbn [fmap list_fmap]; [unfold len; cbn; lia|].
  rewrite mjoin_cons, len_app, len_cons. pose proof (Hc x ltac:(by left)).
  assert (len (mjoin (f <$> l)) <= c * len l) by (apply IH; intros y Hy; apply Hc; by right). lia.
Qed.

(** Loops [for i := 0; i < n; i++]. *)
Lemma seqZ_snoc n : 0 <= n -> seqZ 0 (n + 1) = seqZ 0 n ++ [n].
Proof.
  intros Hn. rewrite seqZ_app by lia. f_equal.
Qed.

Lemma foldl_seqZ_ind {A} (P : Z -> A -> Prop) (f : A -> Z -> A) n a :
  0 <= n -> P 0 a -> (forall k a, 0 <= k < n -> P k a -> P (k + 1) (f a k)) ->
  P n (foldl f a (seqZ 0 n)).
Proof.
  intros Hn H0 Hstep. rewrite <- (Z2Nat.id n Hn).
  assert (Z.of_nat (Z.to_nat n) <= n) as Hle by lia. revert Hle.
  generalize (Z.to_nat n) as k. induction k as [|k IH]; intros Hle; [done|].
  replace (Z.of_nat (S k)) with (Z.of_nat k + 1) by lia.
  rewrite seqZ_snoc, foldl_app by lia. apply Hstep; [lia|]. apply IH. lia.
Qed.

(** Rebuilding a map from a list of keys. *)
Lemma foldl_insert_lookup `{Countable K} {A} (f : K -> A) (l : list K) (acc : gmap K A) k :
  foldl (fun m k => <[k := f k]> m) acc l !! k = if decide (k ∈ l) then Some (f k) else acc !! k.
Proof.
  revert acc. induction l as [|x l IH]; intros acc.
  - by rewrite decide_False by apply not_elem_of_nil.
  - cbn [foldl]. rewrite IH. destruct (decide (k ∈ l)) as [Hin|Hout].
    + by rewrite decide_True by (by right).
    + rewrite lookup_insert. destruct (decide (x = k)) as [->|Hne].
      * by rewrite decide_True by (by left).
      * rewrite decide_False; [done|]. rewrite elem_of_cons. intros [->|]; done.
Qed.

(** Rebuilding a list by appending its elements. *)
Lemma foldl_snoc {A} (acc l : list A) : foldl (fun acc x => acc ++ [x]) acc l = acc ++ l.
Proof.
  revert acc. induction l as [|x l IH]; intros acc; cbn; [by rewrite app_nil_r|].
  by rewrite IH, <- app_assoc.
Qed.

(** A map whose keys lie in an interval. *)
Lemma keys_range_size {A} (m : gmap Z A) lo n :
  0 <= n -> (forall k, is_Some (m !! k) -> lo <= k < lo + n) -> Z.of_nat (size m) <= n.
Proof.
  intros Hn H. rewrite <- size_dom.
  assert (dom m ⊆ list_to_set (seqZ lo n)) as Hsub.
  { intros k Hk%elem_of_dom%H. by apply elem_of_list_to_set, elem_of_seqZ. }
  apply subseteq_size in Hsub. rewrite size_list_to_set in Hsub by apply NoDup_seqZ.
  rewrite length_seqZ in Hsub. lia.
Qed.

(** ** Errors

    The sentinel errors of errors/errors.go and spqr/errors.go. An error that
    the code builds with [%w] around a sentinel is that sentinel (which is
    what [errors.Is] sees); an error with no sentinel is [ErrText]. *)

Inductive error : Type :=
| ErrInvalidKey
| ErrInvalidSignature
| ErrUntrustedIdentity
| ErrInvalidMessage
| ErrDuplicateMessage
| ErrInvalidMAC
| ErrNoSession
| ErrNoSenderKey
| ErrSessionNotFound
| ErrPreKeyNotFound
| ErrPreKeyExpired
| ErrMaxSkipExceeded
| ErrStaleKeyExchange
| ErrCounterOverflow
| SpqrErrInvalidMessage
| SpqrErrUnsupportedVersion
| SpqrErrStateDecode
| SpqrErrEpochOutOfRange
| SpqrErrSendKeyEpochDecreased
| SpqrErrKeyJump
| SpqrErrKeyTrimmed
| SpqrErrKeyAlreadyRequested
| SpqrErrChainNotAvailable
| SpqrErrInvalidMAC
| SpqrErrVersionMismatch
| SpqrErrMinimumVersion
| SpqrErrErroneousData
| ErrIdentityChanged (addresses : list (string * Z))
| ErrMissingBundle (addresses : list (string * Z))
| ErrText (msg : string).

#[export] Instance error_eq_decision : EqDecision error.
Proof. solve_decision. Defined.

(** ** Results

    [Panic] is a Go run-time panic (an out-of-range index or slice). *)

Inductive res (A : Type) : Type :=
| Ok (a : A)
| Err (e : error)
| Panic.
Arguments Ok {A} a.
Arguments Err {A} e.
Arguments Panic {A}.

#[export] Instance res_eq_decision `{EqDecision A} : EqDecision (res A).
Proof. solve_decision. Defined.

#[export] Instance res_ret : MRet res := fun A a => Ok a.
#[export] Instance res_bind : MBind res := fun A B f m =>
  match m with Ok a => f a | Err e => Err e | Panic => Panic end.

Definition is_ok {A} (r : res A) : bool := match r with Ok _ => true | _ => false end.

(** [check c e] is [if c { return e }]. *)
Definition check (c : bool) (e : error) : res unit := if c then Err e else Ok tt.

Lemma res_bind_ok {A B} (m : res A) (f : A -> res B) b :
  (m ≫= f) = Ok b -> exists a, m = Ok a /\ f a = Ok b.
Proof. destruct m; cbn; try discriminate. eauto. Qed.

Lemma Ok_inj {A} (a b : A) : Ok a = Ok b -> a = b.
Proof. by intros [= ->]. Qed.

Lemma check_ok c e u : check c e = Ok u -> c = false.
Proof. by destruct c. Qed.

(** ** Stateful code that can fail

    A method that mutates the objects it reaches and may return an error: the
    world it leaves behind is part of the result on every path, so a mutation
    made before an error is visible. *)

Definition ST (W A : Type) : Type := W -> W * res A.

#[export] Instance st_ret {W} : MRet (ST W) := fun A a w => (w, Ok a).
#[export] Instance st_bind {W} : MBind (ST W) := fun A B f m w =>
  match m w with
  | (w', Ok a) => f a w'
  | (w', Err e) => (w', Err e)
  | (w', Panic) => (w', Panic)
  end.

Definition st_err {W A} (e : error) : ST W A := fun w => (w, Err e).
Definition st_get {W} : ST W W := fun w => (w, Ok w).
Definition st_put {W} (w : W) : ST W unit := fun _ => (w, Ok tt).
Definition st_modify {W} (f : W -> W) : ST W unit := fun w => (f w, Ok tt).
Definition st_lift {W A} (r : res A) : ST W A := fun w => (w, r).
Definition st_check {W} (c : bool) (e : error) : ST W unit := st_lift (check c e).

(** Run a computation on one component of a pair. *)
Definition st_fst {S T A} (m : ST S A) : ST (S * T) A := fun '(s, t) =>
  let '(s', r) := m s in ((s', t), r).
Definition st_snd {S T A} (m : ST T A) : ST (S * T) A := fun '(s, t) =>
  let '(t', r) := m t in ((s, t'), r).

(** The result of a computation and the world it leaves. *)
Lemma st_bind_ok {W A B} (m : ST W A) (f : A -> ST W B) w w' b :
  (m ≫= f) w = (w', Ok b) -> exists w1 a, m w = (w1, Ok a) /\ f a w1 = (w', Ok b).
Proof. unfold mbind, st_bind. destruct (m w) as [w1 [a|e|]]; intros H; simplify_eq; eauto. Qed.

(** A sequence in which the first part may fail. *)
Lemma st_bind_inv {W A B} (m : ST W A) (f : A -> ST W B) w w' r :
  (m ≫= f) w = (w', r) ->
  (exists w1 a, m w = (w1, Ok a) /\ f a w1 = (w', r)) \/ (exists e, m w = (w', Err e) /\ r = Err e) \/ (m w = (w', Panic) /\ r = Panic).
Proof. unfold mbind, st_bind. destruct (m w) as [w1 [a|e|]]; intros E; [eauto|injection E as <- <-; eauto..]. Qed.

Lemma st_bind_run {W A B} (m : ST W A) (f : A -> ST W B) w w1 a :
  m w = (w1, Ok a) -> (m ≫= f) w = f a w1.
Proof. unfold mbind, st_bind. by intros ->. Qed.

Lemma st_lift_ok {W A} (r : res A) (w w' : W) a : st_lift r w = (w', Ok a) -> w' = w /\ r = Ok a.
Proof. unfold st_lift. intros H. injection H as -> ->. done. Qed.

Lemma st_check_ok {W} c e (w w' : W) u : st_check c e w = (w', Ok u) -> w' = w /\ c = false.
Proof. intros [-> Hc]%st_lift_ok. split; [done|]. by eapply check_ok. Qed.

Lemma st_ret_ok {W A} (a b : A) (w w' : W) : mret (M:=ST W) a w = (w', Ok b) -> w' = w /\ b = a.
Proof. unfold mret, st_ret. intros H. injection H as -> ->. done. Qed.

Lemma st_lift_run {W A} (r : res A) (w : W) a : r = Ok a -> st_lift r w = (w, Ok a).
Proof. by intros ->. Qed.

Lemma st_check_run {W} c e (w : W) : c = false -> st_check c e w = (w, Ok tt).
Proof. by intros ->. Qed.

Lemma st_bind_lift {W A B} (r : res A) (f : A -> ST W B) (w : W) a :
  r = Ok a -> (st_lift r ≫= f) w = f a w.
Proof. by intros ->. Qed.

Lemma st_bind_check {W B} c e (f : unit -> ST W B) (w : W) :
  c = false -> (st_check c e ≫= f) w = f tt w.
Proof. by intros ->. Qed.

(** The value of a run that succeeds, for concrete examples. *)
Definition get_ok {A} (d : A) (r : res A) : A := match r with Ok a => a | _ => d end.

Lemma ok_get {A} (d : A) (r : res A) : is_ok r = true -> r = Ok (get_ok d r).
Proof. by destruct r. Qed.

Lemma run_get_ok {W A} (d : A) (x : W * res A) : is_ok (snd x) = true -> x = (fst x, Ok (get_ok d (snd x))).
Proof. by destruct x as [w [a|e|]]. Qed.

Lemma run_ok {W A} (x : W * res A) : is_ok (snd x) = true -> exists w a, x = (w, Ok a).
Proof. destruct x as [w [a|e|]]; [eauto|done..]. Qed.

(** [inv_ok H] takes apart a successful run of a sequence of binds, in [res]
    or in [ST]. *)
Ltac inv_ok H :=
  repeat lazymatch type of H with
  | mbind (M:=res) _ _ = Ok _ =>
      let a := fresh "v" in let H1 := fresh "Hok" in
      apply res_bind_ok in H as (a & H1 & H)
  | mbind (M:=ST _) _ _ _ = (_, Ok _) =>
      let w := fresh "w" in let a := fresh "v" in let H1 := fresh "Hok" in
      apply st_bind_ok in H as (w & a & H1 & H)
  end.

(** [inv_steps] does so for every hypothesis, and reads off the lifted results,
    the passed checks and the returned values. *)
Ltac inv_steps :=
  repeat match goal with
  | H : mbind (M:=res) _ _ = Ok _ |- _ => inv_ok H
  | H : mbind (M:=ST _) _ _ _ = (_, Ok _) |- _ => inv_ok H
  | H : st_check _ _ _ = (_, Ok _) |- _ => apply st_check_ok in H as [-> H]
  | H : st_lift _ _ = (_, Ok _) |- _ => apply st_lift_ok in H as [-> H]
  | H : mret (M:=ST _) _ _ = (_, Ok _) |- _ => apply st_ret_ok in H as [-> H]
  | H : check _ _ = Ok _ |- _ => apply check_ok in H
  | H : mret (M:=res) _ = Ok _ |- _ => apply Ok_inj in H
  | H : Ok _ = Ok _ |- _ => apply Ok_inj in H
  end.

(** ** Fixed-size arrays

    [[n]byte] is a length-indexed vector. [to_arr n l] is the array that
    [copy(a[:], l)] leaves in a zeroed [a]: it truncates a longer slice and
    leaves zeros after a shorter one. *)

Abbreviation bytes := (list byte).
Abbreviation arr n := (vec byte n).
Abbreviation key32 := (vec byte 32).

(** [[]byte("...")] *)
Definition str (s : string) : bytes :=
  (fun a => z2b (Z.of_N (Ascii.N_of_ascii a))) <$> String.list_ascii_of_string s.

(** [string(data)] *)
Definition string_of (b : bytes) : string := String.string_of_list_ascii ((fun x => Ascii.ascii_of_N (Z.to_N (b2z x))) <$> b).

Lemma string_of_str s : string_of (str s) = s.
Proof.
  unfold string_of, str. rewrite <- list_fmap_compose.
  induction s as [|c s IH]; [done|]. cbn. rewrite IH. f_equal.
  rewrite b2z_z2b, Z.mod_small.
  - by rewrite N2Z.id, Ascii.ascii_N_embedding.
  - pose proof (Ascii.N_ascii_bounded c). lia.
Qed.

Fixpoint to_arr (n : nat) (l : bytes) : arr n :=
  match n with
  | O => [#]
  | S n =>
      match l with
      | [] => Byte.x00 ::: to_arr n []
      | b :: l => b ::: to_arr n l
      end
  end.

Definition zero32 : key32 := to_arr 32 [].

Lemma to_arr_vec_list {n} (a : arr n) : to_arr n (vec_to_list a) = a.
Proof. induction a as [|b n a IH]; cbn; [done|]. by rewrite IH. Qed.

Lemma vec_list_to_arr n l : length l = n -> vec_to_list (to_arr n l) = l.
Proof.
  revert l. induction n as [|n IH]; intros [|b l] H; try done.
  cbn in *. rewrite IH; [done|lia].
Qed.

Lemma vec_list_len {n} (a : arr n) : len (vec_to_list a) = Z.of_nat n.
Proof. unfold len. by rewrite length_vec_to_list. Qed.

Lemma vec_list_length {n} (a : arr n) : length (vec_to_list a) = n.
Proof. apply length_vec_to_list. Qed.

#[export] Instance vec_list_inj {n} : Inj (=) (=) (@vec_to_list byte n).
Proof. intros a b E. by rewrite <- (to_arr_vec_list a), <- (to_arr_vec_list b), E. Qed.

#[export] Instance arr_countable {n} : Countable (arr n) :=
  inj_countable' (@vec_to_list byte n) (to_arr n) to_arr_vec_list.

#[export] Hint Rewrite @vec_list_len @vec_list_length @to_arr_vec_list : len.

(** ** Big-endian integers: encoding/binary's [BigEndian] *)

Fixpoint be_bytes (n : nat) (z : Z) : bytes :=
  match n with
  | O => []
  | S n => z2b (z / 256 ^ Z.of_nat n) :: be_bytes n z
  end.

Definition be_value (l : bytes) : Z := foldl (fun acc b => acc * 256 + b2z b) 0 l.

Abbreviation AppendUint16 := (be_bytes 2).
Abbreviation AppendUint32 := (be_bytes 4).
Abbreviation AppendUint64 := (be_bytes 8).

Lemma be_bytes_length n z : length (be_bytes n z) = n.
Proof. induction n; cbn; congruence. Qed.

Lemma be_bytes_len n z : len (be_bytes n z) = Z.of_nat n.
Proof. unfold len. by rewrite be_bytes_length. Qed.
#[export] Hint Rewrite be_bytes_len be_bytes_length : len.

Lemma be_value_acc l a :
  foldl (fun acc b => acc * 256 + b2z b) a l = a * 256 ^ len l + be_value l.
Proof.
  unfold be_value. revert a. induction l as [|b l IH]; intros a.
  - rewrite len_nil. cbn [foldl]. ring.
  - cbn [foldl]. rewrite IH, (IH (0 * 256 + b2z b)), len_cons.
    rewrite Z.pow_add_r by (auto with signal; lia). ring.
Qed.

Lemma be_value_cons b l : be_value (b :: l) = b2z b * 256 ^ len l + be_value l.
Proof. unfold be_value. cbn [foldl]. rewrite be_value_acc. unfold be_value. ring. Qed.

Lemma be_value_range l : 0 <= be_value l < 256 ^ len l.
Proof.
  induction l as [|b l IH].
  { change (0 <= 0 < 1). lia. }
  rewrite be_value_cons, len_cons, Z.pow_add_r by (auto with signal; lia).
  pose proof (b2z_range b). rewrite Z.pow_1_r. nia.
Qed.

Lemma be_value_bytes n z : be_value (be_bytes n z) = z mod 256 ^ Z.of_nat n.
Proof.
  induction n as [|n IH].
  - cbn. by rewrite Z.mod_1_r.
  - cbn [be_bytes]. rewrite be_value_cons, IH, b2z_z2b, be_bytes_len.
    replace (Z.of_nat (S n)) with (Z.of_nat n + 1) by lia.
    rewrite Z.pow_add_r, Z.pow_1_r by lia.
    assert (0 < 256 ^ Z.of_nat n) by (apply Z.pow_pos_nonneg; lia).
    rewrite Z.rem_mul_r by lia. ring.
Qed.

Lemma be_bytes_add n z k : be_bytes n (z + k * 256 ^ Z.of_nat n) = be_bytes n z.
Proof.
  revert k. induction n as [|n IH]; intros k; [done|]. cbn [be_bytes].
  replace (Z.of_nat (S n)) with (Z.of_nat n + 1) by lia.
  rewrite Z.pow_add_r, Z.pow_1_r by lia.
  assert (0 < 256 ^ Z.of_nat n) by (apply Z.pow_pos_nonneg; lia).
  replace (z + k * (256 ^ Z.of_nat n * 256)) with (z + (k * 256) * 256 ^ Z.of_nat n) by ring.
  rewrite IH. f_equal. unfold z2b. rewrite Z.div_add by lia.
  by rewrite Z.mod_add by lia.
Qed.

Lemma be_bytes_value l : be_bytes (length l) (be_value l) = l.
Proof.
  induction l as [|b l IH]; [done|].
  cbn [length be_bytes]. rewrite be_value_cons. unfold len.
  pose proof (be_value_range l) as Hr. unfold len in Hr.
  f_equal.
  - rewrite Z.add_comm, Z.div_add, Z.div_small by lia. apply z2b_b2z.
  - rewrite Z.add_comm, be_bytes_add. apply IH.
Qed.

(** ** Slicing

    [data[lo:hi]]: a slice expression whose bounds are out of range panics.
    The capacity of a slice is taken to be its length. *)

Definition slice {A} (data : list A) (lo hi : Z) : res (list A) :=
  if (0 <=? lo) && (lo <=? hi) && (hi <=? len data)
  then Ok (take (Z.to_nat (hi - lo)) (drop (Z.to_nat lo) data))
  else Panic.

Definition index {A} (data : list A) (i : Z) : res A :=
  if 0 <=? i then match data !! Z.to_nat i with Some x => Ok x | None => Panic end
  else Panic.

Lemma slice_app {A} (pre enc post : list A) :
  slice (pre ++ enc ++ post) (len pre) (len pre + len enc) = Ok enc.
Proof.
  unfold slice. rewrite !len_app.
  pose proof (len_nonneg pre); pose proof (len_nonneg enc); pose proof (len_nonneg post).
  rewrite (proj2 (Z.leb_le 0 (len pre))), (proj2 (Z.leb_le (len pre) _)),
    (proj2 (Z.leb_le (len pre + len enc) _)) by lia.
  cbn [andb]. do 2 f_equal. unfold len.
  replace (Z.to_nat (Z.of_nat (length pre) + Z.of_nat (length enc) - Z.of_nat (length pre)))
    with (length enc) by lia.
  rewrite Nat2Z.id, drop_app_length. apply take_app_length.
Qed.

Lemma slice_prefix {A} (l1 l2 : list A) : slice (l1 ++ l2) 0 (len l1) = Ok l1.
Proof. exact (slice_app [] l1 l2). Qed.

Lemma slice_suffix {A} (l1 l2 : list A) : slice (l1 ++ l2) (len l1) (len (l1 ++ l2)) = Ok l2.
Proof. rewrite len_app. pose proof (slice_app l1 l2 []) as Hs. by rewrite app_nil_r in Hs. Qed.

Lemma slice_take {A} (l : list A) n : 0 <= n <= len l -> slice l 0 n = Ok (take (Z.to_nat n) l).
Proof.
  intros Hn. unfold slice. rewrite (proj2 (Z.leb_le 0 n)), (proj2 (Z.leb_le n _)) by lia.
  cbn [andb Z.leb Z.compare]. by rewrite Z.sub_0_r, drop_0.
Qed.

Lemma slice_drop {A} (l : list A) n : 0 <= n <= len l -> slice l n (len l) = Ok (drop (Z.to_nat n) l).
Proof.
  intros Hn. unfold slice. rewrite (proj2 (Z.leb_le 0 n)), (proj2 (Z.leb_le n _)), Z.leb_refl by lia.
  cbn [andb]. rewrite take_ge; [done|]. rewrite length_drop. unfold len in *. lia.
Qed.

(** Consecutive slices make up the rest of the data. *)
Lemma slice_glue {A} (l x y : list A) lo mid :
  slice l lo mid = Ok x -> slice l mid (len l) = Ok y -> slice l lo (len l) = Ok (x ++ y).
Proof.
  intros Ex Ey. unfold slice in Ex. destruct (_ && _) eqn:Eb; [|done]. rewrite !andb_true_iff, !Z.leb_le in Eb.
  rewrite slice_drop in Ey by lia. rewrite slice_drop by lia. apply Ok_inj in Ex as <-, Ey as <-. f_equal.
  rewrite <- (take_drop (Z.to_nat (mid - lo)) (drop (Z.to_nat lo) l)) at 1. rewrite drop_drop. do 2 f_equal. lia.
Qed.

Lemma slice_all {A} (l x : list A) : slice l 0 (len l) = Ok x -> x = l.
Proof. pose proof (len_nonneg l). rewrite slice_drop by lia. by intros [= <-]. Qed.

Lemma slice_length {A} (data l : list A) lo hi :
  slice data lo hi = Ok l -> len l = hi - lo /\ 0 <= lo <= hi /\ hi <= len data.
Proof.
  unfold slice. intros H. case_match eqn:E; simplify_eq.
  rewrite !andb_true_iff, !Z.leb_le in E. destruct E as [[? ?] ?].
  split; [|lia]. unfold len in *. rewrite length_take, length_drop. lia.
Qed.

Lemma slice_no_panic {A} (data : list A) lo hi :
  0 <= lo <= hi -> hi <= len data -> exists l, slice data lo hi = Ok l.
Proof.
  intros. unfold slice.
  rewrite (proj2 (Z.leb_le 0 lo)), (proj2 (Z.leb_le lo hi)), (proj2 (Z.leb_le hi _)) by lia.
  eauto.
Qed.

(** A value or an error, neither a panic nor the end of the fuel. *)
Definition returns {A} (r : res A) : Prop := r <> Panic /\ r <> Err (ErrText "out of fuel").

Lemma returns_ok {A} (a : A) : returns (Ok a).
Proof. done. Qed.
Lemma returns_bind {A B} (r : res A) (f : A -> res B) : returns r -> (forall a, r = Ok a -> returns (f a)) -> returns (r ≫= f).
Proof. intros [H1' H2'] Hf. destruct r as [a|e|]; cbn; [by apply Hf| |done]. split; [done|congruence]. Qed.
Lemma returns_check c e : e <> ErrText "out of fuel" -> returns (check c e).
Proof. intros He. destruct c; split; try done. cbn. congruence. Qed.
Lemma returns_slice {A} (l : list A) a b : 0 <= a <= b -> b <= len l -> returns (slice l a b).
Proof. intros Ha Hb. destruct (slice_no_panic l a b Ha Hb) as [? ->]. done. Qed.

(** [copy(dst, src)] and [copy(dst[off:], src)] *)
Definition copy_into (dst src : bytes) : bytes := take (length dst) src ++ drop (length src) dst.
Definition copy_at (off : nat) (dst src : bytes) : bytes := take off dst ++ copy_into (drop off dst) src.

Lemma copy_into_full (dst src : bytes) : len dst = len src -> copy_into dst src = src.
Proof.
  unfold len, copy_into. intros Hl. rewrite take_ge, drop_ge by lia. apply app_nil_r.
Qed.

Lemma copy_into_app (dst src : bytes) :
  (length src <= length dst)%nat -> copy_into dst src = src ++ drop (length src) dst.
Proof. intros Hl. unfold copy_into. by rewrite take_ge. Qed.

(** ** Readers

    The decoders of the code walk a byte slice with a position: [if pos+n >
    len(data) { return err }], [data[pos:pos+n]; pos += n]. *)

Definition reader (A : Type) : Type := bytes -> Z -> res (A * Z).

#[export] Instance reader_ret : MRet reader := fun A a data pos => Ok (a, pos).
#[export] Instance reader_bind : MBind reader := fun A B f m data pos =>
  match m data pos with
  | Ok (a, pos') => f a data pos'
  | Err e => Err e
  | Panic => Panic
  end.

Definition rd_err {A} (e : error) : reader A := fun _ _ => Err e.
Definition rd_lift {A} (r : res A) : reader A := fun _ pos =>
  match r with Ok a => Ok (a, pos) | Err e => Err e | Panic => Panic end.
Definition rd_check (c : bool) (e : error) : reader unit := rd_lift (check c e).

(** [if pos+n > len(data) { return e }] *)
Definition rd_need (n : Z) (e : error) : reader unit := fun data pos =>
  if pos + n >? len data then Err e else Ok (tt, pos).

(** [data[pos:pos+n]], then [pos += n] *)
Definition rd_take (n : Z) : reader bytes := fun data pos =>
  match slice data pos (pos + n) with
  | Ok l => Ok (l, pos + n)
  | Err e => Err e
  | Panic => Panic
  end.

(** [data[pos]], then [pos++] *)
Definition rd_byte : reader byte := fun data pos =>
  match slice data pos (pos + 1) with
  | Ok [b] => Ok (b, pos + 1)
  | _ => Panic
  end.

Definition rd_arr (n : nat) : reader (arr n) := l ← rd_take (Z.of_nat n); mret (to_arr n l).
Definition rd_uint (n : nat) : reader Z := l ← rd_take (Z.of_nat n); mret (be_value l).
Abbreviation rd_u16 := (rd_uint 2).
Abbreviation rd_u32 := (rd_uint 4).
Abbreviation rd_u64 := (rd_uint 8).

(** [if pos != len(data) { return e }] *)
Definition rd_eof (e : error) : reader unit := fun data pos =>
  if pos =? len data then Ok (tt, pos) else Err e.

(** [if pos+n != len(data) { return e }] *)
Definition rd_exact (n : Z) (e : error) : reader unit := fun data pos =>
  if pos + n =? len data then Ok (tt, pos) else Err e.

(** [pos < len(data)] *)
Definition rd_more : reader bool := fun data pos => Ok (pos <? len data, pos).

(** [for i := 0; i < n; i++ { acc = body(acc) }] *)
Fixpoint rd_for {A} (n : nat) (body : A -> reader A) (acc : A) : reader A :=
  match n with
  | O => mret acc
  | S n => acc' ← body acc; rd_for n body acc'
  end.

Definition rd_run {A} (p : reader A) (data : bytes) : res A :=
  match p data 0 with Ok (a, _) => Ok a | Err e => Err e | Panic => Panic end.

(** [reads p enc v]: wherever [enc] stands in the data, the reader consumes
    exactly [enc] and returns [v]. *)
Definition reads {A} (p : reader A) (enc : bytes) (v : A) : Prop :=
  forall pre post, p (pre ++ enc ++ post) (len pre) = Ok (v, len pre + len enc).

Lemma reads_ret {A} (v : A) : reads (mret v) [] v.
Proof. intros pre post. unfold mret, reader_ret. do 2 f_equal. rewrite len_nil. lia. Qed.

Lemma reads_eq {A} (p : reader A) enc v v' : reads p enc v' -> v' = v -> reads p enc v.
Proof. by intros H <-. Qed.

Lemma reads_bind {A B} (p : reader A) (k : A -> reader B) e1 v1 e2 v2 :
  reads p e1 v1 -> reads (k v1) e2 v2 -> reads (p ≫= k) (e1 ++ e2) v2.
Proof.
  intros H1 H2 pre post. unfold mbind, reader_bind.
  rewrite <- app_assoc, H1.
  rewrite (app_assoc pre e1), <- len_app, H2. rewrite !len_app. do 2 f_equal. lia.
Qed.

Lemma reads_bind_nil {A B} (p : reader A) (k : A -> reader B) v1 e v :
  reads p [] v1 -> reads (k v1) e v -> reads (p ≫= k) e v.
Proof. intros H1 H2. by apply (reads_bind p k [] v1 e v). Qed.

Lemma reads_bind_end {A B} (p : reader A) (k : A -> reader B) e v1 v :
  reads p e v1 -> reads (k v1) [] v -> reads (p ≫= k) e v.
Proof. intros H1 H2. rewrite <- (app_nil_r e). by eapply reads_bind. Qed.

Lemma reads_need {A} n e (p : reader A) enc v :
  n <= len enc -> reads p enc v -> reads (_ ← rd_need n e; p) enc v.
Proof.
  intros Hn H pre post. unfold mbind, reader_bind, rd_need.
  rewrite !len_app. pose proof (len_nonneg post).
  destruct (Z.gtb_spec (len pre + n) (len pre + (len enc + len post))); [lia|]. apply H.
Qed.

Lemma reads_check {A} c e (p : reader A) enc v :
  c = false -> reads p enc v -> reads (_ ← rd_check c e; p) enc v.
Proof. intros -> H pre post. apply H. Qed.

Lemma reads_lift {A} (r : res A) v : r = Ok v -> reads (rd_lift r) [] v.
Proof. intros -> pre post. unfold rd_lift. do 2 f_equal. rewrite len_nil. lia. Qed.

Lemma reads_take n l : n = len l -> reads (rd_take n) l l.
Proof. intros -> pre post. unfold rd_take. by rewrite slice_app. Qed.

Lemma reads_byte b : reads rd_byte [b] b.
Proof.
  intros pre post. unfold rd_byte.
  change (len pre + 1) with (len pre + len [b]). by rewrite slice_app.
Qed.

Lemma reads_arr {n} (a : arr n) : reads (rd_arr n) a a.
Proof.
  eapply reads_bind_end; [apply reads_take; by rewrite vec_list_len|].
  rewrite to_arr_vec_list. apply reads_ret.
Qed.

Lemma reads_uint n z :
  0 <= z < 256 ^ Z.of_nat n -> reads (rd_uint n) (be_bytes n z) z.
Proof.
  intros Hz. eapply reads_bind_end; [apply reads_take; by rewrite be_bytes_len|].
  rewrite be_value_bytes, Z.mod_small by done. apply reads_ret.
Qed.

(** A loop that reads back a list of encodings. *)
Lemma reads_for {A B} (body : A -> reader A) (enc : B -> bytes) (step : A -> B -> A) l acc :
  (forall acc x, x ∈ l -> reads (body acc) (enc x) (step acc x)) ->
  reads (rd_for (length l) body acc) (mjoin (enc <$> l)) (foldl step acc l).
Proof.
  revert acc. induction l as [|x l IH]; intros acc H.
  - apply reads_ret.
  - cbn [length rd_for fmap list_fmap mjoin list_join foldl].
    eapply reads_bind; [apply H; by left|]. apply IH. intros; apply H. by right.
Qed.

(** [reads_end p enc v]: the reader run on data that ends with [enc] returns
    [v]; for the decoders that reject trailing bytes. *)
Definition reads_end {A} (p : reader A) (enc : bytes) (v : A) : Prop :=
  forall pre, p (pre ++ enc) (len pre) = Ok (v, len pre + len enc).

Lemma reads_end_of {A} (p : reader A) enc v : reads p enc v -> reads_end p enc v.
Proof. intros H pre. specialize (H pre []). by rewrite app_nil_r in H. Qed.

Lemma reads_end_bind {A B} (p : reader A) (k : A -> reader B) e1 v1 e2 v2 :
  reads p e1 v1 -> reads_end (k v1) e2 v2 -> reads_end (p ≫= k) (e1 ++ e2) v2.
Proof.
  intros H1 H2 pre. unfold mbind, reader_bind. rewrite H1, (app_assoc pre e1), <- len_app, H2.
  rewrite !len_app. do 2 f_equal. lia.
Qed.

Lemma reads_end_nil {A B} (p : reader A) (k : A -> reader B) v1 e v :
  reads p [] v1 -> reads_end (k v1) e v -> reads_end (p ≫= k) e v.
Proof. intros H1 H2. by apply (reads_end_bind p k [] v1 e v). Qed.

Lemma reads_end_last {A B} (p : reader A) (k : A -> reader B) e v1 v :
  reads p e v1 -> reads_end (k v1) [] v -> reads_end (p ≫= k) e v.
Proof. intros H1 H2. rewrite <- (app_nil_r e). by eapply reads_end_bind. Qed.

Lemma reads_end_need {A} n e (p : reader A) enc v :
  n <= len enc -> reads_end p enc v -> reads_end (_ ← rd_need n e; p) enc v.
Proof.
  intros Hn H pre. unfold mbind, reader_bind, rd_need. rewrite !len_app.
  destruct (Z.gtb_spec (len pre + n) (len pre + len enc)); [lia|]. apply H.
Qed.

Lemma reads_end_check {A} c e (p : reader A) enc v :
  c = false -> reads_end p enc v -> reads_end (_ ← rd_check c e; p) enc v.
Proof. intros -> H pre. apply H. Qed.

Lemma reads_end_eof {A} e (p : reader A) v :
  reads_end p [] v -> reads_end (_ ← rd_eof e; p) [] v.
Proof.
  intros H pre. unfold mbind, reader_bind, rd_eof. rewrite len_app, len_nil, Z.add_0_r, Z.eqb_refl.
  rewrite H, len_nil. do 2 f_equal. lia.
Qed.

Lemma reads_end_exact {A} n e (p : reader A) enc v :
  n = len enc -> reads_end p enc v -> reads_end (_ ← rd_exact n e; p) enc v.
Proof.
  intros -> H pre. unfold mbind, reader_bind, rd_exact. by rewrite len_app, Z.eqb_refl, H.
Qed.

Lemma reads_end_more {A} (k : bool -> reader A) enc v :
  reads_end (k (negb (len enc =? 0))) enc v -> reads_end (rd_more ≫= k) enc v.
Proof.
  intros H pre. specialize (H pre). unfold mbind, reader_bind, rd_more. rewrite len_app.
  pose proof (len_nonneg enc).
  destruct (Z.ltb_spec (len pre) (len pre + len enc)), (Z.eqb_spec (len enc) 0); try lia; exact H.
Qed.

Lemma reads_end_run {A} (p : reader A) enc v : reads_end p enc v -> rd_run p enc = Ok v.
Proof.
  intros H. specialize (H []). cbn [app] in H. change (len []) with 0 in H.
  unfold rd_run. by rewrite H.
Qed.

(** [reads_panic p enc]: on data that ends with [enc] the reader panics. *)
Definition reads_panic {A} (p : reader A) (enc : bytes) : Prop :=
  forall pre, p (pre ++ enc) (len pre) = Panic.

Lemma reads_panic_bind {A B} (p : reader A) (k : A -> reader B) e1 v1 e2 :
  reads p e1 v1 -> reads_panic (k v1) e2 -> reads_panic (p ≫= k) (e1 ++ e2).
Proof. intros H1 H2 pre. unfold mbind, reader_bind. by rewrite H1, (app_assoc pre e1), <- len_app, H2. Qed.

Lemma reads_panic_here {A B} (p : reader A) (k : A -> reader B) enc :
  reads_panic p enc -> reads_panic (p ≫= k) enc.
Proof. intros H1 pre. unfold mbind, reader_bind. by rewrite H1. Qed.

Lemma reads_panic_need {A} n e (p : reader A) enc :
  n <= len enc -> reads_panic p enc -> reads_panic (_ ← rd_need n e; p) enc.
Proof.
  intros Hn H pre. unfold mbind, reader_bind, rd_need. rewrite len_app.
  destruct (Z.gtb_spec (len pre + n) (len pre + len enc)); [lia|]. apply H.
Qed.

Lemma reads_panic_check {A} c e (p : reader A) enc :
  c = false -> reads_panic p enc -> reads_panic (_ ← rd_check c e; p) enc.
Proof. intros -> H pre. apply H. Qed.

Lemma reads_panic_take n enc : len enc < n -> reads_panic (rd_take n) enc.
Proof.
  intros Hn pre. unfold rd_take, slice. rewrite len_app.
  destruct (Z.leb_spec (len pre + n) (len pre + len enc)); [lia|]. by rewrite andb_false_r.
Qed.

Lemma reads_panic_uint n enc : len enc < Z.of_nat n -> reads_panic (rd_uint n) enc.
Proof. intros Hn. by apply reads_panic_here, reads_panic_take. Qed.

Lemma reads_panic_run {A} (p : reader A) enc : reads_panic p enc -> rd_run p enc = Panic.
Proof. intros H. specialize (H []). unfold rd_run. cbn [app] in H. change (len []) with 0 in H. by rewrite H. Qed.

Create HintDb reads.
#[export] Hint Resolve reads_ret reads_byte reads_arr : reads.

(** *** Absence of panics

    [rd_wp p data pos Q]: run at [pos], the reader does not panic, and when it
    succeeds its value and position satisfy [Q]. *)
Definition rd_wp {A} (p : reader A) (data : bytes) (pos : Z) (Q : A -> Z -> Prop) : Prop :=
  match p data pos with
  | Ok (a, pos') => Q a pos'
  | Err _ => True
  | Panic => False
  end.

Lemma wp_ret {A} (a : A) data pos (Q : A -> Z -> Prop) :
  Q a pos -> rd_wp (mret a) data pos Q.
Proof. done. Qed.

Lemma wp_bind {A B} (p : reader A) (k : A -> reader B) data pos Q :
  rd_wp p data pos (fun a pos' => rd_wp (k a) data pos' Q) -> rd_wp (p ≫= k) data pos Q.
Proof.
  unfold rd_wp, mbind, reader_bind. by destruct (p data pos) as [[a pos']|e|].
Qed.

Lemma wp_mono {A} (p : reader A) data pos (Q Q' : A -> Z -> Prop) :
  rd_wp p data pos Q -> (forall a pos', Q a pos' -> Q' a pos') -> rd_wp p data pos Q'.
Proof. unfold rd_wp. destruct (p data pos) as [[a pos']|e|]; eauto. Qed.

Lemma wp_err {A} e data pos (Q : A -> Z -> Prop) : rd_wp (rd_err e) data pos Q.
Proof. done. Qed.

Lemma wp_lift {A} (r : res A) data pos (Q : A -> Z -> Prop) :
  r <> Panic -> (forall a, r = Ok a -> Q a pos) -> rd_wp (rd_lift r) data pos Q.
Proof. unfold rd_wp, rd_lift. destruct r; eauto. Qed.

Lemma wp_check c e data pos (Q : unit -> Z -> Prop) :
  (c = false -> Q tt pos) -> rd_wp (rd_check c e) data pos Q.
Proof. unfold rd_wp, rd_check, rd_lift, check. destruct c; auto. Qed.

Lemma wp_need n e data pos (Q : unit -> Z -> Prop) :
  (pos + n <= len data -> Q tt pos) -> rd_wp (rd_need n e) data pos Q.
Proof. unfold rd_wp, rd_need. destruct (Z.gtb_spec (pos + n) (len data)); auto. Qed.

Lemma wp_take n data pos (Q : bytes -> Z -> Prop) :
  0 <= pos -> 0 <= n -> pos + n <= len data ->
  (forall l, len l = n -> Q l (pos + n)) -> rd_wp (rd_take n) data pos Q.
Proof.
  intros H0 H1 H2 H. unfold rd_wp, rd_take.
  destruct (slice_no_panic data pos (pos + n)) as [l Hl]; [lia..|].
  rewrite Hl. apply H. apply slice_length in Hl. lia.
Qed.

Lemma wp_byte data pos (Q : byte -> Z -> Prop) :
  0 <= pos -> pos + 1 <= len data -> (forall b, Q b (pos + 1)) -> rd_wp rd_byte data pos Q.
Proof.
  intros H0 H1 H. unfold rd_wp, rd_byte.
  destruct (slice_no_panic data pos (pos + 1)) as [l Hl]; [lia..|].
  pose proof (slice_length _ _ _ _ Hl) as [Hlen _]. rewrite Hl.
  destruct l as [|b [|]]; [unfold len in Hlen; cbn in Hlen; lia|apply H|].
  rewrite !len_cons in Hlen. pose proof (len_nonneg l). lia.
Qed.

Lemma wp_arr n data pos (Q : arr n -> Z -> Prop) :
  0 <= pos -> pos + Z.of_nat n <= len data ->
  (forall a, Q a (pos + Z.of_nat n)) -> rd_wp (rd_arr n) data pos Q.
Proof. intros. apply wp_bind, wp_take; [lia..|]. intros l _. apply wp_ret. auto. Qed.

Lemma wp_uint n data pos (Q : Z -> Z -> Prop) :
  0 <= pos -> pos + Z.of_nat n <= len data ->
  (forall z, 0 <= z < 256 ^ Z.of_nat n -> Q z (pos + Z.of_nat n)) ->
  rd_wp (rd_uint n) data pos Q.
Proof.
  intros ? ? H. apply wp_bind, wp_take; [lia..|]. intros l Hl. apply wp_ret, H.
  rewrite <- Hl. apply be_value_range.
Qed.

Lemma wp_eof e data pos (Q : unit -> Z -> Prop) :
  (pos = len data -> Q tt pos) -> rd_wp (rd_eof e) data pos Q.
Proof. unfold rd_wp, rd_eof. destruct (Z.eqb_spec pos (len data)); auto. Qed.

Lemma wp_exact n e data pos (Q : unit -> Z -> Prop) :
  (pos + n = len data -> Q tt pos) -> rd_wp (rd_exact n e) data pos Q.
Proof. unfold rd_wp, rd_exact. destruct (Z.eqb_spec (pos + n) (len data)); auto. Qed.

Lemma wp_more data pos (Q : bool -> Z -> Prop) :
  (pos < len data -> Q true pos) -> (len data <= pos -> Q false pos) -> rd_wp rd_more data pos Q.
Proof. intros. unfold rd_wp, rd_more. destruct (Z.ltb_spec pos (len data)); auto. Qed.

(** A loop whose body keeps the position inside the data. *)
Lemma wp_for {A} n (body : A -> reader A) data (I : A -> Prop) acc pos (Q : A -> Z -> Prop) :
  (forall acc pos, I acc -> 0 <= pos <= len data ->
     rd_wp (body acc) data pos (fun acc' pos' => I acc' /\ 0 <= pos' <= len data)) ->
  I acc -> 0 <= pos <= len data ->
  (forall acc' pos', I acc' -> 0 <= pos' <= len data -> Q acc' pos') ->
  rd_wp (rd_for n body acc) data pos Q.
Proof.
  intros Hb. revert acc pos. induction n as [|n IH]; intros acc pos HI Hpos HQ.
  - apply wp_ret. auto.
  - cbn [rd_for]. apply wp_bind. eapply wp_mono; [by apply Hb|].
    intros acc' pos' [? ?]. by apply IH.
Qed.

Lemma wp_run {A} (p : reader A) data :
  rd_wp p data 0 (fun _ _ => True) -> rd_run p data <> Panic.
Proof. unfold rd_wp, rd_run. destruct (p data 0) as [[a pos]|e|]; done. Qed.

(** One step of the panic-freedom argument of a reader; the arithmetic side
    conditions are the bounds that the code's own checks established. *)
Ltac wp_step :=
  lazymatch goal with
  | |- rd_wp (mbind _ _) _ _ _ => apply wp_bind
  | |- rd_wp (mret _) _ _ _ => apply wp_ret
  | |- rd_wp (rd_err _) _ _ _ => apply wp_err
  | |- rd_wp (rd_check _ _) _ _ _ => apply wp_check; intros ?
  | |- rd_wp (rd_need _ _) _ _ _ => apply wp_need; intros ?
  | |- rd_wp (rd_take _) _ _ _ => apply wp_take; [lia|lia|lia|intros ? ?]
  | |- rd_wp rd_byte _ _ _ => apply wp_byte; [lia|lia|intros ?]
  | |- rd_wp (rd_arr _) _ _ _ => apply wp_arr; [lia|lia|intros ?]
  | |- rd_wp (rd_uint _) _ _ _ => apply wp_uint; [lia|lia|intros ? ?]
  | |- rd_wp (rd_eof _) _ _ _ => apply wp_eof; intros ?
  | |- rd_wp (rd_exact _ _) _ _ _ => apply wp_exact; intros ?
  | |- rd_wp rd_more _ _ _ => apply wp_more; intros ?
  end; cbn beta.
Ltac wp_steps := repeat wp_step.

(** ** The randomness source

    [randReader] of crypto/random.go is an [io.Reader]; [io.ReadFull] of [n]
    bytes fails when it holds fewer. A run of the program reads finitely many
    bytes of it, so the reader is the list of the bytes it will deliver. *)

Definition tape : Type := bytes.

Definition io_ReadFull (n : nat) : ST tape bytes := fun t =>
  if decide (length t < n)%nat then ([], Err (ErrText "unexpected EOF"))
  else (drop n t, Ok (take n t)).

Lemma io_ReadFull_ok n t t' l :
  io_ReadFull n t = (t', Ok l) -> length l = n /\ t = l ++ t'.
Proof.
  unfold io_ReadFull. case_decide; intros; simplify_eq.
  rewrite length_take, take_drop. split; [lia|done].
Qed.
