(* ===== verification/GF16.v ===== *)
(** * GF(2^16): spqr/encoding_gf.go

    The arithmetic of the erasure code of the post-quantum ratchet. [Module
    GF] holds the code (loops over the bits of [uint16]/[uint32] values); the
    rest of the file proves that these operations are the field GF(2^16):
    multiplication is linear over xor in both arguments, so each identity is
    decided on the sixteen basis elements, and the inverse [b^65534] is
    justified by the Frobenius map, whose sixteenth power is the identity and
    whose fixed points are 0 and 1. *)

From Stdlib Require Import ZArith Lia Field StrictProp.
From stdpp Require Import base list list_numbers.
From S2P Require Import Prelude.

Module GF.

Definition gf16Poly : Z := 0x1100b.

(** [type gf16 uint16]: a value that fits 16 bits. *)
Record gf16 : Type := mkGF16 {
  gf_val : Z;
  gf_wf : if (0 <=? gf_val) && (gf_val <? 2 ^ 16) then sUnit else sEmpty
}.

(** [(v>>i)&1 == 1] *)
Definition bit_set (v i : Z) : bool := Z.land (Z.shiftr v i) 1 =? 1.

Definition gf16Mul (a b : Z) : Z :=
  let aa := u32 a in
  let bb := u32 b in
  foldl (fun acc i => if bit_set bb i then Z.lxor acc (u32 (Z.shiftl aa i)) else acc)
    0 (seqZ 0 16).

Definition gf16Reduce (v : Z) : Z :=
  u16 (foldl (fun v i =>
         if bit_set v i then Z.lxor v (u32 (Z.shiftl gf16Poly (i - 16))) else v)
       v (reverse (seqZ 16 16))).

Lemma gf_wf_u16 v : if (0 <=? u16 v) && (u16 v <? 2 ^ 16) then sUnit else sEmpty.
Proof.
  destruct (u16_range v) as [H1 H2].
  rewrite (proj2 (Z.leb_le _ _) H1), (proj2 (Z.ltb_lt _ _) H2). exact stt.
Qed.

Definition newGF16 (v : Z) : gf16 := mkGF16 (u16 v) (gf_wf_u16 v).

Definition gf16Zero : gf16 := newGF16 0.
Definition gf16One : gf16 := newGF16 1.

Definition add (a b : gf16) : gf16 := newGF16 (Z.lxor (gf_val a) (gf_val b)).
Definition sub (a b : gf16) : gf16 := newGF16 (Z.lxor (gf_val a) (gf_val b)).
Definition mul (a b : gf16) : gf16 := newGF16 (gf16Reduce (gf16Mul (gf_val a) (gf_val b))).

(** The loop [for exp > 0] halves a [uint32], so it runs at most 32 times. *)
Fixpoint gf16Pow_loop (fuel : nat) (result base : gf16) (exp : Z) : gf16 :=
  match fuel with
  | O => result
  | S fuel =>
      if exp >? 0 then
        let result := if Z.land exp 1 =? 1 then mul result base else result in
        gf16Pow_loop fuel result (mul base base) (Z.shiftr exp 1)
      else result
  end.

Definition gf16Pow (a : gf16) (exp : Z) : gf16 := gf16Pow_loop 32 gf16One a exp.

Definition div (a b : gf16) : gf16 :=
  if gf_val b =? 0 then newGF16 0 else mul a (gf16Pow b 65534).

End GF.

Import GF.

(** ** Equality of field elements *)

Lemma gf_range (a : gf16) : is_u16 (gf_val a).
Proof.
  destruct a as [v w]; cbn [gf_val]. unfold is_u16.
  destruct (Z.leb_spec 0 v), (Z.ltb_spec v (2 ^ 16)); cbn in w; try destruct w; lia.
Qed.

Lemma gf_eq (a b : gf16) : gf_val a = gf_val b -> a = b.
Proof. destruct a as [v w], b as [v' w']; cbn. intros ->. reflexivity. Qed.

Lemma gf_val_new v : gf_val (newGF16 v) = u16 v.
Proof. reflexivity. Qed.

Lemma newGF16_val a : newGF16 (gf_val a) = a.
Proof. apply gf_eq. rewrite gf_val_new. apply u16_id, gf_range. Qed.

#[export] Instance gf16_eq_decision : EqDecision gf16.
Proof.
  refine (fun a b => cast_if (decide (gf_val a = gf_val b))).
  - by apply gf_eq.
  - congruence.
Defined.

(** ** Linear maps on bit vectors *)

Lemma bit_set_testbit v i : 0 <= i -> bit_set v i = Z.testbit v i.
Proof.
  intros Hi. unfold bit_set. rewrite Z.testbit_odd.
  change 1 with (Z.ones 1) at 1. rewrite Z.land_ones, Z.pow_1_r, Zmod_odd by lia.
  by destruct (Z.odd _).
Qed.

Lemma lxor_u n a b : 0 <= n -> 0 <= a < 2 ^ n -> 0 <= b < 2 ^ n -> 0 <= Z.lxor a b < 2 ^ n.
Proof.
  intros Hn Ha Hb.
  assert (Hnn : 0 <= Z.lxor a b) by (apply Z.lxor_nonneg; lia).
  split; [done|]. destruct (decide (Z.lxor a b = 0)) as [->|Hne]; [lia|].
  apply Z.log2_lt_pow2; [lia|].
  pose proof (Z.log2_lxor a b ltac:(lia) ltac:(lia)) as Hl.
  destruct (decide (n = 0)) as [->|]; [cbn in Ha, Hb; assert (a = 0) by lia;
    assert (b = 0) by lia; subst; done|].
  assert (forall x, 0 <= x < 2 ^ n -> Z.log2 x < n) as Hx.
  { intros x Hx. destruct (decide (x = 0)) as [->|]; [cbn; lia|]. apply Z.log2_lt_pow2; lia. }
  pose proof (Hx a Ha). pose proof (Hx b Hb). lia.
Qed.

(** A map on [Z] that commutes with xor. *)
Definition linear (f : Z -> Z) : Prop := forall a b, f (Z.lxor a b) = Z.lxor (f a) (f b).

Lemma linear_0 f : linear f -> f 0 = 0.
Proof. intros Hf. specialize (Hf 0 0). by rewrite !Z.lxor_nilpotent in Hf. Qed.

Lemma linear_id : linear (fun a => a).
Proof. done. Qed.
Lemma linear_comp f g : linear f -> linear g -> linear (fun a => f (g a)).
Proof. intros Hf Hg a b. by rewrite Hg, Hf. Qed.

Lemma lxor_swap a b c d : Z.lxor (Z.lxor a b) (Z.lxor c d) = Z.lxor (Z.lxor a c) (Z.lxor b d).
Proof.
  rewrite !Z.lxor_assoc. f_equal. rewrite <- !Z.lxor_assoc. f_equal. apply Z.lxor_comm.
Qed.

Lemma linear_xor f g : linear f -> linear g -> linear (fun a => Z.lxor (f a) (g a)).
Proof. intros Hf Hg a b. rewrite Hf, Hg. apply lxor_swap. Qed.

Lemma linear_shiftl i : linear (fun a => Z.shiftl a i).
Proof. intros a b. apply Z.shiftl_lxor. Qed.

Lemma linear_mod n : 0 <= n -> linear (fun a => a mod 2 ^ n).
Proof.
  intros Hn a b. rewrite <- !Z.land_ones by lia. apply Z.bits_inj'. intros i Hi.
  rewrite !Z.lxor_spec, !Z.land_spec, Z.lxor_spec. by destruct (Z.testbit _ i), (Z.testbit _ i), (Z.testbit _ i).
Qed.

(** [if bit i of a is set then c else 0] *)
Lemma linear_bit i c : linear (fun a => if Z.testbit a i then c else 0).
Proof.
  intros a b. rewrite Z.lxor_spec.
  destruct (Z.testbit a i), (Z.testbit b i); cbn [xorb]; by rewrite ?Z.lxor_nilpotent, ?Z.lxor_0_r, ?Z.lxor_0_l.
Qed.

Lemma linear_ext_n f g n z :
  linear f -> linear g -> (forall i, (i < n)%nat -> f (2 ^ Z.of_nat i) = g (2 ^ Z.of_nat i)) ->
  0 <= z < 2 ^ Z.of_nat n -> f z = g z.
Proof.
  intros Hf Hg. revert z. induction n as [|n IH]; intros z Hbase Hz.
  - change (2 ^ Z.of_nat 0) with 1 in Hz. assert (z = 0) as -> by lia. by rewrite !linear_0.
  - replace (Z.of_nat (S n)) with (Z.of_nat n + 1) in Hz by lia.
    rewrite Z.pow_add_r, Z.pow_1_r in Hz by lia.
    assert (0 < 2 ^ Z.of_nat n) by (apply Z.pow_pos_nonneg; lia).
    destruct (decide (z < 2 ^ Z.of_nat n)) as [Hlt|Hge].
    { apply IH; [|lia]. intros i Hi. apply Hbase. lia. }
    assert (z = Z.lxor (2 ^ Z.of_nat n) (z - 2 ^ Z.of_nat n)) as ->.
    { rewrite <- Z.add_nocarry_lxor; [lia|]. apply Z.bits_inj'. intros i Hi.
      rewrite Z.land_spec, Z.bits_0, Z.pow2_bits_eqb by lia.
      destruct (Z.eqb_spec (Z.of_nat n) i) as [<-|]; [|done]. cbn [andb].
      rewrite <- (Z.mod_small (z - 2 ^ Z.of_nat n) (2 ^ Z.of_nat n)) by lia.
      apply Z.mod_pow2_bits_high. lia. }
    rewrite Hf, Hg. f_equal; [apply Hbase; lia|]. apply IH; [|lia]. intros i Hi. apply Hbase. lia.
Qed.

(** The sixteen basis elements, and the extension of an identity from them. *)
Definition basis : list Z := (fun i => 2 ^ Z.of_nat i) <$> seq 0 16.

Lemma linear_ext f g z :
  linear f -> linear g -> forallb (fun e => f e =? g e) basis = true -> is_u16 z -> f z = g z.
Proof.
  intros Hf Hg Hb Hz. apply (linear_ext_n f g 16); [done..| |exact Hz].
  intros i Hi. rewrite forallb_forall in Hb. apply Z.eqb_eq, Hb.
  apply list_elem_of_In, list_elem_of_fmap. exists i. split; [done|]. apply elem_of_seq. lia.
Qed.

(** ** Multiplication is bilinear *)

(** A conditional xor, as a total expression. *)
Lemma if_lxor (b : bool) acc c : (if b then Z.lxor acc c else acc) = Z.lxor acc (if b then c else 0).
Proof. destruct b; by rewrite ?Z.lxor_0_r. Qed.

(** A loop whose body is linear in the accumulator and a parameter. *)
Lemma foldl_linear {I} (P : I -> Prop) (body : Z -> Z -> I -> Z) l :
  Forall P l ->
  (forall p p' acc acc' i, P i ->
     body (Z.lxor p p') (Z.lxor acc acc') i = Z.lxor (body p acc i) (body p' acc' i)) ->
  forall p p' acc acc',
    foldl (body (Z.lxor p p')) (Z.lxor acc acc') l
    = Z.lxor (foldl (body p) acc l) (foldl (body p') acc' l).
Proof.
  intros HP Hbody p p'. induction HP as [|i l Hi HP IH]; intros acc acc'; [done|].
  cbn [foldl]. by rewrite Hbody, IH.
Qed.

Lemma seqZ_nonneg m n : 0 <= m -> Forall (fun i => 0 <= i) (seqZ m n).
Proof. intros Hm. apply Forall_forall. intros i Hi. apply elem_of_seqZ in Hi. lia. Qed.

Lemma linear_u32 : linear u32.
Proof. apply linear_mod. lia. Qed.
Lemma linear_u16 : linear u16.
Proof. apply linear_mod. lia. Qed.

Lemma gf16Mul_linear_l b : linear (fun a => gf16Mul a b).
Proof.
  intros a a'. unfold gf16Mul. rewrite <- (Z.lxor_nilpotent 0) at 1.
  apply (foldl_linear (fun i => 0 <= i)
    (fun a acc i => if bit_set (u32 b) i then Z.lxor acc (u32 (Z.shiftl (u32 a) i)) else acc)).
  { apply seqZ_nonneg. lia. }
  intros p p' acc acc' i Hi. rewrite !if_lxor. destruct (bit_set (u32 b) i).
  - rewrite linear_u32, Z.shiftl_lxor, linear_u32. apply lxor_swap.
  - by rewrite !Z.lxor_0_r.
Qed.

Lemma gf16Mul_linear_r a : linear (gf16Mul a).
Proof.
  intros b b'. unfold gf16Mul. rewrite <- (Z.lxor_nilpotent 0) at 1.
  apply (foldl_linear (fun i => 0 <= i)
    (fun b acc i => if bit_set (u32 b) i then Z.lxor acc (u32 (Z.shiftl (u32 a) i)) else acc)).
  { apply seqZ_nonneg. lia. }
  intros p p' acc acc' i Hi. rewrite !if_lxor, linear_u32, !bit_set_testbit by done.
  rewrite (linear_bit i (u32 (Z.shiftl (u32 a) i)) (u32 p) (u32 p')). apply lxor_swap.
Qed.

Lemma gf16Reduce_linear : linear gf16Reduce.
Proof.
  intros v v'. unfold gf16Reduce. rewrite <- linear_u16. f_equal.
  assert (Forall (fun i => 0 <= i) (reverse (seqZ 16 16))) as HP
    by (apply Forall_reverse, seqZ_nonneg; lia).
  refine (foldl_linear (fun i => 0 <= i)
    (fun _ v i => if bit_set v i then Z.lxor v (u32 (Z.shiftl gf16Poly (i - 16))) else v)
    _ HP _ 0 0 v v').
  intros _ _ acc acc' i Hi. rewrite !if_lxor, !bit_set_testbit by done.
  rewrite (linear_bit i _ acc acc'). apply lxor_swap.
Qed.

(** The product on the underlying integers. *)
Definition zmul (a b : Z) : Z := gf16Reduce (gf16Mul a b).

Lemma zmul_linear_l b : linear (fun a => zmul a b).
Proof. apply (linear_comp gf16Reduce (fun a => gf16Mul a b)); [apply gf16Reduce_linear|apply gf16Mul_linear_l]. Qed.
Lemma zmul_linear_r a : linear (zmul a).
Proof. apply (linear_comp gf16Reduce (gf16Mul a)); [apply gf16Reduce_linear|apply gf16Mul_linear_r]. Qed.
Lemma gf16Reduce_u16 v : is_u16 (gf16Reduce v).
Proof. unfold gf16Reduce. apply u16_range. Qed.
Lemma zmul_u16 a b : is_u16 (zmul a b).
Proof. unfold zmul. apply gf16Reduce_u16. Qed.
Create HintDb linear.
#[export] Hint Resolve zmul_linear_l zmul_linear_r linear_id linear_comp linear_xor : linear.

(** Identities between maps that are linear in two arguments. *)
Lemma bilinear_ext f g a b :
  (forall b, linear (fun a => f a b)) -> (forall a, linear (f a)) ->
  (forall b, linear (fun a => g a b)) -> (forall a, linear (g a)) ->
  forallb (fun e => forallb (fun e' => f e e' =? g e e') basis) basis = true ->
  is_u16 a -> is_u16 b -> f a b = g a b.
Proof.
  intros Hf1 Hf2 Hg1 Hg2 Hb Ha Hb'. rewrite forallb_forall in Hb.
  apply (linear_ext (fun a => f a b) (fun a => g a b)); [apply Hf1|apply Hg1| |done].
  apply forallb_forall. intros e He. apply Z.eqb_eq.
  apply (linear_ext (f e) (g e)); [apply Hf2|apply Hg2|by apply Hb|done].
Qed.

Lemma zmul_comm a b : is_u16 a -> is_u16 b -> zmul a b = zmul b a.
Proof.
  apply (bilinear_ext zmul (fun a b => zmul b a)); [auto with linear..|vm_compute; reflexivity].
Qed.

Lemma zmul_1_r a : is_u16 a -> zmul a 1 = a.
Proof. apply (linear_ext (fun a => zmul a 1) (fun a => a)); [auto with linear..|vm_compute; reflexivity]. Qed.

(** Multiplying by the generator [2], and its compatibility with products. *)
Lemma zmul_2_r a b : is_u16 a -> is_u16 b -> zmul a (zmul b 2) = zmul (zmul a b) 2.
Proof.
  apply (bilinear_ext (fun a b => zmul a (zmul b 2)) (fun a b => zmul (zmul a b) 2)).
  - intros b'. apply zmul_linear_l.
  - intros a'. apply (linear_comp (zmul a') (fun b => zmul b 2)); auto with linear.
  - intros b'. apply (linear_comp (fun x => zmul x 2) (fun a => zmul a b')); auto with linear.
  - intros a'. apply (linear_comp (fun x => zmul x 2) (zmul a')); auto with linear.
  - vm_compute. reflexivity.
Qed.

Lemma basis_step e : e ∈ basis -> e = 1 \/ exists e', e' ∈ basis /\ e' < e /\ e = zmul e' 2.
Proof.
  intros He. unfold basis in *. apply list_elem_of_fmap in He as (i & -> & Hi).
  apply elem_of_seq in Hi. destruct i as [|i]; [by left|right]. exists (2 ^ Z.of_nat i). split_and!.
  - apply list_elem_of_fmap. exists i. split; [done|]. apply elem_of_seq. lia.
  - apply Z.pow_lt_mono_r; lia.
  - do 15 (destruct i as [|i]; [reflexivity|]). lia.
Qed.

Lemma basis_u16 e : e ∈ basis -> is_u16 e.
Proof.
  unfold basis. intros He. apply list_elem_of_fmap in He as (i & -> & Hi). apply elem_of_seq in Hi.
  split; [apply Z.pow_nonneg; lia|]. apply Z.pow_lt_mono_r; lia.
Qed.

Lemma zmul_assoc a b c :
  is_u16 a -> is_u16 b -> is_u16 c -> zmul a (zmul b c) = zmul (zmul a b) c.
Proof.
  intros Ha Hb Hc.
  assert (forall e, e ∈ basis -> zmul a (zmul b e) = zmul (zmul a b) e) as Hbase.
  { intros e. induction (Z.lt_wf 0 e) as [e _ IH]. intros He.
    destruct (basis_step e He) as [->|(e' & He' & Hlt & ->)].
    - by rewrite !zmul_1_r by auto using zmul_u16.
    - pose proof (basis_u16 _ He'). rewrite !zmul_2_r by auto using zmul_u16.
      rewrite IH; [done| |done]. unfold is_u16 in *. lia. }
  apply (linear_ext_n (fun c => zmul a (zmul b c)) (zmul (zmul a b)) 16);
    [apply (linear_comp (zmul a) (zmul b)); auto with linear|auto with linear| |exact Hc].
  intros i Hi. apply Hbase, list_elem_of_fmap. exists i. split; [done|]. apply elem_of_seq. lia.
Qed.

(** ** The ring structure *)

Lemma gf_val_add a b : gf_val (add a b) = Z.lxor (gf_val a) (gf_val b).
Proof.
  unfold add. rewrite gf_val_new, u16_id; [done|]. apply lxor_u; [lia|apply gf_range..].
Qed.
Lemma gf_val_mul a b : gf_val (mul a b) = zmul (gf_val a) (gf_val b).
Proof.
  unfold mul, zmul. rewrite gf_val_new, u16_id; [reflexivity|apply gf16Reduce_u16].
Qed.

Local Ltac gf := intros; apply gf_eq; rewrite ?gf_val_mul, ?gf_val_add, ?gf_val_mul, ?gf_val_add.

#[local] Opaque zmul.

Lemma gf_ring_theory : ring_theory gf16Zero gf16One add mul sub (fun a => a) eq.
Proof.
  split.
  - gf. apply Z.lxor_0_l.
  - gf. apply Z.lxor_comm.
  - gf. symmetry. apply Z.lxor_assoc.
  - gf. rewrite zmul_comm by apply gf_range. apply zmul_1_r, gf_range.
  - gf. apply zmul_comm; apply gf_range.
  - gf. apply zmul_assoc; apply gf_range.
  - gf. apply (zmul_linear_l (gf_val z)).
  - done.
  - gf. apply Z.lxor_nilpotent.
Qed.

Add Ring gf_ring : gf_ring_theory.

Lemma add_self a : add a a = gf16Zero.
Proof. gf. apply Z.lxor_nilpotent. Qed.

(** ** Powers *)

(** The specification of [gf16Pow]: the product of [n] copies. *)
Fixpoint pow_nat (a : gf16) (n : nat) : gf16 :=
  match n with O => gf16One | S n => mul a (pow_nat a n) end.

Lemma pow_nat_add a m n : pow_nat a (m + n) = mul (pow_nat a m) (pow_nat a n).
Proof. induction m as [|m IH]; cbn [pow_nat Nat.add]; [|rewrite IH]; ring. Qed.

Lemma pow_nat_mul a b n : pow_nat (mul a b) n = mul (pow_nat a n) (pow_nat b n).
Proof. induction n as [|n IH]; cbn [pow_nat]; [|rewrite IH]; ring. Qed.

Lemma pow_nat_double a n : pow_nat (mul a a) n = pow_nat a (2 * n).
Proof. rewrite pow_nat_mul, <- pow_nat_add. f_equal. lia. Qed.

Lemma gf16Pow_loop_spec fuel r base exp :
  0 <= exp < 2 ^ Z.of_nat fuel ->
  gf16Pow_loop fuel r base exp = mul r (pow_nat base (Z.to_nat exp)).
Proof.
  revert r base exp. induction fuel as [|fuel IH]; intros r base exp Hexp.
  - change (2 ^ Z.of_nat 0) with 1 in Hexp. assert (exp = 0) as -> by lia. cbn [gf16Pow_loop].
    change (pow_nat base (Z.to_nat 0)) with gf16One. ring.
  - cbn [gf16Pow_loop]. destruct (Z.gtb_spec exp 0) as [Hpos|].
    2:{ assert (exp = 0) as -> by lia.
        change (pow_nat base (Z.to_nat 0)) with gf16One. ring. }
    replace (Z.of_nat (S fuel)) with (Z.of_nat fuel + 1) in Hexp by lia.
    rewrite Z.pow_add_r, Z.pow_1_r in Hexp by lia.
    change 1 with (Z.ones 1) at 1. rewrite Z.land_ones, Z.pow_1_r, Zmod_odd by lia.
    rewrite Z.shiftr_div_pow2, Z.pow_1_r by lia.
    pose proof (Z.div2_odd exp) as Hd. rewrite Z.div2_div in Hd.
    assert (0 <= exp / 2 < 2 ^ Z.of_nat fuel) by (destruct (Z.odd exp); cbn [Z.b2z] in Hd; lia).
    rewrite IH, pow_nat_double by done.
    replace (2 * Z.to_nat (exp / 2))%nat with (Z.to_nat (2 * (exp / 2))) by lia.
    destruct (Z.odd exp); cbn [Z.b2z] in Hd; cbn [Z.eqb Z.ones].
    + rewrite Hd at 2. rewrite Z2Nat.inj_add, pow_nat_add by lia.
      change (pow_nat base (Z.to_nat 1)) with (mul base gf16One).
      change ((1 =? 1)%positive) with true. cbv iota. ring.
    + rewrite Hd at 2. rewrite Z.add_0_r. done.
Qed.

(** Square-and-multiply computes powers, for every exponent of the code's type. *)
Lemma gf16Pow_spec a exp : is_u32 exp -> gf16Pow a exp = pow_nat a (Z.to_nat exp).
Proof. intros H. unfold gf16Pow. rewrite gf16Pow_loop_spec by exact H. ring. Qed.

(** ** Inverses

    Squaring is additive in characteristic two. *)

Definition zsq (a : Z) : Z := zmul (u16 a) (u16 a).

Lemma add_sq a b : mul (add a b) (add a b) = add (mul a a) (mul b b).
Proof.
  transitivity (add (add (mul a a) (mul b b)) (add (mul a b) (mul a b))); [ring|].
  rewrite add_self. ring.
Qed.

Lemma gf_val_sq a : gf_val (mul a a) = zsq (gf_val a).
Proof. unfold zsq. rewrite gf_val_mul, u16_id by apply gf_range. done. Qed.

Lemma zsq_linear : linear zsq.
Proof.
  intros a b. unfold zsq. rewrite linear_u16.
  pose proof (add_sq (newGF16 a) (newGF16 b)) as E. apply (f_equal gf_val) in E.
  by rewrite !gf_val_mul, !gf_val_add, !gf_val_mul, !gf_val_new in E.
Qed.

(** A map given by its values on the basis. *)
Definition by_basis (cols : list Z) (a : Z) : Z :=
  foldl (fun acc '(i, c) => Z.lxor acc (if Z.testbit a (Z.of_nat i) then c else 0))
    0 (imap pair cols).

Lemma by_basis_linear cols : linear (by_basis cols).
Proof.
  intros a b. unfold by_basis. rewrite <- (Z.lxor_nilpotent 0) at 1.
  apply (foldl_linear (fun _ => True)
    (fun a acc '(i, c) => Z.lxor acc (if Z.testbit a (Z.of_nat i) then c else 0))).
  { by apply Forall_true. }
  intros p p' acc acc' [i c] _. rewrite (linear_bit (Z.of_nat i) c p p'). apply lxor_swap.
Qed.

Lemma linear_iter f n : linear f -> linear (Nat.iter n f).
Proof.
  intros Hf. induction n as [|n IH]; [apply linear_id|]. cbn [Nat.iter].
  apply (linear_comp f (Nat.iter n f)); done.
Qed.

(** Squaring sixteen times is the identity. *)
Lemma zsq_iter_16 a : is_u16 a -> Nat.iter 16 zsq a = a.
Proof.
  apply (linear_ext (Nat.iter 16 zsq) (fun a => a)).
  - apply linear_iter, zsq_linear.
  - apply linear_id.
  - vm_compute. reflexivity.
Qed.

(** A left inverse, up to bit 0, of [a => a^2 + a] (its rows found by Gaussian
    elimination): its existence shows that only 0 and 1 are their own squares. *)
Definition artin_inverse : list Z :=
  [350; 42420; 42422; 7412; 42418; 10272; 7420; 1328; 42402; 38610; 10240; 5068; 7356; 0; 1456; 21936].

Lemma zsq_fixed a : is_u16 a -> zsq a = a -> a = 0 \/ a = 1.
Proof.
  intros Ha Hfix.
  assert (by_basis artin_inverse (Z.lxor (zsq a) a) = Z.lxor a (if Z.testbit a 0 then 1 else 0)) as E.
  { apply (linear_ext (fun a => by_basis artin_inverse (Z.lxor (zsq a) a))
      (fun a => Z.lxor a (if Z.testbit a 0 then 1 else 0))); [| | |done].
    - apply (linear_comp (by_basis artin_inverse) (fun a => Z.lxor (zsq a) a)); [apply by_basis_linear|].
      apply linear_xor; [apply zsq_linear|apply linear_id].
    - apply linear_xor; [apply linear_id|apply linear_bit].
    - vm_compute. reflexivity. }
  rewrite Hfix, Z.lxor_nilpotent in E. rewrite (linear_0 _ (by_basis_linear _)) in E.
  symmetry in E. apply Z.lxor_eq in E. destruct (Z.testbit a 0); auto.
Qed.

Lemma pow_nat_sq_iter a n : gf_val (pow_nat a (2 ^ n)) = Nat.iter n zsq (gf_val a).
Proof.
  induction n as [|n IH].
  - change (2 ^ 0)%nat with 1%nat. cbn [Nat.iter pow_nat].
    assert (mul a gf16One = a) as -> by ring. done.
  - change (Nat.iter (S n) zsq (gf_val a)) with (zsq (Nat.iter n zsq (gf_val a))).
    rewrite <- IH, <- gf_val_sq, <- pow_nat_add. do 2 f_equal. cbn [Nat.pow]. lia.
Qed.

Lemma pow_nat_65536 a : pow_nat a (2 ^ 16) = a.
Proof. apply gf_eq. rewrite pow_nat_sq_iter. apply zsq_iter_16, gf_range. Qed.

Lemma pow_nat_inv a k :
  (2 + k = 2 ^ 16)%nat -> a <> gf16Zero -> mul (pow_nat a k) a = gf16One.
Proof.
  intros Hk Ha. set (e := mul (pow_nat a k) a).
  assert (Hea : mul e a = a).
  { rewrite <- (pow_nat_65536 a) at 2. rewrite <- Hk. cbn [pow_nat Nat.add]. unfold e. ring. }
  assert (Hee : mul e e = e).
  { transitivity (mul (pow_nat a k) (mul e a)); [unfold e; ring|]. by rewrite Hea. }
  destruct (zsq_fixed (gf_val e)) as [E|E]; [apply gf_range|by rewrite <- gf_val_sq, Hee| |].
  - exfalso. apply Ha. rewrite <- Hea. assert (e = gf16Zero) as -> by by apply gf_eq. ring.
  - by apply gf_eq.
Qed.

Lemma gf16Pow_inv a : a <> gf16Zero -> mul (gf16Pow a 65534) a = gf16One.
Proof.
  intros Ha. rewrite gf16Pow_spec by (unfold is_u32; lia). apply pow_nat_inv; [|done].
  apply Nat2Z.inj. rewrite Nat2Z.inj_add, Nat2Z.inj_pow, Z2Nat.id by lia. reflexivity.
Qed.

Lemma div_def a b : div a b = mul a (gf16Pow b 65534).
Proof.
  unfold div. destruct (Z.eqb_spec (gf_val b) 0) as [E|]; [|done].
  assert (b = gf16Zero) as -> by by apply gf_eq.
  change (newGF16 0) with gf16Zero.
  assert (gf16Pow gf16Zero 65534 = gf16Zero) as -> by (apply gf_eq; vm_compute; reflexivity). ring.
Qed.

Lemma gf_1_neq_0 : gf16One <> gf16Zero.
Proof. intros E. by apply (f_equal gf_val) in E. Qed.

Lemma gf_field_theory :
  field_theory gf16Zero gf16One add mul sub (fun a => a) div (fun a => gf16Pow a 65534) eq.
Proof.
  split; [apply gf_ring_theory|apply gf_1_neq_0|apply div_def|apply gf16Pow_inv].
Qed.

Add Field gf_field : gf_field_theory.

Lemma mul_eq_0 a b : mul a b = gf16Zero -> a = gf16Zero \/ b = gf16Zero.
Proof.
  intros E. destruct (decide (a = gf16Zero)) as [|Ha]; [by left|right].
  transitivity (mul (gf16Pow a 65534) (mul a b)); [|rewrite E; ring].
  transitivity (mul (mul (gf16Pow a 65534) a) b); [rewrite gf16Pow_inv by done|]; ring.
Qed.

Lemma add_eq_0 a b : add a b = gf16Zero -> a = b.
Proof.
  intros E. transitivity (add (add a b) b); [|rewrite E; ring].
  transitivity (add a (add b b)); [rewrite add_self|]; ring.
Qed.

#[global] Opaque add sub mul div gf16Pow.

(** ** Properties *)

(** The code's arithmetic is the field GF(2^16). [add] and [mul] satisfy the
    commutative ring laws with [gf16Zero] and [gf16One], subtraction is
    addition, and [div] (a multiplication by a 65534th power) is division: every
    non-zero element is cancelled by it, division by zero gives zero, and there
    are no zero divisors. *)
Theorem gf16_is_field a b c :
  add (add a b) c = add a (add b c) /\ add a b = add b a /\ add a gf16Zero = a /\ sub a b = add a b /\
  add a a = gf16Zero /\ mul (mul a b) c = mul a (mul b c) /\ mul a b = mul b a /\ mul a gf16One = a /\
  mul a (add b c) = add (mul a b) (mul a c) /\ div a gf16Zero = gf16Zero /\
  (b <> gf16Zero -> mul (div a b) b = a) /\ (mul a b = gf16Zero -> a = gf16Zero \/ b = gf16Zero).
Proof.
  split_and!; try ring; [reflexivity|apply add_self|reflexivity| |apply mul_eq_0].
  intros Hb. rewrite div_def. transitivity (mul a (mul (gf16Pow b 65534) b)); [ring|].
  rewrite gf16Pow_inv by done. ring.
Qed.

(** Exponentiation. The square-and-multiply loop of [gf16Pow] computes the
    [exp]-fold product, for every 32-bit exponent. *)
Theorem gf16Pow_correct a exp : is_u32 exp -> gf16Pow a exp = pow_nat a (Z.to_nat exp).
Proof. apply gf16Pow_spec. Qed.

Lemma gf16Pow_correct_witness : gf16Pow (newGF16 2) 5 = pow_nat (newGF16 2) 5.
Proof. apply (gf16Pow_correct (newGF16 2) 5). split; [discriminate|reflexivity]. Defined.
