(* ===== verification/Poly.v ===== *)
(** * Polynomials over GF(2^16): spqr/encoding_polynomial.go, first part

    [eval], [polyAdd], [polyMul], [polyScale] and [lagrangeInterpolate], and
    the two facts the erasure code rests on: the interpolation polynomial
    passes through its points, and a polynomial is determined by its values at
    as many distinct points as it has coefficients. *)

From Stdlib Require Import ZArith Lia Field.
From stdpp Require Import base list.
From S2P Require Import Prelude GF16.
Import GF.

Declare Scope gf_scope.
Notation "a + b" := (add a b) : gf_scope.
Notation "a * b" := (mul a b) : gf_scope.
Notation "0" := gf16Zero : gf_scope.
Notation "1" := gf16One : gf_scope.

Module Poly.
Local Open Scope gf_scope.

(** Horner evaluation from the last coefficient down. *)
Definition eval (coeffs : list gf16) (x : gf16) : gf16 :=
  match reverse coeffs with
  | [] => 0
  | out :: rest => foldl (fun out c => out * x + c) out rest
  end.

(** [out[i] = out[i].add(c)] *)
Definition add_at (out : list gf16) (i : nat) (c : gf16) : list gf16 :=
  alter (fun o => o + c) i out.

Definition polyAdd (a b : list gf16) : list gf16 :=
  let '(a, b) := if len a <? len b then (b, a) else (a, b) in
  foldl (fun out '(i, bi) => add_at out i bi) a (imap pair b).

Definition polyMul (a b : list gf16) : list gf16 :=
  match a, b with
  | [], _ | _, [] => []
  | _, _ =>
      foldl (fun out '(i, ai) =>
        foldl (fun out '(j, bj) => add_at out (i + j) (ai * bj)) out (imap pair b))
        (replicate (length a + length b - 1) 0) (imap pair a)
  end.

Definition polyScale (a : list gf16) (s : gf16) : list gf16 := (fun c => c * s) <$> a.

Record point : Type := mkPoint { px : gf16; py : gf16 }.

(** The inner loop over [j], with its [continue] on [i == j]. *)
Definition lagrange_basis (points : list point) (i : nat) (pi : point) : list gf16 * gf16 :=
  foldl (fun '(basis, denom) '(j, pj) =>
    if Nat.eqb i j then (basis, denom)
    else (polyMul basis [px pj; 1], denom * (px pi + px pj)))
    ([1], 1) (imap pair points).

Definition lagrangeInterpolate (points : list point) : list gf16 :=
  match points with
  | [] => []
  | _ =>
      foldl (fun coeffs '(i, pi) =>
        let '(basis, denom) := lagrange_basis points i pi in
        if decide (denom = 0) then coeffs
        else polyAdd coeffs (polyScale basis (div (py pi) denom)))
        (replicate (length points) 0) (imap pair points)
  end.

End Poly.
Import Poly.
Local Open Scope gf_scope.

(** ** Evaluation *)

(** The mathematical value of a coefficient list. *)
Fixpoint ev (p : list gf16) (x : gf16) : gf16 :=
  match p with [] => 0 | c :: p => c + x * ev p x end.

Lemma foldl_horner l out x :
  foldl (fun out c => out * x + c) out l = out * pow_nat x (length l) + ev (reverse l) x.
Proof.
  revert out. induction l as [|c l IH] using rev_ind; intros out.
  - cbn. ring.
  - rewrite foldl_app, reverse_app, length_app. cbn [foldl]. rewrite IH.
    cbn [length reverse rev_append app ev]. rewrite Nat.add_1_r. cbn [pow_nat]. ring.
Qed.

Lemma ev_app p q x : ev (p ++ q) x = ev p x + pow_nat x (length p) * ev q x.
Proof. induction p as [|c p IH]; cbn [app ev length pow_nat]; [|rewrite IH]; ring. Qed.

Lemma eval_ev p x : eval p x = ev p x.
Proof.
  unfold eval. destruct (reverse p) as [|c l] eqn:E.
  - apply (f_equal reverse) in E. rewrite reverse_involutive in E. subst p. done.
  - apply (f_equal reverse) in E. rewrite reverse_involutive, reverse_cons in E. subst p.
    rewrite foldl_horner, ev_app, length_reverse. cbn [ev]. ring.
Qed.

Lemma ev_add_at p i c x : (i < length p)%nat -> ev (add_at p i c) x = ev p x + c * pow_nat x i.
Proof.
  unfold add_at. revert i. induction p as [|o p IH]; intros i Hi; cbn [length] in Hi; [lia|].
  destruct i as [|i]; cbn [alter list_alter ev pow_nat].
  - ring.
  - fold (alter (fun o => o + c) i p). rewrite IH by lia. ring.
Qed.

Lemma add_at_length p i c : length (add_at p i c) = length p.
Proof. apply length_alter. Qed.
#[export] Hint Rewrite add_at_length : len.

Lemma ev_zeros n x : ev (replicate n 0) x = 0.
Proof. induction n as [|n IH]; cbn [replicate ev]; [done|]. rewrite IH. ring. Qed.

(** Adding the terms [f bi * x^(k+i)] into an accumulator, one by one. *)
Lemma ev_add_loop (f : gf16 -> gf16) b k out x :
  (k + length b <= length out)%nat ->
  let r := foldl (fun out '(i, bi) => add_at out (k + i) (f bi)) out (imap pair b) in
  length r = length out /\
  ev r x = ev out x + pow_nat x k * ev (f <$> b) x.
Proof.
  cbv zeta. revert out. induction b as [|c b IH] using rev_ind; intros out Hl.
  - cbn. split; [done|ring].
  - rewrite length_app in Hl. cbn [length] in Hl. rewrite imap_app, foldl_app. cbn [imap foldl].
    destruct (IH out ltac:(lia)) as [Hlen Hev]. rewrite add_at_length, ev_add_at by lia.
    split; [done|]. rewrite Hev, fmap_app, ev_app, length_fmap, Nat.add_0_r, pow_nat_add.
    cbn [fmap list_fmap ev]. ring.
Qed.

Lemma polyAdd_spec a b x :
  length (polyAdd a b) = Nat.max (length a) (length b) /\ ev (polyAdd a b) x = ev a x + ev b x.
Proof.
  unfold polyAdd.
  assert (forall p q : list gf16, (length q <= length p)%nat ->
    length (foldl (fun out '(i, bi) => add_at out i bi) p (imap pair q)) = length p /\
    ev (foldl (fun out '(i, bi) => add_at out i bi) p (imap pair q)) x = ev p x + ev q x) as H.
  { intros p q Hl. destruct (ev_add_loop (fun c => c) q 0 p x) as [H1 H2]; [lia|].
    cbn [Nat.add pow_nat] in H1, H2. rewrite H1, H2, list_fmap_id. split; [done|ring]. }
  destruct (Z.ltb_spec (len a) (len b)) as [Hlt|Hge]; unfold len in *.
  - destruct (H b a) as [-> ->]; [lia|]. split; [lia|ring].
  - destruct (H a b) as [-> ->]; [lia|]. split; [lia|ring].
Qed.

Lemma ev_scale p s x : ev (polyScale p s) x = ev p x * s.
Proof.
  unfold polyScale. induction p as [|c p IH]; cbn [fmap list_fmap ev]; [|rewrite IH]; ring.
Qed.

Lemma polyMul_spec a b x :
  (1 <= length a)%nat -> (1 <= length b)%nat ->
  length (polyMul a b) = (length a + length b - 1)%nat /\
  ev (polyMul a b) x = ev a x * ev b x.
Proof.
  intros Ha Hb. unfold polyMul.
  destruct a as [|a0 a']; [cbn in Ha; lia|]. destruct b as [|b0 b']; [cbn in Hb; lia|].
  set (a := a0 :: a') in *. set (b := b0 :: b') in *. clearbody a b.
  set (row := fun (out : list gf16) '(i, ai) =>
    foldl (fun out '(j, bj) => add_at out (i + j) (ai * bj)) out (imap pair b)).
  assert (forall pre out, (length pre + length b <= S (length out))%nat ->
    let r := foldl row out (imap pair pre) in
    length r = length out /\ ev r x = ev out x + ev pre x * ev b x) as H.
  { cbv zeta. induction pre as [|c pre IH] using rev_ind; intros out Hl.
    - cbn. split; [done|ring].
    - rewrite length_app in Hl. cbn [length] in Hl. rewrite imap_app, foldl_app. cbn [imap foldl].
      destruct (IH out ltac:(lia)) as [Hlen Hev].
      unfold row at 1 3. rewrite Nat.add_0_r.
      destruct (ev_add_loop (mul c) b (length pre) (foldl row out (imap pair pre)) x) as [-> ->]; [lia|].
      split; [done|]. rewrite Hev, ev_app. cbn [ev].
      replace (ev (mul c <$> b) x) with (ev (polyScale b c) x).
      { rewrite ev_scale. ring. }
      unfold polyScale. f_equal. apply list_fmap_ext. intros ? ? ?. ring. }
  destruct (H a (replicate (length a + length b - 1) 0)) as [H1 H2]; [rewrite length_replicate; lia|].
  rewrite H1, H2, length_replicate, ev_zeros. split; [done|ring].
Qed.

(** ** A polynomial with too many roots is zero *)

Lemma ev_divide p r : exists q, length q = pred (length p) /\
  forall x, ev p x = ev p r + (x + r) * ev q x.
Proof.
  induction p as [|c p (q & Hq & IH)].
  { exists []. split; [done|]. intros x. cbn. ring. }
  exists (polyAdd p (polyScale q r)).
  assert (length (polyScale q r) = length q) as Hs by apply length_fmap.
  split. { rewrite (proj1 (polyAdd_spec p _ 0)), Hs. cbn [length]. lia. }
  intros x. rewrite (proj2 (polyAdd_spec _ _ x)), ev_scale. cbn [ev].
  specialize (IH x).
  assert ((x + r) * (ev p x + ev q x * r) = x * ev p x + r * (ev p x + (x + r) * ev q x)) as -> by ring.
  assert ((x + r) * ev q x = ev p x + ev p r) as ->.
  { rewrite IH. transitivity ((x + r) * ev q x + (ev p r + ev p r)); [rewrite add_self|]; ring. }
  transitivity (c + x * ev p x + (r * ev p r + r * ev p r) + r * (ev p x + ev p x)); [|ring].
  rewrite !add_self. ring.
Qed.

Lemma too_many_roots p xs :
  NoDup xs -> (length p <= length xs)%nat -> (forall x, x ∈ xs -> ev p x = 0) ->
  forall x, ev p x = 0.
Proof.
  revert p. induction xs as [|r xs IH]; intros p Hnd Hl Hroots x.
  { destruct p; [done|]. cbn in Hl. lia. }
  destruct (ev_divide p r) as (q & Hq & Hdiv).
  apply NoDup_cons in Hnd as [Hr Hnd].
  assert (ev p r = 0) as Hpr by (apply Hroots; by left).
  rewrite Hdiv, Hpr. rewrite (IH q Hnd); [ring| |].
  - cbn [length] in Hl. lia.
  - intros y Hy. assert (ev p y = 0) as Hpy by (apply Hroots; by right).
    rewrite Hdiv, Hpr in Hpy.
    destruct (mul_eq_0 (y + r) (ev q y)) as [E|E]; [|apply add_eq_0 in E; congruence|done].
    rewrite <- Hpy. ring.
Qed.

(** Two polynomials that agree at as many distinct points as either has
    coefficients are equal everywhere. *)
Lemma poly_unique p q xs :
  NoDup xs -> (length p <= length xs)%nat -> (length q <= length xs)%nat ->
  (forall x, x ∈ xs -> ev p x = ev q x) -> forall x, ev p x = ev q x.
Proof.
  intros Hnd Hp Hq Hag x. apply add_eq_0.
  rewrite <- (proj2 (polyAdd_spec p q x)). apply (too_many_roots _ xs); [done| |].
  - rewrite (proj1 (polyAdd_spec p q 0)). lia.
  - intros y Hy. rewrite (proj2 (polyAdd_spec p q y)), Hag by done. apply add_self.
Qed.

(** ** Lagrange interpolation *)

Lemma linear_factor y x : ev [y; 1] x = x + y.
Proof. cbn [ev]. ring. Qed.

(** The basis polynomial of point [i] vanishes at the other points and takes
    the value [denom] at its own. *)
Lemma lagrange_basis_spec points i pi basis denom :
  lagrange_basis points i pi = (basis, denom) ->
  length basis = (if decide (i < length points) then length points else S (length points))%nat /\
  ev basis (px pi) = denom /\
  (forall j pj, points !! j = Some pj -> j <> i -> ev basis (px pj) = 0) /\
  ((forall j pj, points !! j = Some pj -> j <> i -> px pj <> px pi) -> denom <> 0).
Proof.
  unfold lagrange_basis. revert basis denom.
  induction points as [|p points IH] using rev_ind; intros basis denom.
  { cbn. intros E. injection E as <- <-. split_and!; [done|cbn; ring| |].
    - intros j pj Hj. by rewrite lookup_nil in Hj.
    - intros _. apply gf_1_neq_0. }
  rewrite imap_app, foldl_app. cbn [imap foldl].
  destruct (foldl _ _ (imap pair points)) as [basis' denom'].
  destruct (IH _ _ eq_refl) as (Hlen & Hown & Hzero & Hne). clear IH.
  rewrite Nat.add_0_r, length_app. cbn [length].
  destruct (Nat.eqb_spec i (length points)) as [->|Hi].
  - intros E. injection E as <- <-. split_and!.
    + rewrite Hlen. repeat case_decide; lia.
    + done.
    + intros j pj Hj Hji. apply (Hzero j); [|done].
      rewrite lookup_app_l in Hj; [done|]. apply lookup_lt_Some in Hj. rewrite length_app in Hj. cbn in Hj. lia.
    + intros Hd. apply Hne. intros j pj Hj. apply Hd. by rewrite lookup_app_l by by eapply lookup_lt_Some.
  - intros E. injection E as <- <-.
    assert (1 <= length basis')%nat as Hb1 by (rewrite Hlen; case_decide; lia).
    assert (forall x, ev (polyMul basis' [px p; 1]) x = ev basis' x * (x + px p)) as Hev.
    { intros x. rewrite (proj2 (polyMul_spec basis' [px p; 1] x Hb1 ltac:(cbn; lia))). by rewrite linear_factor. }
    split_and!.
    + rewrite (proj1 (polyMul_spec basis' [px p; 1] 0 Hb1 ltac:(cbn; lia))). cbn [length].
      rewrite Hlen. repeat case_decide; lia.
    + rewrite Hev, Hown. done.
    + intros j pj Hj Hji. rewrite Hev. apply lookup_app_Some in Hj as [Hj|[Hj1 Hj2]].
      * rewrite (Hzero j pj Hj Hji). ring.
      * apply list_lookup_singleton_Some in Hj2 as [_ ->]. rewrite add_self. ring.
    + intros Hd E. apply mul_eq_0 in E as [E|E].
      * apply Hne in E; [done|]. intros j pj Hj. apply Hd.
        by rewrite lookup_app_l by by eapply lookup_lt_Some.
      * apply add_eq_0 in E. apply (Hd (length points) p); [|lia|done].
        rewrite lookup_app_r, Nat.sub_diag by lia. done.
Qed.

(** The interpolation polynomial has as many coefficients as there are points
    and passes through each of them. *)
Lemma lagrange_spec points :
  NoDup (px <$> points) ->
  length (lagrangeInterpolate points) = length points /\
  forall k pk, points !! k = Some pk -> ev (lagrangeInterpolate points) (px pk) = py pk.
Proof.
  intros Hnd.
  assert (forall j k pj pk, points !! j = Some pj -> points !! k = Some pk -> j <> k -> px pj <> px pk) as Hdist.
  { intros j k pj pk Hj Hk Hjk E. apply Hjk, (NoDup_lookup _ _ _ (px pj) Hnd);
      rewrite list_lookup_fmap; [by rewrite Hj|by rewrite Hk, E]. }
  unfold lagrangeInterpolate. destruct points as [|p0 points']; [done|].
  set (points := p0 :: points') in *. clearbody points.
  set (step := fun (coeffs : list gf16) '(i, pi) => _).
  assert (forall n, (n <= length points)%nat ->
    let r := foldl step (replicate (length points) 0) (imap pair (take n points)) in
    length r = length points /\
    forall k pk, points !! k = Some pk -> ev r (px pk) = if decide (k < n)%nat then py pk else 0) as H.
  { cbv zeta. induction n as [|n IH]; intros Hn.
    { rewrite take_0. cbn [imap foldl]. rewrite length_replicate. split; [done|]. intros k pk _.
      rewrite ev_zeros. case_decide; [lia|done]. }
    destruct (lookup_lt_is_Some_2 points n) as [pn Hpn]; [lia|].
    destruct (IH ltac:(lia)) as [Hlen Hev]. clear IH.
    rewrite (take_S_r points n pn Hpn), imap_app, foldl_app. cbn [imap foldl].
    rewrite length_take, Nat.min_l, Nat.add_0_r by lia.
    set (r := foldl step _ _) in *. unfold step.
    destruct (lagrange_basis points n pn) as [basis denom] eqn:Eb.
    destruct (lagrange_basis_spec _ _ _ _ _ Eb) as (Hbl & Hown & Hzero & Hne).
    rewrite decide_True in Hbl by lia.
    assert (denom <> 0) as Hd by (apply Hne; intros; by eapply Hdist).
    rewrite decide_False by done.
    assert (length (polyScale basis (div (py pn) denom)) = length points) as Hsl
      by (unfold polyScale; rewrite length_fmap; done).
    split. { rewrite (proj1 (polyAdd_spec _ _ 0)), Hsl, Hlen. lia. }
    intros k pk Hk. rewrite (proj2 (polyAdd_spec _ _ _)), ev_scale, (Hev k pk Hk).
    destruct (decide (k = n)) as [->|Hkn].
    - rewrite Hpn in Hk. injection Hk as <-. rewrite Hown, decide_False, decide_True by lia. field. done.
    - rewrite (Hzero k pk Hk Hkn). repeat case_decide; try lia; ring. }
  destruct (H (length points) ltac:(lia)) as [Hlen Hev]. rewrite firstn_all in Hlen, Hev.
  split; [done|]. intros k pk Hk. rewrite (Hev k pk Hk), decide_True; [done|].
  by eapply lookup_lt_Some.
Qed.

(** Any polynomial with at most as many coefficients as there are points, and
    with the same values there, is the interpolation polynomial. *)
Lemma lagrange_recovers p points :
  NoDup (px <$> points) -> (length p <= length points)%nat ->
  (forall k pk, points !! k = Some pk -> ev p (px pk) = py pk) ->
  forall x, ev (lagrangeInterpolate points) x = ev p x.
Proof.
  intros Hnd Hl Hp. destruct (lagrange_spec points Hnd) as [Hlen Hev].
  apply (poly_unique _ _ (px <$> points)); [done|rewrite length_fmap; lia..|].
  intros x Hx. apply list_elem_of_fmap in Hx as (pk & -> & Hin).
  apply list_elem_of_lookup in Hin as [k Hk]. by rewrite (Hev k pk Hk), (Hp k pk Hk).
Qed.

(** ** Properties *)

(** Interpolation. For points with distinct abscissae, the coefficients of
    [lagrangeInterpolate] are as many as the points, [eval] of them passes
    through every point, and any other polynomial with no more coefficients
    that passes through the points has the same value everywhere. *)
Theorem lagrange_correct points p :
  NoDup (px <$> points) ->
  length (lagrangeInterpolate points) = length points /\
  (forall k pk, points !! k = Some pk -> eval (lagrangeInterpolate points) (px pk) = py pk) /\
  ((length p <= length points)%nat ->
   (forall k pk, points !! k = Some pk -> eval p (px pk) = py pk) ->
   forall x, eval p x = eval (lagrangeInterpolate points) x).
Proof.
  intros Hnd. destruct (lagrange_spec points Hnd) as [Hl Hev]. split_and!; [done| |].
  - intros k pk Hk. rewrite eval_ev. by apply (Hev k).
  - intros Hlen Hp x. rewrite !eval_ev. symmetry. apply lagrange_recovers; [done..|].
    intros k pk Hk. rewrite <- eval_ev. by apply (Hp k).
Qed.

Lemma lagrange_correct_witness :
  eval (lagrangeInterpolate [mkPoint (newGF16 1) (newGF16 7); mkPoint (newGF16 2) (newGF16 9)]) (newGF16 2) = newGF16 9.
Proof.
  apply (lagrange_correct [mkPoint (newGF16 1) (newGF16 7); mkPoint (newGF16 2) (newGF16 9)] []) with (k := 1%nat) (pk := mkPoint (newGF16 2) (newGF16 9)).
  - repeat constructor; cbn; [|by intros ?%elem_of_nil]. intros E%list_elem_of_singleton.
    apply (f_equal gf_val) in E. vm_compute in E. discriminate.
  - reflexivity.
Defined.
