(* ===== verification/SpqrUtil.v ===== *)
(** * Byte-level helpers of the post-quantum ratchet: spqr/util.go, spqr/types.go

    The hand-written big-endian codecs (shifts and ors) with their agreement
    with encoding/binary, the length-prefixed byte strings of the persisted
    formats, and the [Version] and [Direction] types. *)

From Stdlib Require Import ZArith Lia.
From stdpp Require Import base list.
From S2P Require Import Prelude.

Module Util.

(** *** spqr/types.go *)

Definition VersionDisabled : Z := 0.
Definition VersionV1 : Z := 1.

(** [Direction] is a [uint8]; the two named values are the constructors, any
    other byte that a decoder lets through is [DirectionOther]. *)
Inductive Direction : Type :=
| DirectionA2B
| DirectionB2A
| DirectionOther (d : byte).

Definition Direction_of_byte (b : byte) : Direction :=
  match b with
  | Byte.x00 => DirectionA2B
  | Byte.x01 => DirectionB2A
  | _ => DirectionOther b
  end.

Definition byte_of_Direction (d : Direction) : byte :=
  match d with
  | DirectionA2B => Byte.x00
  | DirectionB2A => Byte.x01
  | DirectionOther b => b
  end.

Definition Switch (d : Direction) : Direction :=
  match d with DirectionA2B => DirectionB2A | _ => DirectionA2B end.

(** *** spqr/util.go *)

Definition epochBytes (epoch : Z) : bytes := AppendUint64 epoch.

Definition appendUint64 (v : Z) : bytes :=
  [z2b (Z.shiftr v 56); z2b (Z.shiftr v 48); z2b (Z.shiftr v 40); z2b (Z.shiftr v 32);
   z2b (Z.shiftr v 24); z2b (Z.shiftr v 16); z2b (Z.shiftr v 8); z2b v].

Definition readUint64 (b : bytes) : res Z :=
  match b with
  | b0 :: b1 :: b2 :: b3 :: b4 :: b5 :: b6 :: b7 :: _ =>
      Ok (Z.lor (Z.lor (Z.lor (Z.lor (Z.lor (Z.lor (Z.lor
        (Z.shiftl (b2z b0) 56) (Z.shiftl (b2z b1) 48)) (Z.shiftl (b2z b2) 40))
        (Z.shiftl (b2z b3) 32)) (Z.shiftl (b2z b4) 24)) (Z.shiftl (b2z b5) 16))
        (Z.shiftl (b2z b6) 8)) (b2z b7))
  | _ => Panic
  end.

Definition appendUint32 (v : Z) : bytes :=
  [z2b (Z.shiftr v 24); z2b (Z.shiftr v 16); z2b (Z.shiftr v 8); z2b v].

Definition readUint32 (b : bytes) : res Z :=
  match b with
  | b0 :: b1 :: b2 :: b3 :: _ =>
      Ok (Z.lor (Z.lor (Z.lor (Z.shiftl (b2z b0) 24) (Z.shiftl (b2z b1) 16))
        (Z.shiftl (b2z b2) 8)) (b2z b3))
  | _ => Panic
  end.

Definition appendUint16 (v : Z) : bytes := [z2b (Z.shiftr v 8); z2b v].

Definition readUint16 (b : bytes) : res Z :=
  match b with
  | b0 :: b1 :: _ => Ok (Z.lor (Z.shiftl (b2z b0) 8) (b2z b1))
  | _ => Panic
  end.

Definition appendBytes (b : bytes) : bytes := appendUint32 (u32 (len b)) ++ b.

(** [readUint32(data[pos:pos+4])], then [pos += 4], and likewise. *)
Definition rd_readUint64 : reader Z := l ← rd_take 8; rd_lift (readUint64 l).
Definition rd_readUint32 : reader Z := l ← rd_take 4; rd_lift (readUint32 l).
Definition rd_readUint16 : reader Z := l ← rd_take 2; rd_lift (readUint16 l).

Definition readBytes : reader bytes :=
  _ ← rd_need 4 SpqrErrStateDecode;
  n ← rd_readUint32;
  _ ← rd_need n SpqrErrStateDecode;
  rd_take n.

End Util.
Import Util.

Lemma lor_shiftl_add a b n : 0 <= n -> 0 <= b < 2 ^ n -> Z.lor (Z.shiftl a n) b = a * 2 ^ n + b.
Proof.
  intros Hn Hb. rewrite <- Z.shiftl_mul_pow2 by done. symmetry.
  apply Z.add_nocarry_lor. apply Z.bits_inj'. intros i Hi. rewrite Z.land_spec, Z.bits_0.
  destruct (decide (i < n)).
  - by rewrite Z.shiftl_spec_low by lia.
  - rewrite <- (Z.mod_small b (2 ^ n)) by done. rewrite Z.mod_pow2_bits_high by lia. apply andb_false_r.
Qed.

Lemma lor_byte a b : Z.lor (Z.shiftl a 8) (b2z b) = a * 256 + b2z b.
Proof. apply lor_shiftl_add; [lia|apply b2z_range]. Qed.

Lemma lor_step m n a b :
  0 <= n -> m = n + 8 -> Z.lor (Z.shiftl a m) (Z.shiftl (b2z b) n) = Z.shiftl (a * 256 + b2z b) n.
Proof.
  intros Hn ->. rewrite Z.add_comm, <- Z.shiftl_shiftl by lia.
  by rewrite <- Z.shiftl_lor, lor_byte.
Qed.

Lemma readUint16_be l : length l = 2%nat -> readUint16 l = Ok (be_value l).
Proof.
  destruct l as [|b0 [|b1 [|]]]; try done. intros _. cbn [readUint16].
  rewrite lor_byte. do 2 f_equal.
Qed.

Lemma readUint32_be l : length l = 4%nat -> readUint32 l = Ok (be_value l).
Proof.
  destruct l as [|b0 [|b1 [|b2 [|b3 [|]]]]]; try done. intros _. cbn [readUint32].
  rewrite (lor_step 24 16), (lor_step 16 8), lor_byte by lia. f_equal.
Qed.

Lemma readUint64_be l : length l = 8%nat -> readUint64 l = Ok (be_value l).
Proof.
  destruct l as [|b0 [|b1 [|b2 [|b3 [|b4 [|b5 [|b6 [|b7 [|]]]]]]]]]; try done. intros _.
  cbn [readUint64].
  rewrite (lor_step 56 48), (lor_step 48 40), (lor_step 40 32), (lor_step 32 24),
    (lor_step 24 16), (lor_step 16 8), lor_byte by lia. f_equal.
Qed.

Lemma appendUint16_be v : appendUint16 v = be_bytes 2 v.
Proof.
  unfold appendUint16. cbn [be_bytes]. rewrite Z.shiftr_div_pow2 by lia. repeat f_equal.
  by rewrite Z.div_1_r.
Qed.

Lemma appendUint32_be v : appendUint32 v = be_bytes 4 v.
Proof.
  unfold appendUint32. cbn [be_bytes]. rewrite !Z.shiftr_div_pow2 by lia. repeat f_equal.
  by rewrite Z.div_1_r.
Qed.

Lemma appendUint64_be v : appendUint64 v = be_bytes 8 v.
Proof.
  unfold appendUint64. cbn [be_bytes]. rewrite !Z.shiftr_div_pow2 by lia. repeat f_equal.
  by rewrite Z.div_1_r.
Qed.

(** ** Reading back *)

Lemma reads_readUint16 v : is_u16 v -> reads rd_readUint16 (appendUint16 v) v.
Proof.
  intros Hv. rewrite appendUint16_be. eapply reads_bind_end; [by apply reads_take|].
  apply reads_lift. rewrite readUint16_be, be_value_bytes, Z.mod_small; done.
Qed.

Lemma reads_readUint32 v : is_u32 v -> reads rd_readUint32 (appendUint32 v) v.
Proof.
  intros Hv. rewrite appendUint32_be. eapply reads_bind_end; [by apply reads_take|].
  apply reads_lift. rewrite readUint32_be, be_value_bytes, Z.mod_small; done.
Qed.

Lemma reads_readUint64 v : is_u64 v -> reads rd_readUint64 (appendUint64 v) v.
Proof.
  intros Hv. rewrite appendUint64_be. eapply reads_bind_end; [by apply reads_take|].
  apply reads_lift. rewrite readUint64_be, be_value_bytes, Z.mod_small; done.
Qed.

Lemma reads_readBytes b : is_u32 (len b) -> reads readBytes (appendBytes b) b.
Proof.
  intros Hb. unfold readBytes, appendBytes. rewrite u32_id by done.
  apply reads_need.
  { rewrite len_app. pose proof (len_nonneg b). change (len (appendUint32 (len b))) with 4. lia. }
  eapply reads_bind; [by apply reads_readUint32|].
  apply reads_need; [lia|]. by apply reads_take.
Qed.
#[export] Hint Resolve reads_readUint16 reads_readUint32 reads_readUint64 reads_readBytes : reads.

Lemma wp_readUint16 data pos (Q : Z -> Z -> Prop) :
  0 <= pos -> pos + 2 <= len data -> (forall z, is_u16 z -> Q z (pos + 2)) ->
  rd_wp rd_readUint16 data pos Q.
Proof.
  intros ? ? H. apply wp_bind, wp_take; [lia..|]. intros l Hl.
  assert (length l = 2%nat) by (unfold len in Hl; lia).
  apply wp_lift; rewrite readUint16_be by done; [done|]. intros z Ez. injection Ez as <-.
  apply H. pose proof (be_value_range l) as Hr. by rewrite Hl in Hr.
Qed.

Lemma wp_readUint32 data pos (Q : Z -> Z -> Prop) :
  0 <= pos -> pos + 4 <= len data -> (forall z, is_u32 z -> Q z (pos + 4)) ->
  rd_wp rd_readUint32 data pos Q.
Proof.
  intros ? ? H. apply wp_bind, wp_take; [lia..|]. intros l Hl.
  assert (length l = 4%nat) by (unfold len in Hl; lia).
  apply wp_lift; rewrite readUint32_be by done; [done|]. intros z Ez. injection Ez as <-.
  apply H. pose proof (be_value_range l) as Hr. by rewrite Hl in Hr.
Qed.

Lemma wp_readUint64 data pos (Q : Z -> Z -> Prop) :
  0 <= pos -> pos + 8 <= len data -> (forall z, is_u64 z -> Q z (pos + 8)) ->
  rd_wp rd_readUint64 data pos Q.
Proof.
  intros ? ? H. apply wp_bind, wp_take; [lia..|]. intros l Hl.
  assert (length l = 8%nat) by (unfold len in Hl; lia).
  apply wp_lift; rewrite readUint64_be by done; [done|]. intros z Ez. injection Ez as <-.
  apply H. pose proof (be_value_range l) as Hr. by rewrite Hl in Hr.
Qed.

Lemma wp_readBytes data pos (Q : bytes -> Z -> Prop) :
  0 <= pos <= len data -> (forall b pos', 0 <= pos' <= len data -> Q b pos') ->
  rd_wp readBytes data pos Q.
Proof.
  intros Hpos H. unfold readBytes. wp_steps. apply wp_readUint32; [lia..|]. intros n Hn.
  unfold is_u32 in Hn. wp_steps. apply H. lia.
Qed.
