(* ===== verification/Erasure.v ===== *)
(** * The chunk erasure code: spqr/encoding_polynomial.go, second part

    [polyEncoder] spreads the 16-bit words of a message round-robin over
    sixteen polynomials and emits chunks of one value per polynomial;
    [polyDecoder] rebuilds the message from enough chunks, in any order and
    with duplicates. The main result ([erasure_decodes], [erasure_waits]): a
    decoder fed chunks of a message returns exactly that message once it has
    seen as many distinct chunk indices as each polynomial has points, and
    reports "not yet" before. *)

From Stdlib Require Import ZArith Lia.
From stdpp Require Import base gmap strings list list_numbers vector sorting.
From S2P Require Import Prelude GF16 Poly SpqrUtil.
Import GF Poly Util.

Module Erasure.

Definition polyNumPolys : Z := 16.
Definition polyChunkDataSize : Z := 32.

Record chunk : Type := mkChunk { chunk_index : Z; chunk_data : arr 32 }.

Definition errPolyMessageLengthEven : error := ErrText "spqr: polynomial message length must be even".
Definition errPolyMessageTooLong : error := ErrText "spqr: polynomial message length too long".

(** [uint16(hi)<<8 | uint16(lo)] and back. *)
Definition word_of (hi lo : byte) : Z := Z.lor (Z.shiftl (b2z hi) 8) (b2z lo).
Definition word_bytes (value : gf16) : bytes := [z2b (Z.shiftr (gf_val value) 8); z2b (gf_val value)].

(** *** polyEncoder *)

Record polyEncoder : Type := mkEncoder {
  enc_idx : Z;
  enc_msg : bytes;
  enc_points : list (list gf16);
  enc_polys : list (option (list gf16))
}.

(** The loop [for i := 0; i < len(msg); i += 2], where [k] is [i / 2]; an odd
    tail would index past the end. *)
Fixpoint encode_points (k : nat) (msg : bytes) (points : list (list gf16)) : res (list (list gf16)) :=
  match msg with
  | [] => Ok points
  | [_] => Panic
  | hi :: lo :: msg =>
      let idx := Z.of_nat k mod polyNumPolys in
      encode_points (S k) msg
        (alter (fun pts => pts ++ [newGF16 (word_of hi lo)]) (Z.to_nat idx) points)
  end.

Definition newPolyEncoder (msg : bytes) : res polyEncoder :=
  _ ← check (negb (len msg mod 2 =? 0)) errPolyMessageLengthEven;
  _ ← check (len msg >? 2 ^ 16 * polyNumPolys) errPolyMessageTooLong;
  points ← encode_points 0 msg (replicate 16 []);
  mret (mkEncoder 0 msg points (replicate 16 None)).

Definition interpolate_column (pts : list gf16) : list gf16 :=
  lagrangeInterpolate (imap (fun j y => mkPoint (newGF16 (Z.of_nat j)) y) pts).

(** The lazily computed polynomials are filled in all at once. *)
Definition fill_polys (e : polyEncoder) : polyEncoder :=
  match enc_polys e with
  | None :: _ =>
      mkEncoder (enc_idx e) (enc_msg e) (enc_points e) (Some ∘ interpolate_column <$> enc_points e)
  | _ => e
  end.

Definition pointAt (e : polyEncoder) (polyIdx idx : Z) : polyEncoder * res gf16 :=
  match enc_points e !! Z.to_nat polyIdx with
  | None => (e, Panic)
  | Some pts =>
      match (if idx <? len pts then pts !! Z.to_nat idx else None) with
      | Some y => (e, Ok y)
      | None =>
          let e := fill_polys e in
          match enc_polys e !! Z.to_nat polyIdx with
          | Some (Some p) => (e, Ok (eval p (newGF16 (u16 idx))))
          | _ => (e, Panic)
          end
      end
  end.

Fixpoint chunkAt_loop (ixs : list Z) (idx : Z) (data : bytes) : ST polyEncoder bytes :=
  match ixs with
  | [] => mret data
  | i :: ixs =>
      let totalIdx := idx * polyNumPolys + i in
      let poly := totalIdx mod polyNumPolys in
      let polyIdx := totalIdx / polyNumPolys in
      value ← (fun e => pointAt e poly polyIdx);
      chunkAt_loop ixs idx (data ++ word_bytes value)
  end.

Definition chunkAt (idx : Z) : ST polyEncoder chunk :=
  data ← chunkAt_loop (seqZ 0 polyNumPolys) idx [];
  mret (mkChunk idx (to_arr 32 data)).

Definition nextChunk : ST polyEncoder chunk :=
  e ← st_get;
  out ← chunkAt (u16 (enc_idx e));
  _ ← st_modify (fun e => mkEncoder (u32 (enc_idx e + 1)) (enc_msg e) (enc_points e) (enc_polys e));
  mret out.

Definition encoder_serialize (e : polyEncoder) : bytes :=
  appendUint32 (enc_idx e) ++ appendUint32 (u32 (len (enc_msg e))) ++ enc_msg e.

Definition decodePolyEncoder (data : bytes) : res polyEncoder :=
  rd_run (
    _ ← rd_need 8 SpqrErrStateDecode;
    idx ← rd_readUint32;
    msgLen ← rd_readUint32;
    _ ← rd_need msgLen SpqrErrStateDecode;
    msg ← rd_take msgLen;
    enc ← rd_lift (newPolyEncoder msg);
    mret (mkEncoder idx (enc_msg enc) (enc_points enc) (enc_polys enc))) data.

(** *** polyDecoder *)

Record polyDecoder : Type := mkDecoder {
  ptsNeeded : Z;
  dec_points : list (gmap Z gf16);
  isComplete : bool
}.

Definition newPolyDecoder (lenBytes : Z) : res polyDecoder :=
  _ ← check (negb (lenBytes mod 2 =? 0)) errPolyMessageLengthEven;
  mret (mkDecoder (lenBytes / 2) (replicate 16 ∅) false).

Definition necessaryPoints (d : polyDecoder) (poly : Z) : Z :=
  let pointsPerPoly := ptsNeeded d / polyNumPolys in
  let pointsRemaining := ptsNeeded d mod polyNumPolys in
  if poly <? pointsRemaining then pointsPerPoly + 1 else pointsPerPoly.

Definition addChunk_step (c : chunk) (d : polyDecoder) (i : Z) : polyDecoder :=
  let totalIdx := chunk_index c * polyNumPolys + i in
  let poly := totalIdx mod polyNumPolys in
  let polyIdx := totalIdx / polyNumPolys in
  let x := u16 polyIdx in
  match vec_to_list (chunk_data c) !! Z.to_nat (i * 2), vec_to_list (chunk_data c) !! Z.to_nat (i * 2 + 1),
        dec_points d !! Z.to_nat poly with
  | Some hi, Some lo, Some pts =>
      let needed := necessaryPoints d i in
      if (polyIdx <? needed) || (Z.of_nat (size pts) <? needed) then
        match pts !! x with
        | None => mkDecoder (ptsNeeded d)
                    (<[Z.to_nat poly := <[x := newGF16 (word_of hi lo)]> pts]> (dec_points d)) (isComplete d)
        | Some _ => d
        end
      else d
  | _, _, _ => d
  end.

Definition addChunk (d : polyDecoder) (c : chunk) : polyDecoder :=
  foldl (addChunk_step c) d (seqZ 0 polyNumPolys).

Definition sortedKeys {A} (m : gmap Z A) : list Z := merge_sort Z.le (map_to_list m).*1.

Definition sortedPoints (pts : gmap Z gf16) (needed : Z) : list point :=
  let keys := sortedKeys pts in
  let needed := if needed >? len keys then len keys else needed in
  omap (fun x => mkPoint (newGF16 x) <$> pts !! x) (take (Z.to_nat needed) keys).

(** The first loop of [decodedMessage]: [Ok None] is its early [return nil, nil]. *)
Fixpoint collect_points (d : polyDecoder) (ixs : list Z) (acc : list (list point)) :
    res (option (list (list point))) :=
  match ixs with
  | [] => Ok (Some acc)
  | i :: ixs =>
      match dec_points d !! Z.to_nat i with
      | None => Panic
      | Some pts =>
          let needed := necessaryPoints d i in
          if Z.of_nat (size pts) <? needed then Ok None
          else
            let vec := sortedPoints pts needed in
            if len vec =? 0 then Err (ErrText "spqr: polynomial decode missing points")
            else collect_points d ixs (acc ++ [vec])
      end
  end.

(** The second loop; the memo table [polys] of interpolated polynomials. *)
Fixpoint decode_words (d : polyDecoder) (vecs : list (list point)) (ixs : list Z)
    (polys : list (option (list gf16))) (out : bytes) : res bytes :=
  match ixs with
  | [] => Ok out
  | i :: ixs =>
      let poly := Z.to_nat (i mod polyNumPolys) in
      let x := u16 (i / polyNumPolys) in
      match dec_points d !! poly, vecs !! poly, polys !! poly with
      | Some pts, Some vec, Some memo =>
          match pts !! x with
          | Some value => decode_words d vecs ixs polys (out ++ word_bytes value)
          | None =>
              let p := match memo with Some p => p | None => lagrangeInterpolate vec end in
              let value := eval p (newGF16 x) in
              decode_words d vecs ixs (<[poly := Some p]> polys) (out ++ word_bytes value)
          end
      | _, _, _ => Panic
      end
  end.

Definition decodedMessage (d : polyDecoder) : res (option bytes) :=
  if isComplete d then Ok None
  else
    vecs ← collect_points d (seqZ 0 polyNumPolys) [];
    match vecs with
    | None => Ok None
    | Some vecs =>
        out ← decode_words d vecs (seqZ 0 (ptsNeeded d)) (replicate 16 None) [];
        mret (Some out)
    end.

Definition decoder_serialize (d : polyDecoder) : bytes :=
  appendUint32 (u32 (ptsNeeded d)) ++ [if isComplete d then Byte.x01 else Byte.x00] ++
  mjoin ((fun m : gmap Z gf16 =>
    let keys := sortedKeys m in
    appendUint32 (u32 (len keys)) ++
    mjoin ((fun k => appendUint16 (u16 k) ++
      appendUint16 (gf_val (default (newGF16 0) (m !! k)))) <$> keys)) <$> dec_points d).

Definition decodePolyDecoder_points : reader (gmap Z gf16) :=
  _ ← rd_need 4 SpqrErrStateDecode;
  count ← rd_readUint32;
  rd_for (Z.to_nat count) (fun m =>
    _ ← rd_need 4 SpqrErrStateDecode;
    x ← rd_readUint16;
    y ← rd_readUint16;
    mret (<[x := newGF16 y]> m)) ∅.

Definition decodePolyDecoder (data : bytes) : res polyDecoder :=
  rd_run (
    _ ← rd_need 5 SpqrErrStateDecode;
    n ← rd_readUint32;
    flag ← rd_byte;
    points ← rd_for 16 (fun acc => m ← decodePolyDecoder_points; mret (acc ++ [m])) [];
    _ ← rd_eof SpqrErrStateDecode;
    mret (mkDecoder n points (bool_decide (flag = Byte.x01)))) data.

End Erasure.
Import Erasure.

(** ** The code words *)

(** The 16-bit words of a message. *)
Fixpoint words (msg : bytes) : list Z :=
  match msg with
  | hi :: lo :: msg => word_of hi lo :: words msg
  | _ => []
  end.

(** The words assigned to polynomial [p], the first word having number [k]. *)
Fixpoint column (p k : nat) (ws : list Z) : list gf16 :=
  match ws with
  | [] => []
  | w :: ws => if Nat.eqb (k mod 16) p then newGF16 w :: column p (S k) ws else column p (S k) ws
  end.

Lemma pair_ind (P : bytes -> Prop) :
  P [] -> (forall b, P [b]) -> (forall a b l, P l -> P (a :: b :: l)) -> forall l, P l.
Proof.
  intros H0 H1 H2 l. enough (P l /\ forall a, P (a :: l)) by tauto.
  induction l as [|b l [IH IH']]; split; auto.
Qed.

Lemma word_of_range hi lo : is_u16 (word_of hi lo).
Proof.
  unfold word_of. rewrite lor_byte. pose proof (b2z_range hi); pose proof (b2z_range lo).
  unfold is_u16. lia.
Qed.

Lemma word_bytes_word_of hi lo : word_bytes (newGF16 (word_of hi lo)) = [hi; lo].
Proof.
  unfold word_bytes. rewrite gf_val_new, u16_id by apply word_of_range.
  unfold word_of. rewrite lor_byte, Z.shiftr_div_pow2 by lia.
  pose proof (b2z_range lo) as Hlo.
  f_equal; [|f_equal].
  - change (2 ^ 8) with 256. rewrite Z.add_comm, Z.div_add, Z.div_small by lia. apply z2b_b2z.
  - apply (inj b2z). rewrite b2z_z2b, Z.add_comm, Z.mod_add, Z.mod_small by lia. done.
Qed.

Lemma word_of_word_bytes v hi lo : word_bytes v = [hi; lo] -> newGF16 (word_of hi lo) = v.
Proof.
  unfold word_bytes. intros E. injection E as <- <-. apply gf_eq.
  rewrite gf_val_new, u16_id by apply word_of_range. unfold word_of. rewrite lor_byte, !b2z_z2b.
  pose proof (gf_range v) as Hv. unfold is_u16 in Hv. rewrite Z.shiftr_div_pow2 by lia.
  change (2 ^ 8) with 256. change (2 ^ 16) with 65536 in Hv.
  rewrite (Z.mod_small (gf_val v / 256)) by (split; [apply Z.div_pos|apply Z.div_lt_upper_bound]; lia).
  pose proof (Z.div_mod (gf_val v) 256). lia.
Qed.

Lemma words_length msg : (Nat.Even (length msg)) -> (2 * length (words msg))%nat = length msg.
Proof.
  induction msg as [|b|a b l IH] using pair_ind; intros [k Hk]; cbn [words length] in *; [lia|lia|].
  rewrite <- IH; [lia|]. exists (k - 1)%nat. lia.
Qed.

Lemma words_bytes msg :
  Nat.Even (length msg) -> mjoin (word_bytes ∘ newGF16 <$> words msg) = msg.
Proof.
  induction msg as [|b|a b l IH] using pair_ind; intros [k Hk]; [done|cbn in Hk; lia|].
  cbn [words]. rewrite fmap_cons, mjoin_cons. cbn [compose].
  rewrite word_bytes_word_of, IH; [done|]. exists (k - 1)%nat. cbn [length] in Hk. lia.
Qed.

Lemma column_lookup p k ws x r :
  (p < 16)%nat -> (r < 16)%nat -> ((k + r) mod 16 = p)%nat ->
  column p k ws !! x = newGF16 <$> ws !! (16 * x + r)%nat.
Proof.
  intros Hp. revert k x r. induction ws as [|w ws IH]; intros k x r Hr Hkr; [done|].
  cbn [column]. destruct (Nat.eqb_spec (k mod 16) p) as [E|E].
  - assert (r = 0)%nat as ->.
    { rewrite Nat.Div0.add_mod in Hkr. pose proof (Nat.mod_upper_bound k 16).
      rewrite (Nat.mod_small r 16) in Hkr by lia.
      destruct (decide (k mod 16 + r < 16)%nat).
      - rewrite Nat.mod_small in Hkr; lia.
      - replace (k mod 16 + r)%nat with ((k mod 16 + r - 16) + 1 * 16)%nat in Hkr by lia.
        rewrite Nat.Div0.mod_add, Nat.mod_small in Hkr; lia. }
    destruct x as [|x]; [done|].
    change ((newGF16 w :: column p (S k) ws) !! S x) with (column p (S k) ws !! x).
    rewrite (IH (S k) x 15%nat); [|lia|].
    + replace (16 * S x + 0)%nat with (S (16 * x + 15)) by lia. done.
    + replace (S k + 15)%nat with (k + 1 * 16)%nat by lia. rewrite Nat.Div0.mod_add. done.
  - destruct r as [|r]; [rewrite Nat.add_0_r in Hkr; done|].
    rewrite (IH (S k) x r); [|lia|rewrite <- Hkr; f_equal; lia].
    replace (16 * x + S r)%nat with (S (16 * x + r)) by lia. done.
Qed.

(** How many points a polynomial has: [necessaryPoints] for [n] words. *)
Definition needed_pts (n : nat) (p : nat) : nat :=
  (n / 16 + if decide (p < n mod 16) then 1 else 0)%nat.

Lemma needed_pts_lt n p x : (p < 16)%nat -> (x < needed_pts n p <-> 16 * x + p < n)%nat.
Proof.
  intros Hp. unfold needed_pts. pose proof (Nat.div_mod_eq n 16). pose proof (Nat.mod_upper_bound n 16).
  case_decide; lia.
Qed.

Lemma column_length p ws : (p < 16)%nat -> length (column p 0 ws) = needed_pts (length ws) p.
Proof.
  intros Hp.
  assert (forall x, (x < length (column p 0 ws) <-> x < needed_pts (length ws) p)%nat) as H.
  { intros x. rewrite needed_pts_lt by done.
    rewrite <- !lookup_lt_is_Some, (column_lookup p 0 ws x p), fmap_is_Some by (auto; by rewrite Nat.mod_small).
    done. }
  pose proof (H (length (column p 0 ws))). pose proof (H (needed_pts (length ws) p)). lia.
Qed.

Lemma encode_points_spec k msg points :
  length points = 16%nat -> Nat.Even (length msg) ->
  encode_points k msg points = Ok (imap (fun p pts => pts ++ column p k (words msg)) points).
Proof.
  revert k points. induction msg as [|b|a b l IH] using pair_ind; intros k points Hl [m Hm].
  - cbn [encode_points words column]. f_equal. apply list_eq. intros i.
    rewrite list_lookup_imap. by destruct (points !! i) as [pts|]; cbn; rewrite ?app_nil_r.
  - cbn in Hm. lia.
  - cbn [encode_points words]. rewrite IH; [|by rewrite length_alter|exists (m - 1)%nat; cbn in Hm; lia].
    f_equal. apply list_eq. intros i. rewrite !list_lookup_imap, list_lookup_alter.
    unfold polyNumPolys. change 16 with (Z.of_nat 16). rewrite <- Nat2Z.inj_mod, Nat2Z.id.
    cbn [column]. destruct (decide ((k mod 16)%nat = i)) as [<-|Hd].
    + rewrite Nat.eqb_refl. destruct (points !! (k mod 16)%nat); cbn; by rewrite <- ?app_assoc.
    + by rewrite (proj2 (Nat.eqb_neq _ _) Hd).
Qed.

(** The value of polynomial [p] of a message at [x]. *)
Definition codeval (ws : list Z) (p x : Z) : gf16 :=
  ev (interpolate_column (column (Z.to_nat p) 0 ws)) (newGF16 x).

(** The chunk of a message with index [idx]. *)
Definition chunk_of (ws : list Z) (idx : Z) : chunk :=
  mkChunk idx (to_arr 32 (mjoin ((fun i => word_bytes (codeval ws i idx)) <$> seqZ 0 16))).

(** Messages the encoder accepts. *)
Definition valid_msg (msg : bytes) : Prop := len msg mod 2 = 0 /\ len msg <= 2 ^ 16 * polyNumPolys.

Lemma valid_msg_even msg : valid_msg msg -> Nat.Even (length msg).
Proof.
  intros [H _]. apply Nat.even_spec. rewrite <- Nat.negb_odd.
  unfold len in H. rewrite <- (Nat2Z.inj_mod _ 2) in H.
  pose proof (Nat.bit0_mod (length msg)) as Hb. rewrite Nat.bit0_odd in Hb.
  destruct (Nat.odd (length msg)); [cbn [Nat.b2n] in Hb; lia|done].
Qed.

Lemma valid_msg_words msg : valid_msg msg -> Z.of_nat (length (words msg)) <= 2 ^ 19.
Proof.
  intros Hv. pose proof (words_length _ (valid_msg_even _ Hv)). destruct Hv as [_ Hv].
  unfold len, polyNumPolys in Hv. lia.
Qed.

Lemma needed_pts_bound n p : Z.of_nat n <= 2 ^ 19 -> Z.of_nat (needed_pts n p) < 2 ^ 16.
Proof.
  intros Hn. unfold needed_pts.
  assert (Z.of_nat (n / 16) <= 2 ^ 15) by (rewrite Nat2Z.inj_div; apply Z.div_le_upper_bound; lia).
  case_decide; lia.
Qed.

Lemma newGF16_inj x y : is_u16 x -> is_u16 y -> newGF16 x = newGF16 y -> x = y.
Proof.
  intros Hx Hy E. apply (f_equal gf_val) in E. by rewrite !gf_val_new, !u16_id in E.
Qed.

Definition column_points (pts : list gf16) : list point :=
  imap (fun j y => mkPoint (newGF16 (Z.of_nat j)) y) pts.

Lemma column_points_nodup pts :
  Z.of_nat (length pts) < 2 ^ 16 -> NoDup (px <$> column_points pts).
Proof.
  intros Hl. apply NoDup_alt. unfold column_points. intros i j x Hi Hj.
  rewrite list_lookup_fmap, list_lookup_imap in Hi, Hj.
  destruct (pts !! i) eqn:Ei; [|done]. destruct (pts !! j) eqn:Ej; [|done].
  apply lookup_lt_Some in Ei, Ej. apply Nat2Z.inj, newGF16_inj; [unfold is_u16; lia..|].
  cbn [fmap option_fmap option_map px] in Hi, Hj. congruence.
Qed.

(** The polynomial of a column passes through the words of the column. *)
Lemma column_poly pts x y :
  Z.of_nat (length pts) < 2 ^ 16 -> pts !! x = Some y ->
  ev (interpolate_column pts) (newGF16 (Z.of_nat x)) = y.
Proof.
  intros Hl Hx. unfold interpolate_column. fold (column_points pts).
  destruct (lagrange_spec _ (column_points_nodup pts Hl)) as [_ Hev].
  apply (Hev x (mkPoint (newGF16 (Z.of_nat x)) y)).
  unfold column_points. by rewrite list_lookup_imap, Hx.
Qed.

Lemma interpolate_column_length pts :
  Z.of_nat (length pts) < 2 ^ 16 -> length (interpolate_column pts) = length pts.
Proof.
  intros Hl. unfold interpolate_column. fold (column_points pts).
  rewrite (proj1 (lagrange_spec _ (column_points_nodup pts Hl))). apply length_imap.
Qed.

Definition columns (ws : list Z) : list (list gf16) := (fun p => column p 0 ws) <$> seq 0 16.

Lemma columns_lookup ws p : (p < 16)%nat -> columns ws !! p = Some (column p 0 ws).
Proof. intros Hp. unfold columns. by rewrite list_lookup_fmap, lookup_seq_lt. Qed.

(** The states an encoder of [msg] goes through. *)
Definition enc_ok (msg : bytes) (e : polyEncoder) : Prop :=
  enc_msg e = msg /\ enc_points e = columns (words msg) /\
  (enc_polys e = replicate 16 None \/
   enc_polys e = (Some ∘ interpolate_column) <$> columns (words msg)).

Lemma newPolyEncoder_eq msg :
  valid_msg msg -> newPolyEncoder msg = Ok (mkEncoder 0 msg (columns (words msg)) (replicate 16 None)).
Proof.
  intros Hv. pose proof (valid_msg_even _ Hv) as He. destruct Hv as [H1 H2].
  unfold newPolyEncoder. rewrite H1. cbn [Z.eqb negb check mbind res_bind].
  assert ((len msg >? 2 ^ 16 * polyNumPolys) = false) as -> by lia. cbn [check].
  by rewrite encode_points_spec by done.
Qed.

Lemma newPolyEncoder_ok msg :
  valid_msg msg -> exists e, newPolyEncoder msg = Ok e /\ enc_ok msg e /\ enc_idx e = 0.
Proof.
  intros Hv. rewrite newPolyEncoder_eq by done. eexists. split; [reflexivity|].
  split; [|done]. split_and!; [done|done|by left].
Qed.

Lemma pointAt_spec msg e p idx :
  valid_msg msg -> enc_ok msg e -> 0 <= p < 16 -> is_u16 idx ->
  exists e', pointAt e p idx = (e', Ok (codeval (words msg) p idx)) /\
    enc_ok msg e' /\ enc_idx e' = enc_idx e.
Proof.
  intros Hv He Hp Hidx. pose proof He as (Hmsg & Hpts & Hpolys). unfold pointAt.
  rewrite Hpts, columns_lookup by lia.
  set (col := column (Z.to_nat p) 0 (words msg)).
  assert (Z.of_nat (length col) < 2 ^ 16) as Hcol.
  { unfold col. rewrite column_length by lia. apply needed_pts_bound, valid_msg_words, Hv. }
  unfold is_u16 in Hidx. destruct (Z.ltb_spec idx (len col)) as [Hlt|Hge].
  - destruct (lookup_lt_is_Some_2 col (Z.to_nat idx)) as [y Hy]; [unfold len in *; lia|].
    rewrite Hy. exists e. split_and!; [|done..]. do 2 f_equal. unfold codeval. fold col.
    rewrite <- (Z2Nat.id idx) by lia. by rewrite (column_poly col _ y).
  - assert (fill_polys e =
      mkEncoder (enc_idx e) msg (columns (words msg)) ((Some ∘ interpolate_column) <$> columns (words msg))) as Hf.
    { unfold fill_polys. destruct e as [i m pts polys]; cbn in *. subst m pts.
      destruct Hpolys as [->| ->]; reflexivity. }
    rewrite Hf. cbn [enc_polys]. rewrite list_lookup_fmap, columns_lookup by lia. cbn [fmap option_fmap option_map compose].
    eexists. split; [by rewrite eval_ev, u16_id by done|].
    split; [|done]. split_and!; [done..|by right].
Qed.

Lemma chunkAt_loop_spec msg ixs e idx data :
  valid_msg msg -> enc_ok msg e -> is_u16 idx -> Forall (fun i => 0 <= i < 16) ixs ->
  exists e', chunkAt_loop ixs idx data e =
      (e', Ok (data ++ mjoin ((fun i => word_bytes (codeval (words msg) i idx)) <$> ixs))) /\
    enc_ok msg e' /\ enc_idx e' = enc_idx e.
Proof.
  intros Hv He Hidx Hixs. revert e data He. induction Hixs as [|i ixs Hi Hixs IH]; intros e data He.
  - exists e. cbn. by rewrite app_nil_r.
  - cbn [chunkAt_loop]. unfold polyNumPolys.
    replace ((idx * 16 + i) mod 16) with i by (rewrite Z.add_comm, Z.mod_add, Z.mod_small; lia).
    replace ((idx * 16 + i) / 16) with idx by (rewrite Z.add_comm, Z.div_add, Z.div_small; lia).
    destruct (pointAt_spec msg e i idx Hv He Hi Hidx) as (e1 & E1 & Hok1 & Hidx1).
    rewrite (st_bind_run _ _ _ _ _ E1).
    destruct (IH e1 (data ++ word_bytes (codeval (words msg) i idx)) Hok1) as (e2 & E2 & Hok2 & Hidx2).
    exists e2. rewrite E2, fmap_cons, mjoin_cons, <- app_assoc. split_and!; [done..|congruence].
Qed.

(** [chunkAt] returns the code word, and only fills the memo table. *)
Lemma chunkAt_spec msg e idx :
  valid_msg msg -> enc_ok msg e -> is_u16 idx ->
  exists e', chunkAt idx e = (e', Ok (chunk_of (words msg) idx)) /\
    enc_ok msg e' /\ enc_idx e' = enc_idx e.
Proof.
  intros Hv He Hidx. unfold chunkAt.
  destruct (chunkAt_loop_spec msg (seqZ 0 polyNumPolys) e idx [] Hv He Hidx) as (e' & E & Hok & Hi).
  { apply Forall_forall. intros i Hi. apply elem_of_seqZ in Hi. unfold polyNumPolys in Hi. lia. }
  exists e'. rewrite (st_bind_run _ _ _ _ _ E). split_and!; done.
Qed.

Lemma nextChunk_spec msg e :
  valid_msg msg -> enc_ok msg e ->
  exists e', nextChunk e = (e', Ok (chunk_of (words msg) (u16 (enc_idx e)))) /\
    enc_ok msg e' /\ enc_idx e' = u32 (enc_idx e + 1).
Proof.
  intros Hv He. unfold nextChunk.
  destruct (chunkAt_spec msg e (u16 (enc_idx e)) Hv He (u16_range _)) as (e1 & E1 & Hok1 & Hi1).
  unfold mbind, st_bind, st_get. rewrite E1. cbn [st_modify mret st_ret].
  eexists. split; [reflexivity|]. split; [done|]. cbn. by rewrite Hi1.
Qed.

(** ** The decoder *)

(** The two data bytes of polynomial [i] in a chunk of the message. *)
Lemma join_pairs_lookup (f : Z -> gf16) n i :
  0 <= i < Z.of_nat n ->
  let l := mjoin ((fun i => word_bytes (f i)) <$> seqZ 0 (Z.of_nat n)) in
  length l = (2 * n)%nat /\
  exists hi lo, l !! Z.to_nat (i * 2) = Some hi /\ l !! Z.to_nat (i * 2 + 1) = Some lo /\
    word_bytes (f i) = [hi; lo].
Proof.
  cbv zeta.
  assert (forall k, length (mjoin ((fun i => word_bytes (f i)) <$> seqZ 0 (Z.of_nat k))) = (2 * k)%nat) as Hlen.
  { clear. induction k as [|k IH]; [done|].
    replace (Z.of_nat (S k)) with (Z.of_nat k + 1) by lia.
    rewrite seqZ_snoc by lia. rewrite mjoin_snoc, length_app, IH. cbn [word_bytes length]. lia. }
  intros Hi. split; [apply Hlen|]. revert Hi. induction n as [|n IH]; intros Hi; [lia|].
  replace (Z.of_nat (S n)) with (Z.of_nat n + 1) by lia. rewrite seqZ_snoc by lia.
  rewrite mjoin_snoc. destruct (decide (i < Z.of_nat n)) as [Hlt|Hge].
  - destruct (IH ltac:(lia)) as (hi & lo & H1 & H2 & H3). exists hi, lo.
    rewrite !lookup_app_l by (rewrite Hlen; lia). done.
  - assert (i = Z.of_nat n) as -> by lia.
    eexists _, _. rewrite !lookup_app_r, Hlen by (rewrite Hlen; lia).
    replace (Z.to_nat (Z.of_nat n * 2) - 2 * n)%nat with 0%nat by lia.
    replace (Z.to_nat (Z.of_nat n * 2 + 1) - 2 * n)%nat with 1%nat by lia. done.
Qed.

Lemma chunk_of_data ws idx i :
  0 <= i < 16 -> exists hi lo,
    vec_to_list (chunk_data (chunk_of ws idx)) !! Z.to_nat (i * 2) = Some hi /\
    vec_to_list (chunk_data (chunk_of ws idx)) !! Z.to_nat (i * 2 + 1) = Some lo /\
    newGF16 (word_of hi lo) = codeval ws i idx.
Proof.
  intros Hi. destruct (join_pairs_lookup (fun i => codeval ws i idx) 16 i Hi) as (Hlen & hi & lo & H1 & H2 & H3).
  exists hi, lo. unfold chunk_of. cbn [chunk_data]. rewrite vec_list_to_arr by exact Hlen.
  split_and!; [done..|]. by apply word_of_word_bytes.
Qed.

(** What a column of the decoder knows after seeing the chunk indices [S]. *)
Definition col_inv (ws : list Z) (i : Z) (S : gset Z) (pts : gmap Z gf16) : Prop :=
  (forall x y, pts !! x = Some y -> x ∈ S /\ y = codeval ws i x) /\
  (dom pts = S \/ (needed_pts (length ws) (Z.to_nat i) <= size pts)%nat).

Record dec_ok (ws : list Z) (S : gset Z) (d : polyDecoder) : Prop := {
  dec_ok_needed : ptsNeeded d = len ws;
  dec_ok_open : isComplete d = false;
  dec_ok_length : length (dec_points d) = 16%nat;
  dec_ok_col : forall i pts, dec_points d !! Z.to_nat i = Some pts -> 0 <= i -> col_inv ws i S pts
}.

Lemma necessaryPoints_needed d (ws : list Z) i :
  ptsNeeded d = len ws -> 0 <= i -> necessaryPoints d i = Z.of_nat (needed_pts (length ws) (Z.to_nat i)).
Proof.
  intros Hn Hi. unfold necessaryPoints, needed_pts, polyNumPolys. rewrite Hn. unfold len.
  rewrite <- (Nat2Z.inj_mod _ 16), <- (Nat2Z.inj_div _ 16).
  destruct (Z.ltb_spec i (Z.of_nat (length ws mod 16))); case_decide; lia.
Qed.

Lemma col_inv_insert ws i S pts idx :
  col_inv ws i S pts -> pts !! idx = None ->
  col_inv ws i ({[idx]} ∪ S) (<[idx := codeval ws i idx]> pts).
Proof.
  intros [Hval Hdom] Hnone. split.
  - intros x y. rewrite lookup_insert. case_decide as Hx.
    + intros E. injection E as <-. subst x. split; [clear; set_solver|done].
    + intros [Hin ->]%Hval. split; [clear -Hin; set_solver|done].
  - destruct Hdom as [<-|Hsz]; [left; apply dom_insert_L|right].
    rewrite map_size_insert_None by done. lia.
Qed.

Lemma col_inv_keep ws i S pts idx :
  col_inv ws i S pts -> is_Some (pts !! idx) \/ (needed_pts (length ws) (Z.to_nat i) <= size pts)%nat ->
  col_inv ws i ({[idx]} ∪ S) pts.
Proof.
  intros [Hval Hdom] Hkeep. split.
  - intros x y [Hin ->]%Hval. split; [clear -Hin; set_solver|done].
  - destruct Hdom as [<-|Hsz]; [|by right]. destruct Hkeep as [Hin|]; [left|by right].
    apply elem_of_dom in Hin. clear -Hin. apply set_eq. intros x. rewrite elem_of_union, elem_of_singleton.
    split; [by right|]. intros [->|]; done.
Qed.

(** One column of [addChunk]: column [i] learns the value at [idx] unless it
    has enough points already. *)
Lemma addChunk_step_spec ws S d idx i :
  is_u16 idx -> 0 <= i < 16 -> ptsNeeded d = len ws -> length (dec_points d) = 16%nat ->
  (forall pts, dec_points d !! Z.to_nat i = Some pts -> col_inv ws i S pts) ->
  exists pts', addChunk_step (chunk_of ws idx) d i =
      mkDecoder (ptsNeeded d) (<[Z.to_nat i := pts']> (dec_points d)) (isComplete d) /\
    col_inv ws i ({[idx]} ∪ S) pts'.
Proof.
  intros Hidx Hi Hn Hlen Hcol. unfold is_u16 in Hidx. unfold addChunk_step, polyNumPolys.
  change (chunk_index (chunk_of ws idx)) with idx.
  replace ((idx * 16 + i) mod 16) with i by (rewrite Z.add_comm, Z.mod_add, Z.mod_small; lia).
  replace ((idx * 16 + i) / 16) with idx by (rewrite Z.add_comm, Z.div_add, Z.div_small; lia).
  rewrite u16_id by done.
  destruct (chunk_of_data ws idx i Hi) as (hi & lo & H1 & H2 & H3). rewrite H1, H2, H3.
  destruct (lookup_lt_is_Some_2 (dec_points d) (Z.to_nat i)) as [pts Hpts]; [lia|]. rewrite Hpts.
  specialize (Hcol pts Hpts). rewrite (necessaryPoints_needed d ws i) by (done || lia).
  assert (forall r, col_inv ws i ({[idx]} ∪ S) pts -> r = d ->
    exists pts', r = mkDecoder (ptsNeeded d) (<[Z.to_nat i := pts']> (dec_points d)) (isComplete d) /\
      col_inv ws i ({[idx]} ∪ S) pts') as Hsame.
  { intros r Hr ->. exists pts. rewrite list_insert_id by done. by destruct d. }
  destruct (Z.ltb_spec (Z.of_nat (size pts)) (Z.of_nat (needed_pts (length ws) (Z.to_nat i)))).
  - rewrite orb_true_r. destruct (pts !! idx) eqn:E.
    + apply Hsame; [|done]. apply col_inv_keep; eauto.
    + eexists. split; [done|]. by apply col_inv_insert.
  - rewrite orb_false_r. destruct (idx <? _); [destruct (pts !! idx) eqn:E|].
    + apply Hsame; [|done]. apply col_inv_keep; eauto.
    + eexists. split; [done|]. by apply col_inv_insert.
    + apply Hsame; [|done]. apply col_inv_keep; [done|]. right. lia.
Qed.

(** A decoder that receives a chunk of the message has seen one more index. *)
Lemma addChunk_spec ws S d idx :
  is_u16 idx -> dec_ok ws S d -> dec_ok ws ({[idx]} ∪ S) (addChunk d (chunk_of ws idx)).
Proof.
  intros Hidx [Hn Ho Hl Hc]. unfold addChunk.
  assert ((fun k d' => ptsNeeded d' = len ws /\ isComplete d' = false /\ length (dec_points d') = 16%nat /\
    forall i pts, dec_points d' !! Z.to_nat i = Some pts -> 0 <= i ->
      col_inv ws i (if i <? k then {[idx]} ∪ S else S) pts) polyNumPolys
    (foldl (addChunk_step (chunk_of ws idx)) d (seqZ 0 polyNumPolys))) as (H1 & H2 & H3 & H4).
  { apply foldl_seqZ_ind; [done| |].
    - split_and!; [done..|]. intros i pts Hi H0. rewrite (proj2 (Z.ltb_ge i 0)) by lia. by apply Hc.
    - unfold polyNumPolys. intros k d' Hk (H1 & H2 & H3 & H4).
      destruct (addChunk_step_spec ws S d' idx k Hidx Hk H1 H3) as (pts' & -> & Hpts').
      { intros pts Hpts. specialize (H4 k pts Hpts ltac:(lia)). by rewrite Z.ltb_irrefl in H4. }
      cbn. split_and!; [done..|by rewrite length_insert|].
      intros i pts Hi H0. destruct (decide (i = k)) as [->|Hik].
      + rewrite list_lookup_insert_eq in Hi by lia. simplify_eq.
        by rewrite (proj2 (Z.ltb_lt k (k + 1))) by lia.
      + rewrite list_lookup_insert_ne in Hi by lia. specialize (H4 i pts Hi H0).
        by destruct (Z.ltb_spec i k), (Z.ltb_spec i (k + 1)); try lia. }
  split; [done..|]. intros i pts Hi H0. specialize (H4 i pts Hi H0).
  assert (i < 16) by (apply lookup_lt_Some in Hi; lia).
  unfold polyNumPolys in H4. by rewrite (proj2 (Z.ltb_lt i 16)) in H4 by done.
Qed.

(** *** Reconstruction *)

Lemma sortedKeys_perm {A} (m : gmap Z A) : sortedKeys m ≡ₚ (map_to_list m).*1.
Proof. apply merge_sort_Permutation. Qed.

Lemma sortedKeys_nodup {A} (m : gmap Z A) : NoDup (sortedKeys m).
Proof. rewrite sortedKeys_perm. apply NoDup_fst_map_to_list. Qed.

Lemma elem_of_sortedKeys {A} (m : gmap Z A) x : x ∈ sortedKeys m <-> is_Some (m !! x).
Proof.
  rewrite sortedKeys_perm, list_elem_of_fmap. split.
  - intros ([k y] & -> & H%elem_of_map_to_list). eauto.
  - intros [y H]. exists (x, y). by rewrite elem_of_map_to_list.
Qed.

Lemma sortedKeys_length {A} (m : gmap Z A) : length (sortedKeys m) = size m.
Proof. by rewrite sortedKeys_perm, length_fmap, length_map_to_list. Qed.

(** The points used for interpolation: as many as needed, distinct, and all on
    the polynomial of the column. *)
Lemma sortedPoints_spec ws i S pts n :
  (forall x, x ∈ S -> is_u16 x) -> col_inv ws i S pts -> (n <= size pts)%nat ->
  let vec := sortedPoints pts (Z.of_nat n) in
  length vec = n /\ NoDup (px <$> vec) /\
  forall k pk, vec !! k = Some pk -> exists x, px pk = newGF16 x /\ py pk = codeval ws i x.
Proof.
  intros HS [Hval _] Hn. cbv zeta. unfold sortedPoints.
  assert (len (sortedKeys pts) = Z.of_nat (size pts)) as Hl by (unfold len; by rewrite sortedKeys_length).
  destruct (Z.gtb_spec (Z.of_nat n) (len (sortedKeys pts))); [lia|]. rewrite Nat2Z.id.
  set (keys := take n (sortedKeys pts)).
  assert (forall x, x ∈ keys -> exists y, pts !! x = Some y) as Hin.
  { intros x Hx. apply elem_of_sortedKeys. eapply elem_of_take in Hx as (j & Hj & _).
    by eapply list_elem_of_lookup_2. }
  assert (NoDup keys) as Hnd by (eapply sublist_NoDup; [apply (sortedKeys_nodup pts)|apply sublist_take]).
  assert (length keys = n) as Hlk by (unfold keys; rewrite length_take, sortedKeys_length; lia).
  assert (omap (fun x => mkPoint (newGF16 x) <$> pts !! x) keys =
    (fun x => mkPoint (newGF16 x) (codeval ws i x)) <$> keys) as ->.
  { clear -Hin Hval. induction keys as [|x keys IH]; [done|]. cbn [omap list_omap fmap list_fmap].
    destruct (Hin x ltac:(by left)) as [y Hy]. rewrite Hy. cbn. destruct (Hval _ _ Hy) as [_ ->].
    f_equal. apply IH. intros z Hz. apply Hin. by right. }
  rewrite length_fmap. split_and!; [done| |].
  - rewrite <- list_fmap_compose. apply NoDup_fmap_2_strong; [|done].
    intros x y Hx Hy E. cbn in E. apply newGF16_inj; [| |done].
    + destruct (Hin x Hx) as [? Hv]. by apply HS, (Hval x _ Hv).
    + destruct (Hin y Hy) as [? Hv]. by apply HS, (Hval y _ Hv).
  - intros k pk Hk. apply list_lookup_fmap_Some in Hk as (x & -> & _). eauto.
Qed.

(** The stored points of a column, interpolated, give back its polynomial. *)
Lemma column_recovered ws i S pts x :
  (forall x, x ∈ S -> is_u16 x) -> 0 <= i < 16 -> Z.of_nat (length ws) <= 2 ^ 19 ->
  col_inv ws i S pts -> (needed_pts (length ws) (Z.to_nat i) <= size pts)%nat ->
  ev (lagrangeInterpolate (sortedPoints pts (Z.of_nat (needed_pts (length ws) (Z.to_nat i))))) (newGF16 x)
  = codeval ws i x.
Proof.
  intros HS Hi Hn Hinv Hsz.
  destruct (sortedPoints_spec ws i S pts _ HS Hinv Hsz) as (Hlen & Hnd & Hpt).
  unfold codeval. apply lagrange_recovers; [done| |].
  - rewrite Hlen, interpolate_column_length, column_length by
      (rewrite ?column_length by lia; auto using needed_pts_bound || lia). done.
  - intros k pk Hk. destruct (Hpt k pk Hk) as (y & -> & ->). reflexivity.
Qed.

Definition colmap (d : polyDecoder) (i : Z) : gmap Z gf16 := default ∅ (dec_points d !! Z.to_nat i).

Lemma colmap_lookup ws S d i :
  dec_ok ws S d -> 0 <= i < 16 -> dec_points d !! Z.to_nat i = Some (colmap d i) /\ col_inv ws i S (colmap d i).
Proof.
  intros [_ _ Hl Hc] Hi. unfold colmap.
  destruct (lookup_lt_is_Some_2 (dec_points d) (Z.to_nat i)) as [pts Hpts]; [lia|].
  rewrite Hpts. split; [done|]. apply Hc; [done|lia].
Qed.

Lemma needed_pts_pos n p : (16 <= n)%nat -> (p < 16)%nat -> (1 <= needed_pts n p)%nat.
Proof. intros Hn Hp. apply (needed_pts_lt n p 0); [done|]. lia. Qed.

Section decode.
Context (ws : list Z) (S : gset Z) (d : polyDecoder).
Hypothesis Hdec : dec_ok ws S d.
Hypothesis HS : forall x, x ∈ S -> is_u16 x.
Hypothesis Hmin : (16 <= length ws)%nat.
Hypothesis Hmax : Z.of_nat (length ws) <= 2 ^ 19.

Let needed (i : Z) : nat := needed_pts (length ws) (Z.to_nat i).
Let vec (i : Z) : list point := sortedPoints (colmap d i) (Z.of_nat (needed i)).

Lemma collect_points_full ixs acc :
  Forall (fun i => 0 <= i < 16 /\ (needed i <= size (colmap d i))%nat) ixs ->
  collect_points d ixs acc = Ok (Some (acc ++ (vec <$> ixs))).
Proof.
  intros H. revert acc. induction H as [|i ixs [Hi Hsz] _ IH]; intros acc.
  { cbn. by rewrite app_nil_r. }
  destruct (colmap_lookup ws S d i Hdec Hi) as [Hlk Hinv].
  cbn [collect_points]. rewrite Hlk, (necessaryPoints_needed d ws i) by (apply Hdec || lia).
  destruct (Z.ltb_spec (Z.of_nat (size (colmap d i))) (Z.of_nat (needed_pts (length ws) (Z.to_nat i))));
    [unfold needed in Hsz; lia|].
  destruct (sortedPoints_spec ws i S (colmap d i) (needed i) HS Hinv Hsz) as (Hlen & _ & _).
  fold (needed i). fold (vec i). fold (vec i) in Hlen.
  destruct (Z.eqb_spec (len (vec i)) 0) as [E|_].
  { pose proof (needed_pts_pos (length ws) (Z.to_nat i) Hmin ltac:(lia)).
    unfold len in E. rewrite Hlen in E. unfold needed in E. lia. }
  rewrite IH, fmap_cons, <- app_assoc. done.
Qed.

Lemma collect_points_short ixs acc :
  Forall (fun i => 0 <= i < 16) ixs -> Exists (fun i => size (colmap d i) < needed i)%nat ixs ->
  collect_points d ixs acc = Ok None.
Proof.
  intros H Hex. revert acc. induction H as [|i ixs Hi _ IH]; intros acc; [by apply Exists_nil in Hex|].
  destruct (colmap_lookup ws S d i Hdec Hi) as [Hlk Hinv].
  cbn [collect_points]. rewrite Hlk, (necessaryPoints_needed d ws i) by (apply Hdec || lia).
  destruct (Z.ltb_spec (Z.of_nat (size (colmap d i))) (Z.of_nat (needed_pts (length ws) (Z.to_nat i))))
    as [|Hge]; [done|].
  destruct (sortedPoints_spec ws i S (colmap d i) (needed i) HS Hinv) as (Hlen & _ & _);
    [unfold needed; lia|].
  fold (needed i). fold (vec i). fold (vec i) in Hlen.
  destruct (Z.eqb_spec (len (vec i)) 0) as [E|_].
  { pose proof (needed_pts_pos (length ws) (Z.to_nat i) Hmin ltac:(lia)).
    unfold len in E. rewrite Hlen in E. unfold needed in E. lia. }
  apply IH. apply Exists_cons in Hex as [Hlt|]; [unfold needed in Hlt; lia|done].
Qed.

Lemma decode_words_spec ixs polys out :
  Forall (fun i => 0 <= i < 2 ^ 19) ixs ->
  (forall i, 0 <= i < 16 -> (needed i <= size (colmap d i))%nat) ->
  length polys = 16%nat ->
  (forall i p, 0 <= i < 16 -> polys !! Z.to_nat i = Some (Some p) -> p = lagrangeInterpolate (vec i)) ->
  decode_words d (vec <$> seqZ 0 16) ixs polys out =
  Ok (out ++ mjoin ((fun i => word_bytes (codeval ws (i mod 16) (i / 16))) <$> ixs)).
Proof.
  intros Hixs Hfull. revert polys out. induction Hixs as [|i ixs Hi _ IH]; intros polys out Hlen Hmemo.
  { cbn. by rewrite app_nil_r. }
  assert (0 <= i mod 16 < 16) as Hm by (apply Z.mod_pos_bound; lia).
  assert (is_u16 (i / 16)) as Hx.
  { split; [apply Z.div_pos; lia|]. apply Z.div_lt_upper_bound; lia. }
  destruct (colmap_lookup ws S d (i mod 16) Hdec Hm) as [Hlk Hinv].
  cbn [decode_words]. unfold polyNumPolys.
  rewrite Hlk, list_lookup_fmap, lookup_seqZ_lt, Z.add_0_l, Z2Nat.id, u16_id by (done || lia).
  cbn [fmap option_fmap option_map].
  destruct (lookup_lt_is_Some_2 polys (Z.to_nat (i mod 16))) as [memo Hmm]; [lia|]. rewrite Hmm.
  rewrite fmap_cons, mjoin_cons.
  destruct (colmap d (i mod 16) !! (i / 16)) as [y|] eqn:E.
  - destruct Hinv as [Hval _]. destruct (Hval _ _ E) as [_ ->]. rewrite IH by done.
    by rewrite <- app_assoc.
  - set (p := match memo with Some p => p | None => _ end).
    assert (p = lagrangeInterpolate (vec (i mod 16))) as ->.
    { unfold p. destruct memo as [p'|]; [by apply Hmemo|done]. }
    assert (ev (lagrangeInterpolate (vec (i mod 16))) (newGF16 (i / 16)) = codeval ws (i mod 16) (i / 16)) as Hrec
      by (apply (column_recovered ws (i mod 16) S); auto; by apply Hfull).
    rewrite eval_ev, Hrec, IH; [by rewrite <- app_assoc|by rewrite length_insert|].
    intros j q Hj Hq. destruct (decide (Z.to_nat (i mod 16) = Z.to_nat j)) as [Hij|Hij].
    + rewrite Hij, list_lookup_insert_eq in Hq by lia. injection Hq as <-. do 2 f_equal. lia.
    + rewrite list_lookup_insert_ne in Hq by done. by apply Hmemo.
Qed.
End decode.

Lemma codeval_word ws i w :
  Z.of_nat (length ws) <= 2 ^ 19 -> ws !! i = Some w ->
  codeval ws (Z.of_nat i mod 16) (Z.of_nat i / 16) = newGF16 w.
Proof.
  intros Hmax Hw. unfold codeval.
  rewrite <- (Nat2Z.inj_mod _ 16), <- (Nat2Z.inj_div _ 16), Nat2Z.id.
  assert (i mod 16 < 16)%nat by (apply Nat.mod_upper_bound; lia).
  apply column_poly; [rewrite column_length by done; by apply needed_pts_bound|].
  rewrite (column_lookup (i mod 16) 0 ws (i / 16) (i mod 16)) by (done || by apply Nat.Div0.mod_mod).
  rewrite <- (Nat.div_mod_eq i 16), Hw. done.
Qed.

Lemma decoded_words ws :
  Z.of_nat (length ws) <= 2 ^ 19 ->
  (fun i => word_bytes (codeval ws (i mod 16) (i / 16))) <$> seqZ 0 (len ws) =
  (word_bytes ∘ newGF16) <$> ws.
Proof.
  intros Hmax. apply list_eq. intros i. rewrite !list_lookup_fmap.
  destruct (ws !! i) as [w|] eqn:E.
  - rewrite lookup_seqZ_lt by (apply lookup_lt_Some in E; unfold len; lia).
    cbn. by rewrite Z.add_0_l, (codeval_word ws i w).
  - rewrite lookup_seqZ_ge; [done|]. apply lookup_ge_None in E. unfold len. lia.
Qed.

(** A decoder that knows the chunks [S] of the message returns the message when
    every column is full and nothing otherwise. *)
Lemma decodedMessage_spec ws S d :
  dec_ok ws S d -> (forall x, x ∈ S -> is_u16 x) ->
  (16 <= length ws)%nat -> Z.of_nat (length ws) <= 2 ^ 19 ->
  decodedMessage d = Ok (if decide (len ws <= 16 * Z.of_nat (size S))
                         then Some (mjoin ((word_bytes ∘ newGF16) <$> ws)) else None).
Proof.
  intros Hdec HS Hmin Hmax. unfold decodedMessage. rewrite (dec_ok_open _ _ _ Hdec).
  assert (forall i, (size (colmap d i) <= size S)%nat \/ ~ 0 <= i < 16) as Hle.
  { intros i. destruct (decide (0 <= i < 16)) as [Hi|]; [left|by right].
    destruct (colmap_lookup ws S d i Hdec Hi) as [_ [Hval _]]. rewrite <- size_dom.
    apply subseteq_size. intros x [y Hy]%elem_of_dom. by apply (Hval x y). }
  case_decide as Hsz; unfold len in Hsz.
  - assert (forall i, 0 <= i < 16 -> (needed_pts (length ws) (Z.to_nat i) <= size (colmap d i))%nat) as Hfull.
    { intros i Hi. destruct (colmap_lookup ws S d i Hdec Hi) as [_ [_ [Hdom|]]]; [|done].
      rewrite <- size_dom, Hdom. apply Nat.nlt_ge. intros Hlt.
      apply (needed_pts_lt (length ws) (Z.to_nat i)) in Hlt; lia. }
    rewrite (collect_points_full ws S) by
      (done || (apply Forall_forall; intros i Hi%elem_of_seqZ; unfold polyNumPolys in Hi; auto with lia)).
    cbn [mbind res_bind app]. rewrite (dec_ok_needed _ _ _ Hdec).
    rewrite (decode_words_spec ws S); try done.
    + cbn [mbind res_bind app mret res_ret]. by rewrite decoded_words.
    + apply Forall_forall. intros i Hi%elem_of_seqZ. unfold len in Hi. lia.
    + intros i p Hi Hp. apply lookup_replicate in Hp as [Hp _]. done.
  - rewrite (collect_points_short ws S); try done.
    + apply Forall_forall. intros i Hi%elem_of_seqZ. unfold polyNumPolys in Hi. lia.
    + apply Exists_exists. exists 0. split; [by apply elem_of_seqZ|].
      destruct (Hle 0) as [H0|]; [|lia]. eapply Nat.le_lt_trans; [exact H0|].
      apply (needed_pts_lt (length ws)); lia.
Qed.

Lemma newPolyDecoder_ok msg :
  valid_msg msg -> exists d, newPolyDecoder (len msg) = Ok d /\ dec_ok (words msg) ∅ d.
Proof.
  intros Hv. unfold newPolyDecoder. rewrite (proj1 Hv). cbn [Z.eqb negb check mbind res_bind].
  eexists. split; [reflexivity|]. pose proof (words_length _ (valid_msg_even _ Hv)) as Hw.
  split; [|done|done|].
  - cbn [ptsNeeded]. unfold len. rewrite <- Hw, Nat2Z.inj_mul, Z.mul_comm, Z.div_mul by done. done.
  - intros i pts Hi _. apply lookup_replicate in Hi as [-> _]. split; [|left; apply dom_empty_L].
    intros x y. by rewrite lookup_empty.
Qed.

Lemma foldl_addChunk_ok ws S d idxs :
  Forall is_u16 idxs -> dec_ok ws S d ->
  dec_ok ws (list_to_set idxs ∪ S) (foldl addChunk d (chunk_of ws <$> idxs)).
Proof.
  intros H. revert S d. induction H as [|idx idxs Hidx _ IH]; intros S d Hd.
  - cbn. by rewrite union_empty_l_L.
  - cbn [fmap list_fmap foldl list_to_set].
    replace ({[idx]} ∪ list_to_set idxs ∪ S) with (list_to_set idxs ∪ ({[idx]} ∪ S))
      by (clear; set_solver).
    by apply IH, addChunk_spec.
Qed.

Lemma chunks_of_chunkAt msg e idxs cs :
  valid_msg msg -> enc_ok msg e -> Forall is_u16 idxs ->
  Forall2 (fun idx c => snd (chunkAt idx e) = Ok c) idxs cs -> cs = chunk_of (words msg) <$> idxs.
Proof.
  intros Hv He Hi H. induction H as [|idx c idxs cs Hc _ IH]; [done|]. inv Hi.
  cbn [fmap list_fmap]. f_equal; [|by apply IH].
  destruct (chunkAt_spec msg e idx Hv He) as (e' & E & _); [done|]. rewrite E in Hc.
  by injection Hc as <-.
Qed.

(** What a fresh decoder makes of any list of chunks of a message. *)
Lemma decode_chunks msg d idxs :
  valid_msg msg -> 32 <= len msg -> Forall is_u16 idxs -> newPolyDecoder (len msg) = Ok d ->
  decodedMessage (foldl addChunk d (chunk_of (words msg) <$> idxs)) =
  Ok (if decide (len msg <= 32 * Z.of_nat (size (list_to_set idxs : gset Z))) then Some msg else None).
Proof.
  intros Hv Hlen Hi Hd. destruct (newPolyDecoder_ok msg Hv) as (d' & E & Hok).
  rewrite E in Hd. injection Hd as ->.
  pose proof (foldl_addChunk_ok _ _ _ _ Hi Hok) as Hdec.
  pose proof (words_length _ (valid_msg_even _ Hv)) as Hw.
  assert (len msg = 2 * len (words msg)) as Hl by (unfold len; lia).
  rewrite (decodedMessage_spec (words msg) (list_to_set idxs ∪ ∅)); [|done| | |].
  - rewrite union_empty_r_L, words_bytes by by apply valid_msg_even.
    f_equal. case_decide; case_decide; (done || lia).
  - intros x. rewrite union_empty_r_L, elem_of_list_to_set. intros Hx.
    by apply (proj1 (Forall_forall _ _) Hi).
  - unfold len in *. lia.
  - by apply valid_msg_words.
Qed.

(** The chunks of [n] successive calls of [nextChunk]. *)
Fixpoint nextChunks (n : nat) : ST polyEncoder (list chunk) :=
  match n with
  | O => mret []
  | S n => c ← nextChunk; cs ← nextChunks n; mret (c :: cs)
  end.

Lemma nextChunks_spec msg n e :
  valid_msg msg -> enc_ok msg e -> 0 <= enc_idx e -> enc_idx e + Z.of_nat n <= 2 ^ 16 ->
  exists e', nextChunks n e = (e', Ok (chunk_of (words msg) <$> seqZ (enc_idx e) (Z.of_nat n))).
Proof.
  intros Hv. revert e. induction n as [|n IH]; intros e He H0 Hn; [by eexists|].
  destruct (nextChunk_spec msg e Hv He) as (e1 & E1 & Hok1 & Hi1).
  rewrite u32_id in Hi1 by (unfold is_u32; lia). rewrite u16_id in E1 by (unfold is_u16; lia).
  destruct (IH e1 Hok1) as (e2 & E2); [lia..|].
  exists e2. cbn [nextChunks]. rewrite (st_bind_run _ _ _ _ _ E1), (st_bind_run _ _ _ _ _ E2).
  rewrite Hi1, (seqZ_cons (enc_idx e)) by lia.
  replace (Z.pred (Z.of_nat (S n))) with (Z.of_nat n) by lia. done.
Qed.

(** ** The persisted formats *)

Lemma wp_encoder data : decodePolyEncoder data <> Panic.
Proof.
  apply wp_run. wp_steps. apply wp_readUint32; [lia..|]. intros idx _. wp_steps.
  apply wp_readUint32; [lia..|]. intros msgLen Hm. unfold is_u32 in Hm. wp_steps.
  apply wp_lift; [|done]. unfold newPolyEncoder.
  match goal with |- context [negb (?a =? 0)] => destruct (Z.eqb_spec a 0) as [He|He] end; [|done].
  cbn [negb check mbind res_bind]. destruct (_ >? _); [done|]. cbn [check].
  rewrite encode_points_spec; [done|done|]. apply Nat.even_spec. rewrite <- Nat.negb_odd.
  match type of He with len ?l mod 2 = 0 => unfold len in He;
    pose proof (Nat.bit0_mod (length l)) as Hb; rewrite Nat.bit0_odd in Hb;
    rewrite <- (Nat2Z.inj_mod _ 2) in He; destruct (Nat.odd (length l)); [cbn [Nat.b2n] in Hb; lia|done] end.
Qed.

(** A persisted encoder comes back with its position and its message, without
    the polynomials it may have computed. *)
Definition enc_reset (e : polyEncoder) : polyEncoder :=
  mkEncoder (enc_idx e) (enc_msg e) (enc_points e) (replicate 16 None).

Lemma enc_reset_ok msg e : enc_ok msg e -> enc_ok msg (enc_reset e).
Proof. intros (H1 & H2 & _). split_and!; [done|done|by left]. Qed.

Lemma decodePolyEncoder_serialize msg e :
  valid_msg msg -> enc_ok msg e -> is_u32 (enc_idx e) -> decodePolyEncoder (encoder_serialize e) = Ok (enc_reset e).
Proof.
  intros Hv (Hm & Hp & _) Hidx.
  assert (is_u32 (len msg)) as Hlen.
  { destruct Hv as [_ Hv]. unfold polyNumPolys in Hv. pose proof (len_nonneg msg). unfold is_u32. lia. }
  unfold decodePolyEncoder, encoder_serialize, enc_reset. rewrite Hm, Hp, u32_id by done.
  set (enc := appendUint32 _ ++ _ ++ msg).
  assert (8 <= len enc) as H8.
  { unfold enc. rewrite !len_app. pose proof (len_nonneg msg). unfold appendUint32. autorewrite with len. lia. }
  apply reads_end_run, reads_end_of.
  apply reads_need; [done|]. eapply reads_bind; [by apply reads_readUint32|].
  eapply reads_bind; [by apply reads_readUint32|]. apply reads_need; [lia|].
  eapply reads_bind_end; [by apply reads_take|]. eapply reads_bind_nil; [by apply reads_lift, newPolyEncoder_eq|].
  apply reads_ret.
Qed.

(** The decoders the code can build: sixteen maps keyed by 16-bit numbers. *)
Record dec_wf (d : polyDecoder) : Prop := {
  dec_wf_needed : is_u32 (ptsNeeded d);
  dec_wf_length : length (dec_points d) = 16%nat;
  dec_wf_keys : Forall (fun m => forall k, is_Some (m !! k) -> is_u16 k) (dec_points d)
}.

Lemma u16_keys_size {A} (m : gmap Z A) :
  (forall k, is_Some (m !! k) -> is_u16 k) -> Z.of_nat (size m) <= 2 ^ 16.
Proof.
  intros H. apply (keys_range_size m 0); [lia|]. exact H.
Qed.

Lemma foldl_sortedKeys {A} (m : gmap Z A) (f : Z -> A) :
  (forall k v, m !! k = Some v -> f k = v) ->
  foldl (fun acc k => <[k := f k]> acc) ∅ (sortedKeys m) = m.
Proof.
  intros Hf. apply map_eq. intros k. rewrite foldl_insert_lookup, lookup_empty.
  case_decide as Hk; rewrite elem_of_sortedKeys in Hk.
  - destruct Hk as [v Hv]. by rewrite Hv, (Hf k v).
  - symmetry. by apply eq_None_not_Some.
Qed.

Lemma reads_decoder_points m :
  (forall k, is_Some (m !! k) -> is_u16 k) ->
  reads decodePolyDecoder_points
    (appendUint32 (u32 (len (sortedKeys m))) ++
     mjoin ((fun k => appendUint16 (u16 k) ++ appendUint16 (gf_val (default (newGF16 0) (m !! k)))) <$> sortedKeys m)) m.
Proof.
  intros Hk. pose proof (u16_keys_size m Hk) as Hsz.
  assert (len (sortedKeys m) = Z.of_nat (size m)) as Hl by (unfold len; by rewrite sortedKeys_length).
  rewrite u32_id by (unfold is_u32; lia).
  apply reads_need.
  { rewrite len_app. unfold appendUint32 at 1. autorewrite with len.
    match goal with |- context [len (mjoin ?l)] => pose proof (len_nonneg (mjoin l)) end. lia. }
  eapply reads_bind; [apply reads_readUint32; unfold is_u32; lia|].
  unfold len. rewrite Nat2Z.id.
  eapply reads_eq; [|apply (foldl_sortedKeys m (fun k => default (newGF16 0) (m !! k))); by intros k v ->].
  apply reads_for. intros acc k Hin%elem_of_sortedKeys. apply Hk in Hin.
  apply reads_need; [done|]. rewrite u16_id by done.
  eapply reads_bind; [by apply reads_readUint16|].
  eapply reads_bind_end; [apply reads_readUint16, gf_range|].
  rewrite newGF16_val. apply reads_ret.
Qed.

(** A persisted decoder is restored exactly. *)
Lemma decodePolyDecoder_serialize d :
  dec_wf d -> decodePolyDecoder (decoder_serialize d) = Ok d.
Proof.
  intros [Hn Hl Hk]. unfold decodePolyDecoder, decoder_serialize. rewrite u32_id by done.
  set (enc := appendUint32 _ ++ _).
  assert (5 <= len enc) as H5.
  { unfold enc, appendUint32 at 1. autorewrite with len.
    match goal with |- context [len (mjoin ?l)] => pose proof (len_nonneg (mjoin l)) end. lia. }
  apply reads_end_run. apply reads_end_need; [done|].
  eapply reads_end_bind; [by apply reads_readUint32|]. eapply reads_end_bind; [apply reads_byte|].
  eapply reads_end_last.
  { rewrite <- Hl. apply (reads_for _ _ (fun acc m => acc ++ [m])). intros acc m Hm.
    eapply reads_bind_end; [|apply reads_ret]. apply reads_decoder_points.
    exact (proj1 (Forall_forall _ _) Hk m Hm). }
  apply reads_end_eof, reads_end_of. rewrite foldl_snoc.
  destruct d as [n pts []]; apply reads_ret.
Qed.

Lemma decoder_serialize_len d : dec_wf d -> len (decoder_serialize d) < 2 ^ 32.
Proof.
  intros [_ Hl Hk]. unfold decoder_serialize.
  match goal with |- context [mjoin (?f <$> dec_points d)] =>
    pose proof (mjoin_len_le f (dec_points d) (4 + 4 * 2 ^ 16)) as Hm end.
  rewrite !len_app. change (len (appendUint32 _)) with 4.
  assert (len (dec_points d) = 16) as Hl16 by (unfold len; by rewrite Hl). rewrite Hl16 in Hm.
  match type of Hm with ?P -> _ => assert P as HP end; [|specialize (Hm HP); change (len [_]) with 1; lia].
  intros m Hin. cbv zeta. rewrite len_app. change (len (appendUint32 _)) with 4.
  match goal with |- context [mjoin (?f <$> sortedKeys m)] => pose proof (mjoin_len_le f (sortedKeys m) 4 ltac:(done)) as Hs end.
  pose proof (u16_keys_size m (proj1 (Forall_forall _ _) Hk m Hin)) as Hsz.
  assert (len (sortedKeys m) = Z.of_nat (size m)) as Hlk by (unfold len; by rewrite sortedKeys_length). lia.
Qed.

Lemma wp_decoder_points data pos (Q : gmap Z gf16 -> Z -> Prop) :
  0 <= pos <= len data -> (forall m pos', 0 <= pos' <= len data -> Q m pos') ->
  rd_wp decodePolyDecoder_points data pos Q.
Proof.
  intros Hpos HQ. unfold decodePolyDecoder_points. wp_steps. apply wp_readUint32; [lia..|].
  intros count _. apply (wp_for _ _ _ (fun _ => True)); [|done|lia|auto].
  intros m pos' _ Hpos'. wp_steps. apply wp_readUint16; [lia..|]. intros x _. wp_steps.
  apply wp_readUint16; [lia..|]. intros y _. wp_steps. lia.
Qed.

Lemma wp_decoder data : decodePolyDecoder data <> Panic.
Proof.
  apply wp_run. wp_steps. apply wp_readUint32; [lia..|]. intros n _. wp_steps.
  apply (wp_for _ _ _ (fun _ => True)); [|done|lia|].
  - intros acc pos _ Hpos. wp_steps. apply wp_decoder_points; [lia|]. intros m pos' Hpos'. wp_steps. lia.
  - intros acc pos _ _. wp_steps. done.
Qed.

Lemma addChunk_step_wf c d i : dec_wf d -> dec_wf (addChunk_step c d i).
Proof.
  intros [Hn Hl Hk]. unfold addChunk_step.
  repeat case_match; try by split.
  split; cbn; [done|by rewrite length_insert|].
  apply Forall_insert; [done|]. intros k. rewrite lookup_insert. case_decide as E.
  - intros _. rewrite <- E. apply u16_range.
  - eapply (Forall_lookup_1 _ _ _ _ Hk). eassumption.
Qed.

Lemma addChunk_wf c d : dec_wf d -> dec_wf (addChunk d c).
Proof.
  unfold addChunk. generalize (seqZ 0 polyNumPolys) as l. intros l. revert d.
  induction l as [|i l IH]; intros d Hd; [done|]. by apply IH, addChunk_step_wf.
Qed.

Lemma foldl_addChunk_wf cs d : dec_wf d -> dec_wf (foldl addChunk d cs).
Proof. revert d. induction cs as [|c cs IH]; intros d Hd; [done|]. by apply IH, addChunk_wf. Qed.

Lemma newPolyDecoder_wf n d : 0 <= n < 2 ^ 32 -> newPolyDecoder n = Ok d -> dec_wf d.
Proof.
  intros Hn E. unfold newPolyDecoder in E. inv_ok E. injection E as <-.
  split; cbn [ptsNeeded dec_points]; [|done|].
  - split; [apply Z.div_pos; lia|]. apply Z.div_lt_upper_bound; lia.
  - apply (Forall_replicate _ 16). intros k [x Hx]. by rewrite lookup_empty in Hx.
Qed.

Lemma nextChunks_same msg n e1 e2 :
  valid_msg msg -> enc_ok msg e1 -> enc_ok msg e2 -> enc_idx e1 = enc_idx e2 ->
  snd (nextChunks n e1) = snd (nextChunks n e2).
Proof.
  intros Hv. revert e1 e2. induction n as [|n IH]; intros e1 e2 H1 H2 Hi; [done|].
  destruct (nextChunk_spec msg e1 Hv H1) as (e1' & E1 & Hok1 & Hi1).
  destruct (nextChunk_spec msg e2 Hv H2) as (e2' & E2 & Hok2 & Hi2).
  cbn [nextChunks]. rewrite (st_bind_run _ _ _ _ _ E1), (st_bind_run _ _ _ _ _ E2), Hi.
  specialize (IH e1' e2' Hok1 Hok2 ltac:(congruence)). unfold mbind, st_bind.
  destruct (nextChunks n e1') as [? r1], (nextChunks n e2') as [? r2]. cbn in IH. subst r2.
  by destruct r1.
Qed.

Lemma nextChunks_ok msg n e :
  valid_msg msg -> enc_ok msg e -> is_u32 (enc_idx e) ->
  enc_ok msg (fst (nextChunks n e)) /\ is_u32 (enc_idx (fst (nextChunks n e))).
Proof.
  intros Hv. revert e. induction n as [|n IH]; intros e He Hi; [done|].
  destruct (nextChunk_spec msg e Hv He) as (e1 & E1 & Hok1 & Hi1).
  cbn [nextChunks]. rewrite (st_bind_run _ _ _ _ _ E1).
  destruct (IH e1 Hok1) as [IH1 IH2]; [rewrite Hi1; apply u32_range|].
  unfold mbind, st_bind. by destruct (nextChunks n e1) as [e2 [|?|]].
Qed.

(** ** Properties *)

(** C18: the erasure code. Take a message of even length between 32 bytes and the
    encoder's maximum, any list of its chunks (any indices, any order, with
    repetitions), and feed them to a fresh decoder: [decodedMessage] returns
    exactly the message as soon as the number of distinct indices reaches a
    32nd of the length, and "not yet" before that; it never returns an error. *)
Theorem erasure_decodes msg e d idxs cs :
  len msg mod 2 = 0 -> 32 <= len msg <= 2 ^ 16 * polyNumPolys -> Forall is_u16 idxs ->
  newPolyEncoder msg = Ok e -> newPolyDecoder (len msg) = Ok d ->
  Forall2 (fun idx c => snd (chunkAt idx e) = Ok c) idxs cs ->
  decodedMessage (foldl addChunk d cs) =
  Ok (if decide (len msg <= 32 * Z.of_nat (size (list_to_set idxs : gset Z))) then Some msg else None).
Proof.
  intros He [Hlo Hhi] Hi Ee Ed Hcs. assert (valid_msg msg) as Hv by done.
  destruct (newPolyEncoder_ok msg Hv) as (e' & E & Hok & _). rewrite E in Ee. injection Ee as ->.
  rewrite (chunks_of_chunkAt msg e idxs cs) by done. by apply decode_chunks.
Qed.

Lemma erasure_decodes_witness :
  exists e d c, newPolyEncoder (z2b <$> seqZ 0 64) = Ok e /\ newPolyDecoder 64 = Ok d /\
    snd (chunkAt 7 e) = Ok c /\ decodedMessage (foldl addChunk d [c; c]) = Ok None.
Proof.
  destruct (newPolyEncoder_ok (z2b <$> seqZ 0 64)) as (e & Ee & Hok & _); [by split|].
  destruct (newPolyDecoder_ok (z2b <$> seqZ 0 64)) as (d & Ed & _); [by split|].
  destruct (chunkAt_spec (z2b <$> seqZ 0 64) e 7) as (e' & E & _); [by split|done|by split|].
  exists e, d, (chunk_of (words (z2b <$> seqZ 0 64)) 7). split_and!; [done|done|by rewrite E|].
  rewrite (erasure_decodes (z2b <$> seqZ 0 64) e d [7; 7]); [reflexivity|reflexivity| | |done|done|].
  - split; [vm_compute; discriminate|vm_compute; discriminate].
  - repeat constructor; vm_compute; congruence.
  - repeat constructor; by rewrite E.
Defined.

(** The encoder's stream. An encoder persisted after any number of chunks
    and restored with [decodePolyEncoder] emits the same chunks as the original
    would have; and the first [n] chunks of a fresh encoder (up to the 2^16
    indices there are), received in any order and any subset [cs] of them with
    a 32nd of the length in number, give the message back. *)
Theorem erasure_stream msg e d n m :
  len msg mod 2 = 0 -> 32 <= len msg <= 2 ^ 16 * polyNumPolys ->
  newPolyEncoder msg = Ok e -> newPolyDecoder (len msg) = Ok d -> Z.of_nat n <= 2 ^ 16 ->
  exists stream e',
    nextChunks n e = (fst (nextChunks n e), Ok stream) /\ length stream = n /\
    decodePolyEncoder (encoder_serialize (fst (nextChunks n e))) = Ok e' /\
    snd (nextChunks m e') = snd (nextChunks m (fst (nextChunks n e))) /\
    forall cs, NoDup cs -> cs ⊆ stream -> len msg <= 32 * len cs ->
      decodedMessage (foldl addChunk d cs) = Ok (Some msg).
Proof.
  intros He [Hlo Hhi] Ee Ed Hn. assert (valid_msg msg) as Hv by done.
  destruct (newPolyEncoder_ok msg Hv) as (e0 & E0 & Hok & Hidx). rewrite E0 in Ee. injection Ee as ->.
  assert (is_u32 (enc_idx e)) as Hi by (rewrite Hidx; done).
  destruct (nextChunks_spec msg n e Hv Hok) as (e1 & E1); [lia..|].
  destruct (nextChunks_ok msg n e Hv Hok Hi) as [Hok1 Hi1].
  pose proof (decodePolyEncoder_serialize msg _ Hv Hok1 Hi1) as Ed'.
  exists (chunk_of (words msg) <$> seqZ 0 (Z.of_nat n)), (enc_reset (fst (nextChunks n e))).
  rewrite Hidx in E1. split_and!; [by rewrite E1| |done| |].
  - rewrite length_fmap, length_seqZ. lia.
  - apply (nextChunks_same msg); [done|by apply enc_reset_ok|done|done].
  - intros cs Hnd Hsub Hlen.
    assert (exists idxs, cs = chunk_of (words msg) <$> idxs /\ Forall (fun i => 0 <= i < Z.of_nat n) idxs) as (idxs & -> & Hix).
    { exists (chunk_index <$> cs). clear Hnd Hlen. induction cs as [|c cs IH]; [done|].
      destruct IH as [IH1 IH2]; [intros x Hx; apply Hsub; by right|].
      assert (c ∈ chunk_of (words msg) <$> seqZ 0 (Z.of_nat n)) as (i & -> & Hin)%list_elem_of_fmap
        by (apply Hsub; by left).
      cbn. split; [congruence|]. constructor; [|done]. apply elem_of_seqZ in Hin. lia. }
    rewrite (decode_chunks msg d idxs); [|done|done| |done].
    + apply NoDup_fmap_1 in Hnd. rewrite size_list_to_set by done. rewrite decide_True; [done|].
      rewrite len_fmap in Hlen. exact Hlen.
    + eapply Forall_impl; [exact Hix|]. intros i Hii. cbn beta in Hii. unfold is_u16. lia.
Qed.

Lemma erasure_stream_witness :
  exists e d stream, newPolyEncoder (z2b <$> seqZ 0 64) = Ok e /\ newPolyDecoder 64 = Ok d /\
    nextChunks 3 e = (fst (nextChunks 3 e), Ok stream) /\ length stream = 3%nat.
Proof.
  destruct (newPolyEncoder_ok (z2b <$> seqZ 0 64)) as (e & Ee & Hok & _); [by split|].
  destruct (newPolyDecoder_ok (z2b <$> seqZ 0 64)) as (d & Ed & _); [by split|].
  destruct (erasure_stream (z2b <$> seqZ 0 64) e d 3 1) as (stream & e' & H1 & H2 & _);
    [reflexivity|vm_compute; split; discriminate|done|done|lia|].
  exists e, d, stream. done.
Defined.

(** Persistence of the decoder. Whatever chunks a fresh decoder has been
    given, also damaged ones, the bytes of [serialize] read back with
    [decodePolyDecoder] are exactly the same decoder; and neither of the two
    decoding functions panics, whatever bytes it is given. *)
Theorem erasure_persistence n d cs data :
  0 <= n < 2 ^ 32 -> newPolyDecoder n = Ok d ->
  decodePolyDecoder (decoder_serialize (foldl addChunk d cs)) = Ok (foldl addChunk d cs) /\
  decodePolyDecoder data <> Panic /\ decodePolyEncoder data <> Panic.
Proof.
  intros Hn Hd. split_and!; [|apply wp_decoder|apply wp_encoder].
  apply decodePolyDecoder_serialize, foldl_addChunk_wf. by apply (newPolyDecoder_wf n).
Qed.

Lemma erasure_persistence_witness :
  exists d, newPolyDecoder 1152 = Ok d /\
    decodePolyDecoder (decoder_serialize (foldl addChunk d [mkChunk 70 (to_arr 32 [])])) =
    Ok (foldl addChunk d [mkChunk 70 (to_arr 32 [])]).
Proof.
  eexists. split; [reflexivity|].
  apply (erasure_persistence 1152 _ [mkChunk 70 (to_arr 32 [])] []); [lia|reflexivity].
Defined.
