(* ===== verification/Crypto.v ===== *)
(** * Cryptographic wrappers: the crypto package

    The primitives (HMAC-SHA256, HKDF, X25519, the AES block function, the
    AEADs, Kyber) come from outside the repository or are opaque functions of
    the standard library: they are the operations of the class [Primitives].
    What the protocol relies on (an AEAD opens what it sealed, Diffie-Hellman
    is commutative, the block function is invertible) is stated separately, by
    the class [PrimitiveLaws], so that a theorem says whether it needs it.
    [Toy] is a concrete instance of both. The module [Crypto] holds the
    repository's own code around them: length checks, nonces, padding and
    chaining, rejection of low-order points. *)

From Stdlib Require Import ZArith Lia.
From Stdlib Require Import Strings.Byte.
From stdpp Require Import base gmap strings list list_numbers vector.
From S2P Require Import Prelude.

Definition xor_byte (a b : byte) : byte := z2b (Z.lxor (b2z a) (b2z b)).
Definition xor_arr {n} (a b : arr n) : arr n := vzip_with xor_byte a b.

Lemma xor_byte_range a b : 0 <= Z.lxor (b2z a) (b2z b) < 256.
Proof.
  pose proof (b2z_range a); pose proof (b2z_range b). split; [apply Z.lxor_nonneg; lia|].
  destruct (decide (Z.lxor (b2z a) (b2z b) = 0)) as [->|]; [lia|].
  assert (0 <= Z.lxor (b2z a) (b2z b)) by (apply Z.lxor_nonneg; lia).
  apply (Z.log2_lt_pow2 _ 8); [lia|].
  pose proof (Z.log2_lxor (b2z a) (b2z b) ltac:(lia) ltac:(lia)).
  assert (forall c, Z.log2 (b2z c) < 8) as Hlog.
  { intros c. pose proof (b2z_range c). destruct (decide (b2z c = 0)) as [->|]; [cbn; lia|].
    apply Z.log2_lt_pow2; lia. }
  pose proof (Hlog a); pose proof (Hlog b). lia.
Qed.

Lemma b2z_xor a b : b2z (xor_byte a b) = Z.lxor (b2z a) (b2z b).
Proof. unfold xor_byte. rewrite b2z_z2b. apply Z.mod_small, xor_byte_range. Qed.

Lemma xor_byte_assoc a b c : xor_byte a (xor_byte b c) = xor_byte (xor_byte a b) c.
Proof. apply (inj b2z). by rewrite !b2z_xor, Z.lxor_assoc. Qed.

Lemma xor_byte_comm a b : xor_byte a b = xor_byte b a.
Proof. apply (inj b2z). by rewrite !b2z_xor, Z.lxor_comm. Qed.

Lemma xor_byte_cancel a b : xor_byte a (xor_byte a b) = b.
Proof.
  apply (inj b2z). rewrite !b2z_xor, <- Z.lxor_assoc, Z.lxor_nilpotent. apply Z.lxor_0_l.
Qed.

Lemma xor_arr_swap {n} (a b c : arr n) : xor_arr a (xor_arr b c) = xor_arr b (xor_arr a c).
Proof.
  unfold xor_arr. apply vec_eq. intros i. rewrite !vlookup_zip_with, !xor_byte_assoc.
  by rewrite (xor_byte_comm (a !!! i)).
Qed.

Lemma xor_arr_cancel {n} (a b : arr n) : xor_arr (xor_arr a b) b = a.
Proof.
  unfold xor_arr. apply vec_eq. intros i. rewrite !vlookup_zip_with.
  by rewrite xor_byte_comm, (xor_byte_comm (a !!! i)), xor_byte_cancel.
Qed.

Lemma xor_arr_involutive {n} (a b : arr n) : xor_arr a (xor_arr a b) = b.
Proof. unfold xor_arr. apply vec_eq. intros i. by rewrite !vlookup_zip_with, xor_byte_cancel. Qed.

Class Primitives : Type := {
  hmac_sha256 : bytes -> bytes -> arr 32;
  hkdf_extract : bytes -> bytes -> bytes;
  (** the byte stream of [hkdf.Expand(sha256.New, prk, info)] *)
  hkdf_stream : bytes -> bytes -> nat -> byte;
  x25519 : key32 -> key32 -> option key32;
  x25519_Basepoint : key32;
  (** [aes.NewCipher(key)]'s block functions, for a key of 16, 24 or 32 bytes *)
  aes_encrypt : bytes -> arr 16 -> arr 16;
  aes_decrypt : bytes -> arr 16 -> arr 16;
  (** [gcm.Seal(nil, nonce, plaintext, ad)] and [gcm.Open], by key and nonce *)
  gcm_seal : bytes -> bytes -> bytes -> bytes -> bytes;
  gcm_open : bytes -> bytes -> bytes -> bytes -> option bytes;
  chacha_seal : bytes -> bytes -> bytes -> bytes -> bytes;
  chacha_open : bytes -> bytes -> bytes -> bytes -> option bytes
}.

(** Kyber1024 of cloudflare/circl on raw keys: key generation and encapsulation
    from a seed, and the failures of parsing as [None]. *)
Class KyberPrims : Type := {
  kyber_generate : bytes -> bytes * bytes;
  kyber_encaps : bytes -> bytes -> option (bytes * bytes);
  kyber_decaps : bytes -> bytes -> option bytes
}.

Class KyberLaws (K : KyberPrims) : Prop := {
  kyber_pk_size seed : length (fst (kyber_generate seed)) = 1568%nat;
  kyber_sk_size seed : length (snd (kyber_generate seed)) = 3168%nat;
  kyber_ct_size pk seed ct ss : kyber_encaps pk seed = Some (ct, ss) -> length ct = 1568%nat;
  kyber_correct s1 s2 ct ss :
    kyber_encaps (fst (kyber_generate s1)) s2 = Some (ct, ss) ->
    kyber_decaps (snd (kyber_generate s1)) ct = Some ss
}.

(** What the other components use of crypto/xeddsa.go. *)
Class XEdDSA : Type := {
  XEdDSASign : key32 -> bytes -> ST tape bytes;
  XEdDSAVerify : key32 -> bytes -> bytes -> bool;
  XEdDSASigningPublicKey : key32 -> res key32
}.

(** A signature made with a private key verifies under the Curve25519 public
    key of that private key; it has 64 bytes. *)
Class XEdDSALaws (P : Primitives) (X : XEdDSA) : Prop := {
  xeddsa_length priv m t t' sig : XEdDSASign priv m t = (t', Ok sig) -> length sig = 64%nat;
  xeddsa_correct priv pub m t t' sig :
    x25519 priv x25519_Basepoint = Some pub ->
    XEdDSASign priv m t = (t', Ok sig) -> XEdDSAVerify pub sig m = true
}.

(** github.com/ericlagergren/siv: [siv.NewGCM(key)] returns an error unless the key
    has one of the documented sizes, 32 bytes among them; [Seal] appends a tag of 16 bytes; [Open] undoes
    it. *)
Class GcmSiv : Type := {
  siv_NewGCM : bytes -> option error;
  siv_seal : bytes -> bytes -> bytes -> bytes -> bytes;
  siv_open : bytes -> bytes -> bytes -> bytes -> option bytes
}.

Class GcmSivLaws (G : GcmSiv) : Prop := {
  siv_key_size k : length k = 32%nat -> siv_NewGCM k = None;
  siv_open_seal k n p a : siv_open k n (siv_seal k n p a) a = Some p;
  siv_seal_length k n p a : length (siv_seal k n p a) = (length p + 16)%nat
}.

Class PrimitiveLaws (P : Primitives) : Prop := {
  gcm_open_seal k n p a : gcm_open k n (gcm_seal k n p a) a = Some p;
  gcm_seal_length k n p a : length (gcm_seal k n p a) = (length p + 16)%nat;
  chacha_open_seal k n p a : chacha_open k n (chacha_seal k n p a) a = Some p;
  (** two parties compute the same Diffie-Hellman secret *)
  x25519_comm a b pa pb :
    x25519 a x25519_Basepoint = Some pa -> x25519 b x25519_Basepoint = Some pb ->
    x25519 a pb = x25519 b pa;
  aes_decrypt_encrypt k b : aes_decrypt k (aes_encrypt k b) = b
}.

(** A concrete instance: nothing secret about it, but it satisfies the laws
    and computes. *)
Module Toy.

Definition mac (n : nat) (key data : bytes) : arr n := to_arr n (data ++ key).

Definition seal (k n p a : bytes) : bytes := p ++ mac 16 (k ++ n) (a ++ p).

Definition open (k n c a : bytes) : option bytes :=
  let p := take (length c - 16) c in
  if bool_decide (c = seal k n p a) then Some p else None.

Definition primitives : Primitives := {|
  hmac_sha256 := mac 32;
  hkdf_extract salt ikm := vec_to_list (mac 32 salt ikm);
  hkdf_stream prk info n := nth n (info ++ prk) Byte.x01;
  x25519 a p := Some (xor_arr a p);
  x25519_Basepoint := to_arr 32 [Byte.x09];
  aes_encrypt k b := vmap (xor_byte (hd Byte.x00 k)) b;
  aes_decrypt k b := vmap (xor_byte (hd Byte.x00 k)) b;
  gcm_seal := seal;
  gcm_open := open;
  chacha_seal := seal;
  chacha_open := open
|}.

Lemma open_seal k n p a : open k n (seal k n p a) a = Some p.
Proof.
  unfold open. assert (length (seal k n p a) - 16 = length p)%nat as ->
    by (unfold seal; rewrite length_app, vec_list_length; lia).
  assert (take (length p) (seal k n p a) = p) as -> by apply take_app_length.
  by rewrite bool_decide_true.
Qed.

#[export] Instance laws : PrimitiveLaws primitives.
Proof.
  constructor; cbn -[seal open].
  - apply open_seal.
  - intros k n p a. unfold seal. by rewrite length_app, vec_list_length.
  - apply open_seal.
  - intros a b pa pb H1 H2. injection H1 as <-. injection H2 as <-. f_equal. apply xor_arr_swap.
  - intros k b. apply vec_eq. intros i. rewrite !vlookup_map. apply xor_byte_cancel.
Qed.

Definition pad (n : nat) (l : bytes) : bytes := vec_to_list (to_arr n l).

#[export] Instance kyber : KyberPrims := {|
  kyber_generate seed := (pad 1568 seed, pad 1568 seed ++ pad 1600 []);
  kyber_encaps pk seed := Some (pad 1568 (take 32 seed), vec_to_list (mac 32 pk (pad 1568 (take 32 seed))));
  kyber_decaps sk ct := Some (vec_to_list (mac 32 (take 1568 sk) ct))
|}.

#[export] Instance kyber_laws : KyberLaws kyber.
Proof.
  constructor; cbn -[pad mac take]; intros.
  - apply vec_list_length.
  - rewrite length_app. unfold pad. by rewrite !vec_list_length.
  - simplify_eq. apply vec_list_length.
  - simplify_eq. do 3 f_equal. apply take_app_length'. unfold pad. by rewrite vec_list_length.
Qed.

Definition sig (pub : key32) (m : bytes) : bytes := vec_to_list (mac 64 pub m).

#[export] Instance gcm_siv : GcmSiv := {|
  siv_NewGCM k := if decide (length k = 16%nat \/ length k = 32%nat) then None else Some (ErrText "siv: bad key length");
  siv_seal := seal;
  siv_open := open
|}.

#[export] Instance gcm_siv_laws : GcmSivLaws gcm_siv.
Proof.
  split; intros; cbn [gcm_siv siv_NewGCM siv_seal siv_open].
  - by rewrite decide_True by (by right).
  - apply open_seal.
  - unfold seal. by rewrite length_app, vec_list_length.
Qed.

#[export] Instance xeddsa : XEdDSA := {|
  XEdDSASign priv m := _ ← io_ReadFull 64; mret (sig (xor_arr priv (to_arr 32 [Byte.x09])) m);
  XEdDSAVerify pub s m := bool_decide (s = sig pub m);
  XEdDSASigningPublicKey priv := Ok priv
|}.

#[export] Instance xeddsa_laws : XEdDSALaws primitives xeddsa.
Proof.
  constructor; cbn.
  - intros priv m t t' s E. inv_ok E. injection E as <- <-. apply vec_list_length.
  - intros priv pub m t t' s Hp E. injection Hp as <-. inv_ok E. injection E as <- <-. by apply bool_decide_eq_true.
Qed.

End Toy.

Module Crypto.

(** Errors of the package; they are not sentinels of the errors package. *)
Definition ErrHKDFLength : error := ErrText "hkdf: invalid length".
Definition ErrInvalidLength : error := ErrText "random: invalid length".
Definition ErrInvalidPublicKey : error := ErrText "curve25519: invalid public key".
Definition ErrAEADInvalidKey : error := ErrText "aead: invalid key length".
Definition ErrCiphertextTooShort : error := ErrText "aead: ciphertext too short".
Definition errOpen : error := ErrText "cipher: message authentication failed".
Definition errKeySize : error := ErrText "crypto/aes: invalid key size".
Definition errAESCBCInvalidIV : error := ErrText "aes-cbc: invalid iv length".
Definition errAESCBCInvalidCiphertext : error := ErrText "aes-cbc: invalid ciphertext length".
Definition errAESCBCInvalidPadding : error := ErrText "aes-cbc: invalid padding".
Definition errAESCTRHMACInvalidCiphertext : error := ErrText "aes-ctr-hmac: invalid ciphertext".
Definition errAESGCMSIVInvalidNonce : error := ErrText "aes-gcm-siv: invalid nonce length".
Definition errAESGCMSIVInvalidCiphertext : error := ErrText "aes-gcm-siv: invalid ciphertext".

Section crypto.
Context `{Primitives}.

(** *** hmac.go *)

Definition HMAC256 (key data : bytes) : bytes := vec_to_list (hmac_sha256 key data).

Definition HMACVerify (key data expectedMAC : bytes) : bool :=
  let actual := HMAC256 key data in
  if negb (len actual =? len expectedMAC) then false else bool_decide (actual = expectedMAC).

(** *** hkdf.go *)

Definition hkdfMaxLength : Z := 255 * 32.

Definition HKDFExtract (salt inputKeyMaterial : bytes) : bytes := hkdf_extract salt inputKeyMaterial.

(** The stream holds [hkdfMaxLength] bytes, so reading [length] of them after
    the check cannot fail. *)
Definition HKDFExpand (prk info : bytes) (length : Z) : res bytes :=
  _ ← check ((length <? 0) || (length >? hkdfMaxLength)) ErrHKDFLength;
  mret (hkdf_stream prk info <$> seq 0 (Z.to_nat length)).

Definition HKDF (inputKeyMaterial salt info : bytes) (length : Z) : res bytes :=
  HKDFExpand (HKDFExtract salt inputKeyMaterial) info length.

(** *** random.go *)

Definition RandomBytes (length : Z) : ST tape bytes :=
  _ ← st_check (length <? 0) ErrInvalidLength;
  io_ReadFull (Z.to_nat length).

Definition clampCurve25519Scalar (s : key32) : key32 :=
  to_arr 32 (alter (fun b => z2b (Z.lor (Z.land (b2z b) 127) 64)) 31%nat
            (alter (fun b => z2b (Z.land (b2z b) 248)) 0%nat (vec_to_list s))).

Definition RandomScalar : ST tape key32 :=
  b ← RandomBytes 32;
  mret (clampCurve25519Scalar (to_arr 32 b)).

(** *** curve25519.go *)

Record KeyPair : Type := mkKeyPair { PublicKey : key32; PrivateKey : key32 }.

Definition validationScalar : key32 := to_arr 32 [Byte.x01].

Definition scalarBaseMult (privateKey : key32) : res key32 :=
  match x25519 privateKey x25519_Basepoint with
  | None => Err (ErrText "crypto/ecdh: bad X25519 remote ECDH input: low order point")
  | Some out => Ok out
  end.

Definition GenerateKeyPair : ST tape KeyPair :=
  l ← io_ReadFull 32;
  let priv := to_arr 32 l in
  pub ← st_lift (scalarBaseMult priv);
  mret (mkKeyPair pub priv).

Definition KeyPairFromPrivate (privateKey : key32) : res KeyPair :=
  pub ← scalarBaseMult privateKey;
  mret (mkKeyPair pub privateKey).

Definition DH (privateKey publicKey : key32) : res key32 :=
  match x25519 privateKey publicKey with
  | None => Err ErrInvalidPublicKey
  | Some out => if bool_decide (out = zero32) then Err ErrInvalidPublicKey else Ok out
  end.

Definition IsValidPublicKey (publicKey : key32) : bool :=
  match x25519 validationScalar publicKey with
  | None => false
  | Some shared => negb (bool_decide (shared = zero32))
  end.

Definition ValidatePublicKey (publicKey : key32) : res unit :=
  check (negb (IsValidPublicKey publicKey)) ErrInvalidPublicKey.

(** *** aead.go *)

Definition AESGCM_Encrypt (key plaintext ad : bytes) : ST tape bytes :=
  _ ← st_check (negb (len key =? 32)) ErrAEADInvalidKey;
  nonce ← io_ReadFull 12;
  mret (nonce ++ gcm_seal key nonce plaintext ad).

Definition AESGCM_Decrypt (key ciphertext ad : bytes) : res bytes :=
  _ ← check (negb (len key =? 32)) ErrAEADInvalidKey;
  _ ← check (len ciphertext <? 12) ErrCiphertextTooShort;
  nonce ← slice ciphertext 0 12;
  body ← slice ciphertext 12 (len ciphertext);
  match gcm_open key nonce body ad with None => Err errOpen | Some plain => Ok plain end.

Definition AESGCMDecrypt (key ciphertext nonce associatedData : bytes) : res bytes :=
  _ ← check (negb (len nonce =? 12)) ErrCiphertextTooShort;
  AESGCM_Decrypt key (nonce ++ ciphertext) associatedData.

Definition AESGCMEncryptWithNonce (key plaintext nonce associatedData : bytes) : res bytes :=
  _ ← check (negb (len key =? 32)) ErrAEADInvalidKey;
  _ ← check (negb (len nonce =? 12)) ErrCiphertextTooShort;
  mret (gcm_seal key nonce plaintext associatedData).

Definition ChaCha_Encrypt (key plaintext ad : bytes) : ST tape bytes :=
  _ ← st_check (negb (len key =? 32)) ErrAEADInvalidKey;
  nonce ← io_ReadFull 12;
  mret (nonce ++ chacha_seal key nonce plaintext ad).

Definition ChaCha_Decrypt (key ciphertext ad : bytes) : res bytes :=
  _ ← check (negb (len key =? 32)) ErrAEADInvalidKey;
  _ ← check (len ciphertext <? 12) ErrCiphertextTooShort;
  nonce ← slice ciphertext 0 12;
  body ← slice ciphertext 12 (len ciphertext);
  match chacha_open key nonce body ad with None => Err errOpen | Some plain => Ok plain end.

Definition ChaChaDecrypt (key ciphertext nonce associatedData : bytes) : res bytes :=
  _ ← check (negb (len nonce =? 12)) ErrCiphertextTooShort;
  ChaCha_Decrypt key (nonce ++ ciphertext) associatedData.

Definition ChaChaEncryptWithNonce (key plaintext nonce associatedData : bytes) : res bytes :=
  _ ← check (negb (len key =? 32)) ErrAEADInvalidKey;
  _ ← check (negb (len nonce =? 12)) ErrCiphertextTooShort;
  mret (chacha_seal key nonce plaintext associatedData).

(** *** aes_cbc.go *)

(** [aes.NewCipher] accepts keys of 16, 24 and 32 bytes. *)
Definition aes_NewCipher (key : bytes) : res unit :=
  check (negb ((len key =? 16) || (len key =? 24) || (len key =? 32))) errKeySize.

Definition pkcs7Pad (data : bytes) (blockSize : Z) : res bytes :=
  _ ← check ((blockSize <=? 0) || (blockSize >? 255)) errAESCBCInvalidPadding;
  let padLen := blockSize - len data mod blockSize in
  let padLen := if padLen =? 0 then blockSize else padLen in
  mret (data ++ replicate (Z.to_nat padLen) (z2b padLen)).

Definition pkcs7Unpad (data : bytes) (blockSize : Z) : res bytes :=
  _ ← check ((blockSize <=? 0) || (blockSize >? 255)) errAESCBCInvalidPadding;
  _ ← check ((len data =? 0) || negb (len data mod blockSize =? 0)) errAESCBCInvalidPadding;
  b ← index data (len data - 1);
  let padLen := b2z b in
  _ ← check ((padLen =? 0) || (padLen >? blockSize)) errAESCBCInvalidPadding;
  _ ← check (padLen >? len data) errAESCBCInvalidPadding;
  pad ← slice data (len data - padLen) (len data);
  _ ← check (negb (forallb (fun b => b2z b =? padLen) pad)) errAESCBCInvalidPadding;
  slice data 0 (len data - padLen).

(** [cipher.NewCBCEncrypter(block, iv).CryptBlocks], block by block. *)
Fixpoint cbc_encrypt (key : bytes) (prev : arr 16) (blocks : list (arr 16)) : list (arr 16) :=
  match blocks with
  | [] => []
  | b :: blocks =>
      let c := aes_encrypt key (xor_arr b prev) in c :: cbc_encrypt key c blocks
  end.

Fixpoint cbc_decrypt (key : bytes) (prev : arr 16) (blocks : list (arr 16)) : list (arr 16) :=
  match blocks with
  | [] => []
  | c :: blocks => xor_arr (aes_decrypt key c) prev :: cbc_decrypt key c blocks
  end.

Fixpoint to_blocks (n : nat) (data : bytes) : list (arr 16) :=
  match n with
  | O => []
  | S n => to_arr 16 (take 16 data) :: to_blocks n (drop 16 data)
  end.

Definition of_blocks (blocks : list (arr 16)) : bytes := mjoin (vec_to_list <$> blocks).

Definition CryptBlocks (f : bytes -> arr 16 -> list (arr 16) -> list (arr 16)) (key iv data : bytes) : bytes :=
  of_blocks (f key (to_arr 16 iv) (to_blocks (Z.to_nat (len data / 16)) data)).

Definition AESCBCEncrypt (key iv plaintext : bytes) : res bytes :=
  _ ← aes_NewCipher key;
  _ ← check (negb (len iv =? 16)) errAESCBCInvalidIV;
  padded ← pkcs7Pad plaintext 16;
  mret (CryptBlocks cbc_encrypt key iv padded).

Definition AESCBCDecrypt (key iv ciphertext : bytes) : res bytes :=
  _ ← aes_NewCipher key;
  _ ← check (negb (len iv =? 16)) errAESCBCInvalidIV;
  _ ← check ((len ciphertext =? 0) || negb (len ciphertext mod 16 =? 0)) errAESCBCInvalidCiphertext;
  pkcs7Unpad (CryptBlocks cbc_decrypt key iv ciphertext) 16.

(** *** aes_ctr_hmac.go *)

Definition aesCTRHMACSize : Z := 10.

(** [cipher.NewCTR(block, nonce).XORKeyStream] with the all-zero nonce: the key
    stream is the encryption of the big-endian block counter. *)
Definition ctr_block (key : bytes) (i : nat) : arr 16 :=
  aes_encrypt key (to_arr 16 (be_bytes 16 (Z.of_nat i))).

Definition ctr_stream (key : bytes) (n : nat) : bytes :=
  take n (mjoin ((fun i => vec_to_list (ctr_block key i)) <$> seq 0 (n / 16 + 1))).

Definition XORKeyStream (key data : bytes) : bytes :=
  zip_with xor_byte data (ctr_stream key (length data)).

Definition AES256CTRHMACSHA256Encrypt (plaintext cipherKey macKey : bytes) : res bytes :=
  _ ← aes_NewCipher cipherKey;
  let ciphertext := XORKeyStream cipherKey plaintext in
  sum ← slice (HMAC256 macKey ciphertext) 0 aesCTRHMACSize;
  mret (ciphertext ++ sum).

Definition AES256CTRHMACSHA256Decrypt (ciphertext cipherKey macKey : bytes) : res bytes :=
  _ ← check (len ciphertext <? aesCTRHMACSize) errAESCTRHMACInvalidCiphertext;
  _ ← aes_NewCipher cipherKey;
  let msgLen := len ciphertext - aesCTRHMACSize in
  msg ← slice ciphertext 0 msgLen;
  mac ← slice ciphertext msgLen (len ciphertext);
  calc ← slice (HMAC256 macKey msg) 0 aesCTRHMACSize;
  _ ← check (negb (bool_decide (calc = mac))) errAESCTRHMACInvalidCiphertext;
  mret (XORKeyStream cipherKey msg).

(** *** aes_gcm_siv.go *)

Definition AESGCMSIVNonceSize : Z := 12.

Definition AESGCMSIVEncrypt `{GcmSiv} (key nonce plaintext associatedData : bytes) : res bytes :=
  _ ← check (negb (len nonce =? AESGCMSIVNonceSize)) errAESGCMSIVInvalidNonce;
  match siv_NewGCM key with
  | Some err => Err err
  | None => mret (siv_seal key nonce plaintext associatedData)
  end.

Definition AESGCMSIVDecrypt `{GcmSiv} (key nonce ciphertext associatedData : bytes) : res bytes :=
  _ ← check (negb (len nonce =? AESGCMSIVNonceSize)) errAESGCMSIVInvalidNonce;
  match siv_NewGCM key with
  | Some err => Err err
  | None =>
      match siv_open key nonce ciphertext associatedData with
      | None => Err errAESGCMSIVInvalidCiphertext
      | Some plaintext => Ok plaintext
      end
  end.

(** *** kyber.go *)

Section kyber.
Context `{KyberPrims}.

Definition kyber1024KeyType : byte := Byte.x08.

Record KyberKeyPair : Type := mkKyberKeyPair { kkp_PublicKey : bytes; kkp_PrivateKey : bytes }.

Definition GenerateKyber1024KeyPair : ST tape KyberKeyPair :=
  seed ← io_ReadFull 64;
  let '(pkRaw, skRaw) := kyber_generate seed in
  mret (mkKyberKeyPair (kyber1024KeyType :: pkRaw) (kyber1024KeyType :: skRaw)).

(** The three unmarshalling functions check the length and the type byte and
    return the rest. *)
Definition kyber_unmarshal (size : Z) (data : bytes) : res bytes :=
  _ ← check (negb (len data =? 1 + size)) (ErrText "kyber1024: length");
  match data with
  | [] => Panic
  | b :: raw =>
      _ ← check (negb (bool_decide (b = kyber1024KeyType))) (ErrText "kyber1024: unsupported key type");
      mret raw
  end.

Definition unmarshalKyberPublicKey (data : bytes) : res bytes := kyber_unmarshal 1568 data.
Definition unmarshalKyberPrivateKey (data : bytes) : res bytes := kyber_unmarshal 3168 data.
Definition unmarshalKyberCiphertext (data : bytes) : res bytes := kyber_unmarshal 1568 data.

Definition Kyber1024EncapsulateDeterministically (publicKey seed : bytes) : res (bytes * bytes) :=
  pk ← unmarshalKyberPublicKey publicKey;
  _ ← check (negb (len seed =? 32)) (ErrText "kyber1024: encapsulation seed length");
  match kyber_encaps pk seed with
  | None => Err (ErrText "kyber1024: encapsulate deterministically")
  | Some (ct, ss) => Ok (ss, kyber1024KeyType :: ct)
  end.

Definition Kyber1024Encapsulate (publicKey : bytes) : ST tape (bytes * bytes) :=
  pk ← st_lift (unmarshalKyberPublicKey publicKey);
  seed ← io_ReadFull 32;
  match kyber_encaps pk seed with
  | None => st_err (ErrText "kyber1024: encapsulate")
  | Some (ct, ss) => mret (ss, kyber1024KeyType :: ct)
  end.

Definition Kyber1024Decapsulate (privateKey ciphertext : bytes) : res bytes :=
  sk ← unmarshalKyberPrivateKey privateKey;
  rawCT ← unmarshalKyberCiphertext ciphertext;
  match kyber_decaps sk rawCT with
  | None => Err (ErrText "kyber1024: decapsulate")
  | Some ss => Ok ss
  end.

Definition IsKyber1024PublicKey (data : bytes) : bool :=
  (len data =? 1 + 1568) && (len data >? 0) &&
  match data with b :: _ => bool_decide (b = kyber1024KeyType) | [] => false end.

End kyber.

End crypto.
End Crypto.
Import Crypto.

(** ** Lemmas *)

Section lemmas.
Context `{Primitives}.

Lemma HKDF_ok ikm salt info n :
  0 <= n <= hkdfMaxLength -> exists okm, HKDF ikm salt info n = Ok okm /\ len okm = n.
Proof.
  intros Hn. unfold HKDF, HKDFExpand. rewrite (proj2 (Z.ltb_ge n 0)) by lia.
  destruct (Z.gtb_spec n hkdfMaxLength); [lia|]. eexists. split; [reflexivity|].
  rewrite len_fmap. unfold len. rewrite length_seq. lia.
Qed.

(** A private key and its public key. *)
Definition key_pair_ok (priv pub : key32) : Prop := x25519 priv x25519_Basepoint = Some pub.

Lemma GenerateKeyPair_ok t t' kp :
  GenerateKeyPair t = (t', Ok kp) -> key_pair_ok (PrivateKey kp) (PublicKey kp).
Proof.
  unfold GenerateKeyPair, key_pair_ok. intros E. inv_ok E. unfold st_lift, scalarBaseMult in Hok0.
  destruct (x25519 _ _) eqn:Ex; [|done]. injection Hok0 as -> ->. injection E as <- <-. done.
Qed.

Lemma DH_comm `{!PrimitiveLaws _} a b pa pb :
  key_pair_ok a pa -> key_pair_ok b pb -> DH a pb = DH b pa.
Proof. intros Ha Hb. unfold DH. by rewrite (x25519_comm a b pa pb). Qed.

Lemma DH_ok a p z : DH a p = Ok z -> x25519 a p = Some z /\ z <> zero32.
Proof. unfold DH. destruct (x25519 a p); [|done]. case_bool_decide; intros; by simplify_eq. Qed.

Lemma AESGCM_split key nonce body ad :
  len nonce = 12 -> len key = 32 ->
  AESGCMDecrypt key body nonce ad =
  match gcm_open key nonce body ad with None => Err errOpen | Some plain => Ok plain end.
Proof.
  intros Hn Hk. unfold AESGCMDecrypt, AESGCM_Decrypt. rewrite Hn, Hk. cbn [Z.eqb Pos.eqb negb check mbind res_bind].
  rewrite len_app, Hn. pose proof (len_nonneg body).
  rewrite (proj2 (Z.ltb_ge (12 + len body) 12)) by lia. cbn [check].
  replace (12 + len body) with (len (nonce ++ body)) by (rewrite len_app; lia).
  pose proof (slice_prefix nonce body) as H1. pose proof (slice_suffix nonce body) as H2.
  rewrite Hn in H1, H2. by rewrite H1, H2.
Qed.

Lemma AESGCM_roundtrip `{!PrimitiveLaws _} key nonce p ad c :
  AESGCMEncryptWithNonce key p nonce ad = Ok c -> AESGCMDecrypt key c nonce ad = Ok p.
Proof.
  unfold AESGCMEncryptWithNonce. intros E. inv_ok E. injection E as <-.
  apply check_ok in Hok, Hok0. apply negb_false_iff, Z.eqb_eq in Hok, Hok0.
  by rewrite AESGCM_split, gcm_open_seal.
Qed.

Lemma AESGCM_Encrypt_ok key p nonce ad :
  len nonce = 12 -> len key = 32 -> AESGCMEncryptWithNonce key p nonce ad = Ok (gcm_seal key nonce p ad).
Proof. intros H1 H2. unfold AESGCMEncryptWithNonce. by rewrite H1, H2. Qed.

(** *** Padding *)

Lemma pkcs7_pad_length l bs padded :
  pkcs7Pad l bs = Ok padded -> len padded mod bs = 0 /\ 0 < len padded.
Proof.
  unfold pkcs7Pad. intros E. inv_ok E. injection E as <-. apply check_ok, orb_false_iff in Hok as [H1 H2].
  apply Z.leb_gt in H1. pose proof (Z.mod_pos_bound (len l) bs H1) as Hm.
  destruct (Z.eqb_spec (bs - len l mod bs) 0); [lia|].
  rewrite len_app, len_replicate by lia.
  pose proof (len_nonneg l). split; [|lia].
  rewrite <- (Z.mod_add (len l + (bs - len l mod bs)) (-1)) by lia.
  replace (len l + (bs - len l mod bs) + -1 * bs) with (len l - len l mod bs) by ring.
  rewrite Zminus_mod_idemp_r, Z.sub_diag. apply Z.mod_0_l. lia.
Qed.

Lemma pkcs7_roundtrip l bs padded : pkcs7Pad l bs = Ok padded -> pkcs7Unpad padded bs = Ok l.
Proof.
  intros E. destruct (pkcs7_pad_length _ _ _ E) as [Hmod Hpos]. unfold pkcs7Pad in E. inv_ok E.
  unfold pkcs7Unpad. rewrite Hok. destruct v. cbn [mbind res_bind].
  apply check_ok, orb_false_iff in Hok as [H1 H2]. apply Z.leb_gt in H1.
  rewrite Hmod, (proj2 (Z.eqb_neq (len padded) 0)) by lia. cbn [Z.eqb negb orb check].
  pose proof (Z.mod_pos_bound (len l) bs H1) as Hm.
  destruct (Z.eqb_spec (bs - len l mod bs) 0); [lia|].
  set (padLen := bs - len l mod bs) in *. assert (0 < padLen <= 255) as Hp by (unfold padLen; lia).
  injection E as <-. pose proof (len_nonneg l).
  set (pad := replicate (Z.to_nat padLen) (z2b padLen)) in *.
  assert (len pad = padLen) as Hlen by (unfold pad; apply len_replicate; lia).
  assert (b2z (z2b padLen) = padLen) as Hb by (rewrite b2z_z2b; apply Z.mod_small; lia).
  assert (index (l ++ pad) (len (l ++ pad) - 1) = Ok (z2b padLen)) as ->.
  { unfold index. rewrite len_app, Hlen, (proj2 (Z.leb_le 0 _)) by lia.
    rewrite lookup_app_r by (unfold len in *; lia). unfold pad.
    rewrite lookup_replicate_2 by (unfold len in *; lia). done. }
  cbn [mbind res_bind]. rewrite Hb, len_app, Hlen.
  rewrite (proj2 (Z.eqb_neq padLen 0)) by lia.
  assert ((padLen >? bs) = false) as -> by (unfold padLen; lia).
  assert ((padLen >? len l + padLen) = false) as -> by lia. cbn [orb check].
  replace (len l + padLen - padLen) with (len l) by lia.
  replace (len l + padLen) with (len (l ++ pad)) by (rewrite len_app; lia). rewrite slice_suffix. cbn [mbind res_bind].
  assert (forallb (fun b => b2z b =? padLen) pad = true) as ->.
  { apply forallb_forall. intros x Hx%list_elem_of_In. unfold pad in Hx.
    apply elem_of_replicate in Hx as [-> _]. rewrite Hb. apply Z.eqb_refl. }
  apply slice_prefix.
Qed.

(** *** Block chaining *)

Lemma cbc_roundtrip `{!PrimitiveLaws _} key iv blocks :
  cbc_decrypt key iv (cbc_encrypt key iv blocks) = blocks.
Proof.
  revert iv. induction blocks as [|b blocks IH]; intros iv; [done|].
  cbn [cbc_encrypt cbc_decrypt]. by rewrite aes_decrypt_encrypt, xor_arr_cancel, IH.
Qed.

Lemma cbc_encrypt_length key iv blocks : length (cbc_encrypt key iv blocks) = length blocks.
Proof. revert iv. induction blocks as [|b blocks IH]; intros iv; [done|]. cbn. by rewrite IH. Qed.

Lemma of_blocks_length blocks : length (of_blocks blocks) = (16 * length blocks)%nat.
Proof.
  unfold of_blocks. induction blocks as [|b blocks IH]; [done|].
  rewrite fmap_cons, mjoin_cons, length_app, IH, vec_list_length. cbn [length]. lia.
Qed.

Lemma to_of_blocks blocks : to_blocks (length blocks) (of_blocks blocks) = blocks.
Proof.
  unfold of_blocks. induction blocks as [|b blocks IH]; [done|].
  rewrite fmap_cons, mjoin_cons. cbn [length to_blocks].
  rewrite take_app_length' by (by rewrite vec_list_length).
  rewrite drop_app_length' by (by rewrite vec_list_length). by rewrite to_arr_vec_list, IH.
Qed.

Lemma of_to_blocks n data : length data = (16 * n)%nat -> of_blocks (to_blocks n data) = data.
Proof.
  unfold of_blocks. revert data. induction n as [|n IH]; intros data Hl.
  - by destruct data.
  - cbn [to_blocks]. rewrite fmap_cons, mjoin_cons, IH by (rewrite length_drop; lia).
    rewrite vec_list_to_arr by (rewrite length_take; lia). apply take_drop.
Qed.

Lemma to_blocks_length n data : length (to_blocks n data) = n.
Proof. revert data. induction n as [|n IH]; intros data; [done|]. cbn. by rewrite IH. Qed.

Lemma AESCBC_roundtrip `{!PrimitiveLaws _} key iv p c :
  AESCBCEncrypt key iv p = Ok c -> AESCBCDecrypt key iv c = Ok p.
Proof.
  unfold AESCBCEncrypt. intros E. inv_ok E. injection E as <-. unfold AESCBCDecrypt.
  destruct v, v0. rewrite Hok, Hok0. cbn [mbind res_bind].
  destruct (pkcs7_pad_length _ _ _ Hok1) as [Hmod Hpos].
  assert (exists n, length v1 = (16 * n)%nat /\ n <> 0%nat) as (n & Hn & Hn0).
  { exists (Z.to_nat (len v1 / 16)). pose proof (Z.div_mod (len v1) 16). unfold len in *. lia. }
  assert (Z.to_nat (len v1 / 16) = n) as Hdiv.
  { unfold len. rewrite Hn, Nat2Z.inj_mul, Z.mul_comm, Z.div_mul by lia. lia. }
  set (c := CryptBlocks cbc_encrypt key iv v1).
  assert (c = of_blocks (cbc_encrypt key (to_arr 16 iv) (to_blocks n v1))) as Ec
    by (unfold c, CryptBlocks; by rewrite Hdiv).
  assert (length c = (16 * n)%nat) as Hc
    by (rewrite Ec, of_blocks_length, cbc_encrypt_length, to_blocks_length; done).
  assert (len c = Z.of_nat n * 16) as Hlc by (unfold len; lia).
  rewrite Hlc, Z.mod_mul by lia. rewrite (proj2 (Z.eqb_neq _ 0)) by lia. cbn [Z.eqb negb orb check].
  unfold CryptBlocks. rewrite Hlc, Z.div_mul, Nat2Z.id by lia. rewrite Ec.
  pose proof (to_of_blocks (cbc_encrypt key (to_arr 16 iv) (to_blocks n v1))) as Hto.
  rewrite cbc_encrypt_length, to_blocks_length in Hto. rewrite Hto.
  rewrite cbc_roundtrip, of_to_blocks by done. by apply pkcs7_roundtrip.
Qed.

(** *** Counter mode *)

Lemma ctr_stream_length key n : length (ctr_stream key n) = n.
Proof.
  unfold ctr_stream. rewrite length_take. apply Nat.min_l.
  assert (forall l, length (mjoin ((fun i => vec_to_list (ctr_block key i)) <$> l)) = (16 * length l)%nat) as ->.
  { induction l as [|i l IH]; [done|]. rewrite fmap_cons, mjoin_cons, length_app, IH, vec_list_length. cbn; lia. }
  rewrite length_seq. pose proof (Nat.div_mod_eq n 16). pose proof (Nat.mod_upper_bound n 16). lia.
Qed.

Lemma XORKeyStream_length key data : length (XORKeyStream key data) = length data.
Proof. unfold XORKeyStream. rewrite length_zip_with, ctr_stream_length. lia. Qed.

Lemma XORKeyStream_involutive key data : XORKeyStream key (XORKeyStream key data) = data.
Proof.
  unfold XORKeyStream at 1. rewrite XORKeyStream_length. unfold XORKeyStream.
  pose proof (ctr_stream_length key (length data)) as Hs. revert Hs.
  generalize (ctr_stream key (length data)) as ks. induction data as [|b data IH]; intros [|k ks] Hs; try done.
  cbn. f_equal; [|apply IH; by injection Hs]. by rewrite xor_byte_comm, (xor_byte_comm b), xor_byte_cancel.
Qed.

Lemma AESCTRHMAC_roundtrip ck mk p c :
  AES256CTRHMACSHA256Encrypt p ck mk = Ok c -> AES256CTRHMACSHA256Decrypt c ck mk = Ok p.
Proof.
  unfold AES256CTRHMACSHA256Encrypt. intros E. inv_ok E. injection E as <-. destruct v.
  pose proof (slice_length _ _ _ _ Hok0) as [Hl _]. unfold aesCTRHMACSize in *.
  unfold AES256CTRHMACSHA256Decrypt, aesCTRHMACSize. rewrite len_app, Hl.
  set (body := XORKeyStream ck p) in *. pose proof (len_nonneg body).
  rewrite (proj2 (Z.ltb_ge _ 10)) by lia. cbn [check mbind res_bind]. rewrite Hok.
  replace (len body + (10 - 0) - 10) with (len body) by lia. rewrite slice_prefix.
  replace (len body + (10 - 0)) with (len (body ++ v0)) by (rewrite len_app; lia).
  rewrite slice_suffix. cbn [mbind res_bind]. rewrite Hok0. cbn [mbind res_bind].
  rewrite bool_decide_true by done. cbn [negb check]. unfold body. by rewrite XORKeyStream_involutive.
Qed.

Lemma AESGCMSIVEncrypt_ok `{!GcmSiv} `{!GcmSivLaws _} key nonce p ad :
  length nonce = 12%nat -> length key = 32%nat -> exists c, AESGCMSIVEncrypt key nonce p ad = Ok c.
Proof.
  intros Hn Hk. unfold AESGCMSIVEncrypt, len. rewrite Hn, siv_key_size by done. cbn [check mbind res_bind Z.of_nat Z.eqb Pos.eqb negb]. eauto.
Qed.

Lemma KeyPairFromPrivate_ok priv kp : KeyPairFromPrivate priv = Ok kp -> key_pair_ok (PrivateKey kp) (PublicKey kp).
Proof.
  unfold KeyPairFromPrivate, scalarBaseMult, key_pair_ok. intros E. inv_steps. subst kp.
  cbn [PrivateKey PublicKey]. destruct (x25519 _ _); [|done]. by apply Ok_inj in Hok as ->.
Qed.

Lemma AESGCMSIV_roundtrip `{!GcmSiv} `{!GcmSivLaws _} key nonce p ad c :
  AESGCMSIVEncrypt key nonce p ad = Ok c -> AESGCMSIVDecrypt key nonce c ad = Ok p /\ len c = len p + 16.
Proof.
  unfold AESGCMSIVEncrypt, AESGCMSIVDecrypt. intros E. inv_steps. rewrite Hok. cbn [check mbind res_bind].
  destruct (siv_NewGCM key); [done|]. apply Ok_inj in E as <-. rewrite siv_open_seal. split; [done|].
  unfold len. rewrite siv_seal_length. lia.
Qed.

End lemmas.

(** *** Kyber keys with their type byte *)

Lemma kyber_unmarshal_cons size raw :
  len raw = size -> kyber_unmarshal size (kyber1024KeyType :: raw) = Ok raw.
Proof.
  intros Hl. unfold kyber_unmarshal. rewrite len_cons, Hl, Z.eqb_refl. cbn [negb check mbind res_bind].
  by rewrite bool_decide_true.
Qed.

(** The wire form of a ciphertext starts with its type byte. *)
Lemma Kyber1024Encapsulate_type `{KyberPrims} pk t t' ss ct :
  Kyber1024Encapsulate pk t = (t', Ok (ss, ct)) -> exists ct', ct = kyber1024KeyType :: ct'.
Proof.
  intros E. unfold Kyber1024Encapsulate in E. inv_steps. destruct (kyber_encaps _ _) as [[? ?]|]; [|done].
  apply st_ret_ok in E as [_ E]. injection E as _ ->. eauto.
Qed.

Lemma Kyber1024_roundtrip `{KyberPrims} `{!KyberLaws _} t1 t1' kp t2 t2' ss ct :
  GenerateKyber1024KeyPair t1 = (t1', Ok kp) ->
  Kyber1024Encapsulate (kkp_PublicKey kp) t2 = (t2', Ok (ss, ct)) ->
  Kyber1024Decapsulate (kkp_PrivateKey kp) ct = Ok ss.
Proof.
  unfold GenerateKyber1024KeyPair. intros E1 E2. inv_ok E1.
  destruct (kyber_generate v) as [pk sk] eqn:Eg. injection E1 as <- <-. cbn [kkp_PublicKey kkp_PrivateKey] in *.
  pose proof (kyber_pk_size v) as Hpk. pose proof (kyber_sk_size v) as Hsk. rewrite Eg in Hpk, Hsk. cbn [fst snd] in Hpk, Hsk.
  unfold Kyber1024Encapsulate, unmarshalKyberPublicKey in E2.
  rewrite kyber_unmarshal_cons in E2 by (unfold len; lia). cbn [st_lift] in E2. inv_ok E2.
  injection Hok0 as <- <-. destruct (kyber_encaps pk v1) as [[ct0 ss0]|] eqn:Ee; [|done].
  injection E2 as <- <- <-. unfold Kyber1024Decapsulate, unmarshalKyberPrivateKey, unmarshalKyberCiphertext.
  rewrite (kyber_unmarshal_cons 3168 sk) by (unfold len; lia). cbn [mbind res_bind].
  rewrite (kyber_unmarshal_cons 1568 ct0) by (unfold len; rewrite (kyber_ct_size pk v1 ct0 ss0) by done; lia).
  cbn [mbind res_bind]. pose proof (kyber_correct v v1 ct0 ss0) as Hc. rewrite Eg in Hc. cbn [fst snd] in Hc.
  by rewrite Hc.
Qed.

(** Key pairs of the concrete instance, for the examples. *)
Definition toy_pair (n : Z) : KeyPair :=
  let priv := to_arr 32 (z2b <$> seqZ n 32) in mkKeyPair (xor_arr priv (to_arr 32 [Byte.x09])) priv.

Lemma toy_pair_ok n : @key_pair_ok Toy.primitives (PrivateKey (toy_pair n)) (PublicKey (toy_pair n)).
Proof. reflexivity. Qed.

(** ** Properties *)

(** The symmetric modes built in this package. Whatever the key, the iv and
    the plaintext, when [AESCBCEncrypt] succeeds [AESCBCDecrypt] returns the
    plaintext (given that the block function is invertible), and when
    [AES256CTRHMACSHA256Encrypt] succeeds the corresponding decryption accepts
    the tag and returns the plaintext. *)
Theorem symmetric_roundtrip (P : Primitives) key iv mk p c :
  PrimitiveLaws P ->
  (AESCBCEncrypt key iv p = Ok c -> AESCBCDecrypt key iv c = Ok p) /\
  (AES256CTRHMACSHA256Encrypt p key mk = Ok c -> AES256CTRHMACSHA256Decrypt c key mk = Ok p).
Proof. intros HP. split; [apply AESCBC_roundtrip|apply AESCTRHMAC_roundtrip]. Qed.

Lemma symmetric_roundtrip_witness :
  let P := Toy.primitives in
  let key := z2b <$> seqZ 0 32 in let iv := z2b <$> seqZ 0 16 in let p := z2b <$> seqZ 0 21 in
  exists c c', AESCBCEncrypt key iv p = Ok c /\ AESCBCDecrypt key iv c = Ok p /\
    AES256CTRHMACSHA256Encrypt p key iv = Ok c' /\ AES256CTRHMACSHA256Decrypt c' key iv = Ok p.
Proof.
  intros P key iv p.
  destruct (AESCBCEncrypt key iv p) as [c| |] eqn:E; [|vm_compute in E; discriminate E..].
  destruct (AES256CTRHMACSHA256Encrypt p key iv) as [c'| |] eqn:E'; [|vm_compute in E'; discriminate E'..].
  exists c, c'. split; [reflexivity|]. split; [exact (proj1 (symmetric_roundtrip P key iv [] p c Toy.laws) E)|].
  split; [reflexivity|]. exact (proj2 (symmetric_roundtrip P key [] iv p c' Toy.laws) E').
Defined.
