(* ===== verification/Xeddsa.v ===== *)
(** * XEdDSA signatures: crypto/xeddsa.go

    Signatures with Curve25519 keys: the private key is used as an Edwards
    scalar, and a verifier recovers the Edwards public key from the Montgomery
    one and the sign bit in the signature. The code is modelled over the class
    [Edwards25519], the operations of filippo.io/edwards25519 (scalars, points,
    field elements) and SHA-512; [Edwards25519Laws] states what their
    documentation and RFC 7748 and 8032 say of them. The result is an instance of
    the interface [XEdDSA] that the other components use, with its laws proved. *)

From Stdlib Require Import ZArith Lia.
From Stdlib Require Import Strings.Byte.
From stdpp Require Import base strings list list_numbers vector.
From S2P Require Import Prelude Crypto.
Import Crypto.

(** Little-endian numbers. *)
Definition le_value (l : bytes) : Z := be_value (reverse l).
Definition le_bytes (n : nat) (z : Z) : bytes := reverse (be_bytes n z).

(** [a[i] = f(a[i])] *)
Definition arr_alter {n} (i : nat) (f : byte -> byte) (a : arr n) : arr n := to_arr n (alter f i (vec_to_list a)).

(** ** The library *)

Class Edwards25519 : Type := {
  scalar : Type;
  point : Type;
  felem : Type;
  sha512 : bytes -> arr 64;
  (** [Scalar.SetUniformBytes], [MultiplyAdd] (x * y + z) and [Bytes] *)
  SetUniformBytes : bytes -> option scalar;
  MultiplyAdd : scalar -> scalar -> scalar -> scalar;
  scalar_Bytes : scalar -> key32;
  (** [Point.ScalarBaseMult], [Negate], [VarTimeDoubleScalarBaseMult] (a * A + b * B), [Bytes] and [SetBytes] *)
  ScalarBaseMult : scalar -> point;
  Negate : point -> point;
  VarTimeDoubleScalarBaseMult : scalar -> point -> scalar -> point;
  point_Bytes : point -> key32;
  point_SetBytes : bytes -> option point;
  (** [field.Element] *)
  felem_SetBytes : bytes -> option felem;
  felem_Bytes : felem -> key32;
  felem_Zero : felem;
  felem_One : felem;
  felem_Add : felem -> felem -> felem;
  felem_Subtract : felem -> felem -> felem;
  felem_Multiply : felem -> felem -> felem;
  felem_Invert : felem -> felem;
  felem_Equal : felem -> felem -> bool
}.

(** The encoding of a point: the bytes of a coordinate with a sign bit. *)
Definition with_sign (sign : bool) (y : key32) : key32 :=
  arr_alter 31 (fun b => z2b (Z.lor (Z.land (b2z b) 127) (if sign then 128 else 0))) y.

(** ** The code *)

Module Xeddsa.

Definition xeddsaHashPrefix : key32 := to_arr 32 (Byte.xfe :: replicate 31 Byte.xff).

Definition errUniform : error := ErrText "edwards25519: invalid SetUniformBytes input length".
Definition errHashLength : error := ErrText "xeddsa: invalid hash length".

Section xeddsa.
Context `{Edwards25519}.

Definition scalarFromBytesModOrder (b : key32) : res scalar :=
  let wide := vec_to_list b ++ replicate 32 Byte.x00 in
  match SetUniformBytes wide with None => Err errUniform | Some s => Ok s end.

Definition scalarFromHash (sum : bytes) : res scalar :=
  _ ← check (negb (len sum =? 64)) errHashLength;
  match SetUniformBytes sum with None => Err errUniform | Some s => Ok s end.

Definition montgomeryToEdwards (u : key32) (signBit : Z) : option point :=
  match felem_SetBytes (vec_to_list u) with
  | None => None
  | Some uElem =>
      let uPlusOne := felem_Add uElem felem_One in
      if felem_Equal uPlusOne felem_Zero then None
      else
        let uMinusOne := felem_Subtract uElem felem_One in
        let y := felem_Multiply uMinusOne (felem_Invert uPlusOne) in
        let yBytes := arr_alter 31 (fun b => z2b (Z.ldiff (b2z b) 128)) (felem_Bytes y) in
        let yBytes := if Z.land signBit 1 =? 1 then arr_alter 31 (fun b => z2b (Z.lor (b2z b) 128)) yBytes else yBytes in
        point_SetBytes (vec_to_list yBytes)
  end.

(** [hash.Write] of one slice after the other, then [Sum]. *)
Definition sha512_of (pieces : list bytes) : bytes := vec_to_list (sha512 (mjoin pieces)).

Definition xeddsaSign (privateKey : key32) (messagePieces : list bytes) : ST tape bytes :=
  randomBytes ← io_ReadFull 64;
  let keyData := clampCurve25519Scalar privateKey in
  a ← st_lift (scalarFromBytesModOrder keyData);
  let edPub := ScalarBaseMult a in
  let edPubBytes := point_Bytes edPub in
  b31 ← st_lift (index (vec_to_list edPubBytes) 31);
  let signBit := Z.land (b2z b31) 128 in
  r ← st_lift (scalarFromHash (sha512_of ([vec_to_list xeddsaHashPrefix; vec_to_list keyData] ++ messagePieces ++ [randomBytes])));
  let capR := ScalarBaseMult r in
  h ← st_lift (scalarFromHash (sha512_of ([vec_to_list (point_Bytes capR); vec_to_list edPubBytes] ++ messagePieces)));
  let s := MultiplyAdd h a r in
  let sig := vec_to_list (point_Bytes capR) ++ vec_to_list (scalar_Bytes s) in
  let sig := alter (fun b => z2b (Z.land (b2z b) 127)) 63%nat sig in
  let sig := alter (fun b => z2b (Z.lor (b2z b) signBit)) 63%nat sig in
  mret sig.

Definition XEdDSASign (privateKey : key32) (messagePieces : list bytes) : ST tape bytes :=
  xeddsaSign privateKey messagePieces.

Definition XEdDSAVerify (publicKey : key32) (signature : bytes) (messagePieces : list bytes) : bool :=
  if negb (len signature =? 64) then false
  else
    let sig := to_arr 64 signature in
    let signBit := Z.shiftr (Z.land (b2z (default Byte.x00 (vec_to_list sig !! 63%nat))) 128) 7 in
    match montgomeryToEdwards publicKey signBit with
    | None => false
    | Some edPub =>
        let edPubBytes := point_Bytes edPub in
        let capR := to_arr 32 (take 32 (vec_to_list sig)) in
        let sBytes := to_arr 32 (drop 32 (vec_to_list sig)) in
        let sBytes := arr_alter 31 (fun b => z2b (Z.land (b2z b) 127)) sBytes in
        if negb (Z.land (b2z (default Byte.x00 (vec_to_list sBytes !! 31%nat))) 0xe0 =? 0) then false
        else
          match scalarFromBytesModOrder sBytes with
          | Ok s =>
              match scalarFromHash (sha512_of ([vec_to_list capR; vec_to_list edPubBytes] ++ messagePieces)) with
              | Ok h =>
                  let minusA := Negate edPub in
                  let capRCheck := VarTimeDoubleScalarBaseMult h minusA s in
                  bool_decide (point_Bytes capRCheck = capR)
              | _ => false
              end
          | _ => false
          end
    end.

Definition XEdDSASigningPublicKey (privateKey : key32) : res key32 :=
  let clamped := clampCurve25519Scalar privateKey in
  a ← scalarFromBytesModOrder clamped;
  mret (point_Bytes (ScalarBaseMult a)).

End xeddsa.
End Xeddsa.

(** The interface of the other components, implemented: they sign one piece. *)
#[export] Instance xeddsa_impl `{Edwards25519} : XEdDSA := {|
  XEdDSASign priv m := Xeddsa.XEdDSASign priv [m];
  XEdDSAVerify pub sig m := Xeddsa.XEdDSAVerify pub sig [m];
  XEdDSASigningPublicKey := Xeddsa.XEdDSASigningPublicKey
|}.

(** ** What the library promises *)

(** A group of points, with multiples. *)
Class PointGroup (E : Edwards25519) : Type := {
  point_zero : point;
  point_add : point -> point -> point;
  base_point : point
}.

Fixpoint multiple `{PointGroup} (n : nat) (p : point) : point :=
  match n with O => point_zero | S n => point_add p (multiple n p) end.

(** Scalars are numbers modulo the order [ell], below 2^253; points are an abelian
    group in which [ell] times the base point is zero; the encoding of a point
    (RFC 8032, 5.1.2) is its [y] coordinate with the sign of [x], and is decoded
    again; the [u] coordinate that X25519 computes from a private key and the
    base point is that of the multiple of the Edwards base point by the clamped
    key: [y = (u - 1) / (u + 1)] (RFC 7748, 4.1). *)
Class Edwards25519Laws (P : Primitives) (E : Edwards25519) (Gr : PointGroup E) : Type := {
  ell : Z;
  scalar_value : scalar -> Z;
  point_y : point -> felem;
  point_sign : point -> bool;
  ell_range : 0 < ell < 2 ^ 253;
  scalar_range s : 0 <= scalar_value s < ell;
  uniform_ok b : length b = 64%nat -> exists s, SetUniformBytes b = Some s /\ scalar_value s = le_value b mod ell;
  multiply_add_value x y z : scalar_value (MultiplyAdd x y z) = (scalar_value x * scalar_value y + scalar_value z) mod ell;
  scalar_bytes s : vec_to_list (scalar_Bytes s) = le_bytes 32 (scalar_value s);
  point_assoc p q r : point_add p (point_add q r) = point_add (point_add p q) r;
  point_comm p q : point_add p q = point_add q p;
  point_zero_l p : point_add point_zero p = p;
  point_negate p : point_add p (Negate p) = point_zero;
  base_order : multiple (Z.to_nat ell) base_point = point_zero;
  base_mult s : ScalarBaseMult s = multiple (Z.to_nat (scalar_value s)) base_point;
  double_mult a p b : VarTimeDoubleScalarBaseMult a p b =
    point_add (multiple (Z.to_nat (scalar_value a)) p) (multiple (Z.to_nat (scalar_value b)) base_point);
  point_encoding p : point_Bytes p = with_sign (point_sign p) (felem_Bytes (point_y p));
  point_decoding p : point_SetBytes (vec_to_list (point_Bytes p)) = Some p;
  montgomery_edwards priv pub a :
    x25519 priv x25519_Basepoint = Some pub ->
    SetUniformBytes (vec_to_list (clampCurve25519Scalar priv) ++ replicate 32 Byte.x00) = Some a ->
    exists u, felem_SetBytes (vec_to_list pub) = Some u /\
      felem_Equal (felem_Add u felem_One) felem_Zero = false /\
      felem_Multiply (felem_Subtract u felem_One) (felem_Invert (felem_Add u felem_One)) = point_y (ScalarBaseMult a)
}.

(** ** Little-endian numbers and single bytes *)

Lemma le_value_app_zeros l n : le_value (l ++ replicate n Byte.x00) = le_value l.
Proof.
  unfold le_value. rewrite reverse_app, reverse_replicate. induction n as [|n IH]; [done|].
  cbn [replicate app]. rewrite be_value_cons, IH. change (b2z Byte.x00) with 0. lia.
Qed.

Lemma le_value_bytes n z : 0 <= z < 256 ^ Z.of_nat n -> le_value (le_bytes n z) = z.
Proof. intros Hz. unfold le_value, le_bytes. rewrite reverse_involutive, be_value_bytes. by apply Z.mod_small. Qed.

Lemma le_bytes_length n z : length (le_bytes n z) = n.
Proof. unfold le_bytes. by rewrite length_reverse, be_bytes_length. Qed.

(** The last byte of a number below 2^253. *)
Lemma le_bytes_top z : 0 <= z < 2 ^ 253 ->
  exists l b, le_bytes 32 z = l ++ [b] /\ length l = 31%nat /\ b2z b < 32.
Proof.
  intros Hz. exists (reverse (be_bytes 31 z)), (z2b (z / 256 ^ 31)). split_and!.
  - unfold le_bytes. cbn [be_bytes]. by rewrite reverse_cons.
  - by rewrite length_reverse, be_bytes_length.
  - rewrite b2z_z2b. assert (0 <= z / 256 ^ 31 < 32); [|rewrite Z.mod_small; lia].
    split; [apply Z.div_pos; lia|]. apply Z.div_lt_upper_bound; [lia|]. change (256 ^ 31 * 32) with (2 ^ 253). lia.
Qed.

(** What the code does with the last byte: clear the sign bit, set it, read it. *)
Lemma byte_low b : b2z b < 32 -> z2b (Z.land (b2z b) 127) = b /\ Z.land (b2z b) 0xe0 = 0.
Proof. destruct b; try (by split); intros; exfalso; revert H; vm_compute; congruence. Qed.

Lemma byte_sign b (sign : bool) : b2z b < 32 ->
  let b' := z2b (Z.lor (b2z b) (if sign then 128 else 0)) in
  Z.shiftr (Z.land (b2z b') 128) 7 = Z.b2z sign /\ z2b (Z.land (b2z b') 127) = b.
Proof. destruct sign, b; try (by split); intros; exfalso; revert H; vm_compute; congruence. Qed.

Lemma byte_put_sign b (sign : bool) :
  Z.land (b2z (z2b (Z.lor (Z.land (b2z b) 127) (if sign then 128 else 0)))) 128 = (if sign then 128 else 0).
Proof. destruct sign, b; reflexivity. Qed.

Lemma byte_ldiff b (sign : bool) :
  (if sign then z2b (Z.lor (b2z (z2b (Z.ldiff (b2z b) 128))) 128) else z2b (Z.ldiff (b2z b) 128)) =
  z2b (Z.lor (Z.land (b2z b) 127) (if sign then 128 else 0)).
Proof. destruct sign, b; reflexivity. Qed.

Lemma arr_alter_twice {n} i f g (a : arr n) : arr_alter i f (arr_alter i g a) = arr_alter i (f ∘ g) a.
Proof.
  unfold arr_alter. rewrite vec_list_to_arr by (rewrite length_alter; apply vec_list_length). by rewrite list_alter_alter_eq.
Qed.

Lemma arr_alter_ext {n} i f g (a : arr n) : (forall b, f b = g b) -> arr_alter i f a = arr_alter i g a.
Proof. intros Hf. unfold arr_alter. f_equal. apply list_alter_ext; [intros x _; apply Hf|done]. Qed.

Section group.
Context `{P : Primitives} `{E : Edwards25519} `{Gr : !PointGroup E} `{!Edwards25519Laws P E Gr}.

Lemma multiple_add m n p : multiple (m + n) p = point_add (multiple m p) (multiple n p).
Proof. induction m as [|m IH]; cbn [multiple Nat.add]; [by rewrite point_zero_l|]. by rewrite IH, point_assoc. Qed.

Lemma multiple_zero n : multiple n point_zero = point_zero.
Proof. induction n as [|n IH]; [done|]. cbn [multiple]. by rewrite point_zero_l. Qed.

Lemma multiple_mul m n p : multiple (m * n) p = multiple m (multiple n p).
Proof. induction m as [|m IH]; [done|]. cbn [multiple Nat.mul]. by rewrite multiple_add, IH. Qed.

Lemma multiple_point_add n p q : multiple n (point_add p q) = point_add (multiple n p) (multiple n q).
Proof.
  induction n as [|n IH]; cbn [multiple]; [by rewrite point_zero_l|]. rewrite IH, !point_assoc. f_equal.
  rewrite <- !point_assoc. f_equal. apply point_comm.
Qed.

(** Multiples of the base point only depend on the number modulo the order. *)
Lemma multiple_base_mod n : 0 <= n -> multiple (Z.to_nat (n mod ell)) base_point = multiple (Z.to_nat n) base_point.
Proof.
  intros Hn. pose proof ell_range. rewrite (Z.div_mod n ell) at 2 by lia.
  pose proof (Z.div_pos n ell). pose proof (Z.mod_pos_bound n ell).
  rewrite Z2Nat.inj_add, Z2Nat.inj_mul by nia. rewrite multiple_add, Nat.mul_comm, multiple_mul, base_order, multiple_zero.
  by rewrite point_zero_l.
Qed.

(** The equation that verification checks: h(-aB) + (ha + r)B = rB. *)
Lemma schnorr_equation h a r s :
  scalar_value s = scalar_value (MultiplyAdd h a r) ->
  VarTimeDoubleScalarBaseMult h (Negate (ScalarBaseMult a)) s = ScalarBaseMult r.
Proof.
  intros Hs. pose proof (scalar_range h); pose proof (scalar_range a); pose proof (scalar_range r).
  rewrite double_mult, Hs, multiply_add_value, multiple_base_mod by nia. rewrite !base_mult.
  rewrite Z2Nat.inj_add, Z2Nat.inj_mul by nia. rewrite multiple_add, multiple_mul, point_assoc, <- multiple_point_add.
  rewrite (point_comm (Negate _)), point_negate, multiple_zero. apply point_zero_l.
Qed.
End group.
Import Xeddsa.

Section correctness.
Context `{P : Primitives} `{E : Edwards25519} `{Gr : !PointGroup E} `{!Edwards25519Laws P E Gr}.

Lemma scalarFromBytesModOrder_ok b :
  exists s, scalarFromBytesModOrder b = Ok s /\ scalar_value s = le_value (vec_to_list b) mod ell /\
    SetUniformBytes (vec_to_list b ++ replicate 32 Byte.x00) = Some s.
Proof.
  unfold scalarFromBytesModOrder. destruct (uniform_ok (vec_to_list b ++ replicate 32 Byte.x00)) as (s & Hs & Hv).
  { by rewrite length_app, vec_list_length, length_replicate. }
  exists s. rewrite Hs. split_and!; [done| |done]. by rewrite Hv, le_value_app_zeros.
Qed.

Lemma scalarFromHash_ok pieces : exists s, scalarFromHash (sha512_of pieces) = Ok s.
Proof.
  unfold scalarFromHash, sha512_of. rewrite vec_list_len. cbn [Z.of_nat Z.eqb Pos.eqb negb check mbind res_bind].
  destruct (uniform_ok (vec_to_list (sha512 (mjoin pieces)))) as (s & -> & _); [apply vec_list_length|eauto].
Qed.

(** The sign bit in the encoding of a point. *)
Lemma encoding_sign p :
  exists b, vec_to_list (point_Bytes p) !! 31%nat = Some b /\ Z.land (b2z b) 128 = (if point_sign p then 128 else 0).
Proof.
  rewrite point_encoding. unfold with_sign, arr_alter. rewrite vec_list_to_arr by (rewrite length_alter; apply vec_list_length).
  destruct (lookup_lt_is_Some_2 (vec_to_list (felem_Bytes (point_y p))) 31) as [b Hb]; [rewrite vec_list_length; lia|].
  rewrite list_lookup_alter, Hb. cbn [fmap option_fmap option_map]. eexists. split; [done|]. apply byte_put_sign.
Qed.

(** Recovering the Edwards public key from the Montgomery one. *)
Lemma montgomeryToEdwards_ok priv pub a :
  x25519 priv x25519_Basepoint = Some pub ->
  SetUniformBytes (vec_to_list (clampCurve25519Scalar priv) ++ replicate 32 Byte.x00) = Some a ->
  montgomeryToEdwards pub (Z.b2z (point_sign (ScalarBaseMult a))) = Some (ScalarBaseMult a).
Proof.
  intros Hp Ha. destruct (montgomery_edwards priv pub a Hp Ha) as (u & Hu & Hne & Hy).
  unfold montgomeryToEdwards. rewrite Hu, Hne, Hy. rewrite <- (point_decoding (ScalarBaseMult a)). do 2 f_equal.
  rewrite point_encoding. unfold with_sign. destruct (point_sign (ScalarBaseMult a)); cbn [Z.b2z].
  - change (Z.land 1 1 =? 1) with true. cbv iota. rewrite arr_alter_twice. apply arr_alter_ext. intros b. apply (byte_ldiff b true).
  - change (Z.land 0 1 =? 1) with false. cbv iota. apply arr_alter_ext. intros b. apply (byte_ldiff b false).
Qed.

(** The signature: the commitment, and the response with the sign of the public
    key in its last bit. *)
Lemma xeddsaSign_shape priv pieces t t' rnd :
  io_ReadFull 64 t = (t', Ok rnd) ->
  exists a r h l b,
    let A := ScalarBaseMult a in let R := ScalarBaseMult r in
    xeddsaSign priv pieces t =
      (t', Ok (vec_to_list (point_Bytes R) ++ l ++ [z2b (Z.lor (b2z b) (if point_sign A then 128 else 0))])) /\
    SetUniformBytes (vec_to_list (clampCurve25519Scalar priv) ++ replicate 32 Byte.x00) = Some a /\
    scalarFromHash (sha512_of ([vec_to_list (point_Bytes R); vec_to_list (point_Bytes A)] ++ pieces)) = Ok h /\
    le_bytes 32 (scalar_value (MultiplyAdd h a r)) = l ++ [b] /\ length l = 31%nat /\ b2z b < 32.
Proof.
  intros Ht. destruct (scalarFromBytesModOrder_ok (clampCurve25519Scalar priv)) as (a & Ha & _ & Hu).
  destruct (encoding_sign (ScalarBaseMult a)) as (b31 & Hb31 & Hsign).
  destruct (scalarFromHash_ok ([vec_to_list xeddsaHashPrefix; vec_to_list (clampCurve25519Scalar priv)] ++ pieces ++ [rnd])) as [r Hr].
  destruct (scalarFromHash_ok ([vec_to_list (point_Bytes (ScalarBaseMult r)); vec_to_list (point_Bytes (ScalarBaseMult a))] ++ pieces))
    as [h Hh].
  pose proof (scalar_range (MultiplyAdd h a r)). pose proof ell_range.
  destruct (le_bytes_top (scalar_value (MultiplyAdd h a r))) as (l & b & Hl & Hll & Hb); [lia|].
  exists a, r, h, l, b. cbv zeta. split_and!; [|done..]. unfold xeddsaSign.
  assert (index (vec_to_list (point_Bytes (ScalarBaseMult a))) 31 = Ok b31) as Hi.
  { unfold index. cbn [Z.leb Z.compare]. change (Z.to_nat 31) with 31%nat. by rewrite Hb31. }
  rewrite (st_bind_run _ _ _ _ _ Ht), (st_bind_lift _ _ _ _ Ha), (st_bind_lift _ _ _ _ Hi), (st_bind_lift _ _ _ _ Hr),
    (st_bind_lift _ _ _ _ Hh), scalar_bytes, Hl, Hsign.
  unfold mret, st_ret. do 2 f_equal. rewrite list_alter_alter_eq.
  rewrite app_assoc, alter_app_r_alt by (rewrite length_app, vec_list_length; lia).
  rewrite length_app, vec_list_length, Hll, <- app_assoc. cbn. do 3 f_equal. by rewrite (proj1 (byte_low b Hb)).
Qed.

Lemma xeddsaSign_reads priv pieces t t' sig : xeddsaSign priv pieces t = (t', Ok sig) -> exists rnd, io_ReadFull 64 t = (t', Ok rnd).
Proof. unfold xeddsaSign. intros Hs. inv_steps. eauto. Qed.

Lemma signature_verifies priv pub pieces t t' sig :
  x25519 priv x25519_Basepoint = Some pub -> Xeddsa.XEdDSASign priv pieces t = (t', Ok sig) ->
  length sig = 64%nat /\ Xeddsa.XEdDSAVerify pub sig pieces = true.
Proof.
  intros Hp Hs. unfold Xeddsa.XEdDSASign in Hs. destruct (xeddsaSign_reads _ _ _ _ _ Hs) as [rnd Hr].
  destruct (xeddsaSign_shape priv pieces t t' rnd Hr) as (a & r & h & l & b & Hsig & Ha & Hh & Hl & Hll & Hb).
  cbv zeta in *. rewrite Hs in Hsig. injection Hsig as Hsig.
  set (sign := point_sign (ScalarBaseMult a)) in *. destruct (byte_sign b sign Hb) as [Hbit Hlow]. cbv zeta in *.
  set (b' := z2b (Z.lor (b2z b) (if sign then 128 else 0))) in *.
  assert (length sig = 64%nat) as H64 by (rewrite Hsig, !length_app, vec_list_length, Hll; done).
  split; [done|]. unfold Xeddsa.XEdDSAVerify. unfold len. rewrite H64. cbn [Z.of_nat Z.eqb Pos.eqb negb].
  rewrite (vec_list_to_arr 64) by done. rewrite Hsig.
  rewrite lookup_app_r, lookup_app_r by (rewrite ?vec_list_length; lia). rewrite vec_list_length, Hll. change (default Byte.x00 ([b'] !! (63 - 32 - 31)%nat)) with b'.
  rewrite Hbit. unfold sign. rewrite (montgomeryToEdwards_ok priv pub a Hp Ha). cbv zeta.
  rewrite take_app_length', drop_app_length' by (by rewrite vec_list_length). rewrite to_arr_vec_list.
  assert (arr_alter 31 (fun b => z2b (Z.land (b2z b) 127)) (to_arr 32 (l ++ [b'])) = to_arr 32 (l ++ [b])) as ->.
  { unfold arr_alter. rewrite vec_list_to_arr by (rewrite length_app, Hll; done).
    rewrite alter_app_r_alt, Hll by lia. cbn. by rewrite Hlow. }
  rewrite vec_list_to_arr by (rewrite length_app, Hll; done).
  rewrite lookup_app_r, Hll by lia. change (default Byte.x00 ([b] !! (31 - 31)%nat)) with b. rewrite (proj2 (byte_low b Hb)). cbn [Z.eqb negb].
  destruct (scalarFromBytesModOrder_ok (to_arr 32 (l ++ [b]))) as (s & -> & Hv & _). rewrite Hh.
  rewrite vec_list_to_arr, <- Hl in Hv by (rewrite length_app, Hll; done).
  pose proof (scalar_range (MultiplyAdd h a r)). pose proof ell_range.
  rewrite le_value_bytes, Z.mod_small in Hv by (try lia; change (256 ^ Z.of_nat 32) with (2 ^ 256); lia).
  rewrite (schnorr_equation h a r s Hv). by apply bool_decide_eq_true.
Qed.

End correctness.

(** The implementation satisfies the interface. *)
#[export] Instance xeddsa_impl_laws `{P : Primitives} `{E : Edwards25519} `{Gr : !PointGroup E} `{!Edwards25519Laws P E Gr} :
  XEdDSALaws P xeddsa_impl.
Proof.
  split.
  - intros priv m t t' sig Hs. change (xeddsaSign priv [m] t = (t', Ok sig)) in Hs.
    destruct (xeddsaSign_reads _ _ _ _ _ Hs) as [rnd Hr].
    destruct (xeddsaSign_shape priv [m] t t' rnd Hr) as (a & r & h & l & b & Hsig & _ & _ & _ & Hll & _).
    rewrite Hs in Hsig. injection Hsig as ->. by rewrite !length_app, vec_list_length, Hll.
  - intros priv pub m t t' sig Hp Hs. exact (proj2 (signature_verifies priv pub [m] t t' sig Hp Hs)).
Qed.

(** C12: XEdDSA is correct. On a tape of 64 bytes [XEdDSASign] always returns a
    signature, of 64 bytes; it verifies under the Curve25519 public key of the
    private key, which is all the verifier has: it recovers the Edwards key from
    it and the bit that the signature carries. The response in the signature is
    a number below 2^253, so the range check on it accepts. *)
Theorem xeddsa_verifies (P : Primitives) (E : Edwards25519) (Gr : PointGroup E) (L : Edwards25519Laws P E Gr)
    priv pub pieces (t : tape) :
  key_pair_ok priv pub -> (64 <= length t)%nat ->
  exists sig, Xeddsa.XEdDSASign priv pieces t = (drop 64 t, Ok sig) /\ length sig = 64%nat /\
    Xeddsa.XEdDSAVerify pub sig pieces = true /\
    exists A, Xeddsa.XEdDSASigningPublicKey priv = Ok A /\
      option_map point_Bytes (montgomeryToEdwards pub (Z.shiftr (Z.land (b2z (default Byte.x00 (sig !! 63%nat))) 128) 7)) = Some A.
Proof.
  intros Hp Ht. assert (io_ReadFull 64 t = (drop 64 t, Ok (take 64 t))) as Hr.
  { unfold io_ReadFull. case_decide; [lia|done]. }
  destruct (xeddsaSign_shape priv pieces t _ _ Hr) as (a & r & h & l & b & Hsig & Ha & _ & _ & Hll & Hb). cbv zeta in *.
  eexists. split; [exact Hsig|]. destruct (signature_verifies priv pub pieces t _ _ Hp Hsig) as [H64 Hv]. split_and!; [done..|].
  exists (point_Bytes (ScalarBaseMult a)). split.
  - unfold Xeddsa.XEdDSASigningPublicKey, scalarFromBytesModOrder. by rewrite Ha.
  - rewrite lookup_app_r, lookup_app_r by (rewrite ?vec_list_length; lia). rewrite vec_list_length, Hll.
    match goal with |- context [default Byte.x00 ([?c] !! _)] => change (default Byte.x00 ([c] !! (63 - 32 - 31)%nat)) with c end.
    rewrite (proj1 (byte_sign b _ Hb)). by rewrite (montgomeryToEdwards_ok priv pub a Hp Ha).
Qed.

(** ** A concrete instance: a group of order three *)

Module ToyEdwards.

Inductive z3 : Type := O0 | O1 | O2.
Definition value (s : z3) : Z := match s with O0 => 0 | O1 => 1 | O2 => 2 end.
Definition of_Z (z : Z) : z3 := match z mod 3 with 1 => O1 | 2 => O2 | _ => O0 end.
Definition add (p q : z3) : z3 := of_Z (value p + value q).
Definition opp (p : z3) : z3 := of_Z (- value p).
Definition le_key (z : Z) : key32 := to_arr 32 (le_bytes 32 z).
Definition parse_point (b : bytes) : option z3 :=
  if decide (b = vec_to_list (le_key 0)) then Some O0
  else if decide (b = vec_to_list (le_key 1)) then Some O1
  else if decide (b = vec_to_list (with_sign true (le_key 1))) then Some O2 else None.

#[export] Instance edwards : Edwards25519 := {|
  scalar := z3;
  point := z3;
  felem := Z;
  sha512 := Toy.mac 64 [];
  SetUniformBytes b := if decide (length b = 64%nat) then Some (of_Z (le_value b)) else None;
  MultiplyAdd x y z := of_Z (value x * value y + value z);
  scalar_Bytes s := le_key (value s);
  ScalarBaseMult s := s;
  Negate := opp;
  VarTimeDoubleScalarBaseMult a p b := of_Z (value a * value p + value b);
  (* zero and the two other points have the coordinates 0, 1, 1 *)
  point_Bytes p := match p with O0 => le_key 0 | O1 => le_key 1 | O2 => with_sign true (le_key 1) end;
  point_SetBytes := parse_point;
  felem_SetBytes b := Some (le_value b);
  felem_Bytes := le_key;
  felem_Zero := 0;
  felem_One := 1;
  felem_Add := Z.add;
  felem_Subtract := Z.sub;
  felem_Multiply := Z.mul;
  felem_Invert _ := 1;
  felem_Equal a b := bool_decide (a = b)
|}.

#[export] Instance group : PointGroup edwards := {| point_zero := O0; point_add := add; base_point := O1 |}.

(** X25519 to match: the coordinate of the multiple of the base point, plus one. *)
Definition y (p : z3) : Z := match p with O0 => 0 | _ => 1 end.
Definition base_mult (priv : key32) : z3 := of_Z (le_value (vec_to_list (clampCurve25519Scalar priv))).
Definition primitives : Primitives := {|
  hmac_sha256 := @hmac_sha256 Toy.primitives;
  hkdf_extract := @hkdf_extract Toy.primitives;
  hkdf_stream := @hkdf_stream Toy.primitives;
  x25519 a _ := Some (le_key (y (base_mult a) + 1));
  x25519_Basepoint := @x25519_Basepoint Toy.primitives;
  aes_encrypt := @aes_encrypt Toy.primitives;
  aes_decrypt := @aes_decrypt Toy.primitives;
  gcm_seal := @gcm_seal Toy.primitives;
  gcm_open := @gcm_open Toy.primitives;
  chacha_seal := @chacha_seal Toy.primitives;
  chacha_open := @chacha_open Toy.primitives
|}.

Lemma value_of_Z z : value (of_Z z) = z mod 3.
Proof.
  unfold of_Z. pose proof (Z.mod_pos_bound z 3 eq_refl). assert (z mod 3 = 0 \/ z mod 3 = 1 \/ z mod 3 = 2) as [-> |[-> | ->]] by lia; done.
Qed.

Lemma double_mult_ok a p b :
  of_Z (value a * value p + value b) =
  add (@multiple _ group (Z.to_nat (value a)) p) (@multiple _ group (Z.to_nat (value b)) O1).
Proof. by destruct a, p, b. Qed.

#[export] Instance laws : Edwards25519Laws primitives edwards group.
Proof.
  refine {| ell := 3; scalar_value := (value : @scalar edwards -> Z); point_y := (y : @point edwards -> @felem edwards);
            point_sign := (fun p : @point edwards => match p with O2 => true | _ => false end) |}; try (by repeat intros []).
  - intros b Hb. exists (of_Z (le_value b)). split; [|apply value_of_Z]. unfold SetUniformBytes, edwards. by rewrite decide_True.
  - intros priv pub a Hp Ha. exists (y (base_mult priv) + 1).
    assert (le_value (vec_to_list (le_key (y (base_mult priv) + 1))) = y (base_mult priv) + 1) as Hle.
    { unfold le_key. rewrite vec_list_to_arr by apply le_bytes_length. apply le_value_bytes. unfold y. destruct (base_mult priv); lia. }
    unfold x25519, primitives in Hp. injection Hp as <-. unfold SetUniformBytes, edwards in Ha.
    rewrite decide_True in Ha by (by rewrite length_app, vec_list_length, length_replicate). apply (inj Some) in Ha.
    unfold felem_SetBytes, felem_Equal, felem_Add, felem_One, felem_Zero, felem_Multiply, felem_Subtract, felem_Invert, edwards.
    rewrite Hle. split_and!; [done| |].
    + apply bool_decide_eq_false. unfold y. destruct (base_mult priv); lia.
    + rewrite le_value_app_zeros in Ha. change ((y (base_mult priv) + 1 - 1) * 1 = y a). rewrite <- Ha. fold (base_mult priv). lia.
Qed.

End ToyEdwards.

Lemma xeddsa_verifies_witness :
  let P := ToyEdwards.primitives in let E := ToyEdwards.edwards in
  exists sig, Xeddsa.XEdDSASign (to_arr 32 (str "a private key of thirty-two byte")) [str "a message"; str " in two pieces"]
      (replicate 64 Byte.x2a) = ([], Ok sig) /\
    Xeddsa.XEdDSAVerify (ToyEdwards.le_key (ToyEdwards.y (ToyEdwards.base_mult (to_arr 32 (str "a private key of thirty-two byte"))) + 1))
      sig [str "a message"; str " in two pieces"] = true.
Proof.
  intros P E.
  destruct (xeddsa_verifies P E ToyEdwards.group ToyEdwards.laws (to_arr 32 (str "a private key of thirty-two byte"))
    (ToyEdwards.le_key (ToyEdwards.y (ToyEdwards.base_mult (to_arr 32 (str "a private key of thirty-two byte"))) + 1))
    [str "a message"; str " in two pieces"] (replicate 64 Byte.x2a)) as (sig & Hs & _ & Hv & _).
  - reflexivity.
  - reflexivity.
  - exists sig. split; [exact Hs|exact Hv].
Defined.
