(* ===== verification/Keys.v ===== *)
(** * Keys and pre-key bundles: the keys package

    Identity keys, one-time, signed and Kyber pre-keys, the published bundle
    with its validation, and the binary formats of keys/serialize.go. A Go
    pointer that may be nil is an [option]. [Timestamp] is the instant in
    nanoseconds since the zero time (the formats drop it); the clock is an argument. *)

From Stdlib Require Import ZArith Lia.
From Stdlib Require Import Strings.Byte.
From stdpp Require Import base gmap strings list list_numbers vector.
From S2P Require Import Prelude Crypto.
Import Crypto.

Module Keys.

(** *** wire.go *)

Definition wireKeyTypeDjb : byte := Byte.x05.

Definition SerializeWirePublicKey (pub : key32) : bytes := wireKeyTypeDjb :: vec_to_list pub.

Section wire.
Context `{Primitives}.

Definition DeserializeWirePublicKey (data : bytes) : res key32 :=
  _ ← check (negb (len data =? 1 + 32)) ErrInvalidKey;
  b ← index data 0;
  _ ← check (negb (bool_decide (b = wireKeyTypeDjb))) ErrInvalidKey;
  rest ← slice data 1 (len data);
  let out := to_arr 32 rest in
  match ValidatePublicKey out with
  | Ok _ => Ok out
  | _ => Err ErrInvalidKey
  end.
End wire.

(** *** identity.go, prekey.go, kyber.go, bundle.go: the data *)

Record IdentityKey : Type := mkIdentityKey { ik_PublicKey : key32; ik_SigningPublic : key32 }.

#[export] Instance IdentityKey_eq_dec : EqDecision IdentityKey.
Proof. solve_decision. Defined.

Record IdentityKeyPair : Type := mkIdentityKeyPair {
  ikp_PublicKey : IdentityKey;
  ikp_PrivateKey : key32
}.

Record PreKey : Type := mkPreKey {
  pk_ID : Z;
  pk_KeyPair : option KeyPair;
  pk_Timestamp : Z
}.

Record SignedPreKey : Type := mkSignedPreKey {
  spk_ID : Z;
  spk_KeyPair : option KeyPair;
  spk_Signature : bytes;
  spk_Timestamp : Z
}.

Record KyberPreKey : Type := mkKyberPreKey {
  kpk_ID : Z;
  kpk_KeyPair : option KyberKeyPair;
  kpk_Signature : bytes;
  kpk_Timestamp : Z
}.

Record PreKeyBundle : Type := mkPreKeyBundle {
  RegistrationID : Z;
  DeviceID : Z;
  PreKeyID : option Z;
  PreKeyPublic : option key32;
  SignedPreKeyID : Z;
  SignedPreKeyPublic : key32;
  SignedPreKeySignature : bytes;
  KyberPreKeyID : option Z;
  KyberPreKeyPublic : bytes;
  KyberPreKeySignature : bytes;
  BundleIdentityKey : IdentityKey
}.

Definition is_nil {A} (o : option A) : bool := match o with None => true | Some _ => false end.

Section keys.
Context `{Primitives} `{KyberPrims} `{XEdDSA}.

(** *** identity.go *)

Definition GenerateIdentityKeyPair : ST tape IdentityKeyPair :=
  kp ← GenerateKeyPair;
  signingPub ← st_lift (XEdDSASigningPublicKey (PrivateKey kp));
  mret (mkIdentityKeyPair (mkIdentityKey (PublicKey kp) signingPub) (PrivateKey kp)).

Definition Sign (k : IdentityKeyPair) (message : bytes) : ST tape bytes :=
  XEdDSASign (ikp_PrivateKey k) message.

Definition Verify (k : IdentityKey) (message signature : bytes) : bool :=
  XEdDSAVerify (ik_PublicKey k) signature message.

Definition FromBytes (curvePub signingPub : bytes) : res IdentityKey :=
  _ ← check (negb (len curvePub =? 32) || negb (len signingPub =? 32))
        (ErrText "identity: public keys must be 32 bytes");
  let ik := mkIdentityKey (to_arr 32 curvePub) (to_arr 32 signingPub) in
  match ValidatePublicKey (ik_PublicKey ik) with
  | Ok _ => Ok ik
  | _ => Err (ErrText "identity: invalid public key")
  end.

(** *** prekey.go *)

Definition GeneratePreKey (now id : Z) : ST tape PreKey :=
  kp ← GenerateKeyPair;
  mret (mkPreKey id (Some kp) now).

Fixpoint GeneratePreKeys_loop (now startID : Z) (ixs : list Z) (keys : list PreKey) : ST tape (list PreKey) :=
  match ixs with
  | [] => mret keys
  | i :: ixs =>
      pk ← GeneratePreKey now (u32 (startID + u32 i));
      GeneratePreKeys_loop now startID ixs (keys ++ [pk])
  end.

Definition GeneratePreKeys (now startID count : Z) : ST tape (list PreKey) :=
  _ ← st_check (count <? 0) (ErrText "count must be non-negative");
  GeneratePreKeys_loop now startID (seqZ 0 count) [].

Definition GenerateSignedPreKey (now : Z) (identityKey : IdentityKeyPair) (id : Z) : ST tape SignedPreKey :=
  kp ← GenerateKeyPair;
  sig ← Sign identityKey (SerializeWirePublicKey (PublicKey kp));
  mret (mkSignedPreKey id (Some kp) sig now).

Definition VerifySignedPreKey (spk : SignedPreKey) (identity : IdentityKey) : res bool :=
  match spk_KeyPair spk with
  | None => Panic
  | Some kp => Ok (Verify identity (SerializeWirePublicKey (PublicKey kp)) (spk_Signature spk))
  end.

(** *** kyber.go *)

Definition GenerateKyberPreKey (now : Z) (identityKey : IdentityKeyPair) (id : Z) : ST tape KyberPreKey :=
  kp ← GenerateKyber1024KeyPair;
  sig ← Sign identityKey (kkp_PublicKey kp);
  mret (mkKyberPreKey id (Some kp) sig now).

Definition VerifyKyberPreKey (kp : KyberPreKey) (identity : IdentityKey) : bool :=
  match kpk_KeyPair kp with
  | None => false
  | Some k => Verify identity (kkp_PublicKey k) (kpk_Signature kp)
  end.

(** *** bundle.go *)

Definition NewPreKeyBundleWithKyber (registrationID deviceID : Z) (preKey : option PreKey)
    (signedPreKey : option SignedPreKey) (kyberPreKey : option KyberPreKey) (identity : IdentityKey) :
    res PreKeyBundle :=
  match signedPreKey with
  | None => Err ErrInvalidKey
  | Some signedPreKey =>
      '(preKeyID, preKeyPub) ← match preKey with
        | None => Ok (None, None)
        | Some p => match pk_KeyPair p with
                    | None => Panic
                    | Some kp => Ok (Some (pk_ID p), Some (PublicKey kp))
                    end
        end;
      match spk_KeyPair signedPreKey with
      | None => Err ErrInvalidKey
      | Some skp =>
          '(kyberID, kyberPub, kyberSig) ← match kyberPreKey with
            | None => Ok (None, [], [])
            | Some k =>
                match kpk_KeyPair k with
                | None => Err ErrInvalidKey
                | Some kkp =>
                    _ ← check (len (kkp_PublicKey kkp) =? 0) ErrInvalidKey;
                    _ ← check (len (kpk_Signature k) =? 0) ErrInvalidSignature;
                    mret (Some (kpk_ID k), kkp_PublicKey kkp, kpk_Signature k)
                end
            end;
          mret (mkPreKeyBundle registrationID deviceID preKeyID preKeyPub
                  (spk_ID signedPreKey) (PublicKey skp) (spk_Signature signedPreKey)
                  kyberID kyberPub kyberSig identity)
      end
  end.

Definition Validate (b : PreKeyBundle) : res unit :=
  _ ← check (len (SignedPreKeySignature b) =? 0) ErrInvalidSignature;
  _ ← check (SignedPreKeyID b =? 0) ErrInvalidKey;
  _ ← check (negb (IsValidPublicKey (ik_PublicKey (BundleIdentityKey b)))) ErrInvalidKey;
  _ ← check (negb (IsValidPublicKey (SignedPreKeyPublic b))) ErrInvalidKey;
  _ ← check (negb (Verify (BundleIdentityKey b) (SerializeWirePublicKey (SignedPreKeyPublic b))
                     (SignedPreKeySignature b))) ErrInvalidSignature;
  _ ← check (negb (Bool.eqb (is_nil (PreKeyID b)) (is_nil (PreKeyPublic b)))) ErrInvalidMessage;
  _ ← check (match PreKeyPublic b with Some p => negb (IsValidPublicKey p) | None => false end) ErrInvalidKey;
  _ ← check (negb (Bool.eqb (is_nil (KyberPreKeyID b)) (len (KyberPreKeyPublic b) =? 0))) ErrInvalidMessage;
  _ ← check (negb (Bool.eqb (is_nil (KyberPreKeyID b)) (len (KyberPreKeySignature b) =? 0))) ErrInvalidMessage;
  match KyberPreKeyID b with
  | None => mret tt
  | Some id =>
      _ ← check (id =? 0) ErrInvalidKey;
      _ ← check (negb (IsKyber1024PublicKey (KyberPreKeyPublic b))) ErrInvalidKey;
      check (negb (Verify (BundleIdentityKey b) (KyberPreKeyPublic b) (KyberPreKeySignature b))) ErrInvalidSignature
  end.

(** *** serialize.go *)

Definition serializeVersion : byte := Byte.x01.

Definition IdentityKey_Serialize (k : IdentityKey) : bytes :=
  serializeVersion :: vec_to_list (ik_PublicKey k) ++ vec_to_list (ik_SigningPublic k).

(** [data[0] != version] *)
Definition rd_version (v : byte) (e : error) : reader unit :=
  b ← rd_byte;
  rd_check (negb (bool_decide (b = v))) e.

Definition valid_or (pub : key32) (e : error) : reader unit :=
  rd_check (negb (is_ok (ValidatePublicKey pub))) e.

Definition DeserializeIdentityKey (data : bytes) : res IdentityKey :=
  _ ← check (negb (len data =? 1 + 32 + 32)) (ErrText "identity key: invalid length");
  rd_run (
    _ ← rd_version serializeVersion (ErrText "identity key: unsupported version");
    pub ← rd_arr 32;
    signing ← rd_arr 32;
    _ ← valid_or pub ErrInvalidKey;
    mret (mkIdentityKey pub signing)) data.

Definition PreKey_Serialize (p : PreKey) : res bytes :=
  match pk_KeyPair p with
  | None => Err (ErrText "pre-key is nil")
  | Some kp => Ok (serializeVersion :: AppendUint32 (pk_ID p) ++ vec_to_list (PublicKey kp))
  end.

Definition DeserializePreKey (data : bytes) : res PreKey :=
  _ ← check (negb (len data =? 1 + 4 + 32)) (ErrText "pre-key: invalid length");
  rd_run (
    _ ← rd_version serializeVersion (ErrText "pre-key: unsupported version");
    id ← rd_u32;
    pub ← rd_arr 32;
    _ ← valid_or pub ErrInvalidKey;
    mret (mkPreKey id (Some (mkKeyPair pub zero32)) 0)) data.

Definition SignedPreKey_Serialize (spk : SignedPreKey) : res bytes :=
  match spk_KeyPair spk with
  | None => Err (ErrText "signed pre-key is nil")
  | Some kp =>
      _ ← check (len (spk_Signature spk) =? 0) (ErrText "signed pre-key missing signature");
      mret (serializeVersion :: AppendUint32 (spk_ID spk) ++ AppendUint16 (u16 (len (spk_Signature spk))) ++
            vec_to_list (PublicKey kp) ++ spk_Signature spk)
  end.

Definition DeserializeSignedPreKey (data : bytes) : res SignedPreKey :=
  _ ← check (len data <? 1 + 4 + 2 + 32) (ErrText "signed pre-key: invalid length");
  rd_run (
    _ ← rd_version serializeVersion (ErrText "signed pre-key: unsupported version");
    id ← rd_u32;
    sigLen ← rd_u16;
    _ ← rd_check (negb (len data =? 1 + 4 + 2 + 32 + sigLen)) (ErrText "signed pre-key: signature length mismatch");
    pub ← rd_arr 32;
    _ ← valid_or pub ErrInvalidKey;
    sig ← rd_take sigLen;
    mret (mkSignedPreKey id (Some (mkKeyPair pub zero32)) sig 0)) data.

Definition PreKeyBundle_Serialize (b : PreKeyBundle) : res bytes :=
  let identityBytes := IdentityKey_Serialize (BundleIdentityKey b) in
  _ ← check (negb (Bool.eqb (is_nil (KyberPreKeyID b)) (len (KyberPreKeyPublic b) =? 0)))
        (ErrText "bundle: kyber pre-key id/key mismatch");
  _ ← check (negb (Bool.eqb (is_nil (KyberPreKeyID b)) (len (KyberPreKeySignature b) =? 0)))
        (ErrText "bundle: kyber pre-key id/signature mismatch");
  let preKeyPart :=
    match PreKeyID b, PreKeyPublic b with
    | Some id, Some pub => Byte.x01 :: AppendUint32 id ++ vec_to_list pub
    | _, _ => [Byte.x00]
    end in
  let kyberPart :=
    match KyberPreKeyID b with
    | Some id =>
        if (len (KyberPreKeyPublic b) >? 0) && (len (KyberPreKeySignature b) >? 0) then
          Byte.x01 :: AppendUint32 id ++ AppendUint16 (u16 (len (KyberPreKeyPublic b))) ++ KyberPreKeyPublic b ++
          AppendUint16 (u16 (len (KyberPreKeySignature b))) ++ KyberPreKeySignature b
        else []
    | None => []
    end in
  mret (serializeVersion :: AppendUint32 (RegistrationID b) ++ AppendUint32 (DeviceID b) ++ preKeyPart ++
        AppendUint32 (SignedPreKeyID b) ++ vec_to_list (SignedPreKeyPublic b) ++
        AppendUint16 (u16 (len (SignedPreKeySignature b))) ++ SignedPreKeySignature b ++
        identityBytes ++ kyberPart).

Definition rd_bundle_kyber : reader (option Z * bytes * bytes) :=
  hasKyber ← rd_byte;
  if bool_decide (hasKyber = Byte.x01) then
    _ ← rd_need (4 + 2) (ErrText "bundle: truncated kyber header");
    id ← rd_u32;
    pubLen ← rd_u16;
    _ ← rd_check (pubLen <=? 0) (ErrText "bundle: truncated kyber public key");
    _ ← rd_need pubLen (ErrText "bundle: truncated kyber public key");
    kyberPub ← rd_take pubLen;
    _ ← rd_need 2 (ErrText "bundle: truncated kyber signature length");
    sigLen ← rd_u16;
    _ ← rd_check (sigLen <=? 0) (ErrText "bundle: truncated kyber signature");
    _ ← rd_need sigLen (ErrText "bundle: truncated kyber signature");
    kyberSig ← rd_take sigLen;
    mret (Some id, kyberPub, kyberSig)
  else
    _ ← rd_check (negb (bool_decide (hasKyber = Byte.x00))) (ErrText "bundle: invalid kyber flag");
    mret (None, [], []).

Definition rd_bundle_prekey : reader (option Z * option key32) :=
  hasPreKey ← rd_byte;
  if bool_decide (hasPreKey = Byte.x01) then
    _ ← rd_need (4 + 32) (ErrText "bundle: truncated pre-key");
    id ← rd_u32;
    pub ← rd_arr 32;
    mret (Some id, Some pub)
  else mret (None, None).

Definition DeserializePreKeyBundle (data : bytes) : res PreKeyBundle :=
  _ ← check (len data <? 1 + 4 + 4 + 1 + 4 + 32 + 4 + 32 + 2) (ErrText "bundle: invalid length");
  rd_run (
    _ ← rd_version serializeVersion (ErrText "bundle: unsupported version");
    _ ← rd_need 8 (ErrText "bundle: truncated header");
    reg ← rd_u32;
    device ← rd_u32;
    '(preKeyID, preKeyPub) ← rd_bundle_prekey;
    _ ← rd_need (4 + 32 + 2) (ErrText "bundle: truncated signed pre-key");
    signedID ← rd_u32;
    signedPub ← rd_arr 32;
    sigLen ← rd_u16;
    _ ← rd_need sigLen (ErrText "bundle: truncated signature");
    sig ← rd_take sigLen;
    _ ← rd_need (1 + 32 + 32) (ErrText "bundle: truncated identity key");
    ikBytes ← rd_take (1 + 32 + 32);
    identity ← rd_lift (DeserializeIdentityKey ikBytes);
    more ← rd_more;
    '(kyberID, kyberPub, kyberSig) ←
      (if (more : bool) then
         _ ← rd_need 1 (ErrText "bundle: truncated kyber flag");
         rd_bundle_kyber
       else mret (None, [], []));
    _ ← rd_eof (ErrText "bundle: trailing data");
    mret (mkPreKeyBundle reg device preKeyID preKeyPub signedID signedPub sig kyberID kyberPub kyberSig identity)) data.

End keys.
End Keys.
Import Keys.

(** ** Reading back *)

Section lemmas.
Context `{Primitives} `{KyberPrims} `{XEdDSA}.

Lemma ValidatePublicKey_valid pub : IsValidPublicKey pub = true -> ValidatePublicKey pub = Ok tt.
Proof. intros Hv. unfold ValidatePublicKey. by rewrite Hv. Qed.

Lemma DeserializeWirePublicKey_wire pub :
  DeserializeWirePublicKey (SerializeWirePublicKey pub) = if IsValidPublicKey pub then Ok pub else Err ErrInvalidKey.
Proof.
  unfold DeserializeWirePublicKey, SerializeWirePublicKey.
  assert (len (wireKeyTypeDjb :: vec_to_list pub) = 33) as Hl by (rewrite len_cons, vec_list_len; done).
  rewrite Hl. change (index (wireKeyTypeDjb :: vec_to_list pub) 0) with (Ok wireKeyTypeDjb).
  change (33 =? 1 + 32) with true. cbn [negb check mbind res_bind]. rewrite bool_decide_true by done. cbn [negb check].
  pose proof (slice_suffix [wireKeyTypeDjb] (vec_to_list pub)) as Hs. cbn [app] in Hs.
  rewrite Hl in Hs. change (len [wireKeyTypeDjb]) with 1 in Hs. rewrite Hs. cbn [mbind res_bind].
  rewrite to_arr_vec_list. unfold ValidatePublicKey. by destruct (IsValidPublicKey pub).
Qed.

Lemma DeserializeWirePublicKey_serialize pub :
  IsValidPublicKey pub = true -> DeserializeWirePublicKey (SerializeWirePublicKey pub) = Ok pub.
Proof. intros Hv. by rewrite DeserializeWirePublicKey_wire, Hv. Qed.

Lemma reads_version v e {A} (p : reader A) enc r :
  reads p enc r -> reads (_ ← rd_version v e; p) (v :: enc) r.
Proof.
  intros Hp. apply (reads_bind _ _ [v] tt); [|done]. eapply reads_bind_end; [apply reads_byte|].
  rewrite bool_decide_true by done. apply (reads_lift _ tt). done.
Qed.

Lemma reads_end_version v e {A} (p : reader A) enc r :
  reads_end p enc r -> reads_end (_ ← rd_version v e; p) (v :: enc) r.
Proof.
  intros Hp. apply (reads_end_bind _ _ [v] tt); [|done]. eapply reads_bind_end; [apply reads_byte|].
  rewrite bool_decide_true by done. apply (reads_lift _ tt). done.
Qed.

Lemma reads_valid_or pub e {A} (p : reader A) enc r :
  IsValidPublicKey pub = true -> reads p enc r -> reads (_ ← valid_or pub e; p) enc r.
Proof.
  intros Hv Hp. unfold valid_or. rewrite ValidatePublicKey_valid by done. by apply reads_check.
Qed.

Lemma DeserializeIdentityKey_serialize k :
  IsValidPublicKey (ik_PublicKey k) = true -> DeserializeIdentityKey (IdentityKey_Serialize k) = Ok k.
Proof.
  intros Hv. unfold DeserializeIdentityKey, IdentityKey_Serialize.
  rewrite len_cons, len_app, !vec_list_len. change (negb _) with false. cbn [check mbind res_bind].
  apply reads_end_run, reads_end_of, reads_version. eapply reads_bind; [apply reads_arr|].
  eapply reads_bind_end; [apply reads_arr|]. apply reads_valid_or; [done|].
  destruct k. apply reads_ret.
Qed.

Lemma wp_version v e data pos (Q : unit -> Z -> Prop) :
  0 <= pos -> pos + 1 <= len data -> Q tt (pos + 1) -> rd_wp (rd_version v e) data pos Q.
Proof. intros. unfold rd_version. wp_steps. done. Qed.

Lemma DeserializeIdentityKey_no_panic data : DeserializeIdentityKey data <> Panic.
Proof.
  unfold DeserializeIdentityKey. destruct (Z.eqb_spec (len data) (1 + 32 + 32)); [|done].
  cbn [negb check mbind res_bind]. apply wp_run. wp_step. apply wp_version; [lia..|].
  unfold valid_or. wp_steps. done.
Qed.

Record bundle_ok (b : PreKeyBundle) : Prop := {
  bundle_reg : is_u32 (RegistrationID b);
  bundle_dev : is_u32 (DeviceID b);
  bundle_pre : match PreKeyID b, PreKeyPublic b with
               | Some id, Some _ => is_u32 id | None, None => True | _, _ => False end;
  bundle_spk : is_u32 (SignedPreKeyID b);
  bundle_sig : is_u16 (len (SignedPreKeySignature b));
  bundle_kid : match KyberPreKeyID b with Some id => is_u32 id | None => True end;
  bundle_kpk : is_u16 (len (KyberPreKeyPublic b));
  bundle_ksig : is_u16 (len (KyberPreKeySignature b));
  bundle_ik : IsValidPublicKey (ik_PublicKey (BundleIdentityKey b)) = true
}.

Lemma reads_bundle_prekey b :
  bundle_ok b ->
  reads rd_bundle_prekey
    (match PreKeyID b, PreKeyPublic b with
     | Some id, Some pub => Byte.x01 :: AppendUint32 id ++ vec_to_list pub
     | _, _ => [Byte.x00] end) (PreKeyID b, PreKeyPublic b).
Proof.
  intros Hb. pose proof (bundle_pre b Hb) as Hp. unfold rd_bundle_prekey.
  destruct (PreKeyID b) as [id|], (PreKeyPublic b) as [pub|]; try done.
  - apply (reads_bind _ _ [Byte.x01] Byte.x01); [apply reads_byte|]. rewrite bool_decide_true by done.
    apply reads_need; [lens|]. eapply reads_bind; [by apply reads_uint|].
    eapply reads_bind_end; [apply reads_arr|]. apply reads_ret.
  - eapply reads_bind_end; [apply reads_byte|]. apply reads_ret.
Qed.

Lemma reads_bundle_kyber id pub sig :
  is_u32 id -> is_u16 (len pub) -> is_u16 (len sig) -> 0 < len pub -> 0 < len sig ->
  reads rd_bundle_kyber
    (Byte.x01 :: AppendUint32 id ++ AppendUint16 (u16 (len pub)) ++ pub ++ AppendUint16 (u16 (len sig)) ++ sig)
    (Some id, pub, sig).
Proof.
  intros Hid Hp Hs Hp0 Hs0. unfold rd_bundle_kyber. rewrite !u16_id by done.
  apply (reads_bind _ _ [Byte.x01] Byte.x01); [apply reads_byte|]. rewrite bool_decide_true by done.
  apply reads_need; [lens|]. eapply reads_bind; [by apply reads_uint|].
  eapply reads_bind; [by apply reads_uint|]. apply reads_check; [lia|].
  apply reads_need; [lens|]. eapply reads_bind; [by apply reads_take|].
  apply reads_need; [lens|]. eapply reads_bind; [by apply reads_uint|].
  apply reads_check; [lia|]. apply reads_need; [lia|].
  eapply reads_bind_end; [by apply reads_take|]. apply reads_ret.
Qed.

Lemma DeserializePreKeyBundle_serialize b data :
  bundle_ok b -> PreKeyBundle_Serialize b = Ok data -> DeserializePreKeyBundle data = Ok b.
Proof.
  intros Hb E. unfold PreKeyBundle_Serialize in E. inv_ok E. apply check_ok, negb_false_iff, eqb_prop in Hok, Hok0.
  apply Ok_inj in E. subst data. rewrite (u16_id (len (SignedPreKeySignature b))) by apply Hb.
  unfold DeserializePreKeyBundle. rewrite (proj2 (Z.ltb_ge _ _)).
  2:{ unfold IdentityKey_Serialize. lens. }
  cbn [check mbind res_bind]. apply reads_end_run, reads_end_version.
  apply reads_end_need; [lens|].
  eapply reads_end_bind; [by apply reads_uint, Hb|]. eapply reads_end_bind; [by apply reads_uint, Hb|].
  eapply reads_end_bind; [by apply reads_bundle_prekey|]. cbn beta iota.
  apply reads_end_need; [lens|]. eapply reads_end_bind; [by apply reads_uint, Hb|].
  eapply reads_end_bind; [apply reads_arr|]. eapply reads_end_bind; [by apply reads_uint, Hb|].
  apply reads_end_need; [lens|]. eapply reads_end_bind; [by apply reads_take|].
  assert (len (IdentityKey_Serialize (BundleIdentityKey b)) = 65) as Hik
    by (unfold IdentityKey_Serialize; by autorewrite with len).
  apply reads_end_need; [rewrite len_app, Hik; len_facts; lia|].
  eapply reads_end_bind; [apply reads_take; by rewrite Hik|].
  eapply reads_end_nil; [apply reads_lift, DeserializeIdentityKey_serialize, Hb|].
  apply reads_end_more. destruct b as [reg dev pid ppub sid spub sig kid kpub ksig ik]. cbn in Hok, Hok0 |- *.
  destruct kid as [id|]; cbn [is_nil] in Hok, Hok0.
  - symmetry in Hok, Hok0. apply Z.eqb_neq in Hok, Hok0.
    pose proof (len_nonneg kpub); pose proof (len_nonneg ksig).
    rewrite (proj2 (Z.gtb_lt (len kpub) 0)), (proj2 (Z.gtb_lt (len ksig) 0)) by lia. cbn [andb].
    rewrite (proj2 (Z.eqb_neq _ 0)) by lens. cbn [negb].
    destruct Hb as [_ _ _ _ _ Hkid Hkpk Hksig _]. cbn in Hkid, Hkpk, Hksig.
    eapply reads_end_last; [apply reads_need; [lens|]; apply reads_bundle_kyber; (done || lia)|].
    cbn beta iota. apply reads_end_eof, reads_end_of, reads_ret.
  - symmetry in Hok, Hok0. apply Z.eqb_eq, len_0_inv in Hok, Hok0. subst kpub ksig. cbn [len length Z.of_nat Z.eqb negb].
    eapply reads_end_nil; [apply reads_ret|]. cbn beta iota. apply reads_end_eof, reads_end_of, reads_ret.
Qed.

Lemma wp_bundle_prekey data pos (Q : option Z * option key32 -> Z -> Prop) :
  0 <= pos -> pos + 1 <= len data -> (forall r pos', pos < pos' -> Q r pos') -> rd_wp rd_bundle_prekey data pos Q.
Proof.
  intros H0' H1' HQ. unfold rd_bundle_prekey. wp_steps. case_bool_decide; wp_steps; apply HQ; lia.
Qed.

Lemma wp_bundle_kyber data pos (Q : option Z * bytes * bytes -> Z -> Prop) :
  0 <= pos -> pos + 1 <= len data -> (forall r pos', Q r pos') -> rd_wp rd_bundle_kyber data pos Q.
Proof. intros H0' H1' HQ. unfold rd_bundle_kyber. wp_steps. case_bool_decide; wp_steps; apply HQ. Qed.

Lemma DeserializePreKeyBundle_no_panic data : DeserializePreKeyBundle data <> Panic.
Proof.
  unfold DeserializePreKeyBundle. destruct (Z.ltb_spec (len data) (1 + 4 + 4 + 1 + 4 + 32 + 4 + 32 + 2)); [done|].
  cbn [check mbind res_bind]. apply wp_run. wp_step. apply wp_version; [lia..|]. wp_steps.
  apply wp_bundle_prekey; [lia..|]. intros [pid ppub] pos Hpos. wp_steps.
  apply wp_lift; [apply DeserializeIdentityKey_no_panic|]. intros ik _. wp_steps.
  - apply wp_bundle_kyber; [lia..|]. intros [[kid kpub] ksig] pos'. wp_steps. done.
  - done.
Qed.

Lemma DeserializePreKey_serialize p kp data :
  pk_KeyPair p = Some kp -> is_u32 (pk_ID p) -> IsValidPublicKey (PublicKey kp) = true ->
  PreKey_Serialize p = Ok data -> DeserializePreKey data = Ok (mkPreKey (pk_ID p) (Some (mkKeyPair (PublicKey kp) zero32)) 0).
Proof.
  unfold PreKey_Serialize. intros -> Hid Hv E. apply Ok_inj in E. subst data. unfold DeserializePreKey.
  autorewrite with len. change (negb _) with false. cbn [check mbind res_bind].
  apply reads_end_run, reads_end_of, reads_version. eapply reads_bind; [by apply reads_uint|].
  eapply reads_bind_end; [apply reads_arr|]. apply reads_valid_or; [done|]. apply reads_ret.
Qed.

Lemma DeserializeSignedPreKey_serialize p kp data :
  spk_KeyPair p = Some kp -> is_u32 (spk_ID p) -> is_u16 (len (spk_Signature p)) ->
  IsValidPublicKey (PublicKey kp) = true -> SignedPreKey_Serialize p = Ok data ->
  DeserializeSignedPreKey data =
    Ok (mkSignedPreKey (spk_ID p) (Some (mkKeyPair (PublicKey kp) zero32)) (spk_Signature p) 0).
Proof.
  unfold SignedPreKey_Serialize. intros -> Hid Hsig Hv E. inv_ok E. apply Ok_inj in E. subst data.
  unfold DeserializeSignedPreKey. rewrite u16_id by done.
  rewrite (proj2 (Z.ltb_ge _ _)) by lens. cbn [check mbind res_bind].
  apply reads_end_run, reads_end_of, reads_version. eapply reads_bind; [by apply reads_uint|].
  eapply reads_bind; [by apply reads_uint|].
  apply reads_check; [apply negb_false_iff, Z.eqb_eq; lens|].
  eapply reads_bind; [apply reads_arr|]. apply reads_valid_or; [done|].
  eapply reads_bind_end; [by apply reads_take|]. apply reads_ret.
Qed.

Lemma DeserializePreKey_no_panic data : DeserializePreKey data <> Panic.
Proof.
  unfold DeserializePreKey. destruct (Z.eqb_spec (len data) (1 + 4 + 32)); [|done].
  cbn [negb check mbind res_bind]. apply wp_run. wp_step. apply wp_version; [lia..|].
  unfold valid_or. wp_steps. done.
Qed.

Lemma DeserializeSignedPreKey_no_panic data : DeserializeSignedPreKey data <> Panic.
Proof.
  unfold DeserializeSignedPreKey. destruct (Z.ltb_spec (len data) (1 + 4 + 2 + 32)); [done|].
  cbn [check mbind res_bind]. apply wp_run. wp_step. apply wp_version; [lia..|].
  unfold valid_or. do 5 wp_step. apply wp_check. intros Hc.
  apply negb_false_iff, Z.eqb_eq in Hc. wp_steps. done.
Qed.

Lemma GenerateSignedPreKey_ok now ik id t t' spk :
  GenerateSignedPreKey now ik id t = (t', Ok spk) ->
  exists kp t1, spk_ID spk = id /\ spk_KeyPair spk = Some kp /\
    x25519 (PrivateKey kp) x25519_Basepoint = Some (PublicKey kp) /\
    Sign ik (SerializeWirePublicKey (PublicKey kp)) t1 = (t', Ok (spk_Signature spk)).
Proof.
  unfold GenerateSignedPreKey. intros E. inv_ok E. injection E as <- <-.
  exists v, w. split_and!; [done|done|by eapply GenerateKeyPair_ok|done].
Qed.

Lemma GenerateIdentityKeyPair_ok t t' ik :
  GenerateIdentityKeyPair t = (t', Ok ik) ->
  x25519 (ikp_PrivateKey ik) x25519_Basepoint = Some (ik_PublicKey (ikp_PublicKey ik)).
Proof.
  unfold GenerateIdentityKeyPair. intros E. inv_ok E. injection E as <- <-. by eapply GenerateKeyPair_ok.
Qed.

Lemma GenerateKyberPreKey_ok `{!KyberLaws _} now ik id t t' k :
  GenerateKyberPreKey now ik id t = (t', Ok k) ->
  exists kp t1, kpk_ID k = id /\ kpk_KeyPair k = Some kp /\ IsKyber1024PublicKey (kkp_PublicKey kp) = true /\
    len (kkp_PublicKey kp) <> 0 /\ Sign ik (kkp_PublicKey kp) t1 = (t', Ok (kpk_Signature k)).
Proof.
  unfold GenerateKyberPreKey. intros E. inv_ok E. injection E as <- <-.
  exists v, w. unfold GenerateKyber1024KeyPair in Hok. inv_ok Hok.
  pose proof (kyber_pk_size v1) as Hl. destruct (kyber_generate v1) as [pk sk]. cbn [fst] in Hl.
  injection Hok as <- <-. cbn [kkp_PublicKey]. split_and!; try done.
  unfold IsKyber1024PublicKey. rewrite len_cons. assert (len pk = 1568) as -> by (unfold len; lia). done.
Qed.

Lemma Sign_verifies `{!XEdDSALaws _ _} ik m t t' sig :
  x25519 (ikp_PrivateKey ik) x25519_Basepoint = Some (ik_PublicKey (ikp_PublicKey ik)) ->
  Sign ik m t = (t', Ok sig) -> Verify (ikp_PublicKey ik) m sig = true.
Proof. intros Hp E. by eapply xeddsa_correct. Qed.

End lemmas.

(** ** Properties *)

(** The published key formats. A well-formed bundle (32-bit ids, signatures
    and Kyber keys of at most 65535 bytes, the one-time pre-key's id and key
    both present or both absent, a valid identity key) that [Serialize]
    accepts is restored exactly by [DeserializePreKeyBundle]; and none of the
    four decoders of the package panics, whatever bytes it is given. *)
Theorem bundle_roundtrip (P : Primitives) (K : KyberPrims) (X : XEdDSA) b data junk :
  bundle_ok b -> PreKeyBundle_Serialize b = Ok data ->
  DeserializePreKeyBundle data = Ok b /\
  DeserializePreKeyBundle junk <> Panic /\ DeserializeIdentityKey junk <> Panic /\
  DeserializePreKey junk <> Panic /\ DeserializeSignedPreKey junk <> Panic.
Proof.
  intros Hb E. split_and!;
    [by apply DeserializePreKeyBundle_serialize|apply DeserializePreKeyBundle_no_panic
    |apply DeserializeIdentityKey_no_panic|apply DeserializePreKey_no_panic|apply DeserializeSignedPreKey_no_panic].
Qed.

Lemma bundle_roundtrip_witness :
  let P := Toy.primitives in
  exists data, PreKeyBundle_Serialize
      (mkPreKeyBundle 1 2 (Some 7) (Some zero32) 3 zero32 [Byte.x01] (Some 9) [Byte.x08] [Byte.x05]
         (mkIdentityKey zero32 zero32)) = Ok data /\
    DeserializePreKeyBundle data =
      Ok (mkPreKeyBundle 1 2 (Some 7) (Some zero32) 3 zero32 [Byte.x01] (Some 9) [Byte.x08] [Byte.x05]
         (mkIdentityKey zero32 zero32)).
Proof.
  intros P. eexists. split; [reflexivity|].
  apply (bundle_roundtrip P Toy.kyber Toy.xeddsa _ _ []); [|reflexivity].
  constructor; vm_compute; repeat split; congruence.
Defined.

Section fresh.
Context `{Primitives} `{KyberPrims} `{XEdDSA} `{!XEdDSALaws _ _} `{!KyberLaws _}.

(** A bundle of freshly generated keys is accepted: if a signed pre-key and a
    Kyber pre-key with non-zero ids and a one-time pre-key were produced by the
    Generate functions with an identity key pair, and the public keys are not of
    low order, then [NewPreKeyBundleWithKyber] succeeds and the result passes
    [Validate]. *)
Lemma fresh_bundle_ok reg dev now1 now2 now3 id0 id1 id2 ik pre spk kpk t1 t1' t2 t2' t3 t3' :
  key_pair_ok (ikp_PrivateKey ik) (ik_PublicKey (ikp_PublicKey ik)) -> GeneratePreKey now1 id0 t1 = (t1', Ok pre) ->
  GenerateSignedPreKey now2 ik id1 t2 = (t2', Ok spk) -> GenerateKyberPreKey now3 ik id2 t3 = (t3', Ok kpk) ->
  id1 <> 0 -> id2 <> 0 -> IsValidPublicKey (ik_PublicKey (ikp_PublicKey ik)) = true ->
  (forall kp, pk_KeyPair pre = Some kp \/ spk_KeyPair spk = Some kp -> IsValidPublicKey (PublicKey kp) = true) ->
  exists b kp skp kkp, pk_KeyPair pre = Some kp /\ spk_KeyPair spk = Some skp /\ kpk_KeyPair kpk = Some kkp /\
    b = mkPreKeyBundle reg dev (Some id0) (Some (PublicKey kp)) id1 (PublicKey skp) (spk_Signature spk) (Some id2)
          (kkp_PublicKey kkp) (kpk_Signature kpk) (ikp_PublicKey ik) /\
    NewPreKeyBundleWithKyber reg dev (Some pre) (Some spk) (Some kpk) (ikp_PublicKey ik) = Ok b /\ Validate b = Ok tt.
Proof.
  intros E0 E1 E2 E3 Hid1 Hid2 Hvik Hvalid.
  apply GenerateSignedPreKey_ok in E2 as (kp & t2a & Hsid & Hskp & Hspub & Hssig).
  apply GenerateKyberPreKey_ok in E3 as (kkp & t3a & Hkid & Hkkp & Hkpub & Hk0 & Hksig).
  pose proof (Sign_verifies _ _ _ _ _ E0 Hssig) as Hv1. pose proof (Sign_verifies _ _ _ _ _ E0 Hksig) as Hv2.
  assert (forall (l : bytes) m u u', Sign ik m u = (u', Ok l) -> (len l =? 0) = false) as Hne.
  { intros l m u u' Hs. apply xeddsa_length in Hs. apply Z.eqb_neq. unfold len. lia. }
  unfold GeneratePreKey in E1. inv_ok E1. injection E1 as <- <-.
  unfold NewPreKeyBundleWithKyber. rewrite Hskp, Hkkp. cbn [mbind res_bind pk_KeyPair].
  rewrite (proj2 (Z.eqb_neq _ 0) Hk0), (Hne _ _ _ _ Hksig). cbn [check mret res_ret].
  eexists _, v, kp, kkp. split_and!; [done|done|done|reflexivity|by rewrite Hsid, Hkid|]. unfold Validate. cbn.
  rewrite Hvik, (Hvalid kp) by (by right). rewrite (Hvalid v) by (by left). rewrite Hv1, (Hne _ _ _ _ Hssig), (Hne _ _ _ _ Hksig).
  rewrite (proj2 (Z.eqb_neq _ 0) Hid1), (proj2 (Z.eqb_neq _ 0) Hid2), (proj2 (Z.eqb_neq _ 0) Hk0), Hkpub, Hv2. done.
Qed.
End fresh.
