(* ===== verification/X3dh.v ===== *)
(** * The X3DH/PQXDH handshake: the x3dh package

    [Initiator.ProcessPreKeyBundle], [Responder.ProcessInitialMessage] (over
    the pre-key store interface of store/interfaces.go), the key derivation and
    the format of the initial message. The main result ([x3dh_agreement]): from
    a bundle of the responder's keys both sides derive the same shared secret,
    initial chain key, post-quantum key and associated data. *)

From Stdlib Require Import ZArith Lia.
From Stdlib Require Import Strings.Byte.
From stdpp Require Import base gmap strings list list_numbers vector.
From S2P Require Import Prelude Crypto Keys.
Import Crypto Keys.

Module X3dh.

(** *** types.go *)

Record Message : Type := mkMessage {
  msg_IdentityKey : IdentityKey;
  msg_EphemeralKey : key32;
  msg_PreKeyID : option Z;
  msg_SignedPreKeyID : Z;
  msg_KyberPreKeyID : option Z;
  msg_KyberCiphertext : bytes;
  msg_Ciphertext : bytes
}.

Record Result : Type := mkResult {
  SharedSecret : key32;
  InitialChainKey : option key32;
  PQRKey : option key32;
  AssociatedDataBytes : bytes;
  RemoteIdentity : IdentityKey;
  InitialMessage : Message;
  LocalEphemeral : option KeyPair;
  LocalRatchetKey : option KeyPair;
  RemoteRatchetKey : option key32
}.

(** The store interfaces the responder uses, over a world [W] of persisted
    keys; a missing key is [None]. *)
Record PreKeyStore (W : Type) : Type := mkPreKeyStore {
  LoadPreKey : Z -> ST W (option PreKey);
  RemovePreKey : Z -> ST W unit;
  LoadKyberPreKey : Z -> ST W (option KyberPreKey)
}.
Arguments LoadPreKey {W} p.
Arguments RemovePreKey {W} p.
Arguments LoadKyberPreKey {W} p.

(** The keys and stores of a responder; [rsp_hasKyberStore] is
    [kyberStore != nil]. *)
Record Responder (W : Type) : Type := mkResponder {
  rsp_identityKey : IdentityKeyPair;
  rsp_signedPreKey : SignedPreKey;
  rsp_store : PreKeyStore W;
  rsp_hasKyberStore : bool
}.
Arguments rsp_identityKey {W} r.
Arguments rsp_signedPreKey {W} r.
Arguments rsp_store {W} r.
Arguments rsp_hasKyberStore {W} r.

Section x3dh.
Context `{Primitives} `{KyberPrims} `{XEdDSA}.

(** *** shared_secret.go *)

Definition AssociatedData (initiator responder : IdentityKey) : bytes :=
  SerializeWirePublicKey (ik_PublicKey initiator) ++ SerializeWirePublicKey (ik_PublicKey responder).

(** *** derive.go *)

Definition legacyInfoString : bytes := str "X3DH".
Definition pqInfoString : bytes := str "WhisperText_X25519_SHA-256_CRYSTALS-KYBER-1024".
Definition discontinuity : bytes := replicate 32 Byte.xff.

Definition deriveLegacySecret (ikm : bytes) : res key32 :=
  secretBytes ← HKDF ikm [] legacyInfoString 32;
  mret (to_arr 32 secretBytes).

Definition derivePQSecret (ikm : bytes) : res (key32 * key32 * key32) :=
  secretBytes ← HKDF ikm [] pqInfoString 96;
  root ← slice secretBytes 0 32;
  chain ← slice secretBytes 32 64;
  pqr ← slice secretBytes 64 96;
  mret (to_arr 32 root, to_arr 32 chain, to_arr 32 pqr).

(** The secrets: [(shared, initialChain, pqrKey)]. *)
Definition secrets : Type := key32 * option key32 * option key32.

Definition derive_pq (ikm kyberSS : bytes) : res secrets :=
  '(root, chain, pqr) ← derivePQSecret (discontinuity ++ ikm ++ kyberSS);
  mret (root, Some chain, Some pqr).

Definition derive_legacy (ikm : bytes) : res secrets :=
  root ← deriveLegacySecret ikm;
  mret (root, None, None).

(** *** initiator.go *)

Record Initiator : Type := mkInitiator {
  ini_identityKey : IdentityKeyPair;
  ini_generateEphemeral : option (ST tape KeyPair);
  ini_kyberEncapsulate : option (bytes -> ST tape (bytes * bytes))
}.

Definition NewInitiator (identityKey : IdentityKeyPair) : Initiator :=
  mkInitiator identityKey (Some GenerateKeyPair) None.

Definition ProcessPreKeyBundle (x : Initiator) (bundle : PreKeyBundle) : ST tape Result :=
  _ ← st_lift (Validate bundle);
  ephemeral ← default GenerateKeyPair (ini_generateEphemeral x);
  dh1 ← st_lift (DH (ikp_PrivateKey (ini_identityKey x)) (SignedPreKeyPublic bundle));
  dh2 ← st_lift (DH (PrivateKey ephemeral) (ik_PublicKey (BundleIdentityKey bundle)));
  dh3 ← st_lift (DH (PrivateKey ephemeral) (SignedPreKeyPublic bundle));
  let ikm := vec_to_list dh1 ++ vec_to_list dh2 ++ vec_to_list dh3 in
  ikm ← match PreKeyPublic bundle with
        | None => mret ikm
        | Some pre =>
            dh4 ← st_lift (DH (PrivateKey ephemeral) pre);
            mret (ikm ++ vec_to_list dh4)
        end;
  '((shared, initialChain, pqrKey), kyberCiphertext) ←
    match KyberPreKeyID bundle with
    | Some _ =>
        '(kyberSS, kyberCT) ← default Kyber1024Encapsulate (ini_kyberEncapsulate x) (KyberPreKeyPublic bundle);
        sec ← st_lift (derive_pq ikm kyberSS);
        mret (sec, kyberCT)
    | None => sec ← st_lift (derive_legacy ikm); mret (sec, [])
    end;
  let msg := mkMessage (ikp_PublicKey (ini_identityKey x)) (PublicKey ephemeral) (PreKeyID bundle)
               (SignedPreKeyID bundle) (KyberPreKeyID bundle) kyberCiphertext [] in
  mret (mkResult shared initialChain pqrKey
          (AssociatedData (ikp_PublicKey (ini_identityKey x)) (BundleIdentityKey bundle))
          (BundleIdentityKey bundle) msg (Some ephemeral) None (Some (SignedPreKeyPublic bundle))).

(** *** responder.go *)

Definition load_dh4 {W} (r : Responder W) (msg : Message) (ikm : bytes) : ST W bytes :=
  match msg_PreKeyID msg with
  | None => mret ikm
  | Some id =>
      pre ← LoadPreKey (rsp_store r) id;
      match pre ≫= pk_KeyPair with
      | None => st_err ErrPreKeyNotFound
      | Some kp =>
          dh4 ← st_lift (DH (PrivateKey kp) (msg_EphemeralKey msg));
          _ ← RemovePreKey (rsp_store r) id;
          mret (ikm ++ vec_to_list dh4)
      end
  end.

Definition responder_secrets {W} (r : Responder W) (msg : Message) (ikm : bytes) : ST W secrets :=
  if negb (is_nil (msg_KyberPreKeyID msg)) || (len (msg_KyberCiphertext msg) >? 0) then
    match msg_KyberPreKeyID msg with
    | None => st_err ErrInvalidMessage
    | Some id =>
        _ ← st_check (len (msg_KyberCiphertext msg) =? 0) ErrInvalidMessage;
        _ ← st_check (negb (rsp_hasKyberStore r)) (ErrText "responder: kyber pre-key store required");
        k ← LoadKyberPreKey (rsp_store r) id;
        match k ≫= kpk_KeyPair with
        | None => st_err ErrPreKeyNotFound
        | Some kp =>
            kyberSS ← st_lift (Kyber1024Decapsulate (kkp_PrivateKey kp) (msg_KyberCiphertext msg));
            st_lift (derive_pq ikm kyberSS)
        end
    end
  else st_lift (derive_legacy ikm).

Definition ProcessInitialMessage {W} (r : Responder W) (msg : Message) : ST W Result :=
  _ ← st_check (negb (msg_SignedPreKeyID msg =? spk_ID (rsp_signedPreKey r)))
        (ErrText "responder: signed pre-key id mismatch");
  match spk_KeyPair (rsp_signedPreKey r) with
  | None => st_lift Panic
  | Some spk =>
      dh1 ← st_lift (DH (PrivateKey spk) (ik_PublicKey (msg_IdentityKey msg)));
      dh2 ← st_lift (DH (ikp_PrivateKey (rsp_identityKey r)) (msg_EphemeralKey msg));
      dh3 ← st_lift (DH (PrivateKey spk) (msg_EphemeralKey msg));
      ikm ← load_dh4 r msg (vec_to_list dh1 ++ vec_to_list dh2 ++ vec_to_list dh3);
      '(shared, initialChain, pqrKey) ← responder_secrets r msg ikm;
      mret (mkResult shared initialChain pqrKey
              (AssociatedData (msg_IdentityKey msg) (ikp_PublicKey (rsp_identityKey r)))
              (msg_IdentityKey msg) msg None (Some spk) None)
  end.

(** *** serialize.go *)

Definition messageSerializeVersion : byte := Byte.x02.

Definition Message_Serialize (m : Message) : res bytes :=
  let identityBytes := IdentityKey_Serialize (msg_IdentityKey m) in
  _ ← check (len identityBytes >? 65535) (ErrText "x3dh message: identity too large");
  let preKeyPart :=
    match msg_PreKeyID m with
    | Some id => Byte.x01 :: AppendUint32 id
    | None => Byte.x00 :: replicate 4 Byte.x00
    end in
  kyberPart ←
    (if negb (is_nil (msg_KyberPreKeyID m)) || (len (msg_KyberCiphertext m) >? 0) then
       match msg_KyberPreKeyID m with
       | None => Err (ErrText "x3dh message: kyber id/ciphertext mismatch")
       | Some id =>
           _ ← check (len (msg_KyberCiphertext m) =? 0) (ErrText "x3dh message: kyber id/ciphertext mismatch");
           mret (Byte.x01 :: AppendUint32 id ++ AppendUint32 (u32 (len (msg_KyberCiphertext m))) ++
                 msg_KyberCiphertext m)
       end
     else mret [Byte.x00]);
  mret (messageSerializeVersion :: AppendUint16 (u16 (len identityBytes)) ++ identityBytes ++
        vec_to_list (msg_EphemeralKey m) ++ preKeyPart ++ AppendUint32 (msg_SignedPreKeyID m) ++
        kyberPart ++ AppendUint32 (u32 (len (msg_Ciphertext m))) ++ msg_Ciphertext m).

Definition errX3dh : error := ErrText "x3dh message".

Definition rd_identity : reader IdentityKey :=
  identityLen ← rd_u16;
  _ ← rd_check (identityLen <=? 0) errX3dh;
  _ ← rd_need identityLen errX3dh;
  l ← rd_take identityLen;
  rd_lift (DeserializeIdentityKey l).

Definition rd_prekey_id : reader (option Z) :=
  hasPreKey ← rd_byte;
  _ ← rd_check (negb (bool_decide (hasPreKey = Byte.x01)) && negb (bool_decide (hasPreKey = Byte.x00))) errX3dh;
  id ← rd_u32;
  mret (if bool_decide (hasPreKey = Byte.x01) then Some id else None).

(** [ctLen] and [data[pos:]]: the length word is read without a bounds check. *)
Definition rd_ciphertext : reader bytes :=
  ctLen ← rd_u32;
  _ ← rd_exact ctLen errX3dh;
  rd_take ctLen.

Definition rd_kyber : reader (option Z * bytes) :=
  hasKyber ← rd_byte;
  if bool_decide (hasKyber = Byte.x01) then
    id ← rd_u32;
    kyberLen ← rd_u32;
    _ ← rd_check (kyberLen <=? 0) errX3dh;
    _ ← rd_need kyberLen errX3dh;
    ct ← rd_take kyberLen;
    mret (Some id, ct)
  else
    _ ← rd_check (negb (bool_decide (hasKyber = Byte.x00))) errX3dh;
    mret (None, []).

Definition rd_message_v1 : reader Message :=
  identity ← rd_identity;
  _ ← rd_need (32 + 1 + 4 + 4 + 4) errX3dh;
  eph ← rd_arr 32;
  preKeyID ← rd_prekey_id;
  signedPreKeyID ← rd_u32;
  ct ← rd_ciphertext;
  mret (mkMessage identity eph preKeyID signedPreKeyID None [] ct).

Definition rd_message_v2 : reader Message :=
  identity ← rd_identity;
  _ ← rd_need (32 + 1 + 4 + 4 + 1 + 4) errX3dh;
  eph ← rd_arr 32;
  preKeyID ← rd_prekey_id;
  signedPreKeyID ← rd_u32;
  '(kyberPreKeyID, kyberCiphertext) ← rd_kyber;
  ct ← rd_ciphertext;
  mret (mkMessage identity eph preKeyID signedPreKeyID kyberPreKeyID kyberCiphertext ct).

Definition DeserializeMessage (data : bytes) : res Message :=
  _ ← check (len data <? 1) errX3dh;
  rd_run (
    version ← rd_byte;
    if bool_decide (version = Byte.x01) then
      _ ← rd_check (len data <? 1 + 2 + 32 + 1 + 4 + 4 + 4) errX3dh;
      rd_message_v1
    else
      _ ← rd_check (negb (bool_decide (version = messageSerializeVersion))) errX3dh;
      _ ← rd_check (len data <? 1 + 2 + 32 + 1 + 4 + 4 + 1 + 4) errX3dh;
      rd_message_v2) data.

End x3dh.
End X3dh.
Import X3dh.

(** ** Agreement *)

Section agreement.
Context `{Primitives} `{KyberPrims} `{XEdDSA} `{!PrimitiveLaws _} `{!KyberLaws _}.

(** The responder [r], in world [w], holds the private keys of bundle [b];
    [w'] is the world after the one-time pre-key has been removed. *)
Record serves {W} (r : Responder W) (b : PreKeyBundle) (w w' : W) : Prop := {
  serves_identity : BundleIdentityKey b = ikp_PublicKey (rsp_identityKey r);
  serves_identity_ok : key_pair_ok (ikp_PrivateKey (rsp_identityKey r)) (ik_PublicKey (BundleIdentityKey b));
  serves_signed : exists spk, spk_KeyPair (rsp_signedPreKey r) = Some spk /\
    SignedPreKeyID b = spk_ID (rsp_signedPreKey r) /\
    PublicKey spk = SignedPreKeyPublic b /\ key_pair_ok (PrivateKey spk) (PublicKey spk);
  serves_prekey : match PreKeyID b, PreKeyPublic b with
    | Some id, Some pub => exists p kp, LoadPreKey (rsp_store r) id w = (w, Ok (Some p)) /\
        pk_KeyPair p = Some kp /\ PublicKey kp = pub /\ key_pair_ok (PrivateKey kp) (PublicKey kp) /\
        RemovePreKey (rsp_store r) id w = (w', Ok tt)
    | None, None => w' = w
    | _, _ => False
    end;
  serves_kyber : match KyberPreKeyID b with
    | Some id => rsp_hasKyberStore r = true /\ exists k kp t t', LoadKyberPreKey (rsp_store r) id w' = (w', Ok (Some k)) /\
        kpk_KeyPair k = Some kp /\ kkp_PublicKey kp = KyberPreKeyPublic b /\
        GenerateKyber1024KeyPair t = (t', Ok kp)
    | None => True
    end
}.

Lemma load_dh4_agrees {W} (r : Responder W) b w w' msg eph ikm ikm' :
  serves r b w w' -> msg_PreKeyID msg = PreKeyID b -> msg_EphemeralKey msg = PublicKey eph ->
  key_pair_ok (PrivateKey eph) (PublicKey eph) ->
  match PreKeyPublic b with
  | None => Ok ikm
  | Some pre => dh4 ← DH (PrivateKey eph) pre; mret (ikm ++ vec_to_list dh4)
  end = Ok ikm' ->
  load_dh4 r msg ikm w = (w', Ok ikm').
Proof.
  intros Hs Hid He Hok E. pose proof (serves_prekey _ _ _ _ Hs) as Hp. unfold load_dh4. rewrite Hid, He.
  destruct (PreKeyID b) as [id|], (PreKeyPublic b) as [pub|]; try done.
  - destruct Hp as (p & kp & Hl & Hkp & <- & Hkpok & Hr). inv_ok E. injection E as <-.
    rewrite (st_bind_run _ _ _ _ _ Hl). cbn [mbind option_bind]. rewrite Hkp.
    rewrite (DH_comm _ _ _ _ Hkpok Hok), (st_bind_lift _ _ _ _ Hok0).
    by rewrite (st_bind_run _ _ _ _ _ Hr).
  - injection E as <-. subst w'. done.
Qed.

Lemma responder_secrets_agrees {W} (r : Responder W) b w w' msg ikm kct sec t t' :
  serves r b w w' -> msg_KyberPreKeyID msg = KyberPreKeyID b -> msg_KyberCiphertext msg = kct ->
  match KyberPreKeyID b with
  | Some _ =>
      '(kyberSS, kyberCT) ← Kyber1024Encapsulate (KyberPreKeyPublic b);
      sec ← st_lift (derive_pq ikm kyberSS); mret (sec, kyberCT)
  | None => sec ← st_lift (derive_legacy ikm); mret (sec, [])
  end t = (t', Ok (sec, kct)) ->
  responder_secrets r msg ikm w' = (w', Ok sec).
Proof.
  intros Hs Hid Hct E. pose proof (serves_kyber _ _ _ _ Hs) as Hk. unfold responder_secrets. rewrite Hid, Hct.
  destruct (KyberPreKeyID b) as [id|].
  - destruct Hk as (Hstore & k & kp & t1 & t1' & Hl & Hkp & Hpub & Hgen). rewrite <- Hpub in E.
    apply st_bind_ok in E as (w1 & [ss ct] & Hok & E). inv_steps. simplify_eq E. intros -> ->.
    pose proof (Kyber1024_roundtrip _ _ _ _ _ _ _ Hgen Hok) as Hdec.
    destruct (Kyber1024Encapsulate_type _ _ _ _ _ Hok) as [ct' ->].
    cbn [is_nil negb orb]. rewrite st_bind_check by (rewrite len_cons; len_facts; lia).
    rewrite Hstore, st_bind_check by done. rewrite (st_bind_run _ _ _ _ _ Hl). cbn [mbind option_bind].
    rewrite Hkp, st_bind_lift with (a := ss) by done. by apply st_lift_run.
  - inv_steps. simplify_eq E. intros -> ->. by apply st_lift_run.
Qed.

(** Both ends of the handshake. *)
Lemma handshake_agrees {W} (r : Responder W) b w w' ik t t' ra :
  key_pair_ok (ikp_PrivateKey ik) (ik_PublicKey (ikp_PublicKey ik)) -> serves r b w w' ->
  ProcessPreKeyBundle (NewInitiator ik) b t = (t', Ok ra) ->
  exists rb eph spk, ProcessInitialMessage r (InitialMessage ra) w = (w', Ok rb) /\
    SharedSecret rb = SharedSecret ra /\ InitialChainKey rb = InitialChainKey ra /\
    PQRKey rb = PQRKey ra /\ AssociatedDataBytes rb = AssociatedDataBytes ra /\
    RemoteIdentity ra = ikp_PublicKey (rsp_identityKey r) /\ RemoteIdentity rb = ikp_PublicKey ik /\
    LocalEphemeral ra = Some eph /\ key_pair_ok (PrivateKey eph) (PublicKey eph) /\
    msg_EphemeralKey (InitialMessage rb) = PublicKey eph /\
    LocalRatchetKey rb = Some spk /\ key_pair_ok (PrivateKey spk) (PublicKey spk) /\
    RemoteRatchetKey ra = Some (PublicKey spk).
Proof.
  intros Hik Hs E. unfold ProcessPreKeyBundle in E. cbn [ini_identityKey NewInitiator ini_generateEphemeral ini_kyberEncapsulate default] in E.
  inv_steps. rename v0 into eph. apply GenerateKeyPair_ok in Hok0 as Heph.
  destruct v5 as [[[shared chain] pqr] kct]. inv_steps. subst ra. cbn [InitialMessage SharedSecret].
  destruct (serves_signed _ _ _ _ Hs) as (spk & Hspk & Hsid & Hspub & Hsok).
  rewrite <- Hspub in Hok1, Hok3. rewrite (DH_comm _ _ _ _ Hik Hsok) in Hok1.
  rewrite (DH_comm _ _ _ _ Heph Hsok) in Hok3.
  rewrite (DH_comm _ _ _ _ Heph (serves_identity_ok _ _ _ _ Hs)) in Hok2.
  eexists _, eph, spk. split.
  { unfold ProcessInitialMessage. cbn [msg_SignedPreKeyID msg_IdentityKey msg_EphemeralKey].
    rewrite st_bind_check by (rewrite Hsid, Z.eqb_refl; done). rewrite Hspk.
    rewrite (st_bind_lift _ _ _ _ Hok1), (st_bind_lift _ _ _ _ Hok2), (st_bind_lift _ _ _ _ Hok3).
    rewrite (st_bind_run _ _ _ w' v4).
    2:{ eapply (load_dh4_agrees r b w w' _ eph); [done|done|done|done|].
        destruct (PreKeyPublic b) as [pre|]; [apply st_bind_ok in Hok4 as (? & dh4 & H4 & Hok4)|];
          inv_steps; subst v4; [by rewrite H4|done]. }
    rewrite (st_bind_run _ _ _ w' (shared, chain, pqr)); [reflexivity|].
    by eapply responder_secrets_agrees. }
  cbn. rewrite <- (serves_identity _ _ _ _ Hs). split_and!; try done. by rewrite Hspub.
Qed.
End agreement.

(** ** The initial message's format *)

Section format.
Context `{Primitives} `{KyberPrims} `{XEdDSA}.

Record message_ok (m : Message) : Prop := {
  message_ik : IsValidPublicKey (ik_PublicKey (msg_IdentityKey m)) = true;
  message_pre : match msg_PreKeyID m with Some id => is_u32 id | None => True end;
  message_spk : is_u32 (msg_SignedPreKeyID m);
  message_kid : match msg_KyberPreKeyID m with Some id => is_u32 id | None => True end;
  message_kct : is_u32 (len (msg_KyberCiphertext m));
  message_ct : is_u32 (len (msg_Ciphertext m))
}.

(** The initiator's message can be serialized, whatever ciphertext it is sent
    with: it has a Kyber ciphertext exactly if it names a Kyber pre-key. *)
Definition serializable (m : Message) : Prop := forall c, exists data,
  Message_Serialize (mkMessage (msg_IdentityKey m) (msg_EphemeralKey m) (msg_PreKeyID m) (msg_SignedPreKeyID m)
    (msg_KyberPreKeyID m) (msg_KyberCiphertext m) c) = Ok data.

Lemma initiator_serializable ik b t t' ra :
  ProcessPreKeyBundle (NewInitiator ik) b t = (t', Ok ra) -> serializable (InitialMessage ra).
Proof.
  intros E c. unfold ProcessPreKeyBundle in E. cbn [ini_identityKey NewInitiator ini_generateEphemeral ini_kyberEncapsulate default] in E.
  inv_steps. destruct v5 as [[[shared chain] pqr] kct]. inv_steps. subst ra. unfold Message_Serialize.
  cbn [InitialMessage msg_IdentityKey msg_KyberPreKeyID msg_KyberCiphertext].
  replace (len (IdentityKey_Serialize _) >? 65535) with false by (unfold IdentityKey_Serialize; autorewrite with len; done). cbn [check mbind res_bind].
  destruct (KyberPreKeyID b) as [id|].
  - apply st_bind_ok in Hok5 as (w & [ss ct] & Hk & Hok5). inv_steps. injection Hok5 as _ ->.
    destruct (Kyber1024Encapsulate_type _ _ _ _ _ Hk) as [ct' ->]. cbn [is_nil negb orb].
    replace (len (_ :: ct') =? 0) with false by (symmetry; rewrite len_cons; len_facts; lia). by eexists.
  - inv_steps. injection Hok5 as _ ->. by eexists.
Qed.

Lemma reads_identity ik :
  IsValidPublicKey (ik_PublicKey ik) = true ->
  reads rd_identity (AppendUint16 (u16 (len (IdentityKey_Serialize ik))) ++ IdentityKey_Serialize ik) ik.
Proof.
  intros Hv. assert (len (IdentityKey_Serialize ik) = 65) as Hl by (unfold IdentityKey_Serialize; by autorewrite with len).
  rewrite Hl. unfold rd_identity. eapply reads_bind; [by apply reads_uint|].
  apply reads_check; [done|]. apply reads_need; [by rewrite Hl|].
  eapply reads_bind_end; [by apply reads_take|]. by apply reads_lift, DeserializeIdentityKey_serialize.
Qed.

Lemma reads_prekey_id o :
  match o with Some id => is_u32 id | None => True end ->
  reads rd_prekey_id (match o with Some id => Byte.x01 :: AppendUint32 id
                      | None => Byte.x00 :: replicate 4 Byte.x00 end) o.
Proof.
  intros Ho. unfold rd_prekey_id. destruct o as [id|].
  - apply (reads_bind _ _ [Byte.x01] Byte.x01); [apply reads_byte|]. apply reads_check; [done|].
    eapply reads_bind_end; [by apply reads_uint|]. apply reads_ret.
  - apply (reads_bind _ _ [Byte.x00] Byte.x00); [apply reads_byte|]. apply reads_check; [done|].
    eapply reads_bind_end; [by apply (reads_uint 4 0)|]. apply reads_ret.
Qed.

Lemma DeserializeMessage_serialize m data :
  message_ok m -> Message_Serialize m = Ok data -> DeserializeMessage data = Ok m.
Proof.
  intros Hm E. unfold Message_Serialize in E. apply res_bind_ok in E as ([] & _ & E).
  apply res_bind_ok in E as (kp & Hk & E). apply Ok_inj in E. subst data.
  rewrite (u32_id (len (msg_Ciphertext m))) by apply Hm.
  assert (reads rd_kyber kp (msg_KyberPreKeyID m, msg_KyberCiphertext m) /\ 1 <= len kp) as [Hkr Hkl].
  { pose proof (message_kid _ Hm) as Hkid. pose proof (message_kct _ Hm) as Hkct.
    destruct (msg_KyberPreKeyID m) as [id|]; cbn [is_nil negb orb] in Hk.
    - apply res_bind_ok in Hk as ([] & Hc & Hk). apply check_ok, Z.eqb_neq in Hc. apply Ok_inj in Hk. subst kp.
      rewrite u32_id by done. split; [|lens]. unfold rd_kyber.
      apply (reads_bind _ _ [Byte.x01] Byte.x01); [apply reads_byte|]. rewrite bool_decide_true by done.
      eapply reads_bind; [by apply reads_uint|]. eapply reads_bind; [by apply reads_uint|].
      apply reads_check; [len_facts; lia|]. apply reads_need; [lia|].
      eapply reads_bind_end; [by apply reads_take|]. apply reads_ret.
    - destruct (Z.gtb_spec (len (msg_KyberCiphertext m)) 0); [done|]. apply Ok_inj in Hk. subst kp.
      assert (msg_KyberCiphertext m = []) as -> by (apply len_0_inv; len_facts; lia). split; [|done].
      unfold rd_kyber. eapply reads_bind_end; [apply reads_byte|]. apply reads_check; [done|]. apply reads_ret. }
  assert (len (IdentityKey_Serialize (msg_IdentityKey m)) = 65) as Hl by (unfold IdentityKey_Serialize; by autorewrite with len).
  assert (forall o, len (match o with Some id => Byte.x01 :: AppendUint32 id
                      | None => Byte.x00 :: replicate 4 Byte.x00 end) = 5) as Hpl
    by (intros [id|]; [by autorewrite with len|done]).
  unfold DeserializeMessage. rewrite (proj2 (Z.ltb_ge _ 1)) by lens. cbn [check mbind res_bind].
  apply reads_end_run, (reads_end_bind _ _ [messageSerializeVersion] messageSerializeVersion); [apply reads_byte|].
  rewrite bool_decide_false by done. apply reads_end_check; [done|].
  apply reads_end_check; [apply Z.ltb_ge; autorewrite with len; rewrite Hpl, Hl; len_facts; lia|].
  unfold rd_message_v2. rewrite app_assoc.
  eapply reads_end_bind; [by apply reads_identity, Hm|].
  apply reads_end_need; [autorewrite with len; rewrite Hpl; len_facts; lia|].
  eapply reads_end_bind; [apply reads_arr|]. eapply reads_end_bind; [by apply reads_prekey_id, Hm|].
  eapply reads_end_bind; [by apply reads_uint, Hm|]. eapply reads_end_bind; [exact Hkr|]. cbn beta iota.
  assert (reads_end rd_ciphertext (AppendUint32 (len (msg_Ciphertext m)) ++ msg_Ciphertext m) (msg_Ciphertext m)) as Hct.
  { eapply reads_end_bind; [by apply reads_uint, Hm|]. apply reads_end_exact; [done|]. by apply reads_end_of, reads_take. }
  intros pre. specialize (Hct pre). unfold mbind at 1, reader_bind at 1. rewrite Hct. by destruct m.
Qed.
End format.

(** ** Properties *)

(** C24: key agreement of the handshake. If the responder holds the private keys
    of the bundle and the initiator's [ProcessPreKeyBundle] succeeds, then the
    responder's [ProcessInitialMessage] on the initiator's message succeeds,
    removes the one-time pre-key the bundle offered (its store moves to [w']),
    and both sides have the same shared secret, initial chain key,
    post-quantum key and associated data; each side learns the other's identity
    key, and the ratchet keys of the two results match. *)
Theorem x3dh_agreement (P : Primitives) (K : KyberPrims) (X : XEdDSA) W (r : Responder W) b w w' ik t t' ra :
  PrimitiveLaws P -> KyberLaws K ->
  key_pair_ok (ikp_PrivateKey ik) (ik_PublicKey (ikp_PublicKey ik)) -> serves r b w w' ->
  ProcessPreKeyBundle (NewInitiator ik) b t = (t', Ok ra) ->
  exists rb spk, ProcessInitialMessage r (InitialMessage ra) w = (w', Ok rb) /\
    SharedSecret rb = SharedSecret ra /\ InitialChainKey rb = InitialChainKey ra /\
    PQRKey rb = PQRKey ra /\ AssociatedDataBytes rb = AssociatedDataBytes ra /\
    RemoteIdentity ra = ikp_PublicKey (rsp_identityKey r) /\ RemoteIdentity rb = ikp_PublicKey ik /\
    LocalRatchetKey rb = Some spk /\ RemoteRatchetKey ra = Some (PublicKey spk).
Proof.
  intros HP HK Hik Hs E. destruct (handshake_agrees r b w w' ik t t' ra Hik Hs E)
    as (rb & eph & spk & H1 & H2 & H3 & H4 & H5 & H6 & H7 & _ & _ & _ & H8 & _ & H9).
  exists rb, spk. split_and!; done.
Qed.

(** An example: a responder with one one-time pre-key. *)
Definition demo_identity (n : Z) : IdentityKeyPair :=
  mkIdentityKeyPair (mkIdentityKey (PublicKey (toy_pair n)) zero32) (PrivateKey (toy_pair n)).

Definition demo_store : PreKeyStore (gmap Z PreKey) := {|
  LoadPreKey id := fun w => (w, Ok (w !! id));
  RemovePreKey id := fun w => (base.delete id w, Ok tt);
  LoadKyberPreKey id := mret None
|}.

Definition demo_responder : Responder (gmap Z PreKey) :=
  mkResponder _ (demo_identity 40) (mkSignedPreKey 9 (Some (toy_pair 41)) [] 0) demo_store false.

Definition demo_bundle : PreKeyBundle :=
  mkPreKeyBundle 1 1 (Some 4) (Some (PublicKey (toy_pair 42))) 9 (PublicKey (toy_pair 41))
    (Toy.sig (PublicKey (toy_pair 40)) (SerializeWirePublicKey (PublicKey (toy_pair 41)))) None [] []
    (ikp_PublicKey (demo_identity 40)).

Lemma x3dh_agreement_witness :
  let P := Toy.primitives in let K := Toy.kyber in let X := Toy.xeddsa in
  let w := {[4 := mkPreKey 4 (Some (toy_pair 42)) 0]} in
  exists t' ra rb,
    ProcessPreKeyBundle (NewInitiator (demo_identity 7)) demo_bundle (z2b <$> seqZ 90 40) = (t', Ok ra) /\
    ProcessInitialMessage demo_responder (InitialMessage ra) w = (base.delete 4 w, Ok rb) /\
    SharedSecret rb = SharedSecret ra.
Proof.
  intros P K X w.
  destruct (ProcessPreKeyBundle (NewInitiator (demo_identity 7)) demo_bundle (z2b <$> seqZ 90 40))
    as [t' [ra| |]] eqn:E; [|vm_compute in E; discriminate E..].
  destruct (x3dh_agreement P K X _ demo_responder demo_bundle w (base.delete 4 w) (demo_identity 7)
    (z2b <$> seqZ 90 40) t' ra Toy.laws Toy.kyber_laws) as (rb & spk & H1 & H2 & _).
  - apply toy_pair_ok.
  - constructor; cbn.
    + reflexivity.
    + apply toy_pair_ok.
    + exists (toy_pair 41). repeat split; apply toy_pair_ok.
    + exists (mkPreKey 4 (Some (toy_pair 42)) 0), (toy_pair 42). repeat split.
    + exact I.
  - exact E.
  - exists t', ra, rb. split; [reflexivity|]. split; [exact H1|exact H2].
Defined.

(** The initial message's format. A well-formed message (32-bit ids and
    lengths, a valid identity key) that [Serialize] accepts is restored exactly
    by [DeserializeMessage], with or without a one-time or Kyber pre-key. *)
Theorem x3dh_message_roundtrip (P : Primitives) m data :
  message_ok m -> Message_Serialize m = Ok data -> DeserializeMessage data = Ok m.
Proof. apply DeserializeMessage_serialize. Qed.

Lemma x3dh_message_roundtrip_witness :
  let P := Toy.primitives in
  let m := mkMessage (ikp_PublicKey (demo_identity 1)) zero32 (Some 4) 9 (Some 5) [Byte.x08; Byte.x01] [Byte.x02] in
  exists data, Message_Serialize m = Ok data /\ DeserializeMessage data = Ok m.
Proof.
  intros P m. eexists. split; [reflexivity|].
  apply (x3dh_message_roundtrip P); [|reflexivity]. constructor; vm_compute; repeat split; congruence.
Defined.

(** A truncated initial message crashes the decoder. Whatever identity key
    the sender puts in it, a version-2 message that ends right after the
    Kyber pre-key id passes every length check of [DeserializeMessage], which
    then slices the ciphertext length out of bounds and panics. *)
Theorem x3dh_message_panic (P : Primitives) ik :
  IsValidPublicKey (ik_PublicKey ik) = true ->
  DeserializeMessage ([messageSerializeVersion] ++ (AppendUint16 (u16 (len (IdentityKey_Serialize ik))) ++
    IdentityKey_Serialize ik) ++ vec_to_list zero32 ++ (Byte.x00 :: replicate 4 Byte.x00) ++ AppendUint32 9 ++
    [Byte.x01] ++ AppendUint32 5) = Panic.
Proof.
  intros Hv. assert (len (IdentityKey_Serialize ik) = 65) as Hl by (unfold IdentityKey_Serialize; by autorewrite with len).
  unfold DeserializeMessage. rewrite (proj2 (Z.ltb_ge _ 1)) by lens. cbn [check mbind res_bind].
  apply reads_panic_run. eapply reads_panic_bind; [apply reads_byte|]. rewrite bool_decide_false by done.
  apply reads_panic_check; [done|]. apply reads_panic_check; [apply Z.ltb_ge; autorewrite with len; rewrite Hl; done|].
  eapply reads_panic_bind; [by apply reads_identity|]. apply reads_panic_need; [done|].
  eapply reads_panic_bind; [apply reads_arr|]. eapply reads_panic_bind; [by apply (reads_prekey_id None)|].
  eapply reads_panic_bind; [by apply reads_uint|]. apply reads_panic_here. unfold rd_kyber.
  eapply reads_panic_bind; [apply reads_byte|]. rewrite bool_decide_true by done.
  rewrite <- (app_nil_r (AppendUint32 5)). eapply reads_panic_bind; [by apply reads_uint|].
  by apply reads_panic_here, reads_panic_uint.
Qed.

Lemma x3dh_message_panic_witness :
  exists data, @DeserializeMessage Toy.primitives data = Panic.
Proof. eexists. apply (x3dh_message_panic Toy.primitives (ikp_PublicKey (demo_identity 1))). reflexivity. Defined.
