(* ===== verification/Ratchet.v ===== *)
(** * The Double Ratchet: the ratchet package

    [State] and its operations: initialisation from the handshake, the chain
    and root key derivations, skipped message keys, the Diffie-Hellman ratchet
    step, [Encrypt]/[Decrypt] and the wire variants. A method on [*State] is a
    computation in [ST State] or, where it draws randomness, in
    [ST (State * tape)]: the state it leaves is visible on error paths too.
    The maps of a [State] made by the package's constructors are never nil; a
    nil receiver is not modelled. *)

From Stdlib Require Import ZArith Lia.
From Stdlib Require Import Strings.Byte.
From stdpp Require Import base gmap strings list list_numbers vector.
From S2P Require Import Prelude Crypto Keys X3dh.
Import Crypto Keys X3dh.

Module Ratchet.

(** *** header.go, message.go, state.go: the data *)

Record Header : Type := mkHeader { hdr_DH : key32; hdr_PN : Z; hdr_N : Z }.

Record Message : Type := mkMessage { Header_ : Header; Ciphertext : bytes }.

Record SkippedKey : Type := mkSkippedKey { sk_PublicKey : key32; sk_N : Z }.

#[export] Instance SkippedKey_eq_dec : EqDecision SkippedKey.
Proof. solve_decision. Defined.

#[export] Instance SkippedKey_countable : Countable SkippedKey.
Proof.
  refine (inj_countable' (fun k => (sk_PublicKey k, sk_N k)) (fun '(p, n) => mkSkippedKey p n) _).
  by intros [].
Defined.

Record State : Type := mkState {
  DHs : option KeyPair;
  DHr : option key32;
  RK : key32;
  CKs : key32;
  CKr : key32;
  Ns : Z;
  Nr : Z;
  PN : Z;
  MKSkipped : gmap SkippedKey key32;
  SeenDH : gset key32
}.

Definition set_DHs (v : option KeyPair) (s : State) : State :=
  mkState v (DHr s) (RK s) (CKs s) (CKr s) (Ns s) (Nr s) (PN s) (MKSkipped s) (SeenDH s).
Definition set_DHr (v : option key32) (s : State) : State :=
  mkState (DHs s) v (RK s) (CKs s) (CKr s) (Ns s) (Nr s) (PN s) (MKSkipped s) (SeenDH s).
Definition set_root_send (rk cks : key32) (s : State) : State :=
  mkState (DHs s) (DHr s) rk cks (CKr s) (Ns s) (Nr s) (PN s) (MKSkipped s) (SeenDH s).
Definition set_root_recv (rk ckr : key32) (s : State) : State :=
  mkState (DHs s) (DHr s) rk (CKs s) ckr (Ns s) (Nr s) (PN s) (MKSkipped s) (SeenDH s).
Definition set_send (cks : key32) (ns : Z) (s : State) : State :=
  mkState (DHs s) (DHr s) (RK s) cks (CKr s) ns (Nr s) (PN s) (MKSkipped s) (SeenDH s).
Definition set_recv (ckr : key32) (nr : Z) (s : State) : State :=
  mkState (DHs s) (DHr s) (RK s) (CKs s) ckr (Ns s) nr (PN s) (MKSkipped s) (SeenDH s).
Definition set_counters (ns nr pn : Z) (s : State) : State :=
  mkState (DHs s) (DHr s) (RK s) (CKs s) (CKr s) ns nr pn (MKSkipped s) (SeenDH s).
Definition set_MKSkipped (m : gmap SkippedKey key32) (s : State) : State :=
  mkState (DHs s) (DHr s) (RK s) (CKs s) (CKr s) (Ns s) (Nr s) (PN s) m (SeenDH s).
Definition set_SeenDH (m : gset key32) (s : State) : State :=
  mkState (DHs s) (DHr s) (RK s) (CKs s) (CKr s) (Ns s) (Nr s) (PN s) (MKSkipped s) m.

Definition MaxSkip : Z := 1000.

(** *** header.go *)

Definition Header_Serialize (h : Header) : bytes :=
  vec_to_list (hdr_DH h) ++ AppendUint32 (hdr_PN h) ++ AppendUint32 (hdr_N h).

Definition DeserializeHeader (data : bytes) : res Header :=
  _ ← check (negb (len data =? 40)) (ErrText "header: invalid length");
  rd_run (
    dh ← rd_arr 32;
    pn ← rd_u32;
    n ← rd_u32;
    mret (mkHeader dh pn n)) data.

Section ratchet.
Context `{Primitives}.

Definition EncryptHeader (h : Header) (key nonce : bytes) : res bytes :=
  _ ← check (negb (len key =? 32)) (ErrText "header: key must be 32 bytes");
  _ ← check (negb (len nonce =? 12)) (ErrText "header: nonce must be 12 bytes");
  mret (gcm_seal key nonce (Header_Serialize h) []).

Definition DecryptHeader (key nonce ciphertext : bytes) : res Header :=
  _ ← check (negb (len key =? 32)) (ErrText "header: key must be 32 bytes");
  _ ← check (negb (len nonce =? 12)) (ErrText "header: nonce must be 12 bytes");
  match gcm_open key nonce ciphertext [] with
  | None => Err (ErrText "header: decrypt")
  | Some plain => DeserializeHeader plain
  end.

(** *** chain.go *)

Definition KDFChain (chainKey : key32) : key32 * key32 :=
  (hmac_sha256 (vec_to_list chainKey) [Byte.x02], hmac_sha256 (vec_to_list chainKey) [Byte.x01]).

(** The error of [HKDF] is discarded: a nil result would make the slicing
    panic. *)
Definition DeriveMessageKeysWithSalt (messageKey : key32) (salt : bytes) : res (bytes * bytes * bytes) :=
  let okm := match HKDF (vec_to_list messageKey) salt (str "WhisperMessageKeys") (32 + 32 + 16) with
             | Ok okm => okm | _ => [] end in
  encKey ← slice okm 0 32;
  authKey ← slice okm 32 64;
  iv ← slice okm 64 80;
  mret (encKey, authKey, iv).

Definition DeriveMessageKeys (messageKey : key32) : res (bytes * bytes * bytes) :=
  DeriveMessageKeysWithSalt messageKey [].

(** *** skipped.go *)

(** [for s.Nr < until { ... }]; the loop counter [Nr] grows by one in each
    iteration, so [until - Nr] units of fuel are enough. *)
Fixpoint skip_loop (fuel : nat) (until : Z) : ST State unit := fun s =>
  if Nr s <? until then
    match fuel with
    | O => (s, Err (ErrText "out of fuel"))
    | S fuel =>
        (_ ← st_check (Nr s =? MaxUint32) ErrCounterOverflow;
         _ ← st_check (Z.of_nat (size (MKSkipped s)) >=? MaxSkip) ErrMaxSkipExceeded;
         match DHr s with
         | None => st_err (ErrText "ratchet: missing DHr while skipping")
         | Some dhr =>
             let '(newCKr, mk) := KDFChain (CKr s) in
             _ ← st_modify (fun s =>
               set_recv newCKr (u32 (Nr s + 1))
                 (set_MKSkipped (<[mkSkippedKey dhr (Nr s) := mk]> (MKSkipped s)) s));
             skip_loop fuel until
         end) s
    end
  else (s, Ok tt).

Definition skipMessageKeys (until : Z) : ST State unit := fun s =>
  skip_loop (Z.to_nat (until - Nr s)) until s.

Definition skippedKeyForHeader (header : Header) : SkippedKey :=
  mkSkippedKey (hdr_DH header) (hdr_N header).

Definition cleanupSkippedKeys (currentDH : key32) (s : State) : State :=
  set_MKSkipped (filter (fun kv => sk_PublicKey kv.1 = currentDH) (MKSkipped s)) s.

(** *** dh_ratchet.go *)

Definition KDFRoot (rootKey dhOutput : key32) : res (key32 * key32) :=
  okm ← HKDF (vec_to_list dhOutput) (vec_to_list rootKey) (str "WhisperRatchet") 64;
  rk ← slice okm 0 32;
  ck ← slice okm 32 64;
  mret (to_arr 32 rk, to_arr 32 ck).

Definition mark_seen (theirPublicKey : key32) (s : State) : State :=
  set_SeenDH ({[theirPublicKey]} ∪ (match DHr s with Some d => {[d]} ∪ SeenDH s | None => SeenDH s end)) s.

Definition DHRatchet (theirPublicKey : key32) : ST (State * tape) unit :=
  s ← st_fst st_get;
  match DHs s with
  | None => st_err (ErrText "dh ratchet: missing local dh key")
  | Some dhs =>
      _ ← st_fst (st_modify (mark_seen theirPublicKey));
      _ ← st_fst (st_modify (set_counters 0 0 (Ns s)));
      dhOut ← st_lift (DH (PrivateKey dhs) theirPublicKey);
      '(newRoot, newCKr) ← st_lift (KDFRoot (RK s) dhOut);
      _ ← st_fst (st_modify (set_root_recv newRoot newCKr));
      newDH ← st_snd GenerateKeyPair;
      _ ← st_fst (st_modify (set_DHs (Some newDH)));
      dhOutSend ← st_lift (DH (PrivateKey newDH) theirPublicKey);
      '(newRoot, newCKs) ← st_lift (KDFRoot newRoot dhOutSend);
      _ ← st_fst (st_modify (set_root_send newRoot newCKs));
      _ ← st_fst (st_modify (set_DHr (Some theirPublicKey)));
      st_fst (st_modify (cleanupSkippedKeys theirPublicKey))
  end.

(** *** state.go *)

Definition empty_state (rk : key32) : State := mkState None None rk zero32 zero32 0 0 0 ∅ ∅.

Definition InitializeStateWithGenerator (x3 : Result) (isInitiator : bool)
    (generateDH : option (ST tape KeyPair)) : ST tape State :=
  let generateDH := default GenerateKeyPair generateDH in
  _ ← st_check (bool_decide (SharedSecret x3 = zero32)) (ErrText "ratchet: shared secret must be set");
  let state := empty_state (SharedSecret x3) in
  if isInitiator then
    match RemoteRatchetKey x3 with
    | None => st_err (ErrText "ratchet: initiator missing remote ratchet key")
    | Some dhr =>
        let state := set_SeenDH {[dhr]} (set_DHr (Some dhr) state) in
        '(state, dhs) ←
          match InitialChainKey x3, LocalEphemeral x3 with
          | Some ck, _ => dhs ← generateDH; mret (set_recv ck 0 state, dhs)
          | None, Some kp => mret (state, kp)
          | None, None => dhs ← generateDH; mret (state, dhs)
          end;
        let state := set_DHs (Some dhs) state in
        dhOut ← st_lift (DH (PrivateKey dhs) dhr);
        '(newRK, cks) ← st_lift (KDFRoot (RK state) dhOut);
        mret (set_root_send newRK cks state)
    end
  else
    let remoteDH := msg_EphemeralKey (InitialMessage x3) in
    let state := set_SeenDH {[remoteDH]} (set_DHr (Some remoteDH) state) in
    dhs ← match LocalRatchetKey x3 with
          | Some kp => mret kp
          | None => generateDH
          end;
    let state := set_DHs (Some dhs) state in
    match InitialChainKey x3 with
    | Some ck => mret (set_send ck 0 state)
    | None =>
        dhRecv ← st_lift (DH (PrivateKey dhs) remoteDH);
        '(newRK, ckr) ← st_lift (KDFRoot (RK state) dhRecv);
        let state := set_root_recv newRK ckr state in
        newDH ← generateDH;
        dhSend ← st_lift (DH (PrivateKey newDH) remoteDH);
        '(newRK, cks) ← st_lift (KDFRoot (RK state) dhSend);
        mret (set_DHs (Some newDH) (set_root_send newRK cks state))
    end.

Definition InitializeState (x3 : Result) (isInitiator : bool) : ST tape State :=
  InitializeStateWithGenerator x3 isInitiator None.

Definition RatchetOnSend : ST (State * tape) unit :=
  s ← st_fst st_get;
  match DHr s, DHs s with
  | Some dhr, Some _ => DHRatchet dhr
  | _, _ => mret tt
  end.

(** *** message.go *)

Definition messageAD (associatedData : bytes) (header : Header) : bytes :=
  associatedData ++ Header_Serialize header.

(** The sealed text is at least a tag long, so appending it to the 12-byte
    nonce reallocates: the message does not share memory with the wiped [iv]. *)
Definition Encrypt (plaintext associatedData : bytes) : ST State Message :=
  s ← st_get;
  match DHs s with
  | None => st_err (ErrText "encrypt: missing sending DH key")
  | Some dhs =>
      _ ← st_check (bool_decide (CKs s = zero32)) (ErrText "encrypt: missing sending chain key");
      _ ← st_check (Ns s =? MaxUint32) ErrCounterOverflow;
      let header := mkHeader (PublicKey dhs) (PN s) (Ns s) in
      let '(newCKs, mk) := KDFChain (CKs s) in
      _ ← st_put (set_send newCKs (u32 (Ns s + 1)) s);
      '(encKey, authKey, iv) ← st_lift (DeriveMessageKeys mk);
      nonce ← st_lift (slice iv 0 12);
      let ad := messageAD associatedData header in
      ciphertext ← st_lift (AESGCMEncryptWithNonce encKey plaintext nonce ad);
      mret (mkMessage header (nonce ++ ciphertext))
  end.

Definition decryptWithMessageKey (mk : key32) (msg : Message) (associatedData : bytes) : res bytes :=
  '(encKey, authKey, iv) ← DeriveMessageKeys mk;
  _ ← check (len (Ciphertext msg) <? 12) ErrInvalidMessage;
  nonce ← slice (Ciphertext msg) 0 12;
  body ← slice (Ciphertext msg) 12 (len (Ciphertext msg));
  let ad := messageAD associatedData (Header_ msg) in
  match AESGCMDecrypt encKey body nonce ad with
  | Ok plaintext => Ok plaintext
  | Err _ => Err ErrInvalidMAC
  | Panic => Panic
  end.

(** [*s.DHr == header.DH] *)
Definition current_dh (s : State) (dh : key32) : bool :=
  match DHr s with Some d => bool_decide (d = dh) | None => false end.

(** The part of [Decrypt] that runs on the clone [next]. *)
Definition decrypt_next (msg : Message) (associatedData : bytes) : ST (State * tape) bytes :=
  let header := Header_ msg in
  next ← st_fst st_get;
  _ ← st_check (current_dh next (hdr_DH header) && (hdr_N header <? Nr next)) ErrDuplicateMessage;
  _ ← st_check (negb (is_nil (DHr next)) && negb (current_dh next (hdr_DH header)) &&
                bool_decide (hdr_DH header ∈ SeenDH next)) ErrDuplicateMessage;
  _ ← (if negb (current_dh next (hdr_DH header)) then
         _ ← st_fst (skipMessageKeys (hdr_PN header));
         DHRatchet (hdr_DH header)
       else mret tt);
  _ ← st_fst (skipMessageKeys (hdr_N header));
  next ← st_fst st_get;
  _ ← st_check (bool_decide (CKr next = zero32)) (ErrText "decrypt: missing receiving chain key");
  _ ← st_check (Nr next =? MaxUint32) ErrCounterOverflow;
  let '(newCKr, mk) := KDFChain (CKr next) in
  _ ← st_fst (st_put (set_recv newCKr (u32 (Nr next + 1)) next));
  st_lift (decryptWithMessageKey mk msg associatedData).

Definition Decrypt (msg : Message) (associatedData : bytes) : ST (State * tape) bytes := fun '(s, t) =>
  let key := skippedKeyForHeader (Header_ msg) in
  match MKSkipped s !! key with
  | Some mk =>
      match decryptWithMessageKey mk msg associatedData with
      | Ok plaintext => ((set_MKSkipped (delete key (MKSkipped s)) s, t), Ok plaintext)
      | Err e => ((s, t), Err e)
      | Panic => ((s, t), Panic)
      end
  | None =>
      let '((next, t'), r) := decrypt_next msg associatedData (s, t) in
      match r with
      | Ok plaintext => ((next, t'), Ok plaintext)
      | Err e => ((s, t'), Err e)
      | Panic => ((s, t'), Panic)
      end
  end.

(** *** wire.go *)

Definition NextSendingMessageKey : ST State (Header * key32) :=
  s ← st_get;
  match DHs s with
  | None => st_err (ErrText "encrypt: missing sending DH key")
  | Some dhs =>
      _ ← st_check (bool_decide (CKs s = zero32)) (ErrText "encrypt: missing sending chain key");
      _ ← st_check (Ns s =? MaxUint32) ErrCounterOverflow;
      let header := mkHeader (PublicKey dhs) (PN s) (Ns s) in
      let '(newCKs, mk) := KDFChain (CKs s) in
      _ ← st_put (set_send newCKs (u32 (Ns s + 1)) s);
      mret (header, mk)
  end.

Definition AdvanceForHeader (header : Header) : ST (State * tape) key32 :=
  s ← st_fst st_get;
  match MKSkipped s !! skippedKeyForHeader header with
  | Some mk =>
      _ ← st_fst (st_put (set_MKSkipped (delete (skippedKeyForHeader header) (MKSkipped s)) s));
      mret mk
  | None =>
      _ ← st_check (current_dh s (hdr_DH header) && (hdr_N header <? Nr s)) ErrDuplicateMessage;
      _ ← st_check (negb (is_nil (DHr s)) && negb (current_dh s (hdr_DH header)) &&
                    bool_decide (hdr_DH header ∈ SeenDH s)) ErrDuplicateMessage;
      _ ← (if negb (current_dh s (hdr_DH header)) then
             _ ← st_fst (skipMessageKeys (hdr_PN header));
             DHRatchet (hdr_DH header)
           else mret tt);
      _ ← st_fst (skipMessageKeys (hdr_N header));
      s ← st_fst st_get;
      _ ← st_check (bool_decide (CKr s = zero32)) (ErrText "decrypt: missing receiving chain key");
      _ ← st_check (Nr s =? MaxUint32) ErrCounterOverflow;
      let '(newCKr, mk) := KDFChain (CKr s) in
      _ ← st_fst (st_put (set_recv newCKr (u32 (Nr s + 1)) s));
      mret mk
  end.

End ratchet.
End Ratchet.
Import Ratchet.
