(* ===== verification/RatchetProofs.v ===== *)
(** * Correctness of the Double Ratchet

    The chain of keys as a mathematical sequence; what [skipMessageKeys],
    [DHRatchet], [Encrypt] and [Decrypt] do to it; the receiver's invariant
    ([recv_inv]) and the relation between two parties ([ahead], [follows]). The
    properties are at the end of the file. *)

From Stdlib Require Import ZArith Lia.
From Stdlib Require Import Strings.Byte.
From stdpp Require Import base gmap strings list list_numbers vector.
From S2P Require Import Prelude Crypto Keys X3dh Ratchet.
Import Crypto Keys X3dh Ratchet.

Section chain.
Context `{Primitives}.

(** The chain keys and message keys that start at [ck]. *)
Fixpoint chain_key (ck : key32) (n : nat) : key32 :=
  match n with O => ck | S n => fst (KDFChain (chain_key ck n)) end.
Definition msg_key (ck : key32) (n : nat) : key32 := snd (KDFChain (chain_key ck n)).

Lemma chain_key_shift ck n : chain_key (fst (KDFChain ck)) n = chain_key ck (S n).
Proof. induction n as [|n IH]; [done|]. cbn [chain_key]. by rewrite IH. Qed.

Lemma chain_key_add ck m n : chain_key (chain_key ck m) n = chain_key ck (m + n).
Proof.
  induction n as [|n IH]; [by rewrite Nat.add_0_r|]. rewrite Nat.add_succ_r. cbn [chain_key]. by rewrite IH.
Qed.

Lemma msg_key_shift ck n : msg_key (fst (KDFChain ck)) n = msg_key ck (S n).
Proof. unfold msg_key. by rewrite chain_key_shift. Qed.

Lemma msg_key_add ck m n : msg_key (chain_key ck m) n = msg_key ck (m + n).
Proof. unfold msg_key. by rewrite chain_key_add. Qed.

(** ** skipMessageKeys *)

(** The map after [k] keys have been skipped, from number [n] and chain key [ck]. *)
Fixpoint skip_keys (P ck : key32) (n : Z) (k : nat) (m : gmap SkippedKey key32) : gmap SkippedKey key32 :=
  match k with
  | O => m
  | S k => skip_keys P (fst (KDFChain ck)) (n + 1) k (<[mkSkippedKey P n := snd (KDFChain ck)]> m)
  end.

Lemma skip_keys_lookup P ck n k m key :
  skip_keys P ck n k m !! key =
  if decide (sk_PublicKey key = P /\ n <= sk_N key < n + Z.of_nat k)
  then Some (msg_key ck (Z.to_nat (sk_N key - n))) else m !! key.
Proof.
  revert ck n m. induction k as [|k IH]; intros ck n m.
  - rewrite decide_False; [done|]. intros [_ ?]. lia.
  - cbn [skip_keys]. rewrite IH. destruct key as [Q j]. cbn [sk_PublicKey sk_N].
    destruct (decide (Q = P)) as [->|Hne].
    + destruct (decide (j = n)) as [->|Hj].
      * rewrite decide_False by (intros [_ ?]; lia).
        rewrite lookup_insert_eq, decide_True by (split; [done|lia]). by rewrite Z.sub_diag.
      * rewrite lookup_insert_ne by congruence.
        destruct (decide (n + 1 <= j < n + 1 + Z.of_nat k)) as [Hr|Hr].
        -- rewrite !decide_True by (split; [done|lia]). rewrite msg_key_shift. do 2 f_equal. lia.
        -- rewrite !decide_False by (intros [_ ?]; lia). done.
    + rewrite !decide_False by tauto. by rewrite lookup_insert_ne by congruence.
Qed.

(** No key of the range is in the map yet. *)
Definition unskipped (P : key32) (n : Z) (m : gmap SkippedKey key32) : Prop :=
  forall j, n <= j -> m !! mkSkippedKey P j = None.

Lemma skip_keys_size P ck n k m :
  unskipped P n m -> size (skip_keys P ck n k m) = (size m + k)%nat.
Proof.
  revert ck n m. induction k as [|k IH]; intros ck n m Hm; [cbn; lia|].
  cbn [skip_keys]. rewrite IH.
  - rewrite map_size_insert_None by (apply Hm; lia). lia.
  - intros j Hj. rewrite lookup_insert_ne by (intros E; injection E; lia). apply Hm. lia.
Qed.

(** The state after skipping [k] keys of the current receiving chain. *)
Definition skipped_state (P : key32) (k : nat) (s : State) : State :=
  set_recv (chain_key (CKr s) k) (Nr s + Z.of_nat k)
    (set_MKSkipped (skip_keys P (CKr s) (Nr s) k (MKSkipped s)) s).

Lemma skip_loop_spec P k fuel s :
  DHr s = Some P -> 0 <= Nr s -> Nr s + Z.of_nat k <= MaxUint32 ->
  unskipped P (Nr s) (MKSkipped s) -> (k <= fuel)%nat ->
  exists s', skip_loop fuel (Nr s + Z.of_nat k) s =
      (s', if Z.of_nat (size (MKSkipped s)) + Z.of_nat k <=? MaxSkip then Ok tt else
           if (k =? 0)%nat then Ok tt else Err ErrMaxSkipExceeded) /\
    (Z.of_nat (size (MKSkipped s)) + Z.of_nat k <= MaxSkip \/ k = 0%nat -> s' = skipped_state P k s).
Proof.
  intros HP H0 Hmax Hm Hf. revert s fuel HP H0 Hmax Hm Hf.
  induction k as [|k IH]; intros s fuel HP H0 Hmax Hm Hf.
  { exists s. split.
    - destruct fuel; cbn [skip_loop Nat.eqb]; rewrite Z.add_0_r, Z.ltb_irrefl; by destruct (_ <=? _).
    - intros _. unfold skipped_state. cbn [chain_key skip_keys Z.of_nat]. rewrite Z.add_0_r. by destruct s. }
  destruct fuel as [|fuel]; [lia|]. cbn [skip_loop].
  rewrite (proj2 (Z.ltb_lt _ _)) by lia. rewrite st_bind_check by (apply Z.eqb_neq; lia).
  rewrite HP. destruct (Z.geb_spec (Z.of_nat (size (MKSkipped s))) MaxSkip) as [Hge|Hlt].
  { exists s. cbn [Nat.eqb]. rewrite (proj2 (Z.leb_gt _ _)) by lia. split; [done|]. lia. }
  rewrite st_bind_check by done. destruct (KDFChain (CKr s)) as [ck mk] eqn:Ek.
  unfold st_modify. unfold mbind at 1, st_bind at 1.
  set (s1 := set_recv ck (u32 (Nr s + 1)) _).
  assert (Nr s1 = Nr s + 1) as Hnr by (cbn; apply u32_id; unfold is_u32, MaxUint32 in *; lia).
  destruct (IH s1 fuel) as (s' & Es & Hs'); [done|lia|lia| |lia|].
  { rewrite Hnr. intros j Hj. cbn. rewrite lookup_insert_ne by (intros E; injection E; lia). apply Hm. lia. }
  replace (Nr s + Z.of_nat (S k)) with (Nr s1 + Z.of_nat k) by lia. exists s'. rewrite Es.
  assert (Z.of_nat (size (MKSkipped s1)) = Z.of_nat (size (MKSkipped s)) + 1) as Hsz.
  { cbn. rewrite map_size_insert_None by (apply Hm; lia). lia. }
  rewrite Hsz. replace (Z.of_nat (size (MKSkipped s)) + 1 + Z.of_nat k)
    with (Z.of_nat (size (MKSkipped s)) + Z.of_nat (S k)) by lia. split.
  - destruct (Z.leb_spec (Z.of_nat (size (MKSkipped s)) + Z.of_nat (S k)) MaxSkip); [done|].
    destruct (Nat.eqb_spec k 0) as [Hk|]; [exfalso; lia|done].
  - intros [Hle|]; [|lia]. rewrite Hs' by lia. unfold skipped_state. rewrite Hnr. cbn [s1 CKr MKSkipped set_recv set_MKSkipped skip_keys].
    rewrite Ek. cbn [fst snd]. assert (chain_key ck k = chain_key (CKr s) (S k)) as ->
      by (rewrite <- chain_key_shift, Ek; done).
    replace (Nr s + 1 + Z.of_nat k) with (Nr s + Z.of_nat (S k)) by lia. done.
Qed.

Lemma skipMessageKeys_ok P until s :
  DHr s = Some P -> 0 <= Nr s -> until <= MaxUint32 -> unskipped P (Nr s) (MKSkipped s) ->
  until <= Nr s \/ Z.of_nat (size (MKSkipped s)) + (until - Nr s) <= MaxSkip ->
  skipMessageKeys until s = (skipped_state P (Z.to_nat (until - Nr s)) s, Ok tt).
Proof.
  intros HP H0 Hu Hm Hle. unfold skipMessageKeys. destruct (decide (until <= Nr s)) as [Hd|Hd].
  - replace (Z.to_nat (until - Nr s)) with 0%nat by lia. cbn [skip_loop].
    rewrite (proj2 (Z.ltb_ge _ _)) by lia. unfold skipped_state. cbn [chain_key skip_keys Z.of_nat].
    rewrite Z.add_0_r. by destruct s.
  - destruct (skip_loop_spec P (Z.to_nat (until - Nr s)) (Z.to_nat (until - Nr s)) s) as (s' & E & Hs'); [done|lia..|done|lia|].
    replace (Nr s + Z.of_nat (Z.to_nat (until - Nr s))) with until in E by lia. rewrite E.
    rewrite Hs' by lia. by rewrite (proj2 (Z.leb_le _ _)) by lia.
Qed.

Lemma skipMessageKeys_exceeded P until s :
  DHr s = Some P -> 0 <= Nr s < until -> until <= MaxUint32 -> unskipped P (Nr s) (MKSkipped s) ->
  MaxSkip < Z.of_nat (size (MKSkipped s)) + (until - Nr s) ->
  exists s', skipMessageKeys until s = (s', Err ErrMaxSkipExceeded).
Proof.
  intros HP H0 Hu Hm Hgt. unfold skipMessageKeys.
  destruct (skip_loop_spec P (Z.to_nat (until - Nr s)) (Z.to_nat (until - Nr s)) s) as (s' & E & _); [done|lia..|done|lia|].
  replace (Nr s + Z.of_nat (Z.to_nat (until - Nr s))) with until in E by lia. rewrite E.
  rewrite (proj2 (Z.leb_gt _ _)) by lia. destruct (Nat.eqb_spec (Z.to_nat (until - Nr s)) 0); [lia|]. eauto.
Qed.

(** ** Encrypt *)

Lemma DeriveMessageKeys_ok mk :
  exists encKey authKey iv, DeriveMessageKeys mk = Ok (encKey, authKey, iv) /\
    len encKey = 32 /\ len authKey = 32 /\ len iv = 16.
Proof.
  unfold DeriveMessageKeys, DeriveMessageKeysWithSalt.
  destruct (HKDF_ok (vec_to_list mk) [] (str "WhisperMessageKeys") (32 + 32 + 16)) as (okm & -> & Hl); [by unfold hkdfMaxLength|].
  destruct (slice_no_panic okm 0 32) as (a & Ha); [lia..|].
  destruct (slice_no_panic okm 32 64) as (b & Hb); [lia..|].
  destruct (slice_no_panic okm 64 80) as (c & Hc); [lia..|].
  rewrite Ha, Hb, Hc. exists a, b, c. split; [done|].
  apply slice_length in Ha, Hb, Hc. lia.
Qed.

(** A message [msg] that opens to [p] under the message key [mk]. *)
Definition opens_to (mk : key32) (msg : Message) (ad p : bytes) : Prop :=
  decryptWithMessageKey mk msg ad = Ok p.

Lemma seal_opens `{!PrimitiveLaws _} mk hdr ad p encKey authKey iv nonce c :
  DeriveMessageKeys mk = Ok (encKey, authKey, iv) -> slice iv 0 12 = Ok nonce ->
  AESGCMEncryptWithNonce encKey p nonce (messageAD ad hdr) = Ok c ->
  opens_to mk (mkMessage hdr (nonce ++ c)) ad p.
Proof.
  intros Hk Hn Hc. unfold opens_to, decryptWithMessageKey. rewrite Hk. cbn [mbind res_bind Ciphertext Header_].
  apply slice_length in Hn as [Hn _]. rewrite len_app, Hn. pose proof (len_nonneg c).
  rewrite (proj2 (Z.ltb_ge _ 12)) by lia. cbn [check].
  pose proof (slice_prefix nonce c) as H1. pose proof (slice_suffix nonce c) as H2.
  rewrite len_app, Hn in H2. rewrite Hn in H1. change (12 - 0) with 12 in *. rewrite H1, H2. cbn [mbind res_bind].
  by rewrite (AESGCM_roundtrip _ _ _ _ _ Hc).
Qed.

(** [Encrypt] advances the sending chain by one and never fails after its
    checks. *)
Lemma Encrypt_ok `{!PrimitiveLaws _} p ad s dhs :
  DHs s = Some dhs -> CKs s <> zero32 -> is_u32 (Ns s) -> Ns s <> MaxUint32 ->
  exists msg, Encrypt p ad s = (set_send (fst (KDFChain (CKs s))) (Ns s + 1) s, Ok msg) /\
    Header_ msg = mkHeader (PublicKey dhs) (PN s) (Ns s) /\ opens_to (snd (KDFChain (CKs s))) msg ad p.
Proof.
  intros Hd Hck Hns Hmax. unfold Encrypt. unfold mbind at 1, st_bind at 1, st_get. rewrite Hd.
  rewrite st_bind_check by (by apply bool_decide_eq_false). rewrite st_bind_check by (by apply Z.eqb_neq).
  destruct (KDFChain (CKs s)) as [ck mk]. cbn [fst snd].
  rewrite (st_bind_run _ _ _ (set_send ck (u32 (Ns s + 1)) s) tt) by done.
  destruct (DeriveMessageKeys_ok mk) as (ek & ak & iv & Hk & Hek & _ & Hiv). rewrite (st_bind_lift _ _ _ _ Hk).
  destruct (slice_no_panic iv 0 12) as (nonce & Hn); [lia..|]. rewrite (st_bind_lift _ _ _ _ Hn).
  pose proof (slice_length _ _ _ _ Hn) as [Hnl _].
  pose proof (AESGCM_Encrypt_ok ek p nonce (messageAD ad (mkHeader (PublicKey dhs) (PN s) (Ns s))) Hnl Hek) as Hc.
  rewrite (st_bind_lift _ _ _ _ Hc). eexists (mkMessage (mkHeader (PublicKey dhs) (PN s) (Ns s)) (nonce ++ _)).
  split; [|split; [reflexivity|]].
  - unfold mret, st_ret. rewrite u32_id by (unfold is_u32, MaxUint32 in *; lia). done.
  - by eapply seal_opens.
Qed.

(** Every way [Encrypt] can end. *)
Lemma Encrypt_fail p ad s e s' :
  Encrypt p ad s = (s', Err e) -> is_u32 (Ns s) ->
  s' = s /\ (DHs s = None \/ CKs s = zero32 \/ (Ns s = MaxUint32 /\ e = ErrCounterOverflow)).
Proof.
  unfold Encrypt. unfold mbind at 1, st_bind at 1, st_get. intros E Hns.
  destruct (DHs s) as [dhs|]; [|injection E as <- <-; auto].
  destruct (bool_decide_reflect (CKs s = zero32)) as [Hz|Hz]; [injection E as <- <-; auto|].
  rewrite st_bind_check in E by done.
  destruct (Z.eqb_spec (Ns s) MaxUint32) as [Hm|Hm]; [injection E as <- <-; auto|].
  rewrite st_bind_check in E by done. exfalso. destruct (KDFChain (CKs s)) as [ck mk].
  rewrite (st_bind_run _ _ _ (set_send ck (u32 (Ns s + 1)) s) tt) in E by done.
  destruct (DeriveMessageKeys_ok mk) as (ek & ak & iv & Hk & Hek & _ & Hiv). rewrite (st_bind_lift _ _ _ _ Hk) in E.
  destruct (slice_no_panic iv 0 12) as (nonce & Hn); [lia..|]. rewrite (st_bind_lift _ _ _ _ Hn) in E.
  pose proof (slice_length _ _ _ _ Hn) as [Hnl _].
  rewrite (st_bind_lift _ _ _ _ (AESGCM_Encrypt_ok ek p nonce (messageAD ad (mkHeader (PublicKey dhs) (PN s) (Ns s))) Hnl Hek)) in E.
  done.
Qed.

(** ** Decrypt on an established chain *)

(** The receiver [s] follows the sending chain of public key [P] that starts at
    [ck]; it has consumed the message numbers [got] and keeps the keys of the
    numbers it has passed over. *)
Record recv_inv (P ck : key32) (got : gset Z) (s : State) : Prop := {
  ri_dhr : DHr s = Some P;
  ri_nr : 0 <= Nr s <= MaxUint32;
  ri_ckr : CKr s = chain_key ck (Z.to_nat (Nr s));
  ri_skipped : forall n, MKSkipped s !! mkSkippedKey P n =
    if decide (0 <= n < Nr s /\ n ∉ got) then Some (msg_key ck (Z.to_nat n)) else None;
  ri_got : forall n, n ∈ got -> 0 <= n < Nr s
}.

Lemma recv_inv_unskipped P ck got s : recv_inv P ck got s -> unskipped P (Nr s) (MKSkipped s).
Proof. intros Hi j Hj. rewrite (ri_skipped _ _ _ _ Hi), decide_False; [done|]. lia. Qed.

Lemma current_dh_true s P : DHr s = Some P -> current_dh s P = true.
Proof. intros HP. unfold current_dh. rewrite HP. by apply bool_decide_eq_true. Qed.

(** Receiving on a chain leaves the sending side and the root key alone. *)
Definition same_send (s s' : State) : Prop :=
  DHs s' = DHs s /\ DHr s' = DHr s /\ RK s' = RK s /\ CKs s' = CKs s /\ Ns s' = Ns s /\ PN s' = PN s /\ SeenDH s' = SeenDH s.

(** A message whose key was kept. *)
Lemma Decrypt_skipped P ck got s t msg ad p n :
  recv_inv P ck got s -> hdr_DH (Header_ msg) = P -> hdr_N (Header_ msg) = n ->
  0 <= n < Nr s -> n ∉ got -> opens_to (msg_key ck (Z.to_nat n)) msg ad p ->
  exists s', Decrypt msg ad (s, t) = ((s', t), Ok p) /\ recv_inv P ck ({[n]} ∪ got) s' /\
    Nr s' = Nr s /\ size (MKSkipped s') = (size (MKSkipped s) - 1)%nat /\ same_send s s'.
Proof.
  intros Hi Hd Hn Hr Hg Ho. unfold Decrypt, skippedKeyForHeader. rewrite Hd, Hn.
  assert (MKSkipped s !! mkSkippedKey P n = Some (msg_key ck (Z.to_nat n))) as Hk
    by (by rewrite (ri_skipped _ _ _ _ Hi), decide_True).
  rewrite Hk, Ho. eexists. split; [reflexivity|]. split; [|split; [done|]].
  - destruct Hi as [H1 H2 H3 H4 H5]. split; cbn; [done|done|done| |].
    + intros j. destruct (decide (j = n)) as [->|Hj].
      * rewrite lookup_delete_eq, decide_False; [done|]. clear. set_solver.
      * rewrite lookup_delete_ne, H4 by congruence. apply decide_ext. clear -Hj. set_solver.
    + intros j [->%elem_of_singleton|Hj]%elem_of_union; [done|by apply H5].
  - split; [|by repeat split]. cbn. rewrite map_size_delete, Hk. lia.
Qed.

(** A duplicate. *)
Lemma Decrypt_duplicate P ck got s t msg ad :
  recv_inv P ck got s -> hdr_DH (Header_ msg) = P -> hdr_N (Header_ msg) ∈ got ->
  Decrypt msg ad (s, t) = ((s, t), Err ErrDuplicateMessage).
Proof.
  intros Hi Hd Hg. unfold Decrypt, skippedKeyForHeader. rewrite Hd, (ri_skipped _ _ _ _ Hi).
  rewrite decide_False by tauto. unfold decrypt_next, st_fst, st_get. unfold mbind at 1, st_bind at 1.
  rewrite Hd, current_dh_true by apply Hi.
  rewrite (proj2 (Z.ltb_lt _ _)) by by apply (ri_got _ _ _ _ Hi). done.
Qed.

(** The state after receiving number [n >= Nr] on the current chain. *)
Definition received_state (P : key32) (n : Z) (s : State) : State :=
  let s1 := skipped_state P (Z.to_nat (n - Nr s)) s in
  set_recv (fst (KDFChain (CKr s1))) (Nr s1 + 1) s1.

Lemma received_inv P ck got s n :
  recv_inv P ck got s -> Nr s <= n < MaxUint32 -> recv_inv P ck ({[n]} ∪ got) (received_state P n s).
Proof.
  intros Hi Hn. pose proof (recv_inv_unskipped _ _ _ _ Hi) as Hu. destruct Hi as [H1 H2 H3 H4 H5].
  unfold received_state. cbn. split; cbn; [done|lia| | |].
  - rewrite H3, chain_key_add.
    trans (chain_key ck (S (Z.to_nat (Nr s) + Z.to_nat (n - Nr s)))); [done|f_equal; lia].
  - intros j. rewrite skip_keys_lookup. cbn [sk_PublicKey sk_N]. rewrite H3, H4.
    rewrite Z2Nat.id by lia. replace (Nr s + (n - Nr s)) with n by lia.
    assert (forall k, k ∈ ({[n]} ∪ got : gset Z) <-> k = n \/ k ∈ got) as Hin
      by (intros k; by rewrite elem_of_union, elem_of_singleton).
    destruct (decide (P = P /\ Nr s <= j < n)) as [[_ Hj]|Hj].
    + rewrite decide_True. 2:{ rewrite Hin. split; [lia|]. intros [->|Hg%H5]; lia. }
      rewrite msg_key_add. by replace (Z.to_nat (Nr s) + Z.to_nat (j - Nr s))%nat with (Z.to_nat j) by lia.
    + apply decide_ext. rewrite Hin. split.
      * intros [Hr Hg]. split; [lia|]. intros [->|]; [lia|done].
      * intros [Hr Hg]. split; [|tauto]. destruct (decide (j < Nr s)); [lia|].
        exfalso. apply Hj. split; [done|]. assert (j <> n) by tauto. lia.
  - intros j [->%elem_of_singleton|Hj%H5]%elem_of_union; lia.
Qed.

(** The code shared by [Decrypt] and [AdvanceForHeader] up to the message key. *)
Definition advance (header : Header) : ST (State * tape) key32 :=
  s ← st_fst st_get;
  _ ← st_check (current_dh s (hdr_DH header) && (hdr_N header <? Nr s)) ErrDuplicateMessage;
  _ ← st_check (negb (is_nil (DHr s)) && negb (current_dh s (hdr_DH header)) &&
                bool_decide (hdr_DH header ∈ SeenDH s)) ErrDuplicateMessage;
  _ ← (if negb (current_dh s (hdr_DH header)) then
         _ ← st_fst (skipMessageKeys (hdr_PN header));
         DHRatchet (hdr_DH header)
       else mret tt);
  _ ← st_fst (skipMessageKeys (hdr_N header));
  s ← st_fst st_get;
  _ ← st_check (bool_decide (CKr s = zero32)) (ErrText "decrypt: missing receiving chain key");
  _ ← st_check (Nr s =? MaxUint32) ErrCounterOverflow;
  let '(newCKr, mk) := KDFChain (CKr s) in
  _ ← st_fst (st_put (set_recv newCKr (u32 (Nr s + 1)) s));
  mret mk.

(** Run a continuation that cannot change the state. *)
Lemma st_bind_assoc {W A B C} (m : ST W A) (f : A -> ST W B) (g : B -> ST W C) w :
  ((m ≫= f) ≫= g) w = (m ≫= (fun a => f a ≫= g)) w.
Proof. unfold mbind, st_bind. by destruct (m w) as [w' [a|e|]]. Qed.

Lemma st_bind_ext {W A B} (m : ST W A) (f g : A -> ST W B) w :
  (forall a w, f a w = g a w) -> (m ≫= f) w = (m ≫= g) w.
Proof. intros Hfg. unfold mbind, st_bind. destruct (m w) as [w' [a|e|]]; auto. Qed.

Lemma decrypt_next_advance msg ad w :
  decrypt_next msg ad w = (mk ← advance (Header_ msg); st_lift (decryptWithMessageKey mk msg ad)) w.
Proof.
  unfold decrypt_next, advance. symmetry.
  repeat (rewrite st_bind_assoc; apply st_bind_ext; clear w; intros ? w).
  destruct (KDFChain (CKr _)) as [ck mk]. rewrite st_bind_assoc. done.
Qed.

Lemma AdvanceForHeader_eq header s t :
  AdvanceForHeader header (s, t) =
  match MKSkipped s !! skippedKeyForHeader header with
  | Some mk => ((set_MKSkipped (delete (skippedKeyForHeader header) (MKSkipped s)) s, t), Ok mk)
  | None => advance header (s, t)
  end.
Proof.
  unfold AdvanceForHeader, advance. rewrite (st_bind_run _ _ _ (s, t) s) by done.
  destruct (MKSkipped s !! skippedKeyForHeader header); [done|]. by rewrite (st_bind_run _ _ _ (s, t) s).
Qed.

(** [Decrypt] is [AdvanceForHeader] on a copy, kept only on success. *)
Lemma Decrypt_eq msg ad s t :
  Ratchet.Decrypt msg ad (s, t) =
  let '((s1, t1), r) := AdvanceForHeader (Header_ msg) (s, t) in
  match (mk ← r; decryptWithMessageKey mk msg ad) with
  | Ok p => ((s1, t1), Ok p)
  | Err e => ((s, t1), Err e)
  | Panic => ((s, t1), Panic)
  end.
Proof.
  rewrite AdvanceForHeader_eq. unfold Decrypt.
  destruct (MKSkipped s !! skippedKeyForHeader (Header_ msg)) as [mk|].
  { cbn [mbind res_bind]. by destruct (decryptWithMessageKey mk msg ad). }
  rewrite decrypt_next_advance. unfold mbind at 1, st_bind at 1.
  destruct (advance (Header_ msg) (s, t)) as [[s1 t1] [mk|e|]]; [|done..].
  cbn [mbind res_bind]. unfold st_lift. by destruct (decryptWithMessageKey mk msg ad).
Qed.

(** The end of [advance], once the receiving chain is the right one. *)
Definition receive_tail (header : Header) : ST (State * tape) key32 :=
  _ ← st_fst (skipMessageKeys (hdr_N header));
  s ← st_fst st_get;
  _ ← st_check (bool_decide (CKr s = zero32)) (ErrText "decrypt: missing receiving chain key");
  _ ← st_check (Nr s =? MaxUint32) ErrCounterOverflow;
  let '(newCKr, mk) := KDFChain (CKr s) in
  _ ← st_fst (st_put (set_recv newCKr (u32 (Nr s + 1)) s));
  mret mk.

Lemma receive_tail_spec P s t header :
  DHr s = Some P -> 0 <= Nr s <= hdr_N header -> hdr_N header < MaxUint32 ->
  unskipped P (Nr s) (MKSkipped s) ->
  Z.of_nat (size (MKSkipped s)) + (hdr_N header - Nr s) <= MaxSkip \/ hdr_N header = Nr s ->
  chain_key (CKr s) (Z.to_nat (hdr_N header - Nr s)) <> zero32 ->
  receive_tail header (s, t) =
    ((received_state P (hdr_N header) s, t), Ok (msg_key (CKr s) (Z.to_nat (hdr_N header - Nr s)))).
Proof.
  intros HP Hn Hmax Hu Hsz Hz. unfold receive_tail.
  set (n := hdr_N header) in *. set (s1 := skipped_state P (Z.to_nat (n - Nr s)) s).
  rewrite (st_bind_run _ _ _ (s1, t) tt).
  2:{ unfold st_fst. rewrite (skipMessageKeys_ok P) by (done || lia). done. }
  rewrite (st_bind_run _ _ _ (s1, t) s1) by done.
  rewrite st_bind_check by (by apply bool_decide_eq_false).
  assert (Nr s1 = n) as Hn1 by (cbn; lia).
  rewrite st_bind_check by (apply Z.eqb_neq; lia).
  unfold received_state, msg_key. fold s1. change (chain_key (CKr s) (Z.to_nat (n - Nr s))) with (CKr s1).
  destruct (KDFChain (CKr s1)) as [ck mk]. cbn [fst snd] in *.
  rewrite (st_bind_run _ _ _ (set_recv ck (u32 (Nr s1 + 1)) s1, t) tt) by done.
  rewrite u32_id by (unfold is_u32, MaxUint32 in *; lia). done.
Qed.

Lemma advance_current P s t header :
  DHr s = Some P -> Nr s <= hdr_N header -> hdr_DH header = P -> advance header (s, t) = receive_tail header (s, t).
Proof.
  intros HP Hn Hd. unfold advance.
  rewrite (st_bind_run _ _ _ (s, t) s) by done. rewrite Hd, (current_dh_true s P HP).
  rewrite st_bind_check by (apply Z.ltb_ge; lia). rewrite st_bind_check by (by rewrite andb_false_r).
  by rewrite (st_bind_run _ _ _ (s, t) tt) by done.
Qed.

(** The next message, or one further ahead. *)
Lemma Advance_next P ck got s t header n :
  recv_inv P ck got s -> hdr_DH header = P -> hdr_N header = n ->
  Nr s <= n < MaxUint32 -> Z.of_nat (size (MKSkipped s)) + (n - Nr s) <= MaxSkip \/ n = Nr s ->
  chain_key ck (Z.to_nat n) <> zero32 ->
  AdvanceForHeader header (s, t) = ((received_state P n s, t), Ok (msg_key ck (Z.to_nat n))).
Proof.
  intros Hi Hd Hn Hr Hsz Hz. rewrite AdvanceForHeader_eq. unfold skippedKeyForHeader. rewrite Hd, Hn.
  pose proof (recv_inv_unskipped _ _ _ _ Hi n) as Hu. rewrite Hu by lia.
  pose proof (ri_nr _ _ _ _ Hi) as H0. pose proof (ri_ckr _ _ _ _ Hi) as Hck.
  assert (Z.to_nat n = Z.to_nat (Nr s) + Z.to_nat (n - Nr s))%nat as En by lia.
  rewrite (advance_current P) by (apply Hi || lia || done).
  rewrite (receive_tail_spec P s t header); rewrite ?Hn, ?Hck, ?chain_key_add, ?msg_key_add, <- ?En; try done.
  - apply Hi.
  - lia.
  - lia.
  - by eapply recv_inv_unskipped.
Qed.

Lemma Decrypt_of_advance s t s' t' mk msg ad p :
  AdvanceForHeader (Header_ msg) (s, t) = ((s', t'), Ok mk) -> opens_to mk msg ad p ->
  Decrypt msg ad (s, t) = ((s', t'), Ok p).
Proof. intros E Ho. rewrite Decrypt_eq, E. cbn [mbind res_bind]. unfold opens_to in Ho. by rewrite Ho. Qed.

Lemma Decrypt_advance P ck got s t msg ad p n :
  recv_inv P ck got s -> hdr_DH (Header_ msg) = P -> hdr_N (Header_ msg) = n ->
  Nr s <= n < MaxUint32 -> Z.of_nat (size (MKSkipped s)) + (n - Nr s) <= MaxSkip \/ n = Nr s ->
  chain_key ck (Z.to_nat n) <> zero32 -> opens_to (msg_key ck (Z.to_nat n)) msg ad p ->
  Decrypt msg ad (s, t) = ((received_state P n s, t), Ok p).
Proof. intros Hi Hd Hn Hr Hsz Hz. apply Decrypt_of_advance. by eapply Advance_next. Qed.

Lemma received_size P s n :
  unskipped P (Nr s) (MKSkipped s) -> Nr s <= n ->
  Z.of_nat (size (MKSkipped (received_state P n s))) = Z.of_nat (size (MKSkipped s)) + (n - Nr s).
Proof. intros Hu Hn. unfold received_state. cbn. rewrite skip_keys_size by done. lia. Qed.

(** Too many messages missing. *)
Lemma Decrypt_exceeded P ck got s t msg ad :
  recv_inv P ck got s -> hdr_DH (Header_ msg) = P -> Nr s < hdr_N (Header_ msg) <= MaxUint32 ->
  MaxSkip < Z.of_nat (size (MKSkipped s)) + (hdr_N (Header_ msg) - Nr s) ->
  Decrypt msg ad (s, t) = ((s, t), Err ErrMaxSkipExceeded).
Proof.
  intros Hi Hd Hn Hsz. unfold Decrypt, skippedKeyForHeader. rewrite Hd.
  pose proof (recv_inv_unskipped _ _ _ _ Hi) as Hu. rewrite (Hu (hdr_N (Header_ msg))) by lia.
  unfold decrypt_next. rewrite (st_bind_run _ _ _ (s, t) s) by done. rewrite Hd, (current_dh_true s P) by apply Hi.
  rewrite st_bind_check by (apply Z.ltb_ge; lia). rewrite st_bind_check by (by rewrite andb_false_r).
  rewrite (st_bind_run _ _ _ (s, t) tt) by done.
  pose proof (ri_nr _ _ _ _ Hi).
  destruct (skipMessageKeys_exceeded P (hdr_N (Header_ msg)) s) as (s' & E); [apply Hi|lia|lia|done|lia|].
  unfold mbind at 1, st_bind at 1, st_fst. by rewrite E.
Qed.

(** ** Whole conversations on one chain *)

(** A sender encrypts a list of plaintexts. *)
Fixpoint encrypt_all (ad : bytes) (ps : list bytes) : ST State (list Message) :=
  match ps with
  | [] => mret []
  | p :: ps => m ← Encrypt p ad; ms ← encrypt_all ad ps; mret (m :: ms)
  end.

(** A receiver is handed a list of messages and goes on after an error. *)
Fixpoint deliver (ad : bytes) (ms : list Message) (w : State * tape) : (State * tape) * list (res bytes) :=
  match ms with
  | [] => (w, [])
  | m :: ms =>
      let '(w, r) := Decrypt m ad w in
      let '(w, rs) := deliver ad ms w in (w, r :: rs)
  end.

(** What it should report: each message once, in whatever order. *)
Fixpoint outcomes (ps : list bytes) (order : list nat) (seen : gset nat) : list (res bytes) :=
  match order with
  | [] => []
  | i :: order =>
      (if decide (i ∈ seen) then Err ErrDuplicateMessage
       else match ps !! i with Some p => Ok p | None => Err ErrInvalidMessage end) ::
      outcomes ps order ({[i]} ∪ seen)
  end.

Lemma encrypt_all_spec `{!PrimitiveLaws _} ad ps s s' ms dhs ck :
  encrypt_all ad ps s = (s', Ok ms) -> DHs s = Some dhs -> is_u32 (Ns s) -> CKs s = chain_key ck (Z.to_nat (Ns s)) ->
  Ns s + len ps <= MaxUint32 /\ length ms = length ps /\
  s' = set_send (chain_key ck (Z.to_nat (Ns s) + length ps)) (Ns s + len ps) s /\
  forall i m, ms !! i = Some m -> exists p, ps !! i = Some p /\
    Header_ m = mkHeader (PublicKey dhs) (PN s) (Ns s + Z.of_nat i) /\
    chain_key ck (Z.to_nat (Ns s) + i) <> zero32 /\ opens_to (msg_key ck (Z.to_nat (Ns s) + i)) m ad p.
Proof.
  revert s ms. induction ps as [|p ps IH]; intros s ms E Hd Hns Hck.
  { cbn in E. injection E as <- <-. unfold is_u32, MaxUint32 in *. rewrite len_nil. split_and!; [lia|done| |].
    - cbn [length]. rewrite Nat.add_0_r, Z.add_0_r, <- Hck. by destruct s.
    - intros i m Hm. by rewrite lookup_nil in Hm. }
  cbn [encrypt_all] in E. apply st_bind_ok in E as (s1 & m & Em & E). apply st_bind_ok in E as (s2 & ms' & Ems & E).
  apply st_ret_ok in E as [-> ->].
  assert (CKs s <> zero32 /\ Ns s <> MaxUint32) as [Hz Hmax].
  { unfold Encrypt in Em. unfold mbind at 1, st_bind at 1, st_get in Em. rewrite Hd in Em.
    apply st_bind_ok in Em as (? & ? & H1 & Em). apply st_check_ok in H1 as [-> H1].
    apply st_bind_ok in Em as (? & ? & H2 & _). apply st_check_ok in H2 as [-> H2].
    split; [by apply bool_decide_eq_false in H1|by apply Z.eqb_neq]. }
  destruct (Encrypt_ok p ad s dhs Hd Hz Hns Hmax) as (m' & Em' & Hh & Ho). rewrite Em' in Em.
  injection Em as <- <-. unfold is_u32, MaxUint32 in Hns, Hmax.
  assert (Z.to_nat (Ns s + 1) = S (Z.to_nat (Ns s))) as Hnat by lia.
  destruct (IH _ _ Ems) as (IH1 & IH2 & IHs & IH3); [done|cbn; unfold is_u32; lia|cbn; by rewrite Hnat, Hck|].
  cbn in IH1, IH3. rewrite len_cons. split_and!; [lia|cbn; lia| |].
  { rewrite IHs. cbn [Ns set_send length]. unfold set_send. cbn. f_equal; [f_equal; lia|lia]. }
  intros [|i] m Hm.
  - injection Hm as <-. exists p. rewrite Nat.add_0_r, Z.add_0_r. split_and!; [done|done|by rewrite <- Hck|].
    unfold msg_key. by rewrite <- Hck.
  - destruct (IH3 i m Hm) as (q & Hq & Hhq & Hzq & Hoq). exists q.
    replace (Z.to_nat (Ns s) + S i)%nat with (Z.to_nat (Ns s + 1) + i)%nat by lia.
    split_and!; [done| |done|done]. rewrite Hhq. f_equal. lia.
Qed.

Lemma deliver_spec P ck ps (ms : list Message) ad base_n order ds s t got seen :
  recv_inv P ck got s -> 0 <= base_n -> base_n + len ps <= MaxUint32 -> Nr s <= base_n + len ps ->
  Z.of_nat (size (MKSkipped s)) + (base_n + len ps - Nr s) <= MaxSkip ->
  (forall i, (i < length ps)%nat -> base_n + Z.of_nat i ∈ got <-> i ∈ seen) ->
  (forall i m, ms !! i = Some m -> exists p, ps !! i = Some p /\ hdr_DH (Header_ m) = P /\
     hdr_N (Header_ m) = base_n + Z.of_nat i /\ chain_key ck (Z.to_nat base_n + i) <> zero32 /\
     opens_to (msg_key ck (Z.to_nat base_n + i)) m ad p) ->
  Forall2 (fun i d => ms !! i = Some d) order ds ->
  exists s' got', deliver ad ds (s, t) = ((s', t), outcomes ps order seen) /\
    recv_inv P ck got' s' /\ same_send s s' /\ got ⊆ got'.
Proof.
  intros Hi H0 Hmax Hnr Hsz Hseen Hms Hf. revert s t got seen Hi Hnr Hsz Hseen.
  induction Hf as [|i d order ds Hd _ IH]; intros s t got seen Hi Hnr Hsz Hseen.
  { exists s, got. split; [done|]. split; [done|]. split; [by repeat split|done]. }
  destruct (Hms i d Hd) as (p & Hp & HP & Hn & Hz & Ho). set (n := base_n + Z.of_nat i) in *.
  assert (i < length ps)%nat as Hil by by eapply lookup_lt_Some.
  assert (n < base_n + len ps) as Hlt by (unfold n, len; lia).
  assert (Z.to_nat n = Z.to_nat base_n + i)%nat as En by (unfold n; lia). rewrite <- En in Hz, Ho.
  assert (forall j, (j < length ps)%nat -> base_n + Z.of_nat j ∈ ({[n]} ∪ got : gset Z) <-> j ∈ ({[i]} ∪ seen : gset nat)) as Hseen'.
  { intros j Hj. rewrite !elem_of_union, !elem_of_singleton, Hseen by done. unfold n.
    split; (intros [?|?]; [left; lia|by right]). }
  cbn [deliver outcomes]. destruct (decide (i ∈ seen)) as [Hin|Hin].
  - rewrite (Decrypt_duplicate P ck got) by (rewrite ?Hn; auto; by apply Hseen).
    destruct (IH s t got ({[i]} ∪ seen) Hi Hnr Hsz) as (s' & got' & -> & H1 & H2 & H3); [|by exists s', got'].
    intros j Hj. rewrite elem_of_union, elem_of_singleton, Hseen by done. split; [by right|by intros [->|]].
  - rewrite Hp. destruct (decide (n < Nr s)) as [Hold|Hnew].
    + destruct (Decrypt_skipped P ck got s t d ad p n Hi HP Hn) as (s1 & E & Hi' & Hnr' & Hsz' & Hss);
        [unfold n; lia|unfold n; by rewrite Hseen|done|]. rewrite E.
      destruct (IH s1 t _ ({[i]} ∪ seen) Hi') as (s' & got' & -> & H1 & H2 & H3); [lia|lia|done|].
      exists s', got'. split_and!; [done|done| |]; [|etrans; [|exact H3]; apply union_subseteq_r].
      unfold same_send in *. intuition congruence.
    + rewrite (Decrypt_advance P ck got s t d ad p n) by (done || lia).
      pose proof (received_inv P ck got s n Hi ltac:(lia)) as Hi'.
      pose proof (received_size P s n (recv_inv_unskipped _ _ _ _ Hi) ltac:(lia)) as Hsz'.
      assert (Nr (received_state P n s) = n + 1) as Hnr' by (cbn; lia).
      destruct (IH (received_state P n s) t _ ({[i]} ∪ seen) Hi') as (s' & got' & -> & H1 & H2 & H3); [lia|lia|done|].
      exists s', got'. split_and!; [done|done|exact H2|etrans; [|exact H3]; apply union_subseteq_r].
Qed.

(** ** The Diffie-Hellman ratchet *)

Lemma KDFRoot_ok rk z : exists rk' ck, KDFRoot rk z = Ok (rk', ck).
Proof.
  unfold KDFRoot. destruct (HKDF_ok (vec_to_list z) (vec_to_list rk) (str "WhisperRatchet") 64) as (okm & -> & Hl);
    [by unfold hkdfMaxLength|]. cbn [mbind res_bind].
  destruct (slice_no_panic okm 0 32) as (a & ->); [lia..|].
  destruct (slice_no_panic okm 32 64) as (b & ->); [lia..|]. eauto.
Qed.

(** The state [DHRatchet P] leaves. *)
Definition ratcheted (P : key32) (newDH : KeyPair) (rk cks ckr : key32) (s : State) : State :=
  mkState (Some newDH) (Some P) rk cks ckr 0 0 (Ns s)
    (filter (fun kv => sk_PublicKey kv.1 = P) (MKSkipped s))
    ({[P]} ∪ (match DHr s with Some d => {[d]} ∪ SeenDH s | None => SeenDH s end)).

Lemma DHRatchet_ok P s t t' dhs newDH z1 z2 rk1 rk2 ckr cks :
  DHs s = Some dhs -> DH (PrivateKey dhs) P = Ok z1 -> KDFRoot (RK s) z1 = Ok (rk1, ckr) ->
  GenerateKeyPair t = (t', Ok newDH) -> DH (PrivateKey newDH) P = Ok z2 -> KDFRoot rk1 z2 = Ok (rk2, cks) ->
  DHRatchet P (s, t) = ((ratcheted P newDH rk2 cks ckr s, t'), Ok tt).
Proof.
  intros H1 H2 H3 H4 H5 H6. unfold DHRatchet.
  rewrite (st_bind_run _ _ _ (s, t) s) by done. rewrite H1.
  repeat (erewrite st_bind_run by (unfold st_fst, st_modify; reflexivity)).
  rewrite (st_bind_lift _ _ _ _ H2), (st_bind_lift _ _ _ _ H3). cbn beta iota.
  erewrite st_bind_run by (unfold st_fst, st_modify; reflexivity).
  erewrite st_bind_run by (unfold st_snd; rewrite H4; reflexivity).
  erewrite st_bind_run by (unfold st_fst, st_modify; reflexivity).
  rewrite (st_bind_lift _ _ _ _ H5), (st_bind_lift _ _ _ _ H6). cbn beta iota.
  repeat (erewrite st_bind_run by (unfold st_fst, st_modify; reflexivity)). done.
Qed.

(** A successful ratchet step. *)
Lemma DHRatchet_inv P s t s' t' u :
  DHRatchet P (s, t) = ((s', t'), Ok u) ->
  exists newDH rk cks ckr, s' = ratcheted P newDH rk cks ckr s /\
    GenerateKeyPair t = (t', Ok newDH) /\ key_pair_ok (PrivateKey newDH) (PublicKey newDH).
Proof.
  intros E. unfold DHRatchet in E. rewrite (st_bind_run _ _ _ (s, t) s) in E by done.
  destruct (DHs s) as [dhs|]; [|done].
  do 2 (erewrite st_bind_run in E by (unfold st_fst, st_modify; reflexivity)).
  apply st_bind_ok in E as (? & z1 & H1 & E). apply st_lift_ok in H1 as [-> H1].
  apply st_bind_ok in E as (? & [rk1 ckr] & H2 & E). apply st_lift_ok in H2 as [-> H2].
  erewrite st_bind_run in E by (unfold st_fst, st_modify; reflexivity).
  unfold st_snd in E at 1. unfold mbind at 1, st_bind at 1 in E.
  destruct (GenerateKeyPair t) as [t1 [newDH| |]] eqn:Hg; [|done..].
  erewrite st_bind_run in E by (unfold st_fst, st_modify; reflexivity).
  apply st_bind_ok in E as (? & z2 & H3 & E). apply st_lift_ok in H3 as [-> H3].
  apply st_bind_ok in E as (? & [rk2 cks] & H4 & E). apply st_lift_ok in H4 as [-> H4].
  do 2 (erewrite st_bind_run in E by (unfold st_fst, st_modify; reflexivity)).
  unfold st_fst, st_modify in E. injection E as <- <- _.
  exists newDH, rk2, cks, ckr. split_and!; [done|done|by eapply GenerateKeyPair_ok].
Qed.

(** ** The state invariant *)

(** Counters are 32-bit; at most [MaxSkip] skipped keys are kept; they all
    belong to the peer's current ratchet key and to numbers already passed;
    the peer's current key is marked as seen. *)
Record st_ok (s : State) : Prop := {
  ok_ns : is_u32 (Ns s);
  ok_nr : is_u32 (Nr s);
  ok_pn : is_u32 (PN s);
  ok_size : Z.of_nat (size (MKSkipped s)) <= MaxSkip;
  ok_keys : forall k, is_Some (MKSkipped s !! k) -> DHr s = Some (sk_PublicKey k) /\ 0 <= sk_N k < Nr s;
  ok_seen : forall d, DHr s = Some d -> d ∈ SeenDH s
}.

Lemma st_ok_unskipped s P : st_ok s -> unskipped P (Nr s) (MKSkipped s).
Proof.
  intros Hs j Hj. apply eq_None_not_Some. intros Hk. apply (ok_keys _ Hs) in Hk as [_ Hk]. cbn in Hk. lia.
Qed.

Lemma skip_loop_ok fuel until s s' r :
  st_ok s -> until <= MaxUint32 -> skip_loop fuel until s = (s', r) ->
  st_ok s' /\ DHr s' = DHr s /\ SeenDH s' = SeenDH s /\ (r = Ok tt -> until <= Nr s') /\ Nr s <= Nr s'.
Proof.
  intros Hs Hu. revert s Hs. induction fuel as [|fuel IH]; intros s Hs E; cbn [skip_loop] in E.
  - destruct (Z.ltb_spec (Nr s) until); injection E as <- <-; split_and!; try done; lia.
  - destruct (Z.ltb_spec (Nr s) until) as [Hlt|]; [|injection E as <- <-; split_and!; done || lia].
    rewrite st_bind_check in E by (apply Z.eqb_neq; lia).
    destruct (Z.geb_spec (Z.of_nat (size (MKSkipped s))) MaxSkip) as [Hge|Hlt'].
    { injection E as <- <-. split_and!; done || lia. }
    rewrite st_bind_check in E by done. destruct (DHr s) as [d|] eqn:Hd.
    2:{ injection E as <- <-. split_and!; done || lia. }
    destruct (KDFChain (CKr s)) as [ck mk]. unfold st_modify in E. unfold mbind at 1, st_bind at 1 in E.
    set (s1 := set_recv ck (u32 (Nr s + 1)) _) in E.
    pose proof (ok_nr _ Hs) as Hnr. unfold is_u32, MaxUint32 in *.
    assert (Nr s1 = Nr s + 1) as Hn1 by (cbn; apply u32_id; unfold is_u32; lia).
    assert (st_ok s1) as Hs1.
    { split; cbn -[u32]; [apply Hs|apply u32_range|apply Hs| | |].
      - pose proof (st_ok_unskipped s d Hs (Nr s) ltac:(lia)) as Hnone.
        rewrite map_size_insert_None by done. lia.
      - change (u32 (Nr s + 1)) with (Nr s1). rewrite Hn1, Hd. intros k. rewrite lookup_insert. case_decide as Hk.
        + intros _. subst k. cbn. split; [done|lia].
        + intros [? ?]%(ok_keys _ Hs). split; [congruence|lia].
      - apply (ok_seen _ Hs). }
    destruct (IH s1 Hs1 E) as (H1 & H2 & H3 & H4 & H5). split_and!; [done| | |done|lia].
    + rewrite H2. exact Hd.
    + by rewrite H3.
Qed.

Lemma ratcheted_ok P newDH rk cks ckr s :
  st_ok s -> DHr s <> Some P -> st_ok (ratcheted P newDH rk cks ckr s).
Proof.
  intros Hs Hne. assert (filter (fun kv : SkippedKey * key32 => sk_PublicKey kv.1 = P) (MKSkipped s) = ∅) as He.
  { apply map_empty_filter_2. intros k v Hk Hp. cbn in Hp.
    destruct (ok_keys _ Hs k) as [Hd _]; [by eexists|]. congruence. }
  split; cbn; rewrite ?He; [done|done|apply Hs|done| |].
  - intros k [v Hv]. by rewrite lookup_empty in Hv.
  - intros d E. injection E as <-. clear. set_solver.
Qed.

Lemma ratcheted_empty P newDH rk cks ckr s :
  st_ok s -> DHr s <> Some P -> MKSkipped (ratcheted P newDH rk cks ckr s) = ∅.
Proof.
  intros Hs Hne. cbn. apply map_empty_filter_2. intros k v Hk Hp. cbn in Hp.
  destruct (ok_keys _ Hs k) as [Hd _]; [by eexists|]. congruence.
Qed.

Lemma current_dh_false s P : current_dh s P = false -> DHr s <> Some P.
Proof. unfold current_dh. intros E Hd. rewrite Hd in E. by rewrite bool_decide_true in E. Qed.

Lemma advance_state_ok ck s :
  st_ok s -> Nr s <> MaxUint32 -> st_ok (set_recv ck (u32 (Nr s + 1)) s).
Proof.
  intros Hs Hm. pose proof (ok_nr _ Hs) as Hnr. unfold is_u32, MaxUint32 in *.
  assert (u32 (Nr s + 1) = Nr s + 1) as E by (apply u32_id; unfold is_u32; lia).
  split; cbn -[u32]; rewrite ?E; try apply Hs; [unfold is_u32; lia|].
  intros k [H1 H2]%(ok_keys _ Hs). split; [done|lia].
Qed.

Lemma advance_ok header s t s' t' mk :
  st_ok s -> is_u32 (hdr_N header) -> is_u32 (hdr_PN header) ->
  advance header (s, t) = ((s', t'), Ok mk) ->
  st_ok s' /\ DHr s' = Some (hdr_DH header) /\ Nr s' = hdr_N header + 1.
Proof.
  intros Hs Hn Hpn E. unfold advance in E. rewrite (st_bind_run _ _ _ (s, t) s) in E by done.
  apply st_bind_ok in E as (? & ? & H1 & E). apply st_check_ok in H1 as [-> H1].
  apply st_bind_ok in E as (? & ? & H2 & E). apply st_check_ok in H2 as [-> H2].
  apply st_bind_ok in E as ([s1 t1] & ? & H3 & E).
  assert (st_ok s1 /\ DHr s1 = Some (hdr_DH header) /\ Nr s1 <= hdr_N header) as (Hs1 & Hd1 & Hn1).
  { destruct (current_dh s (hdr_DH header)) eqn:Hc; cbn [negb] in H3.
    - apply st_ret_ok in H3 as [[= -> ->] _]. split; [done|]. split; [|apply Z.ltb_ge; exact H1].
      unfold current_dh in Hc. destruct (DHr s); [|done]. by apply bool_decide_eq_true in Hc as ->.
    - apply st_bind_ok in H3 as ([s2 t2] & ? & H4 & H3). unfold st_fst in H4.
      destruct (skipMessageKeys (hdr_PN header) s) as [s2' r] eqn:Hsk. injection H4 as -> -> ->.
      apply skip_loop_ok in Hsk as (Hs2 & Hd2 & _); [|done|unfold is_u32, MaxUint32 in *; lia].
      apply DHRatchet_inv in H3 as (newDH & rk & cks & ckr & -> & _). split; [|split; [done|cbn; apply Hn]].
      apply ratcheted_ok; [done|]. rewrite Hd2. by apply current_dh_false. }
  apply st_bind_ok in E as ([s2 t2] & ? & H4 & E). unfold st_fst in H4.
  destruct (skipMessageKeys (hdr_N header) s1) as [s2' r] eqn:Hsk. injection H4 as -> -> ->.
  assert (hdr_N header <= MaxUint32) as Hle by (unfold is_u32, MaxUint32 in *; lia).
  destruct (skip_loop_ok _ _ _ _ _ Hs1 Hle Hsk) as (Hs2 & Hd2 & _ & Hge & _).
  assert (Nr s2 = hdr_N header) as Hn2.
  { unfold skipMessageKeys in Hsk. pose proof (ok_nr _ Hs1) as Hnr1. unfold is_u32, MaxUint32 in *.
    destruct (skip_loop_spec (hdr_DH header) (Z.to_nat (hdr_N header - Nr s1)) (Z.to_nat (hdr_N header - Nr s1)) s1)
      as (s3 & E3 & Hs3); [done|lia|unfold MaxUint32; lia|by apply st_ok_unskipped|lia|].
    replace (Nr s1 + Z.of_nat (Z.to_nat (hdr_N header - Nr s1))) with (hdr_N header) in E3 by lia.
    rewrite Hsk in E3. injection E3 as -> Hr.
    rewrite Hs3; [cbn; lia|].
    destruct (Z.leb_spec (Z.of_nat (size (MKSkipped s1)) + Z.of_nat (Z.to_nat (hdr_N header - Nr s1))) MaxSkip); [by left|].
    destruct (Nat.eqb_spec (Z.to_nat (hdr_N header - Nr s1)) 0); [by right|done]. }
  rewrite (st_bind_run _ _ _ (s2, t2) s2) in E by done.
  apply st_bind_ok in E as (? & ? & H5 & E). apply st_check_ok in H5 as [-> H5].
  apply st_bind_ok in E as (? & ? & H6 & E). apply st_check_ok in H6 as [-> H6]. apply Z.eqb_neq in H6.
  destruct (KDFChain (CKr s2)) as [ck k]. unfold st_fst, st_put, mbind, st_bind, mret, st_ret in E. injection E as <- <- _.
  split; [by apply advance_state_ok|]. cbn -[u32]. rewrite Hd2, Hn2. split; [done|].
  apply u32_id. unfold is_u32, MaxUint32 in *. lia.
Qed.

Lemma delete_skipped_ok k s : st_ok s -> st_ok (set_MKSkipped (delete k (MKSkipped s)) s).
Proof.
  intros [H1 H2 H3 H4 H5 H6]. split; cbn [Ns Nr PN MKSkipped DHr SeenDH set_MKSkipped]; try done.
  - rewrite map_size_delete. unfold MaxSkip, id in *. destruct (MKSkipped s !! k); lia.
  - intros j [v Hj]. apply lookup_delete_Some in Hj as [_ Hj]. by apply H5.
Qed.

Lemma AdvanceForHeader_ok header s t s' t' mk :
  st_ok s -> is_u32 (hdr_N header) -> is_u32 (hdr_PN header) ->
  AdvanceForHeader header (s, t) = ((s', t'), Ok mk) -> st_ok s' /\ DHr s' = Some (hdr_DH header).
Proof.
  intros Hs Hn Hpn E. rewrite AdvanceForHeader_eq in E.
  destruct (MKSkipped s !! skippedKeyForHeader header) as [k|] eqn:Hk.
  - injection E as <- <- <-. split; [by apply delete_skipped_ok|]. cbn.
    by apply (ok_keys _ Hs (skippedKeyForHeader header)).
  - destruct (advance_ok header s t s' t' mk Hs Hn Hpn E) as (? & ? & _). done.
Qed.

Lemma Decrypt_st_ok msg ad s t :
  st_ok s -> is_u32 (hdr_N (Header_ msg)) -> is_u32 (hdr_PN (Header_ msg)) ->
  st_ok (fst (fst (Decrypt msg ad (s, t)))).
Proof.
  intros Hs Hn Hpn. rewrite Decrypt_eq.
  destruct (AdvanceForHeader (Header_ msg) (s, t)) as [[s1 t1] [mk|e|]] eqn:E; [|done..].
  cbn [mbind res_bind]. destruct (decryptWithMessageKey mk msg ad); [|done..].
  by apply AdvanceForHeader_ok in E as [? _].
Qed.

Lemma Encrypt_st_ok p ad s : st_ok s -> st_ok (fst (Encrypt p ad s)).
Proof.
  intros Hs. unfold Encrypt. unfold mbind at 1, st_bind at 1, st_get. destruct (DHs s) as [dhs|]; [|done].
  destruct (bool_decide (CKs s = zero32)); [done|]. rewrite st_bind_check by done.
  destruct (Ns s =? MaxUint32); [done|]. rewrite st_bind_check by done.
  destruct (KDFChain (CKs s)) as [ck mk]. rewrite (st_bind_run _ _ _ (set_send ck (u32 (Ns s + 1)) s) tt) by done.
  assert (st_ok (set_send ck (u32 (Ns s + 1)) s)) as Hs' by (destruct Hs; split; cbn -[u32]; auto; apply u32_range).
  unfold mbind, st_bind, st_lift, mret, st_ret. by repeat case_match; simplify_eq.
Qed.

(** ** Two parties *)

(** [A] sends on a chain of key pair [a] and first key [ck] that [B], whose
    key pair is [b], has not ratcheted to yet. *)
Record ahead (a b : KeyPair) (ck : key32) (A B : State) : Prop := {
  ah_A : DHs A = Some a;
  ah_B : DHs B = Some b;
  ah_a : key_pair_ok (PrivateKey a) (PublicKey a);
  ah_b : key_pair_ok (PrivateKey b) (PublicKey b);
  ah_dhr : DHr A = Some (PublicKey b);
  ah_root : exists z, DH (PrivateKey b) (PublicKey a) = Ok z /\ KDFRoot (RK B) z = Ok (RK A, ck);
  ah_chain : CKs A = chain_key ck (Z.to_nat (Ns A))
}.

(** [B] takes the ratchet step that [A]'s message asks for, draws [b'], and is
    now ahead of [A] itself, while it follows [A]'s chain. *)
Lemma Advance_turn `{!PrimitiveLaws _} a b b' ck A B header t t' z :
  ahead a b ck A B -> st_ok B -> DHr B <> None ->
  hdr_DH header = PublicKey a -> is_u32 (hdr_PN header) ->
  0 <= hdr_N header <= MaxSkip -> PublicKey a ∉ SeenDH B ->
  hdr_PN header <= Nr B \/ Z.of_nat (size (MKSkipped B)) + (hdr_PN header - Nr B) <= MaxSkip ->
  chain_key ck (Z.to_nat (hdr_N header)) <> zero32 ->
  GenerateKeyPair t = (t', Ok b') -> DH (PrivateKey b') (PublicKey a) = Ok z ->
  exists B' ck', AdvanceForHeader header (B, t) = ((B', t'), Ok (msg_key ck (Z.to_nat (hdr_N header)))) /\ ahead b' a ck' B' A /\
    recv_inv (PublicKey a) ck {[hdr_N header]} B' /\ CKs B' = ck' /\ Ns B' = 0 /\
    Nr B' = hdr_N header + 1 /\ Z.of_nat (size (MKSkipped B')) = hdr_N header /\ PN B' = Ns B.
Proof.
  intros Ha HB Hdr Hd Hpn Hn Hnew Hskip Hz Hg Hdh.
  destruct (DHr B) as [Q|] eqn:HQ; [clear Hdr|done].
  assert (Q <> PublicKey a) as HQa by (intros ->; apply Hnew, (ok_seen _ HB); done).
  destruct Ha as [HA HB' Hka Hkb HdA (z1 & Hz1 & Hr1) Hch].
  set (n := hdr_N header) in *. set (P := PublicKey a) in *.
  set (s1 := skipped_state Q (Z.to_nat (hdr_PN header - Nr B)) B).
  assert (skipMessageKeys (hdr_PN header) B = (s1, Ok tt)) as Hsk.
  { apply skipMessageKeys_ok; [done|apply HB|unfold is_u32, MaxUint32 in *; lia|by apply st_ok_unskipped|done]. }
  assert (hdr_PN header <= MaxUint32) as Hle by (unfold is_u32, MaxUint32 in *; lia).
  destruct (skip_loop_ok _ _ _ _ _ HB Hle Hsk) as (Hs1 & Hd1 & _).
  destruct (KDFRoot_ok (RK A) z) as (rk2 & cks & Hr2).
  set (s2 := ratcheted P b' rk2 cks ck s1).
  assert (DHRatchet P (s1, t) = ((s2, t'), Ok tt)) as Hrat.
  { eapply DHRatchet_ok; [exact HB'|exact Hz1|exact Hr1|done|exact Hdh|exact Hr2]. }
  assert (st_ok s2 /\ MKSkipped s2 = ∅) as [Hs2 He2].
  { assert (DHr s1 <> Some P) by (rewrite Hd1; congruence).
    split; [by apply ratcheted_ok|by apply ratcheted_empty]. }
  assert (recv_inv P ck ∅ s2) as Hri.
  { split; [done|done|done| |]; [|clear; set_solver]. intros j. rewrite He2, lookup_empty, decide_False; [done|]. cbn. lia. }
  exists (received_state P n s2), cks. split_and!; [| | |done|done| | |done].
  - rewrite AdvanceForHeader_eq. unfold skippedKeyForHeader. rewrite Hd. fold n. assert (MKSkipped B !! mkSkippedKey P n = None) as ->.
    { apply eq_None_not_Some. intros [Hk _]%(ok_keys _ HB). cbn in Hk. congruence. }
    unfold advance. rewrite (st_bind_run _ _ _ (B, t) B) by done. fold n.
    assert (current_dh B P = false) as Hc by (unfold current_dh; rewrite HQ; by apply bool_decide_eq_false).
    rewrite Hd, Hc, HQ. rewrite st_bind_check by done. rewrite st_bind_check by (cbn; by apply bool_decide_eq_false).
    cbn [negb]. rewrite (st_bind_run _ _ _ (s2, t') tt).
    2:{ rewrite (st_bind_run _ _ _ (s1, t) tt) by (unfold st_fst; by rewrite Hsk). exact Hrat. }
    pose proof (receive_tail_spec P s2 t' header) as Ht. unfold receive_tail in Ht.
    fold n in Ht. change (Nr s2) with 0 in Ht. change (CKr s2) with ck in Ht. rewrite Z.sub_0_r, He2 in Ht.
    rewrite Ht; [done|done|lia|unfold MaxUint32, MaxSkip in *; lia| | |done].
    + intros j _. apply lookup_empty.
    + left. rewrite map_size_empty. unfold MaxSkip in *. lia.
  - split; cbn; [done|exact HA|by eapply GenerateKeyPair_ok|done|done| |done].
    exists z. split; [|exact Hr2]. rewrite (DH_comm _ (PrivateKey b') (PublicKey a)); [done|done|by eapply GenerateKeyPair_ok].
  - replace {[n]} with ({[n]} ∪ ∅ : gset Z) by apply union_empty_r_L.
    apply received_inv; [done|]. cbn. unfold MaxUint32, MaxSkip in *. lia.
  - cbn. lia.
  - rewrite received_size; [|by apply st_ok_unskipped|cbn; lia]. rewrite He2, map_size_empty. cbn. lia.
Qed.

Lemma Decrypt_turn `{!PrimitiveLaws _} a b b' ck A B msg ad p t t' z :
  ahead a b ck A B -> st_ok B -> DHr B <> None ->
  hdr_DH (Header_ msg) = PublicKey a -> is_u32 (hdr_PN (Header_ msg)) ->
  0 <= hdr_N (Header_ msg) <= MaxSkip -> PublicKey a ∉ SeenDH B ->
  hdr_PN (Header_ msg) <= Nr B \/ Z.of_nat (size (MKSkipped B)) + (hdr_PN (Header_ msg) - Nr B) <= MaxSkip ->
  chain_key ck (Z.to_nat (hdr_N (Header_ msg))) <> zero32 ->
  opens_to (msg_key ck (Z.to_nat (hdr_N (Header_ msg)))) msg ad p ->
  GenerateKeyPair t = (t', Ok b') -> DH (PrivateKey b') (PublicKey a) = Ok z ->
  exists B' ck', Decrypt msg ad (B, t) = ((B', t'), Ok p) /\ ahead b' a ck' B' A /\
    recv_inv (PublicKey a) ck {[hdr_N (Header_ msg)]} B' /\ CKs B' = ck' /\ Ns B' = 0 /\
    Nr B' = hdr_N (Header_ msg) + 1 /\ Z.of_nat (size (MKSkipped B')) = hdr_N (Header_ msg).
Proof.
  intros Ha HB Hdr Hd Hpn Hn Hnew Hskip Hz Ho Hg Hdh.
  destruct (Advance_turn a b b' ck A B (Header_ msg) t t' z) as (B' & ck' & E & H1 & H2 & H3 & H4 & H5 & H6 & _); try done.
  exists B', ck'. split; [by eapply Decrypt_of_advance|done].
Qed.

(** ** Initialisation *)

(** The two results of one handshake, as [x3dh_agreement] gives them. *)
Record paired (ra rb : Result) (eph spk : KeyPair) : Prop := {
  pr_secret : SharedSecret rb = SharedSecret ra;
  pr_chain : InitialChainKey rb = InitialChainKey ra;
  pr_eph : LocalEphemeral ra = Some eph;
  pr_eph_ok : key_pair_ok (PrivateKey eph) (PublicKey eph);
  pr_remote : RemoteRatchetKey ra = Some (PublicKey spk);
  pr_spk : LocalRatchetKey rb = Some spk;
  pr_spk_ok : key_pair_ok (PrivateKey spk) (PublicKey spk);
  pr_msg : msg_EphemeralKey (InitialMessage rb) = PublicKey eph
}.

Lemma init_recv_inv P ck s :
  DHr s = Some P -> Nr s = 0 -> CKr s = ck -> MKSkipped s = ∅ -> recv_inv P ck ∅ s.
Proof.
  intros H1 H2 H3 H4. split; [done|rewrite H2; done|by rewrite H2| |].
  - intros n. rewrite H4, lookup_empty, decide_False; [done|]. rewrite H2. lia.
  - intros n Hn. by apply elem_of_empty in Hn.
Qed.

Lemma init_st_ok s P :
  DHr s = Some P -> Ns s = 0 -> Nr s = 0 -> PN s = 0 -> MKSkipped s = ∅ -> P ∈ SeenDH s -> st_ok s.
Proof.
  intros H1 H2 H3 H4 H5 H6. split; rewrite ?H2, ?H3, ?H4, ?H5; try done.
  - intros k [v Hv]. by rewrite lookup_empty in Hv.
  - intros d Hd. congruence.
Qed.

Lemma InitializeState_initiator ra t t' A :
  InitializeState ra true t = (t', Ok A) -> InitialChainKey ra <> None \/ LocalEphemeral ra <> None ->
  exists a P z, DHs A = Some a /\ RemoteRatchetKey ra = Some P /\ DHr A = Some P /\
    DH (PrivateKey a) P = Ok z /\ KDFRoot (SharedSecret ra) z = Ok (RK A, CKs A) /\
    CKr A = default zero32 (InitialChainKey ra) /\ SeenDH A = {[P]} /\ MKSkipped A = ∅ /\
    Ns A = 0 /\ Nr A = 0 /\ PN A = 0 /\
    match InitialChainKey ra with
    | Some _ => GenerateKeyPair t = (t', Ok a)
    | None => LocalEphemeral ra = Some a
    end.
Proof.
  intros E Hsome. unfold InitializeState, InitializeStateWithGenerator in E. cbn [default] in E.
  apply st_bind_ok in E as (? & ? & H1 & E). apply st_check_ok in H1 as [-> H1].
  destruct (RemoteRatchetKey ra) as [P|]; [|done].
  apply st_bind_ok in E as (t1 & [st0 a] & H2 & E).
  apply st_bind_ok in E as (? & z & H3 & E). apply st_lift_ok in H3 as [-> H3].
  apply st_bind_ok in E as (? & [rk cks] & H4 & E). apply st_lift_ok in H4 as [-> H4].
  apply st_ret_ok in E as [-> ->]. exists a, P, z.
  destruct (InitialChainKey ra) as [ck|].
  - apply st_bind_ok in H2 as (? & a' & Hg & H2). apply st_ret_ok in H2 as [-> [= -> ->]]. cbn in H4 |- *. split_and!; done.
  - destruct (LocalEphemeral ra) as [kp|]; [|by destruct Hsome].
    apply st_ret_ok in H2 as [-> [= -> ->]]. cbn in H4 |- *. split_and!; done.
Qed.

(** With an initial chain key (the post-quantum handshake) the initiator is
    ahead and the responder sends on the initial chain; without it the
    responder has already taken the ratchet step and is ahead. *)
Lemma init_pq `{!PrimitiveLaws _} ra rb eph spk ck t t' tb tb' A B :
  paired ra rb eph spk -> InitialChainKey ra = Some ck ->
  InitializeState ra true t = (t', Ok A) -> InitializeState rb false tb = (tb', Ok B) ->
  exists a ca, ahead a spk ca A B /\ recv_inv (PublicKey spk) ck ∅ A /\ CKs B = ck /\ Ns A = 0 /\ Ns B = 0 /\ PN A = 0 /\
    st_ok A /\ st_ok B /\ DHr B = Some (PublicKey eph) /\ SeenDH B = {[PublicKey eph]} /\ GenerateKeyPair t = (t', Ok a) /\
    Nr A = 0 /\ tb' = tb.
Proof.
  intros Hp Hck EA EB.
  destruct (InitializeState_initiator _ _ _ _ EA) as (a & P & z & HA & HP & HdA & Hz & Hk & HckA & HsA & HmA & HnsA & HnrA & HpnA & Hg);
    [left; congruence|].
  rewrite Hck in HckA, Hg. cbn in HckA. rewrite (pr_remote _ _ _ _ Hp) in HP. injection HP as <-.
  unfold InitializeState, InitializeStateWithGenerator in EB. cbn [default] in EB.
  apply st_bind_ok in EB as (? & ? & H1 & EB). apply st_check_ok in H1 as [-> _].
  rewrite (pr_spk _ _ _ _ Hp), (pr_chain _ _ _ _ Hp), Hck, (pr_msg _ _ _ _ Hp) in EB.
  rewrite (st_bind_run _ _ _ tb spk) in EB by done. apply st_ret_ok in EB as [-> ->].
  pose proof (GenerateKeyPair_ok _ _ _ Hg) as Hka.
  exists a, (CKs A). split_and!; try done.
  - split; cbn; try done; [by apply Hp| |by rewrite HnsA].
    exists z. rewrite (pr_secret _ _ _ _ Hp). split; [|done].
    by rewrite (DH_comm _ _ _ _ (pr_spk_ok _ _ _ _ Hp) Hka).
  - by apply init_recv_inv.
  - apply (init_st_ok _ (PublicKey spk)); try done. rewrite HsA. by apply elem_of_singleton.
  - apply (init_st_ok _ (PublicKey eph)); try done. cbn. by apply elem_of_singleton.
Qed.

Lemma init_legacy `{!PrimitiveLaws _} ra rb eph spk t t' tb tb' A B :
  paired ra rb eph spk -> InitialChainKey ra = None ->
  InitializeState ra true t = (t', Ok A) -> InitializeState rb false tb = (tb', Ok B) ->
  exists b cb, ahead b eph cb B A /\ recv_inv (PublicKey eph) (CKs A) ∅ B /\ Ns A = 0 /\ Ns B = 0 /\ PN B = 0 /\
    st_ok A /\ st_ok B /\ DHr A = Some (PublicKey spk) /\ SeenDH A = {[PublicKey spk]} /\
    Nr B = 0 /\ GenerateKeyPair tb = (tb', Ok b).
Proof.
  intros Hp Hck EA EB.
  destruct (InitializeState_initiator _ _ _ _ EA) as (a & P & z & HA & HP & HdA & Hz & Hk & HckA & HsA & HmA & HnsA & HnrA & HpnA & Hg);
    [right; rewrite (pr_eph _ _ _ _ Hp); done|].
  rewrite Hck, (pr_eph _ _ _ _ Hp) in Hg. injection Hg as <-. rewrite (pr_remote _ _ _ _ Hp) in HP. injection HP as <-.
  unfold InitializeState, InitializeStateWithGenerator in EB. cbn [default] in EB.
  apply st_bind_ok in EB as (? & ? & H1 & EB). apply st_check_ok in H1 as [-> _].
  rewrite (pr_spk _ _ _ _ Hp), (pr_chain _ _ _ _ Hp), Hck, (pr_msg _ _ _ _ Hp) in EB.
  rewrite (st_bind_run _ _ _ tb spk) in EB by done.
  apply st_bind_ok in EB as (? & z1 & Hz1 & EB). apply st_lift_ok in Hz1 as [-> Hz1].
  rewrite <- (DH_comm _ _ _ _ (pr_eph_ok _ _ _ _ Hp) (pr_spk_ok _ _ _ _ Hp)), Hz in Hz1. injection Hz1 as <-.
  rewrite (st_bind_lift _ _ _ (RK A, CKs A)) in EB by (cbn; by rewrite (pr_secret _ _ _ _ Hp)).
  apply st_bind_ok in EB as (t1 & b & Hgb & EB). pose proof (GenerateKeyPair_ok _ _ _ Hgb) as Hkb.
  apply st_bind_ok in EB as (? & z2 & Hz2 & EB). apply st_lift_ok in Hz2 as [-> Hz2].
  apply st_bind_ok in EB as (? & [rk cks] & Hr2 & EB). apply st_lift_ok in Hr2 as [-> Hr2].
  apply st_ret_ok in EB as [-> ->]. cbn in Hr2.
  exists b, cks. split_and!; try done.
  - split; cbn; try done; [by apply Hp|]. exists z2. split; [|done].
    by rewrite (DH_comm _ _ _ _ (pr_eph_ok _ _ _ _ Hp) Hkb).
  - by apply init_recv_inv.
  - apply (init_st_ok _ (PublicKey spk)); try done. rewrite HsA. by apply elem_of_singleton.
  - apply (init_st_ok _ (PublicKey eph)); try done. cbn. by apply elem_of_singleton.
Qed.

(** ** Reachable states *)

(** What a session does with its state; a failed operation leaves the state
    [Decrypt] and [Encrypt] leave. *)
Inductive ratchet_step : State -> State -> Prop :=
| step_encrypt p ad s : ratchet_step s (fst (Encrypt p ad s))
| step_decrypt msg ad s t :
    is_u32 (hdr_N (Header_ msg)) -> is_u32 (hdr_PN (Header_ msg)) ->
    ratchet_step s (fst (fst (Decrypt msg ad (s, t))))
| step_next s : ratchet_step s (fst (NextSendingMessageKey s))
| step_advance header s t s' t' mk :
    is_u32 (hdr_N header) -> is_u32 (hdr_PN header) ->
    AdvanceForHeader header (s, t) = ((s', t'), Ok mk) -> ratchet_step s s'.

Lemma NextSending_st_ok s : st_ok s -> st_ok (fst (NextSendingMessageKey s)).
Proof.
  intros Hs. unfold NextSendingMessageKey. unfold mbind at 1, st_bind at 1, st_get. destruct (DHs s) as [dhs|]; [|done].
  destruct (bool_decide (CKs s = zero32)); [done|]. rewrite st_bind_check by done.
  destruct (Ns s =? MaxUint32); [done|]. rewrite st_bind_check by done.
  destruct (KDFChain (CKs s)) as [ck mk]. rewrite (st_bind_run _ _ _ (set_send ck (u32 (Ns s + 1)) s) tt) by done.
  cbn [fst mret st_ret]. destruct Hs; split; cbn -[u32]; auto; apply u32_range.
Qed.

Lemma ratchet_step_ok s s' : ratchet_step s s' -> st_ok s -> st_ok s'.
Proof.
  intros Hst Hs. destruct Hst as [p ad s|msg ad s t Hn Hpn|s|header s t s' t' mk Hn Hpn E].
  - by apply Encrypt_st_ok.
  - by apply Decrypt_st_ok.
  - by apply NextSending_st_ok.
  - by apply AdvanceForHeader_ok in E as [? _].
Qed.

Lemma reachable_ok s s' : rtc ratchet_step s s' -> st_ok s -> st_ok s'.
Proof. induction 1 as [|s s1 s' Hst _ IH]; [done|]. intros Hs. by apply IH, (ratchet_step_ok s). Qed.

End chain.

Lemma InitializeState_st_ok `{Primitives} x3 isInitiator t t' s :
  InitializeState x3 isInitiator t = (t', Ok s) -> st_ok s.
Proof.
  unfold InitializeState, InitializeStateWithGenerator. cbn [default]. intros E.
  apply st_bind_ok in E as (? & ? & H1 & E). apply st_check_ok in H1 as [-> _]. destruct isInitiator.
  - destruct (RemoteRatchetKey x3) as [P|]; [|done].
    apply st_bind_ok in E as (t1 & [st0 a] & H2 & E).
    apply st_bind_ok in E as (? & z & H3 & E). apply st_bind_ok in E as (? & [rk cks] & H4 & E).
    apply st_ret_ok in E as [-> ->]. apply (init_st_ok _ P);
      (destruct (InitialChainKey x3), (LocalEphemeral x3); inv_steps; simplify_eq; cbn; try done; by apply elem_of_singleton).
  - apply st_bind_ok in E as (t1 & dhs & H2 & E). destruct (InitialChainKey x3).
    + apply st_ret_ok in E as [-> ->]. apply (init_st_ok _ (msg_EphemeralKey (InitialMessage x3))); try done. cbn. by apply elem_of_singleton.
    + apply st_bind_ok in E as (? & z & _ & E). apply st_bind_ok in E as (? & [rk ckr] & _ & E).
      apply st_bind_ok in E as (? & newDH & _ & E). apply st_bind_ok in E as (? & z' & _ & E).
      apply st_bind_ok in E as (? & [rk' cks] & _ & E). apply st_ret_ok in E as [-> ->].
      apply (init_st_ok _ (msg_EphemeralKey (InitialMessage x3))); try done. cbn. by apply elem_of_singleton.
Qed.

(** ** Properties *)

(** C16: one chain, any order. Let the receiver [B] follow the sending chain
    of [A] (its invariant [recv_inv]: it has consumed the numbers [got], all
    smaller than [A]'s next number). [A] encrypts the plaintexts [ps]; the
    messages reach [B] in any order, possibly repeated or never. As long as the
    keys [B] would have to keep fit under [MaxSkip], every message decrypts to
    its plaintext the first time it arrives and is reported as
    [ErrDuplicateMessage] every further time. *)
Theorem ratchet_any_order (P : Primitives) A A' B t a ck got ad ps ms order ds :
  PrimitiveLaws P ->
  DHs A = Some a -> is_u32 (Ns A) -> CKs A = chain_key ck (Z.to_nat (Ns A)) ->
  recv_inv (PublicKey a) ck got B -> Nr B <= Ns A ->
  Z.of_nat (size (MKSkipped B)) + (Ns A + len ps - Nr B) <= MaxSkip ->
  encrypt_all ad ps A = (A', Ok ms) -> Forall2 (fun i d => ms !! i = Some d) order ds ->
  exists B', deliver ad ds (B, t) = ((B', t), outcomes ps order ∅) /\ same_send B B'.
Proof.
  intros HP Ha Hns Hck Hi Hnr Hsz Henc Hord.
  destruct (encrypt_all_spec ad ps A A' ms a ck Henc Ha Hns Hck) as (Hmax & Hlen & _ & Hms).
  destruct (deliver_spec (PublicKey a) ck ps ms ad (Ns A) order ds B t got ∅) as (B' & got' & H1 & _ & H2 & _);
    [done|apply Hns|done|len_facts; lia|done| | |done|by exists B'].
  - intros i _. split; [|by intros ?%elem_of_empty]. intros Hg%(ri_got _ _ _ _ Hi). lia.
  - intros i m Hm. destruct (Hms i m Hm) as (p & Hp & Hh & Hz & Ho). exists p. rewrite Hh. split_and!; done.
Qed.

Definition demo_sender : State :=
  mkState (Some (toy_pair 3)) (Some zero32) zero32 (to_arr 32 [Byte.x07]) zero32 0 0 0 ∅ ∅.
Definition demo_receiver : State :=
  mkState (Some (toy_pair 4)) (Some (PublicKey (toy_pair 3))) zero32 zero32 (to_arr 32 [Byte.x07]) 0 0 0 ∅ {[PublicKey (toy_pair 3)]}.

Lemma ratchet_any_order_witness :
  let P := Toy.primitives in
  exists A' m0 m1 m2 B', encrypt_all [] [str "a"; str "b"; str "c"] demo_sender = (A', Ok [m0; m1; m2]) /\
    deliver [] [m2; m0; m0] (demo_receiver, []) =
      ((B', []), [Ok (str "c"); Ok (str "a"); Err ErrDuplicateMessage]).
Proof.
  intros P.
  destruct (run_ok (encrypt_all [] [str "a"; str "b"; str "c"] demo_sender)) as (A' & ms & E); [vm_compute; reflexivity|].
  assert (length ms = 3%nat) as Hl.
  { change ms with (get_ok [] (snd (A', Ok ms))). rewrite <- E. vm_compute. reflexivity. }
  destruct ms as [|m0 [|m1 [|m2 [|]]]]; try discriminate Hl.
  destruct (ratchet_any_order P demo_sender A' demo_receiver [] (toy_pair 3) (to_arr 32 [Byte.x07]) ∅ []
    [str "a"; str "b"; str "c"] [m0; m1; m2] [2%nat; 0%nat; 0%nat] [m2; m0; m0] Toy.laws) as (B' & HB & _).
  - reflexivity.
  - split; vm_compute; congruence.
  - reflexivity.
  - apply init_recv_inv; reflexivity.
  - vm_compute; congruence.
  - vm_compute; congruence.
  - exact E.
  - repeat constructor.
  - exists A', m0, m1, m2, B'. split; [exact E|exact HB].
Defined.

(** C15: a change of turns. [A] is ahead of [B]: it sends on a ratchet key that
    [B] has not seen, derived from [B]'s current one. Whatever message of [A]'s
    new chain arrives first, and in whatever order the others follow, [B]
    performs the ratchet step, decrypts each of them once, and afterwards is
    itself ahead of [A] with a fresh key pair [b'], so that the roles are
    exchanged and the argument repeats. Needed: the new public key of [A] was
    not used before, the keys to skip on the old and on the new chain fit
    under [MaxSkip], and [B]'s fresh key pair gives a valid secret. *)
Theorem ratchet_turn (P : Primitives) A A' B t t' a b b' ck z ad ps ms i order d ds :
  PrimitiveLaws P ->
  ahead a b ck A B -> st_ok A -> st_ok B -> DHr B <> None -> PublicKey a ∉ SeenDH B ->
  Ns A + len ps <= MaxSkip ->
  PN A <= Nr B \/ Z.of_nat (size (MKSkipped B)) + (PN A - Nr B) <= MaxSkip ->
  encrypt_all ad ps A = (A', Ok ms) -> Forall2 (fun i d => ms !! i = Some d) (i :: order) (d :: ds) ->
  GenerateKeyPair t = (t', Ok b') -> DH (PrivateKey b') (PublicKey a) = Ok z ->
  exists B' cb got, deliver ad (d :: ds) (B, t) = ((B', t'), outcomes ps (i :: order) ∅) /\
    ahead b' a cb B' A' /\ recv_inv (PublicKey a) ck got B' /\ DHr A' <> None.
Proof.
  intros HP Hah HA HB Hd Hnew Hmax Hskip Henc Hord Hg Hz.
  destruct (encrypt_all_spec ad ps A A' ms a ck Henc (ah_A _ _ _ _ _ Hah) (ok_ns _ HA) (ah_chain _ _ _ _ _ Hah))
    as (_ & Hlen & HA' & Hms).
  apply Forall2_cons_1 in Hord as [Hid Hord]. destruct (Hms i d Hid) as (p & Hp & Hh & Hz0 & Ho).
  pose proof (ok_ns _ HA) as Hns. unfold is_u32 in Hns.
  assert (i < length ps)%nat as Hil by by eapply lookup_lt_Some.
  set (n := Ns A + Z.of_nat i) in *.
  assert (Z.to_nat n = Z.to_nat (Ns A) + i)%nat as En by (unfold n; lia).
  assert (0 <= n < Ns A + len ps) as Hn by (unfold n, len; lia).
  destruct (Decrypt_turn a b b' ck A B d ad p t t' z) as (B1 & cb & E1 & Hah1 & Hri1 & Hck1 & Hns1 & Hnr1 & Hsz1);
    rewrite ?Hh; cbn [hdr_DH hdr_PN hdr_N]; rewrite ?En; try done; [apply HA|lia|].
  rewrite Hh in Hri1, Hnr1, Hsz1. cbn [hdr_N] in Hri1, Hnr1, Hsz1. fold n in Hri1, Hnr1, Hsz1.
  destruct (deliver_spec (PublicKey a) ck ps ms ad (Ns A) order ds B1 t' {[n]} {[i]}) as (B' & got' & E2 & Hri & Hss & _);
    [done|lia|unfold MaxSkip, MaxUint32 in *; lia|lia|unfold MaxSkip in *; lia| | |done|].
  - intros j _. rewrite !elem_of_singleton. unfold n. lia.
  - intros j m Hm. destruct (Hms j m Hm) as (q & Hq & Hhq & Hzq & Hoq). exists q. rewrite Hhq. by split_and!.
  - exists B', cb, got'. split_and!.
    + cbn [deliver outcomes]. rewrite E1, E2, decide_False by apply not_elem_of_empty.
      by rewrite Hp, union_empty_r_L.
    + destruct Hss as (S1 & S2 & S3 & S4 & S5 & _). destruct Hah1 as [G1 G2 G3 G4 G5 G6 G7].
      split; [congruence|by rewrite HA'|done|done|by rewrite S2|rewrite S3, HA'; exact G6|by rewrite S4, S5].
    + done.
    + rewrite HA'. cbn. by rewrite (ah_dhr _ _ _ _ _ Hah).
Qed.

(** The results of a post-quantum handshake between two parties. *)
Definition demo_message : X3dh.Message :=
  X3dh.mkMessage (ikp_PublicKey (demo_identity 7)) (PublicKey (toy_pair 90)) None 9 (Some 5) [Byte.x08] [].
Definition demo_result (initiator : bool) (chain : option key32) : Result :=
  mkResult (to_arr 32 [Byte.x05]) chain None [] (ikp_PublicKey (demo_identity 40)) demo_message
    (if initiator then Some (toy_pair 90) else None) (if initiator then None else Some (toy_pair 41))
    (if initiator then Some (PublicKey (toy_pair 41)) else None).

Lemma demo_paired chain : @paired Toy.primitives (demo_result true chain) (demo_result false chain) (toy_pair 90) (toy_pair 41).
Proof. split; reflexivity. Qed.

Lemma ratchet_turn_witness :
  let P := Toy.primitives in let ck := Some (to_arr 32 [Byte.x06]) in
  exists tA A tB B A' m0 m1 B' t',
    InitializeState (demo_result true ck) true (z2b <$> seqZ 1 32) = (tA, Ok A) /\
    InitializeState (demo_result false ck) false [] = (tB, Ok B) /\
    encrypt_all [] [str "hi"; str "there"] A = (A', Ok [m0; m1]) /\
    deliver [] [m1; m0; m1] (B, z2b <$> seqZ 130 32) =
      ((B', t'), [Ok (str "there"); Ok (str "hi"); Err ErrDuplicateMessage]).
Proof.
  intros P ck. pose proof Toy.laws as HL. set (d := empty_state zero32).
  epose proof (run_get_ok d (InitializeState (demo_result true ck) true (z2b <$> seqZ 1 32)) _) as EA.
  epose proof (run_get_ok d (InitializeState (demo_result false ck) false []) _) as EB.
  destruct (init_pq _ _ _ _ _ _ _ _ _ _ _ (demo_paired ck) eq_refl EA EB)
    as (a & ca & Hah & Hri & Hck & HnA & HnB & HpA & HokA & HokB & HdB & HseenB & Hgen & _).
  epose proof (run_get_ok [] (encrypt_all [] [str "hi"; str "there"]
    (get_ok d (snd (InitializeState (demo_result true ck) true (z2b <$> seqZ 1 32))))) _) as E.
  assert (length (get_ok [] (snd (encrypt_all [] [str "hi"; str "there"]
    (get_ok d (snd (InitializeState (demo_result true ck) true (z2b <$> seqZ 1 32))))))) = 2%nat) as Hl by (vm_compute; reflexivity).
  revert EA EB HnA HnB HpA HokA HokB HdB HseenB Hah E Hl.
  generalize (get_ok [] (snd (encrypt_all [] [str "hi"; str "there"]
    (get_ok d (snd (InitializeState (demo_result true ck) true (z2b <$> seqZ 1 32))))))) as ms.
  generalize (get_ok d (snd (InitializeState (demo_result true ck) true (z2b <$> seqZ 1 32)))) as A.
  generalize (get_ok d (snd (InitializeState (demo_result false ck) false []))) as B.
  intros B A ms EA EB HnA HnB HpA HokA HokB HdB HseenB Hah E Hl.
  destruct ms as [|m0 [|m1 [|]]]; try discriminate Hl.
  destruct (run_ok (GenerateKeyPair (z2b <$> seqZ 130 32))) as (t' & b' & Eg); [vm_compute; reflexivity|].
  assert (exists z, DH (PrivateKey b') (PublicKey a) = Ok z /\ PublicKey a ∉ SeenDH B) as (z & Hz & Hnew).
  { vm_compute in Eg, Hgen. injection Eg as _ <-. injection Hgen as <-. rewrite HseenB.
    eexists. split; [vm_compute; reflexivity|]. rewrite elem_of_singleton. vm_compute. discriminate. }
  destruct (ratchet_turn P A (fst (encrypt_all [] [str "hi"; str "there"] A)) B (z2b <$> seqZ 130 32) t' a (toy_pair 41) b' ca z [] [str "hi"; str "there"] [m0; m1]
    1 [0%nat; 1%nat] m1 [m0; m1] Toy.laws Hah HokA HokB) as (B' & cb & got & HB & _); try eassumption.
  - rewrite HdB. discriminate.
  - rewrite HnA. vm_compute. discriminate.
  - left. rewrite HpA. apply HokB.
  - repeat constructor.
  - eexists _, A, _, B, _, m0, m1, B', t'. split; [exact EA|]. split; [exact EB|]. split; [exact E|exact HB].
  Unshelve. all: vm_compute; reflexivity.
Defined.

(** C17: the two ends of a session start in step. From the two results of one
    handshake, [InitializeState] leaves the parties in the relation the
    previous two properties are about: with an initial chain key (PQXDH) the
    initiator is ahead of the responder and already follows the responder's
    initial chain; without one (X3DH) the responder is ahead of the initiator
    and already follows the initiator's chain. *)
Theorem ratchet_init (P : Primitives) ra rb eph spk t t' tb tb' A B :
  PrimitiveLaws P -> paired ra rb eph spk ->
  InitializeState ra true t = (t', Ok A) -> InitializeState rb false tb = (tb', Ok B) ->
  st_ok A /\ st_ok B /\
  match InitialChainKey ra with
  | Some ck => exists a ca, ahead a spk ca A B /\ recv_inv (PublicKey spk) ck ∅ A /\ CKs B = ck
  | None => exists b cb, ahead b eph cb B A /\ recv_inv (PublicKey eph) (CKs A) ∅ B
  end.
Proof.
  intros HP Hp EA EB. destruct (InitialChainKey ra) as [ck|] eqn:Hck.
  - destruct (init_pq _ _ _ _ _ _ _ _ _ _ _ Hp Hck EA EB) as (a & ca & H1 & H2 & H3 & _ & _ & _ & H4 & H5 & _).
    split_and!; [done|done|by exists a, ca].
  - destruct (init_legacy _ _ _ _ _ _ _ _ _ _ Hp Hck EA EB) as (b & cb & H1 & H2 & _ & _ & _ & H4 & H5 & _).
    split_and!; [done|done|by exists b, cb].
Qed.

Lemma ratchet_init_witness :
  let P := Toy.primitives in
  exists tA A tB B, InitializeState (demo_result true None) true [] = (tA, Ok A) /\
    InitializeState (demo_result false None) false (z2b <$> seqZ 1 32) = (tB, Ok B) /\
    exists b cb, ahead b (toy_pair 90) cb B A.
Proof.
  intros P.
  destruct (run_ok (InitializeState (demo_result true None) true [])) as (tA & A & EA); [vm_compute; reflexivity|].
  destruct (run_ok (InitializeState (demo_result false None) false (z2b <$> seqZ 1 32))) as (tB & B & EB); [vm_compute; reflexivity|].
  destruct (ratchet_init P _ _ _ _ _ _ _ _ A B Toy.laws (demo_paired None) EA EB) as (_ & _ & b & cb & H1 & _).
  exists tA, A, tB, B. split; [exact EA|]. split; [exact EB|]. exists b, cb. exact H1.
Defined.

(** C26: [Decrypt] is atomic. On every input it does what [AdvanceForHeader]
    followed by the authenticated decryption does, on a copy of the state: the
    copy replaces the state when the plaintext is returned, and when any error
    is returned (a duplicate, too many skipped keys, a counter overflow, a bad
    point, a failed tag) the state is exactly the one before the call. *)
Theorem decrypt_atomic (P : Primitives) msg ad s t :
  Ratchet.Decrypt msg ad (s, t) =
  (let '((s1, t1), r) := AdvanceForHeader (Header_ msg) (s, t) in
   match (mk ← r; decryptWithMessageKey mk msg ad) with
   | Ok p => ((s1, t1), Ok p)
   | Err e => ((s, t1), Err e)
   | Panic => ((s, t1), Panic)
   end) /\
  (forall s' t' e, Decrypt msg ad (s, t) = ((s', t'), Err e) -> s' = s).
Proof.
  split; [apply Decrypt_eq|]. intros s' t' e. rewrite Decrypt_eq.
  destruct (AdvanceForHeader (Header_ msg) (s, t)) as [[s1 t1] r]. destruct (mk ← r; _); intros E; by injection E.
Qed.

(** C27: the state invariant. Every state that a session reaches from
    [InitializeState] by encrypting, decrypting (successfully or not), taking
    sending keys and advancing for received headers keeps its counters in 32
    bits, holds at most [MaxSkip] skipped keys, all of them for the peer's
    current ratchet key and for message numbers it has passed, and has the
    peer's current key marked as seen. *)
Theorem ratchet_invariant (P : Primitives) x3 isInitiator t t' s0 s :
  InitializeState x3 isInitiator t = (t', Ok s0) -> rtc ratchet_step s0 s ->
  is_u32 (Ns s) /\ is_u32 (Nr s) /\ is_u32 (PN s) /\ Z.of_nat (size (MKSkipped s)) <= MaxSkip /\
  (forall k mk, MKSkipped s !! k = Some mk -> DHr s = Some (sk_PublicKey k) /\ 0 <= sk_N k < Nr s) /\
  (forall d, DHr s = Some d -> d ∈ SeenDH s).
Proof.
  intros E Hr. apply InitializeState_st_ok in E. destruct (reachable_ok _ _ Hr E) as [H1 H2 H3 H4 H5 H6].
  split_and!; try done. intros k mk Hk. by apply H5.
Qed.

Lemma ratchet_invariant_witness :
  let P := Toy.primitives in
  exists tA A, InitializeState (demo_result true None) true [] = (tA, Ok A) /\
    Z.of_nat (size (MKSkipped (fst (Encrypt [] [] A)))) <= MaxSkip.
Proof.
  intros P.
  destruct (run_ok (InitializeState (demo_result true None) true [])) as (tA & A & EA); [vm_compute; reflexivity|].
  exists tA, A. split; [exact EA|].
  destruct (ratchet_invariant P (demo_result true None) true [] tA A (fst (Encrypt [] [] A)) EA) as (_ & _ & _ & H4 & _);
    [apply rtc_once, step_encrypt|exact H4].
Defined.

(** C37: what the receiver refuses. While it follows a chain, a number it has
    consumed is [ErrDuplicateMessage], and a number so far ahead that more
    than [MaxSkip] keys would be kept is [ErrMaxSkipExceeded]; neither changes
    the state. *)
Theorem ratchet_refuses (P : Primitives) pub ck got s t msg ad :
  recv_inv pub ck got s -> hdr_DH (Header_ msg) = pub ->
  (hdr_N (Header_ msg) ∈ got -> Decrypt msg ad (s, t) = ((s, t), Err ErrDuplicateMessage)) /\
  (Nr s < hdr_N (Header_ msg) <= MaxUint32 ->
   MaxSkip < Z.of_nat (size (MKSkipped s)) + (hdr_N (Header_ msg) - Nr s) ->
   Decrypt msg ad (s, t) = ((s, t), Err ErrMaxSkipExceeded)).
Proof.
  intros Hi Hd. split; [by eapply Decrypt_duplicate|by eapply Decrypt_exceeded].
Qed.

Lemma ratchet_refuses_witness :
  let P := Toy.primitives in
  Decrypt (mkMessage (mkHeader (PublicKey (toy_pair 3)) 0 1001) []) [] (demo_receiver, []) =
    ((demo_receiver, []), Err ErrMaxSkipExceeded).
Proof.
  intros P. apply (ratchet_refuses P (PublicKey (toy_pair 3)) (to_arr 32 [Byte.x07]) ∅).
  - apply init_recv_inv; reflexivity.
  - reflexivity.
  - split; [reflexivity|vm_compute; discriminate].
  - reflexivity.
Defined.
