(* ===== verification/RatchetHeap.v ===== *)
(** * The Double Ratchet on a heap

    [Ratchet] models a [*State] by its value. In the code the fields [DHs] and
    [DHr] are pointers and [MKSkipped] and [SeenDH] are maps, which are updated in
    place and could be shared: [Decrypt] relies on [Clone] to work on a copy and
    writes [*s = *next] at the end. This file has the methods of ratchet/ on a heap
    of Go objects; [RatchetHeapProofs] shows that they refine those of [Ratchet].
    An access through a nil pointer panics, as does one that finds an object of
    another kind, which Go's types exclude. *)

From Stdlib Require Import ZArith Lia.
From Stdlib Require Import Strings.Byte.
From stdpp Require Import base gmap strings list list_numbers vector.
From S2P Require Import Prelude Crypto Keys X3dh Ratchet.
Import Crypto Keys X3dh Ratchet.

Module RatchetHeap.

Abbreviation ptr := positive.

(** *** Objects *)

Record HState : Type := mkHState {
  hDHs : option ptr;
  hDHr : option ptr;
  hRK : key32;
  hCKs : key32;
  hCKr : key32;
  hNs : Z;
  hNr : Z;
  hPN : Z;
  hMKSkipped : option ptr;
  hSeenDH : option ptr
}.

Inductive obj : Type :=
  | OState (s : HState)
  | OPair (k : KeyPair)
  | OKey (k : key32)
  | OSkipped (m : gmap Ratchet.SkippedKey key32)
  | OSeen (m : gset key32).

Abbreviation heap := (gmap ptr obj).

Definition hset_DHs (v : option ptr) (s : HState) : HState :=
  mkHState v (hDHr s) (hRK s) (hCKs s) (hCKr s) (hNs s) (hNr s) (hPN s) (hMKSkipped s) (hSeenDH s).
Definition hset_DHr (v : option ptr) (s : HState) : HState :=
  mkHState (hDHs s) v (hRK s) (hCKs s) (hCKr s) (hNs s) (hNr s) (hPN s) (hMKSkipped s) (hSeenDH s).
Definition hset_RK (v : key32) (s : HState) : HState :=
  mkHState (hDHs s) (hDHr s) v (hCKs s) (hCKr s) (hNs s) (hNr s) (hPN s) (hMKSkipped s) (hSeenDH s).
Definition hset_CKs (v : key32) (s : HState) : HState :=
  mkHState (hDHs s) (hDHr s) (hRK s) v (hCKr s) (hNs s) (hNr s) (hPN s) (hMKSkipped s) (hSeenDH s).
Definition hset_CKr (v : key32) (s : HState) : HState :=
  mkHState (hDHs s) (hDHr s) (hRK s) (hCKs s) v (hNs s) (hNr s) (hPN s) (hMKSkipped s) (hSeenDH s).
Definition hset_Ns (v : Z) (s : HState) : HState :=
  mkHState (hDHs s) (hDHr s) (hRK s) (hCKs s) (hCKr s) v (hNr s) (hPN s) (hMKSkipped s) (hSeenDH s).
Definition hset_Nr (v : Z) (s : HState) : HState :=
  mkHState (hDHs s) (hDHr s) (hRK s) (hCKs s) (hCKr s) (hNs s) v (hPN s) (hMKSkipped s) (hSeenDH s).
Definition hset_PN (v : Z) (s : HState) : HState :=
  mkHState (hDHs s) (hDHr s) (hRK s) (hCKs s) (hCKr s) (hNs s) (hNr s) v (hMKSkipped s) (hSeenDH s).
Definition hset_MKSkipped (v : option ptr) (s : HState) : HState :=
  mkHState (hDHs s) (hDHr s) (hRK s) (hCKs s) (hCKr s) (hNs s) (hNr s) (hPN s) v (hSeenDH s).
Definition hset_SeenDH (v : option ptr) (s : HState) : HState :=
  mkHState (hDHs s) (hDHr s) (hRK s) (hCKs s) (hCKr s) (hNs s) (hNr s) (hPN s) (hMKSkipped s) v.

(** *** Accesses *)

Definition new (o : obj) : ST heap ptr := fun h => let p := fresh (dom h) in (<[p := o]> h, Ok p).
Definition store (p : ptr) (o : obj) : ST heap unit := st_modify <[p := o]>.

Definition get_state (s : ptr) : ST heap HState := fun h =>
  match h !! s with Some (OState st) => (h, Ok st) | _ => (h, Panic) end.

(** An assignment to a field of [*s]. *)
Definition set_state (s : ptr) (f : HState -> HState) : ST heap unit :=
  st ← get_state s;
  store s (OState (f st)).

(** [s.DHr], with the key it points to; likewise [s.DHs]. *)
Definition load_key (p : option ptr) : ST heap (option key32) := fun h =>
  match p with
  | None => (h, Ok None)
  | Some p => match h !! p with Some (OKey k) => (h, Ok (Some k)) | _ => (h, Panic) end
  end.
Definition load_pair (p : option ptr) : ST heap (option KeyPair) := fun h =>
  match p with
  | None => (h, Ok None)
  | Some p => match h !! p with Some (OPair k) => (h, Ok (Some k)) | _ => (h, Panic) end
  end.
(** A nil map reads as an empty one. *)
Definition load_skipped (p : option ptr) : ST heap (gmap Ratchet.SkippedKey key32) := fun h =>
  match p with
  | None => (h, Ok ∅)
  | Some p => match h !! p with Some (OSkipped m) => (h, Ok m) | _ => (h, Panic) end
  end.
Definition load_seen (p : option ptr) : ST heap (gset key32) := fun h =>
  match p with
  | None => (h, Ok ∅)
  | Some p => match h !! p with Some (OSeen m) => (h, Ok m) | _ => (h, Panic) end
  end.

Definition get_DHr (s : ptr) : ST heap (option key32) := st ← get_state s; load_key (hDHr st).
Definition get_DHs (s : ptr) : ST heap (option KeyPair) := st ← get_state s; load_pair (hDHs st).
Definition get_skipped (s : ptr) : ST heap (gmap Ratchet.SkippedKey key32) := st ← get_state s; load_skipped (hMKSkipped st).
Definition get_seen (s : ptr) : ST heap (gset key32) := st ← get_state s; load_seen (hSeenDH st).

(** [s.MKSkipped[k] = v] and [s.SeenDH[k] = struct{}{}] panic on a nil map. *)
Definition put_skipped (s : ptr) (k : Ratchet.SkippedKey) (v : key32) : ST heap unit :=
  st ← get_state s;
  match hMKSkipped st with
  | None => st_lift Panic
  | Some l => m ← load_skipped (Some l); store l (OSkipped (<[k := v]> m))
  end.
Definition put_seen (s : ptr) (k : key32) : ST heap unit :=
  st ← get_state s;
  match hSeenDH st with
  | None => st_lift Panic
  | Some l => m ← load_seen (Some l); store l (OSeen ({[k]} ∪ m))
  end.
(** Deleting from a nil map does nothing. *)
Definition alter_skipped (s : ptr) (f : gmap Ratchet.SkippedKey key32 -> gmap Ratchet.SkippedKey key32) : ST heap unit :=
  st ← get_state s;
  match hMKSkipped st with
  | None => mret tt
  | Some l => m ← load_skipped (Some l); store l (OSkipped (f m))
  end.

Section methods.
Context `{Primitives}.

(** *** skipped.go *)

Fixpoint skip_loop (fuel : nat) (s : ptr) (until : Z) : ST heap unit :=
  st ← get_state s;
  if hNr st <? until then
    match fuel with
    | O => st_err (ErrText "out of fuel")
    | S fuel =>
        _ ← st_check (hNr st =? MaxUint32) ErrCounterOverflow;
        m ← get_skipped s;
        _ ← st_check (Z.of_nat (size m) >=? Ratchet.MaxSkip) ErrMaxSkipExceeded;
        dhr ← get_DHr s;
        match dhr with
        | None => st_err (ErrText "ratchet: missing DHr while skipping")
        | Some dhr =>
            let '(newCKr, mk) := Ratchet.KDFChain (hCKr st) in
            _ ← set_state s (hset_CKr newCKr);
            _ ← put_skipped s (Ratchet.mkSkippedKey dhr (hNr st)) mk;
            _ ← set_state s (hset_Nr (u32 (hNr st + 1)));
            skip_loop fuel s until
        end
    end
  else mret tt.

Definition skipMessageKeys (s : ptr) (until : Z) : ST heap unit :=
  st ← get_state s;
  skip_loop (Z.to_nat (until - hNr st)) s until.

Definition cleanupSkippedKeys (s : ptr) (currentDH : key32) : ST heap unit :=
  alter_skipped s (filter (fun kv => Ratchet.sk_PublicKey kv.1 = currentDH)).

(** *** dh_ratchet.go *)

(** [if s.SeenDH == nil { s.SeenDH = make(...) }] *)
Definition ensure_seen (s : ptr) : ST heap unit :=
  st ← get_state s;
  match hSeenDH st with
  | None => l ← new (OSeen ∅); set_state s (hset_SeenDH (Some l))
  | Some _ => mret tt
  end.
Definition ensure_skipped (s : ptr) : ST heap unit :=
  st ← get_state s;
  match hMKSkipped st with
  | None => l ← new (OSkipped ∅); set_state s (hset_MKSkipped (Some l))
  | Some _ => mret tt
  end.

(** [if s.DHr != nil { s.SeenDH[*s.DHr] = ... }; s.SeenDH[theirPublicKey] = ...] *)
Definition mark_seen (s : ptr) (theirPublicKey : key32) : ST heap unit :=
  _ ← ensure_seen s;
  dhr ← get_DHr s;
  _ ← match dhr with Some d => put_seen s d | None => mret tt end;
  put_seen s theirPublicKey.

Definition reset_counters (s : ptr) : ST heap unit :=
  st ← get_state s;
  _ ← set_state s (hset_PN (hNs st));
  _ ← set_state s (hset_Ns 0);
  set_state s (hset_Nr 0).

(** [newRoot, ck, err := KDFRoot(s.RK, dhOut); ...; s.RK = newRoot; s.CKr = ck] *)
Definition root_step (s : ptr) (dhOut : key32) (set_ck : key32 -> HState -> HState) : ST heap unit :=
  st ← get_state s;
  '(newRoot, ck) ← st_lift (Ratchet.KDFRoot (hRK st) dhOut);
  _ ← set_state s (hset_RK newRoot);
  set_state s (set_ck ck).

Definition DHRatchet (s : ptr) (theirPublicKey : key32) : ST (heap * tape) unit :=
  dhs ← st_fst (get_DHs s);
  match dhs with
  | None => st_err (ErrText "dh ratchet: missing local dh key")
  | Some dhs =>
      _ ← st_fst (mark_seen s theirPublicKey);
      _ ← st_fst (reset_counters s);
      dhOut ← st_lift (DH (PrivateKey dhs) theirPublicKey);
      _ ← st_fst (root_step s dhOut hset_CKr);
      newDH ← st_snd GenerateKeyPair;
      p ← st_fst (new (OPair newDH));
      _ ← st_fst (set_state s (hset_DHs (Some p)));
      dhOutSend ← st_lift (DH (PrivateKey newDH) theirPublicKey);
      _ ← st_fst (root_step s dhOutSend hset_CKs);
      p ← st_fst (new (OKey theirPublicKey));
      _ ← st_fst (set_state s (hset_DHr (Some p)));
      _ ← st_fst (ensure_skipped s);
      st_fst (cleanupSkippedKeys s theirPublicKey)
  end.

(** *** state.go *)

(** A copy of the pair or key behind a pointer that may be nil. *)
Definition copy_pair (p : option ptr) : ST heap (option ptr) :=
  k ← load_pair p;
  match k with None => mret None | Some k => q ← new (OPair k); mret (Some q) end.
Definition copy_key (p : option ptr) : ST heap (option ptr) :=
  k ← load_key p;
  match k with None => mret None | Some k => q ← new (OKey k); mret (Some q) end.

Definition Clone (s : ptr) : ST heap ptr :=
  clone ← get_state s;
  dhs ← copy_pair (hDHs clone);
  dhr ← copy_key (hDHr clone);
  m ← load_skipped (hMKSkipped clone);
  skipped ← new (OSkipped m);
  m ← load_seen (hSeenDH clone);
  seen ← new (OSeen m);
  new (OState (hset_SeenDH (Some seen) (hset_MKSkipped (Some skipped) (hset_DHr dhr (hset_DHs dhs clone))))).

(** The fields of [x3] are copied, except for the pointer [x3.RemoteRatchetKey],
    which [state.DHr] then shares. *)
Definition initialize_initiator (x3 : Result) (remote : option ptr) (generateDH : ST tape KeyPair) (s : ptr) : ST (heap * tape) unit :=
  dhr ← st_fst (load_key remote);
  match dhr with
  | None => st_err (ErrText "ratchet: initiator missing remote ratchet key")
  | Some dhr =>
      _ ← st_fst (set_state s (hset_DHr remote));
      _ ← st_fst (put_seen s dhr);
      dhs ←
        match InitialChainKey x3, LocalEphemeral x3 with
        | Some ck, _ => _ ← st_fst (set_state s (hset_CKr ck)); st_snd generateDH
        | None, Some kp => mret kp
        | None, None => st_snd generateDH
        end;
      p ← st_fst (new (OPair dhs));
      _ ← st_fst (set_state s (hset_DHs (Some p)));
      dhOut ← st_lift (DH (PrivateKey dhs) dhr);
      st_fst (root_step s dhOut hset_CKs)
  end.

Definition initialize_responder (x3 : Result) (generateDH : ST tape KeyPair) (s : ptr) : ST (heap * tape) unit :=
  let remoteDH := msg_EphemeralKey (InitialMessage x3) in
  p ← st_fst (new (OKey remoteDH));
  _ ← st_fst (set_state s (hset_DHr (Some p)));
  _ ← st_fst (put_seen s remoteDH);
  dhs ← match LocalRatchetKey x3 with Some kp => mret kp | None => st_snd generateDH end;
  p ← st_fst (new (OPair dhs));
  _ ← st_fst (set_state s (hset_DHs (Some p)));
  match InitialChainKey x3 with
  | Some ck => st_fst (set_state s (hset_CKs ck))
  | None =>
      dhRecv ← st_lift (DH (PrivateKey dhs) remoteDH);
      _ ← st_fst (root_step s dhRecv hset_CKr);
      newDH ← st_snd generateDH;
      dhSend ← st_lift (DH (PrivateKey newDH) remoteDH);
      _ ← st_fst (root_step s dhSend hset_CKs);
      p ← st_fst (new (OPair newDH));
      st_fst (set_state s (hset_DHs (Some p)))
  end.

Definition InitializeState (x3 : Result) (remote : option ptr) (isInitiator : bool) : ST (heap * tape) ptr :=
  _ ← st_check (bool_decide (SharedSecret x3 = zero32)) (ErrText "ratchet: shared secret must be set");
  skipped ← st_fst (new (OSkipped ∅));
  seen ← st_fst (new (OSeen ∅));
  s ← st_fst (new (OState (mkHState None None (SharedSecret x3) zero32 zero32 0 0 0 (Some skipped) (Some seen))));
  _ ← (if isInitiator then initialize_initiator x3 remote GenerateKeyPair s else initialize_responder x3 GenerateKeyPair s);
  mret s.

Definition RatchetOnSend (s : ptr) : ST (heap * tape) unit :=
  dhr ← st_fst (get_DHr s);
  dhs ← st_fst (get_DHs s);
  match dhr, dhs with
  | Some dhr, Some _ => DHRatchet s dhr
  | _, _ => mret tt
  end.

(** *** message.go and wire.go *)

Definition NextSendingMessageKey (s : ptr) : ST heap (Ratchet.Header * key32) :=
  dhs ← get_DHs s;
  match dhs with
  | None => st_err (ErrText "encrypt: missing sending DH key")
  | Some dhs =>
      st ← get_state s;
      _ ← st_check (bool_decide (hCKs st = zero32)) (ErrText "encrypt: missing sending chain key");
      _ ← st_check (hNs st =? MaxUint32) ErrCounterOverflow;
      let header := Ratchet.mkHeader (PublicKey dhs) (hPN st) (hNs st) in
      let '(newCKs, mk) := Ratchet.KDFChain (hCKs st) in
      _ ← set_state s (hset_CKs newCKs);
      _ ← set_state s (hset_Ns (u32 (hNs st + 1)));
      mret (header, mk)
  end.

(** The first part is that of [NextSendingMessageKey], in both methods of the code. *)
Definition Encrypt (s : ptr) (plaintext associatedData : bytes) : ST heap Ratchet.Message :=
  '(header, mk) ← NextSendingMessageKey s;
  '(encKey, authKey, iv) ← st_lift (Ratchet.DeriveMessageKeys mk);
  nonce ← st_lift (slice iv 0 12);
  let ad := Ratchet.messageAD associatedData header in
  ciphertext ← st_lift (AESGCMEncryptWithNonce encKey plaintext nonce ad);
  mret (Ratchet.mkMessage header (nonce ++ ciphertext)).

(** [s.DHr != nil && header.DH == *s.DHr] *)
Definition current_dh (dhr : option key32) (dh : key32) : bool :=
  match dhr with Some d => bool_decide (d = dh) | None => false end.

(** From the check for duplicates to the message key: the same lines in [Decrypt],
    on the clone, and in [AdvanceForHeader]. *)
Definition receive_key (s : ptr) (header : Ratchet.Header) : ST (heap * tape) key32 :=
  dhr ← st_fst (get_DHr s);
  st ← st_fst (get_state s);
  _ ← st_check (current_dh dhr (Ratchet.hdr_DH header) && (Ratchet.hdr_N header <? hNr st)) ErrDuplicateMessage;
  seen ← st_fst (get_seen s);
  _ ← st_check (negb (is_nil dhr) && negb (current_dh dhr (Ratchet.hdr_DH header)) &&
                bool_decide (Ratchet.hdr_DH header ∈ seen)) ErrDuplicateMessage;
  _ ← (if negb (current_dh dhr (Ratchet.hdr_DH header)) then
         _ ← st_fst (skipMessageKeys s (Ratchet.hdr_PN header));
         DHRatchet s (Ratchet.hdr_DH header)
       else mret tt);
  _ ← st_fst (skipMessageKeys s (Ratchet.hdr_N header));
  st ← st_fst (get_state s);
  _ ← st_check (bool_decide (hCKr st = zero32)) (ErrText "decrypt: missing receiving chain key");
  _ ← st_check (hNr st =? MaxUint32) ErrCounterOverflow;
  let '(newCKr, mk) := Ratchet.KDFChain (hCKr st) in
  _ ← st_fst (set_state s (hset_CKr newCKr));
  _ ← st_fst (set_state s (hset_Nr (u32 (hNr st + 1))));
  mret mk.

Definition AdvanceForHeader (s : ptr) (header : Ratchet.Header) : ST (heap * tape) key32 :=
  m ← st_fst (get_skipped s);
  match m !! Ratchet.skippedKeyForHeader header with
  | Some mk =>
      _ ← st_fst (alter_skipped s (delete (Ratchet.skippedKeyForHeader header)));
      mret mk
  | None => receive_key s header
  end.

Definition Decrypt (s : ptr) (msg : Ratchet.Message) (associatedData : bytes) : ST (heap * tape) bytes :=
  let key := Ratchet.skippedKeyForHeader (Ratchet.Header_ msg) in
  m ← st_fst (get_skipped s);
  match m !! key with
  | Some mk =>
      plaintext ← st_lift (Ratchet.decryptWithMessageKey mk msg associatedData);
      _ ← st_fst (alter_skipped s (delete key));
      mret plaintext
  | None =>
      next ← st_fst (Clone s);
      mk ← receive_key next (Ratchet.Header_ msg);
      plaintext ← st_lift (Ratchet.decryptWithMessageKey mk msg associatedData);
      st ← st_fst (get_state next);
      _ ← st_fst (set_state s (fun _ => st));
      mret plaintext
  end.

End methods.
End RatchetHeap.
Import RatchetHeap.
