(* ===== verification/RatchetHeapProofs.v ===== *)
(** * The Double Ratchet on a heap: states are values

    The methods of [RatchetHeap] refine those of [Ratchet]: states of a program
    never share an object that is written to, so that values describe them. *)

From Stdlib Require Import ZArith Lia.
From Stdlib Require Import Strings.Byte.
From stdpp Require Import base gmap strings list list_numbers vector.
From S2P Require Import Prelude Crypto Keys X3dh Ratchet RatchetProofs RatchetHeap.
Import Crypto Keys X3dh Ratchet RatchetHeap.

(** ** What a state on the heap stands for *)

Definition pair_at (h : heap) (p : option ptr) (v : option KeyPair) : Prop :=
  match p, v with None, None => True | Some q, Some k => h !! q = Some (OPair k) | _, _ => False end.
Definition key_at (h : heap) (p : option ptr) (v : option key32) : Prop :=
  match p, v with None, None => True | Some q, Some k => h !! q = Some (OKey k) | _, _ => False end.

(** The fields that are not pointers. *)
Definition scalars (st : HState) (s : State) : Prop :=
  hRK st = RK s /\ hCKs st = CKs s /\ hCKr st = CKr s /\ hNs st = Ns s /\ hNr st = Nr s /\ hPN st = PN s.

(** The object [st] stands for the value [s]; its maps are not nil. *)
Record stands_for (h : heap) (st : HState) (s : State) : Prop := {
  sf_scalars : scalars st s;
  sf_DHs : pair_at h (hDHs st) (DHs s);
  sf_DHr : key_at h (hDHr st) (DHr s);
  sf_skipped : exists l, hMKSkipped st = Some l /\ h !! l = Some (OSkipped (MKSkipped s));
  sf_seen : exists l, hSeenDH st = Some l /\ h !! l = Some (OSeen (SeenDH s))
}.

Definition repr (h : heap) (p : ptr) (s : State) : Prop := exists st, h !! p = Some (OState st) /\ stands_for h st s.

Definition ptr_set (p : option ptr) : gset ptr := match p with None => ∅ | Some p => {[p]} end.

(** The objects of a state that methods write to: the state and its two maps. The
    keys it points to are never written. *)
Definition footprint (h : heap) (p : ptr) : gset ptr :=
  match h !! p with
  | Some (OState st) => {[p]} ∪ ptr_set (hMKSkipped st) ∪ ptr_set (hSeenDH st)
  | _ => ∅
  end.

Definition stable (X : gset ptr) (h h' : heap) : Prop := forall l o, h !! l = Some o -> l ∉ X -> h' !! l = Some o.

(** What a method of the state at [p] may do to the heap: write the objects of
    that state, and take new objects. *)
Definition evolves (p : ptr) (h h' : heap) : Prop :=
  stable (footprint h p) h h' /\ forall l, l ∈ footprint h' p -> l ∈ footprint h p \/ h !! l = None.

#[export] Instance evolves_refl p : Reflexive (evolves p).
Proof. intros h. split; [by intros l o|auto]. Qed.

#[export] Instance evolves_trans p : Transitive (evolves p).
Proof.
  intros h1 h2 h3 [S1 F1] [S2 F2]. split.
  - intros l o Hl Hn. apply S2; [by apply S1|]. intros [Hi|Hi]%F1; congruence.
  - intros l [Hl|Hl]%F2; [by apply F1|]. destruct (h1 !! l) as [o|] eqn:E; [|by right]. left.
    destruct (decide (l ∈ footprint h1 p)); [done|]. rewrite (S1 _ _ E) in Hl by done. done.
Qed.

(** The heap-level computation runs as the value-level one, whose result is [out]. *)
Definition simulates {A} (p : ptr) (h : heap) (t : tape) (m : ST (heap * tape) A) (out : (State * tape) * res A) : Prop :=
  exists h', m (h, t) = ((h', snd (fst out)), snd out) /\ repr h' p (fst (fst out)) /\ evolves p h h'.

Section refinement.
Context `{Primitives}.
Implicit Types (h : heap) (p : ptr) (s : State).

(** *** Objects that do not matter to a state *)

(** What a state stands for depends on the objects it points to. *)
Lemma stands_for_agree h h' st s :
  (forall l o, h !! l = Some o -> (match o with OState _ => False | _ => True end) -> h' !! l = Some o) ->
  stands_for h st s -> stands_for h' st s.
Proof.
  intros Ha [H1 H2 H3 (l1 & E1 & H4) (l2 & E2 & H5)]. split.
  - done.
  - unfold pair_at in *. destruct (hDHs st), (DHs s); try done. by apply Ha.
  - unfold key_at in *. destruct (hDHr st), (DHr s); try done. by apply Ha.
  - exists l1. split; [done|]. by apply Ha.
  - exists l2. split; [done|]. by apply Ha.
Qed.

Lemma fresh_none h : h !! (fresh (dom h) : ptr) = None.
Proof. apply not_elem_of_dom. apply is_fresh. Qed.

Lemma new_stable h o : exists h' l, new o h = (h', Ok l) /\ h !! l = None /\ h' !! l = Some o /\ stable ∅ h h'.
Proof.
  unfold new. set (l := fresh (dom h)). pose proof (fresh_none h) as Hl. fold l in Hl. exists (<[l := o]> h), l.
  split_and!; [done|done|by apply lookup_insert_eq|]. intros k o' E _. rewrite lookup_insert_ne; [done|]. intros <-. congruence.
Qed.

Lemma new_ok p h s o :
  repr h p s -> exists h' l, new o h = (h', Ok l) /\ h !! l = None /\ h' !! l = Some o /\ repr h' p s /\ evolves p h h' /\ stable ∅ h h'.
Proof.
  intros (st & Hp & Hs). unfold new. set (l := fresh (dom h)). pose proof (fresh_none h) as Hl. fold l in Hl.
  assert (forall k o', h !! k = Some o' -> <[l := o]> h !! k = Some o') as Hk.
  { intros k o' E. rewrite lookup_insert_ne; [done|]. intros ->. congruence. }
  exists (<[l := o]> h), l. split_and!; [done|done|by rewrite lookup_insert_eq| | |].
  - exists st. split; [by apply Hk|]. apply (stands_for_agree h); [|done]. intros k o' E _. by apply Hk.
  - split; [intros k o' E _; by apply Hk|]. intros k. unfold footprint. rewrite Hp, (Hk _ _ Hp). auto.
  - intros k o' E _. by apply Hk.
Qed.

Lemma get_state_ok p h s : repr h p s -> exists st, get_state p h = (h, Ok st) /\ h !! p = Some (OState st) /\ stands_for h st s.
Proof. intros (st & Hp & Hs). exists st. unfold get_state. by rewrite Hp. Qed.

(** Writing the state object: the pointers of the new object are its own or new. *)
Lemma write_state_ok p h s st st' s' :
  repr h p s -> h !! p = Some (OState st) -> stands_for h st' s' ->
  (hMKSkipped st' = hMKSkipped st) -> (hSeenDH st' = hSeenDH st) ->
  repr (<[p := OState st']> h) p s' /\ evolves p h (<[p := OState st']> h).
Proof.
  intros _ Hp Hs Hm Hd. assert (forall k o, h !! k = Some o -> k <> p -> <[p := OState st']> h !! k = Some o) as Hk.
  { intros k o E Hn. by rewrite lookup_insert_ne. }
  split.
  - exists st'. split; [by rewrite lookup_insert_eq|]. apply (stands_for_agree h); [|done].
    intros k o E Ho. apply Hk; [done|]. intros ->. rewrite Hp in E. injection E as <-. done.
  - split.
    + intros k o E Hn. apply Hk; [done|]. intros ->. apply Hn. unfold footprint. rewrite Hp. set_solver.
    + intros k. unfold footprint. rewrite Hp, lookup_insert_eq, Hm, Hd. auto.
Qed.

Lemma set_state_ok p h s f s' :
  repr h p s ->
  (forall st, h !! p = Some (OState st) -> stands_for h st s ->
    stands_for h (f st) s' /\ hMKSkipped (f st) = hMKSkipped st /\ hSeenDH (f st) = hSeenDH st) ->
  exists h', set_state p f h = (h', Ok tt) /\ repr h' p s' /\ evolves p h h' /\ stable {[p]} h h'.
Proof.
  intros Hr Hf. destruct (get_state_ok _ _ _ Hr) as (st & E & Hp & Hs). destruct (Hf st Hp Hs) as (Hs' & Hm & Hd).
  exists (<[p := OState (f st)]> h). unfold set_state. rewrite (st_bind_run _ _ _ _ _ E).
  destruct (write_state_ok p h s st (f st) s' Hr Hp Hs' Hm Hd) as [R V]. split_and!; [done..|].
  intros k o Ek Hk. rewrite lookup_insert_ne; [done|set_solver].
Qed.

(** Fields that are not pointers. *)
Lemma set_scalar_ok p h s f s' :
  repr h p s -> (forall st, scalars st s -> scalars (f st) s') ->
  (forall st, hDHs (f st) = hDHs st /\ hDHr (f st) = hDHr st /\ hMKSkipped (f st) = hMKSkipped st /\ hSeenDH (f st) = hSeenDH st) ->
  DHs s' = DHs s -> DHr s' = DHr s -> MKSkipped s' = MKSkipped s -> SeenDH s' = SeenDH s ->
  exists h', set_state p f h = (h', Ok tt) /\ repr h' p s' /\ evolves p h h'.
Proof.
  intros Hr Hf Hp E1 E2 E3 E4. destruct (set_state_ok p h s f s' Hr) as (h' & E & R & V & _); [|eauto].
  intros st Hst [S1 S2 S3 S4 S5]. destruct (Hp st) as (P1 & P2 & P3 & P4). split_and!; [|done|done].
  split; [by apply Hf|by rewrite P1, E1|by rewrite P2, E2|by rewrite P3, E3|by rewrite P4, E4].
Qed.

(** *** Reading a state *)

Lemma get_DHr_ok p h s : repr h p s -> get_DHr p h = (h, Ok (DHr s)).
Proof.
  intros (st & E & Hp & [_ _ H3 _ _])%get_state_ok. unfold get_DHr. rewrite (st_bind_run _ _ _ _ _ E).
  unfold load_key, key_at in *. destruct (hDHr st), (DHr s); try done. by rewrite H3.
Qed.
Lemma get_DHs_ok p h s : repr h p s -> get_DHs p h = (h, Ok (DHs s)).
Proof.
  intros (st & E & Hp & [_ H2 _ _ _])%get_state_ok. unfold get_DHs. rewrite (st_bind_run _ _ _ _ _ E).
  unfold load_pair, pair_at in *. destruct (hDHs st), (DHs s); try done. by rewrite H2.
Qed.
Lemma get_skipped_ok p h s : repr h p s -> get_skipped p h = (h, Ok (MKSkipped s)).
Proof.
  intros (st & E & Hp & [_ _ _ (l & E4 & H4) _])%get_state_ok. unfold get_skipped. rewrite (st_bind_run _ _ _ _ _ E).
  unfold load_skipped. by rewrite E4, H4.
Qed.
Lemma get_seen_ok p h s : repr h p s -> get_seen p h = (h, Ok (SeenDH s)).
Proof.
  intros (st & E & Hp & [_ _ _ _ (l & E5 & H5)])%get_state_ok. unfold get_seen. rewrite (st_bind_run _ _ _ _ _ E).
  unfold load_seen. by rewrite E5, H5.
Qed.

(** *** Writing a map *)

Lemma write_skipped_ok p h s st l m :
  h !! p = Some (OState st) -> stands_for h st s -> hMKSkipped st = Some l ->
  let h' := <[l := OSkipped m]> h in repr h' p (set_MKSkipped m s) /\ evolves p h h'.
Proof.
  intros Hp [H1 H2 H3 (l4 & E4 & H4) (l5 & E5 & H5)] El h'. rewrite El in E4. injection E4 as <-.
  assert (forall k o, h !! k = Some o -> k <> l -> h' !! k = Some o) as Hk by (intros; unfold h'; by rewrite lookup_insert_ne).
  assert (h' !! p = Some (OState st)) as Hp' by (apply Hk; [done|congruence]). split.
  - exists st. split; [done|]. split.
    + done.
    + unfold pair_at in *. cbn. destruct (hDHs st), (DHs s); try done. apply Hk; [done|congruence].
    + unfold key_at in *. cbn. destruct (hDHr st), (DHr s); try done. apply Hk; [done|congruence].
    + exists l. split; [done|]. by apply lookup_insert_eq.
    + exists l5. split; [done|]. apply Hk; [done|congruence].
  - split.
    + intros k o Ek Hn. apply Hk; [done|]. intros ->. apply Hn. unfold footprint. rewrite Hp, El. set_solver.
    + intros k. unfold footprint. rewrite Hp, Hp'. auto.
Qed.

Lemma write_seen_ok p h s st l m :
  h !! p = Some (OState st) -> stands_for h st s -> hSeenDH st = Some l ->
  let h' := <[l := OSeen m]> h in repr h' p (set_SeenDH m s) /\ evolves p h h'.
Proof.
  intros Hp [H1 H2 H3 (l4 & E4 & H4) (l5 & E5 & H5)] El h'. rewrite El in E5. injection E5 as <-.
  assert (forall k o, h !! k = Some o -> k <> l -> h' !! k = Some o) as Hk by (intros; unfold h'; by rewrite lookup_insert_ne).
  assert (h' !! p = Some (OState st)) as Hp' by (apply Hk; [done|congruence]). split.
  - exists st. split; [done|]. split.
    + done.
    + unfold pair_at in *. cbn. destruct (hDHs st), (DHs s); try done. apply Hk; [done|congruence].
    + unfold key_at in *. cbn. destruct (hDHr st), (DHr s); try done. apply Hk; [done|congruence].
    + exists l4. split; [done|]. apply Hk; [done|congruence].
    + exists l. split; [done|]. by apply lookup_insert_eq.
  - split.
    + intros k o Ek Hn. apply Hk; [done|]. intros ->. apply Hn. unfold footprint. rewrite Hp, El. set_solver.
    + intros k. unfold footprint. rewrite Hp, Hp'. auto.
Qed.

Lemma alter_skipped_ok p h s f :
  repr h p s -> exists h', alter_skipped p f h = (h', Ok tt) /\ repr h' p (set_MKSkipped (f (MKSkipped s)) s) /\ evolves p h h'.
Proof.
  intros (st & E & Hp & Hs)%get_state_ok. destruct (sf_skipped _ _ _ Hs) as (l & El & Hl).
  exists (<[l := OSkipped (f (MKSkipped s))]> h). split; [|by apply (write_skipped_ok p h s st)].
  unfold alter_skipped. rewrite (st_bind_run _ _ _ _ _ E), El. unfold mbind, st_bind, load_skipped. by rewrite Hl.
Qed.

Lemma put_skipped_ok p h s k v :
  repr h p s -> exists h', put_skipped p k v h = (h', Ok tt) /\ repr h' p (set_MKSkipped (<[k := v]> (MKSkipped s)) s) /\ evolves p h h'.
Proof.
  intros (st & E & Hp & Hs)%get_state_ok. destruct (sf_skipped _ _ _ Hs) as (l & El & Hl).
  exists (<[l := OSkipped (<[k := v]> (MKSkipped s))]> h). split; [|by apply (write_skipped_ok p h s st)].
  unfold put_skipped. rewrite (st_bind_run _ _ _ _ _ E), El. unfold mbind, st_bind, load_skipped. by rewrite Hl.
Qed.

Lemma put_seen_ok p h s k :
  repr h p s -> exists h', put_seen p k h = (h', Ok tt) /\ repr h' p (set_SeenDH ({[k]} ∪ SeenDH s) s) /\ evolves p h h'.
Proof.
  intros (st & E & Hp & Hs)%get_state_ok. destruct (sf_seen _ _ _ Hs) as (l & El & Hl).
  exists (<[l := OSeen ({[k]} ∪ SeenDH s)]> h). split; [|by apply (write_seen_ok p h s st)].
  unfold put_seen. rewrite (st_bind_run _ _ _ _ _ E), El. unfold mbind, st_bind, load_seen. by rewrite Hl.
Qed.

Lemma ensure_ok p h s : repr h p s -> ensure_seen p h = (h, Ok tt) /\ ensure_skipped p h = (h, Ok tt).
Proof.
  intros (st & E & Hp & Hs)%get_state_ok. destruct (sf_skipped _ _ _ Hs) as (l & El & _). destruct (sf_seen _ _ _ Hs) as (l' & El' & _).
  unfold ensure_seen, ensure_skipped. rewrite !(st_bind_run _ _ _ _ _ E), El, El'. done.
Qed.

(** *** Composing simulations *)

Definition hsim {A} (p : ptr) h (m : ST heap A) (s' : State) (r : res A) : Prop :=
  exists h', m h = (h', r) /\ repr h' p s' /\ evolves p h h'.

Lemma hsim_ret {A} p h s (m : ST heap A) r : m h = (h, r) -> repr h p s -> hsim p h m s r.
Proof. intros E Hr. by exists h. Qed.

Lemma hsim_read {A B} p h (m : ST heap A) (k : A -> ST heap B) a s' r :
  m h = (h, Ok a) -> hsim p h (k a) s' r -> hsim p h (m ≫= k) s' r.
Proof. intros E (h' & E' & R). exists h'. by rewrite (st_bind_run _ _ _ _ _ E). Qed.

Lemma hsim_step {A B} p h (m : ST heap A) (k : A -> ST heap B) s1 a s' r :
  hsim p h m s1 (Ok a) -> (forall h1, repr h1 p s1 -> hsim p h1 (k a) s' r) -> hsim p h (m ≫= k) s' r.
Proof.
  intros (h1 & E1 & R1 & V1) Hk. destruct (Hk h1 R1) as (h2 & E2 & R2 & V2). exists h2.
  rewrite (st_bind_run _ _ _ _ _ E1). split_and!; [done|done|by transitivity h1].
Qed.

Lemma sim_fst {A} p h t (m : ST heap A) s' r : hsim p h m s' r -> simulates p h t (st_fst m) ((s', t), r).
Proof. intros (h' & E & R & V). exists h'. unfold st_fst. by rewrite E. Qed.

Lemma sim_ret {A} p h t s (m : ST (heap * tape) A) t' r : m (h, t) = ((h, t'), r) -> repr h p s -> simulates p h t m ((s, t'), r).
Proof. intros E Hr. by exists h. Qed.

Lemma sim_read {A B} p h t (m : ST heap A) (k : A -> ST (heap * tape) B) a out :
  m h = (h, Ok a) -> simulates p h t (k a) out -> simulates p h t (st_fst m ≫= k) out.
Proof.
  intros E (h' & E' & R). exists h'. rewrite (st_bind_run _ _ _ (h, t) a); [done|]. unfold st_fst. by rewrite E.
Qed.

Lemma sim_step {A B} p h t (m : ST heap A) (k : A -> ST (heap * tape) B) s1 a out :
  hsim p h m s1 (Ok a) -> (forall h1, repr h1 p s1 -> simulates p h1 t (k a) out) -> simulates p h t (st_fst m ≫= k) out.
Proof.
  intros (h1 & E1 & R1 & V1) Hk. destruct (Hk h1 R1) as (h2 & E2 & R2 & V2). exists h2.
  rewrite (st_bind_run _ _ _ (h1, t) a) by (unfold st_fst; by rewrite E1). split_and!; [done|done|by transitivity h1].
Qed.

Lemma sim_err {A B} p h t (m : ST heap A) (k : A -> ST (heap * tape) B) s' e :
  hsim p h m s' (Err e) -> simulates p h t (st_fst m ≫= k) ((s', t), Err e).
Proof. intros (h1 & E1 & R1 & V1). exists h1. unfold mbind, st_bind, st_fst. by rewrite E1. Qed.

Lemma sim_panic {A B} p h t (m : ST heap A) (k : A -> ST (heap * tape) B) s' :
  hsim p h m s' Panic -> simulates p h t (st_fst m ≫= k) ((s', t), Panic).
Proof. intros (h1 & E1 & R1 & V1). exists h1. unfold mbind, st_bind, st_fst. by rewrite E1. Qed.

Lemma sim_bind {A B} p h t s (m : ST (heap * tape) A) (k : A -> ST (heap * tape) B) (mv : ST (State * tape) A) kv :
  simulates p h t m (mv (s, t)) ->
  (forall h1 s1 t1 a, repr h1 p s1 -> simulates p h1 t1 (k a) (kv a (s1, t1))) ->
  simulates p h t (m ≫= k) ((mv ≫= kv) (s, t)).
Proof.
  intros (h1 & E1 & R1 & V1) Hk. unfold mbind, st_bind, simulates. rewrite E1.
  destruct (mv (s, t)) as [[s1 t1] [a|e|]]; cbn in *; [|by exists h1..].
  destruct (Hk h1 s1 t1 a R1) as (h2 & E2 & R2 & V2). exists h2. split_and!; [done|done|by transitivity h1].
Qed.

(** Steps that only fail or only look at the tape. *)
Lemma sim_lift {A B} p h t s (r : res A) (k : A -> ST (heap * tape) B) (kv : A -> ST (State * tape) B) :
  repr h p s -> (forall a, r = Ok a -> simulates p h t (k a) (kv a (s, t))) ->
  simulates p h t (st_lift r ≫= k) ((st_lift r ≫= kv) (s, t)).
Proof.
  intros Hr Hk. unfold mbind, st_bind, st_lift. destruct r as [a|e|]; [by apply Hk|by exists h..].
Qed.

Lemma sim_tape {A B} p h t s (m : ST tape A) (k : A -> ST (heap * tape) B) (kv : A -> ST (State * tape) B) :
  repr h p s -> (forall a t', simulates p h t' (k a) (kv a (s, t'))) ->
  simulates p h t (st_snd m ≫= k) ((st_snd m ≫= kv) (s, t)).
Proof.
  intros Hr Hk. unfold mbind, st_bind, st_snd. destruct (m t) as [t' [a|e|]] eqn:E; unfold simulates; rewrite ?E; [apply Hk|by exists h..].
Qed.

(** A field that is not a pointer is written. *)
Ltac scalar_step :=
  eapply set_scalar_ok; [eassumption|intros ? (? & ? & ? & ? & ? & ?); split_and!; first [done | cbn in *; congruence]|by intros ?|done..].

(** *** skipped.go *)

Lemma heap_skip_loop_ok fuel until p h s s' r :
  repr h p s -> Ratchet.skip_loop fuel until s = (s', r) -> hsim p h (skip_loop fuel p until) s' r.
Proof.
  revert h s s' r. induction fuel as [|fuel IH]; intros h s s' r Hr E; destruct (get_state_ok _ _ _ Hr) as (st & Es & _ & [Hsc _ _ _ _]);
    destruct Hsc as (_ & _ & HCKr & _ & HNr & _); cbn [skip_loop Ratchet.skip_loop] in *; apply (hsim_read _ _ _ _ _ _ _ Es); rewrite HNr.
  all: destruct (Nr s <? until); [|injection E as <- <-; by apply hsim_ret].
  { injection E as <- <-. by apply hsim_ret. }
  destruct (Nr s =? MaxUint32); [injection E as <- <-; by apply hsim_ret|]. apply (hsim_read _ _ _ _ tt); [done|].
  apply (hsim_read _ _ _ _ _ _ _ (get_skipped_ok _ _ _ Hr)).
  destruct (Z.of_nat (size (MKSkipped s)) >=? MaxSkip) eqn:Em.
  { apply hsim_ret; [|injection E as <- _; done]. cbn. by injection E as <- <-. }
  apply (hsim_read _ _ _ _ tt); [done|]. apply (hsim_read _ _ _ _ _ _ _ (get_DHr_ok _ _ _ Hr)).
  destruct (DHr s) as [dhr|] eqn:Ed; [|injection E as <- <-; by apply hsim_ret]. rewrite HCKr. unfold KDFChain in *.
  set (ck := hmac_sha256 (vec_to_list (CKr s)) [Byte.x02]) in *. set (mk := hmac_sha256 (vec_to_list (CKr s)) [Byte.x01]) in *.
  set (key := mkSkippedKey dhr (Nr s)) in *.
  eapply (hsim_step _ _ _ _ (set_recv ck (Nr s) s)); [scalar_step|]. intros h1 R1.
  eapply (hsim_step _ _ _ _ (set_MKSkipped (<[key := mk]> (MKSkipped s)) (set_recv ck (Nr s) s))); [by apply (put_skipped_ok _ _ _ key mk R1)|]. intros h2 R2.
  eapply (hsim_step _ _ _ _ (set_recv ck (u32 (Nr s + 1)) (set_MKSkipped (<[key := mk]> (MKSkipped s)) s))); [scalar_step|]. intros h3 R3.
  apply (IH _ _ _ _ R3). exact E.
Qed.

Lemma heap_skipMessageKeys_ok until p h s s' r :
  repr h p s -> Ratchet.skipMessageKeys until s = (s', r) -> hsim p h (skipMessageKeys p until) s' r.
Proof.
  intros Hr E. destruct (get_state_ok _ _ _ Hr) as (st & Es & _ & [(_ & _ & _ & _ & HNr & _) _ _ _ _]).
  apply (hsim_read _ _ _ _ _ _ _ Es). rewrite HNr. by apply (heap_skip_loop_ok _ _ _ _ s).
Qed.

(** *** dh_ratchet.go *)

Lemma mark_seen_ok p h s k : repr h p s -> hsim p h (mark_seen p k) (Ratchet.mark_seen k s) (Ok tt).
Proof.
  intros Hr. unfold mark_seen, Ratchet.mark_seen. apply (hsim_read _ _ _ _ tt); [by apply (ensure_ok _ _ s)|].
  apply (hsim_read _ _ _ _ _ _ _ (get_DHr_ok _ _ _ Hr)). destruct (DHr s) as [d|] eqn:Ed.
  - eapply hsim_step; [exact (put_seen_ok _ _ _ d Hr)|]. intros h1 R1. exact (put_seen_ok _ _ _ k R1).
  - apply (hsim_read _ _ _ _ tt); [done|]. exact (put_seen_ok _ _ _ k Hr).
Qed.

Lemma reset_counters_ok p h s : repr h p s -> hsim p h (reset_counters p) (set_counters 0 0 (Ns s) s) (Ok tt).
Proof.
  intros Hr. destruct (get_state_ok _ _ _ Hr) as (st & Es & _ & [(_ & _ & _ & HNs & _ & _) _ _ _ _]).
  apply (hsim_read _ _ _ _ _ _ _ Es). rewrite HNs.
  eapply (hsim_step _ _ _ _ (set_counters (Ns s) (Nr s) (Ns s) s)); [scalar_step|]. intros h1 R1.
  eapply (hsim_step _ _ _ _ (set_counters 0 (Nr s) (Ns s) s)); [scalar_step|]. intros h2 R2. scalar_step.
Qed.

Lemma root_recv_ok p h s dhOut s' r :
  repr h p s ->
  (match KDFRoot (RK s) dhOut with Ok (rk, ck) => (set_root_recv rk ck s, Ok tt) | Err e => (s, Err e) | Panic => (s, Panic) end) = (s', r) ->
  hsim p h (root_step p dhOut hset_CKr) s' r.
Proof.
  intros Hr E. destruct (get_state_ok _ _ _ Hr) as (st & Es & _ & [(HRK & _) _ _ _ _]).
  apply (hsim_read _ _ _ _ _ _ _ Es). rewrite HRK. destruct (KDFRoot (RK s) dhOut) as [[rk ck]|e|]; injection E as <- <-; [|by apply hsim_ret..].
  apply (hsim_read _ _ _ _ (rk, ck)); [done|].
  eapply (hsim_step _ _ _ _ (set_root_recv rk (CKr s) s)); [scalar_step|]. intros h1 R1. scalar_step.
Qed.

Lemma root_send_ok p h s dhOut s' r :
  repr h p s ->
  (match KDFRoot (RK s) dhOut with Ok (rk, ck) => (set_root_send rk ck s, Ok tt) | Err e => (s, Err e) | Panic => (s, Panic) end) = (s', r) ->
  hsim p h (root_step p dhOut hset_CKs) s' r.
Proof.
  intros Hr E. destruct (get_state_ok _ _ _ Hr) as (st & Es & _ & [(HRK & _) _ _ _ _]).
  apply (hsim_read _ _ _ _ _ _ _ Es). rewrite HRK. destruct (KDFRoot (RK s) dhOut) as [[rk ck]|e|]; injection E as <- <-; [|by apply hsim_ret..].
  apply (hsim_read _ _ _ _ (rk, ck)); [done|].
  eapply (hsim_step _ _ _ _ (set_root_send rk (CKs s) s)); [scalar_step|]. intros h1 R1. scalar_step.
Qed.

(** A new object, and a field that points to it. *)
Lemma new_pair_ok p h s k : repr h p s -> hsim p h (q ← new (OPair k); set_state p (hset_DHs (Some q))) (set_DHs (Some k) s) (Ok tt).
Proof.
  intros Hr. destruct (new_ok p h s (OPair k) Hr) as (h1 & l & E1 & _ & Hl & R1 & V1 & _).
  destruct (set_state_ok p h1 s (hset_DHs (Some l)) (set_DHs (Some k) s) R1) as (h2 & E2 & R2 & V2 & _).
  { intros st _ [S1 S2 S3 S4 S5]. by split_and!. }
  exists h2. rewrite (st_bind_run _ _ _ _ _ E1). split_and!; [done|done|by transitivity h1].
Qed.

Lemma new_key_ok p h s k : repr h p s -> hsim p h (q ← new (OKey k); set_state p (hset_DHr (Some q))) (set_DHr (Some k) s) (Ok tt).
Proof.
  intros Hr. destruct (new_ok p h s (OKey k) Hr) as (h1 & l & E1 & _ & Hl & R1 & V1 & _).
  destruct (set_state_ok p h1 s (hset_DHr (Some l)) (set_DHr (Some k) s) R1) as (h2 & E2 & R2 & V2 & _).
  { intros st _ [S1 S2 S3 S4 S5]. by split_and!. }
  exists h2. rewrite (st_bind_run _ _ _ _ _ E1). split_and!; [done|done|by transitivity h1].
Qed.

(** The allocation is a step of its own in the code. *)
Lemma sim_new {B} p h t s (o : obj) (f : ptr -> HState -> HState) (k : unit -> ST (heap * tape) B) s1 out :
  hsim p h (q ← new o; set_state p (f q)) s1 (Ok tt) -> (forall h1, repr h1 p s1 -> simulates p h1 t (k tt) out) -> repr h p s ->
  simulates p h t (q ← st_fst (new o); u ← st_fst (set_state p (f q)); k u) out.
Proof.
  intros (h1 & E1 & R1 & V1) Hk Hr. destruct (Hk h1 R1) as (h2 & E2 & R2 & V2). exists h2. split_and!; [|done|by transitivity h1].
  rewrite <- E2. destruct (new_ok p h s o Hr) as (h0 & l & En & _). rewrite (st_bind_run _ _ _ _ _ En) in E1.
  rewrite (st_bind_run _ _ _ (h0, t) l) by (unfold st_fst; by rewrite En).
  by rewrite (st_bind_run _ _ _ (h1, t) tt) by (unfold st_fst; by rewrite E1).
Qed.

Lemma heap_DHRatchet_ok p h t s k : repr h p s -> simulates p h t (DHRatchet p k) (Ratchet.DHRatchet k (s, t)).
Proof.
  intros Hr. unfold DHRatchet, Ratchet.DHRatchet. apply (sim_read _ _ _ _ _ _ _ (get_DHs_ok _ _ _ Hr)).
  rewrite (st_bind_run _ _ _ (s, t) s) by done. destruct (DHs s) as [dhs|]; [|by apply sim_ret].
  eapply sim_step; [exact (mark_seen_ok _ _ _ k Hr)|]. intros h1 R1. rewrite (st_bind_run _ _ _ (Ratchet.mark_seen k s, t) tt) by done.
  eapply sim_step; [exact (reset_counters_ok _ _ _ R1)|]. intros h2 R2.
  change (Ns (Ratchet.mark_seen k s)) with (Ns s) in R2. set (s2 := set_counters 0 0 (Ns s) (Ratchet.mark_seen k s)) in *.
  rewrite (st_bind_run _ _ _ (s2, t) tt) by done. change (RK s) with (RK s2). clearbody s2.
  apply sim_lift; [done|]. intros dhOut _. pose proof (root_recv_ok p h2 s2 dhOut) as Hroot.
  destruct (KDFRoot (RK s2) dhOut) as [[rk ck]|e|]; [|exact (sim_err _ _ _ _ _ _ _ (Hroot _ _ R2 eq_refl))|exact (sim_panic _ _ _ _ _ _ (Hroot _ _ R2 eq_refl))]. specialize (Hroot _ _ R2 eq_refl).
  eapply sim_step; [exact Hroot|]. intros h3 R3. rewrite (st_bind_lift (Ok (rk, ck)) _ _ (rk, ck)) by done.
  rewrite (st_bind_run _ _ _ (set_root_recv rk ck s2, t) tt) by done.
  apply sim_tape; [done|]. intros newDH t'.
  eapply sim_new; [exact (new_pair_ok _ _ _ newDH R3)| |exact R3]. intros h4 R4.
  set (s4 := set_DHs (Some newDH) (set_root_recv rk ck s2)) in *. rewrite (st_bind_run _ _ _ (s4, t') tt) by done.
  change rk with (RK s4). clearbody s4. apply sim_lift; [done|]. intros dhOutSend _. pose proof (root_send_ok p h4 s4 dhOutSend) as Hroot2.
  destruct (KDFRoot (RK s4) dhOutSend) as [[rk' ck']|e|]; [|exact (sim_err _ _ _ _ _ _ _ (Hroot2 _ _ R4 eq_refl))|exact (sim_panic _ _ _ _ _ _ (Hroot2 _ _ R4 eq_refl))]. specialize (Hroot2 _ _ R4 eq_refl).
  eapply sim_step; [exact Hroot2|]. intros h5 R5. rewrite (st_bind_lift (Ok (rk', ck')) _ _ (rk', ck')) by done.
  rewrite (st_bind_run _ _ _ (set_root_send rk' ck' s4, t') tt) by done.
  eapply sim_new; [exact (new_key_ok _ _ _ k R5)| |exact R5]. intros h6 R6.
  rewrite (st_bind_run _ _ _ (set_DHr (Some k) (set_root_send rk' ck' s4), t') tt) by done.
  apply (sim_read _ _ _ _ _ tt); [by apply (ensure_ok _ _ _ R6)|]. apply sim_fst. exact (alter_skipped_ok _ _ _ _ R6).
Qed.

(** *** message.go and wire.go *)

(** The lines that [Ratchet.Decrypt] and [Ratchet.AdvanceForHeader] share. *)
Definition receive_value (header : Header) : ST (State * tape) key32 :=
  s ← st_fst st_get;
  _ ← st_check (Ratchet.current_dh s (hdr_DH header) && (hdr_N header <? Nr s)) ErrDuplicateMessage;
  _ ← st_check (negb (is_nil (DHr s)) && negb (Ratchet.current_dh s (hdr_DH header)) && bool_decide (hdr_DH header ∈ SeenDH s))
        ErrDuplicateMessage;
  _ ← (if negb (Ratchet.current_dh s (hdr_DH header)) then
         _ ← st_fst (Ratchet.skipMessageKeys (hdr_PN header));
         Ratchet.DHRatchet (hdr_DH header)
       else mret tt);
  _ ← st_fst (Ratchet.skipMessageKeys (hdr_N header));
  s ← st_fst st_get;
  _ ← st_check (bool_decide (CKr s = zero32)) (ErrText "decrypt: missing receiving chain key");
  _ ← st_check (Nr s =? MaxUint32) ErrCounterOverflow;
  let '(newCKr, mk) := KDFChain (CKr s) in
  _ ← st_fst (st_put (set_recv newCKr (u32 (Nr s + 1)) s));
  mret mk.

Lemma sim_skip p h t s until : repr h p s -> simulates p h t (st_fst (skipMessageKeys p until)) (st_fst (Ratchet.skipMessageKeys until) (s, t)).
Proof.
  intros Hr. unfold st_fst at 2. destruct (Ratchet.skipMessageKeys until s) as [s' r] eqn:E. apply sim_fst. by apply (heap_skipMessageKeys_ok _ _ _ s).
Qed.

(** A check of the same condition on both sides. *)
Lemma sim_check {B} p h t s c e (k : unit -> ST (heap * tape) B) (kv : unit -> ST (State * tape) B) :
  repr h p s -> (c = false -> simulates p h t (k tt) (kv tt (s, t))) ->
  simulates p h t (st_check c e ≫= k) ((st_check c e ≫= kv) (s, t)).
Proof. intros Hr Hk. apply sim_lift; [done|]. intros [] Hc. by apply Hk; destruct c. Qed.

Lemma receive_key_ok p h t s header : repr h p s -> simulates p h t (receive_key p header) (receive_value header (s, t)).
Proof.
  intros Hr. unfold receive_key, receive_value. rewrite (st_bind_run _ _ _ (s, t) s) by done.
  apply (sim_read _ _ _ _ _ _ _ (get_DHr_ok _ _ _ Hr)). destruct (get_state_ok _ _ _ Hr) as (st & Es & _ & [(_ & _ & _ & _ & HNr & _) _ _ _ _]).
  apply (sim_read _ _ _ _ _ _ _ Es). rewrite HNr. change (current_dh (DHr s)) with (Ratchet.current_dh s).
  apply sim_check; [done|]. intros _. apply (sim_read _ _ _ _ _ _ _ (get_seen_ok _ _ _ Hr)). apply sim_check; [done|]. intros _.
  clear st Es HNr. apply sim_bind.
  { destruct (negb _); [|by apply sim_ret]. apply sim_bind; [by apply sim_skip|]. intros h1 s1 t1 [] R1. by apply heap_DHRatchet_ok. }
  intros h1 s1 t1 [] R1. apply sim_bind; [by apply sim_skip|]. intros h2 s2 t2 [] R2. rewrite (st_bind_run _ _ _ (s2, t2) s2) by done.
  destruct (get_state_ok _ _ _ R2) as (st & Es & _ & [(_ & _ & HCKr & _ & HNr & _) _ _ _ _]).
  apply (sim_read _ _ _ _ _ _ _ Es). rewrite HCKr, HNr. apply sim_check; [done|]. intros _. apply sim_check; [done|]. intros _.
  unfold KDFChain. set (ck := hmac_sha256 _ [Byte.x02]). set (mk := hmac_sha256 _ [Byte.x01]).
  eapply (sim_step _ _ _ _ _ (set_recv ck (Nr s2) s2)); [scalar_step|]. intros h3 R3.
  eapply (sim_step _ _ _ _ _ (set_recv ck (u32 (Nr s2 + 1)) s2)); [scalar_step|]. intros h4 R4. by apply sim_ret.
Qed.

Lemma advance_value header s t : Ratchet.AdvanceForHeader header (s, t) =
  match MKSkipped s !! skippedKeyForHeader header with
  | Some mk => ((set_MKSkipped (delete (skippedKeyForHeader header) (MKSkipped s)) s, t), Ok mk)
  | None => receive_value header (s, t)
  end.
Proof. unfold Ratchet.AdvanceForHeader, receive_value. rewrite !(st_bind_run _ _ _ (s, t) s) by done. by destruct (MKSkipped s !! _). Qed.

Lemma bind_assoc_run {V A B C} (m : ST V A) (f : A -> ST V B) (g : B -> ST V C) w : ((m ≫= f) ≫= g) w = (m ≫= (fun a => f a ≫= g)) w.
Proof. unfold mbind, st_bind. by destruct (m w) as [? [?|?|]]. Qed.

Lemma bind_ext {V A B} (m : ST V A) (f g : A -> ST V B) w : (forall a w, f a w = g a w) -> (m ≫= f) w = (m ≫= g) w.
Proof. intros Hf. unfold mbind, st_bind. destruct (m w) as [? [?|?|]]; [apply Hf|done..]. Qed.

Lemma decrypt_next_value msg ad s t :
  decrypt_next msg ad (s, t) = (mk ← receive_value (Header_ msg); st_lift (decryptWithMessageKey mk msg ad)) (s, t).
Proof.
  unfold decrypt_next, receive_value. rewrite bind_assoc_run. apply bind_ext. intros s1 w1.
  do 7 (rewrite bind_assoc_run; apply bind_ext; intros ? ?). unfold KDFChain. rewrite bind_assoc_run. by apply bind_ext.
Qed.

(** A clone stands for the same value, and shares nothing that is written to. *)
Lemma copy_pair_ok p h s q : repr h p s -> forall v, pair_at h q v ->
  exists h' q', copy_pair q h = (h', Ok q') /\ repr h' p s /\ stable ∅ h h' /\ pair_at h' q' v.
Proof.
  intros Hr v Hq. unfold copy_pair. assert (load_pair q h = (h, Ok v)) as E.
  { unfold load_pair, pair_at in *. destruct q, v; try done. by rewrite Hq. }
  rewrite (st_bind_run _ _ _ _ _ E). destruct v as [k|]; [|exists h, None; split_and!; [done|done|by intros l o|done]].
  destruct (new_ok p h s (OPair k) Hr) as (h1 & l & E1 & _ & Hl & R1 & _ & St).
  exists h1, (Some l). by rewrite (st_bind_run _ _ _ _ _ E1).
Qed.

Lemma copy_key_ok p h s q : repr h p s -> forall v, key_at h q v ->
  exists h' q', copy_key q h = (h', Ok q') /\ repr h' p s /\ stable ∅ h h' /\ key_at h' q' v.
Proof.
  intros Hr v Hq. unfold copy_key. assert (load_key q h = (h, Ok v)) as E.
  { unfold load_key, key_at in *. destruct q, v; try done. by rewrite Hq. }
  rewrite (st_bind_run _ _ _ _ _ E). destruct v as [k|]; [|exists h, None; split_and!; [done|done|by intros l o|done]].
  destruct (new_ok p h s (OKey k) Hr) as (h1 & l & E1 & _ & Hl & R1 & _ & St).
  exists h1, (Some l). by rewrite (st_bind_run _ _ _ _ _ E1).
Qed.

Lemma stable_trans X h1 h2 h3 : stable X h1 h2 -> stable X h2 h3 -> stable X h1 h3.
Proof. intros S1 S2 l o Hl Hn. apply S2; [by apply S1|done]. Qed.

Lemma stable_at h h' l o : stable ∅ h h' -> h !! l = Some o -> h' !! l = Some o.
Proof. intros Hst Hl. apply Hst; set_solver. Qed.

Lemma pair_at_stable h h' q v : stable ∅ h h' -> pair_at h q v -> pair_at h' q v.
Proof. unfold pair_at. destruct q, v; try done. by apply stable_at. Qed.
Lemma key_at_stable h h' q v : stable ∅ h h' -> key_at h q v -> key_at h' q v.
Proof. unfold key_at. destruct q, v; try done. by apply stable_at. Qed.

Lemma heap_Clone_ok p h s :
  repr h p s -> exists h' q, Clone p h = (h', Ok q) /\ repr h' p s /\ repr h' q s /\ stable ∅ h h' /\
    forall l, l ∈ footprint h' q -> h !! l = None.
Proof.
  intros Hr. destruct (get_state_ok _ _ _ Hr) as (st & Es & _ & [Hsc HDHs HDHr (l4 & E4 & H4) (l5 & E5 & H5)]).
  unfold Clone. rewrite (st_bind_run _ _ _ _ _ Es).
  destruct (copy_pair_ok p h s _ Hr _ HDHs) as (h1 & q1 & E1 & R1 & S1 & P1). rewrite (st_bind_run _ _ _ _ _ E1).
  destruct (copy_key_ok p h1 s _ R1 _ (key_at_stable _ _ _ _ S1 HDHr)) as (h2 & q2 & E2 & R2 & S2 & P2). rewrite (st_bind_run _ _ _ _ _ E2).
  pose proof (stable_trans _ _ _ _ S1 S2) as S02.
  rewrite (st_bind_run _ _ _ h2 (MKSkipped s)) by (unfold load_skipped; by rewrite E4, (stable_at _ _ _ _ S02 H4)).
  destruct (new_ok p h2 s (OSkipped (MKSkipped s)) R2) as (h3 & q3 & E3 & N3 & P3 & R3 & _ & S3). rewrite (st_bind_run _ _ _ _ _ E3).
  pose proof (stable_trans _ _ _ _ S02 S3) as S03.
  rewrite (st_bind_run _ _ _ h3 (SeenDH s)) by (unfold load_seen; by rewrite E5, (stable_at _ _ _ _ S03 H5)).
  destruct (new_ok p h3 s (OSeen (SeenDH s)) R3) as (h4 & q4 & E4' & N4 & P4 & R4 & _ & S4). rewrite (st_bind_run _ _ _ _ _ E4').
  pose proof (stable_trans _ _ _ _ S03 S4) as S04.
  match goal with |- context [new (OState ?x)] => set (clone := x) end.
  destruct (new_ok p h4 s (OState clone) R4) as (h5 & q5 & E5' & N5 & P5 & R5 & _ & S5).
  pose proof (stable_trans _ _ _ _ S04 S5) as S05.
  exists h5, q5. split_and!; [done|done| |done|].
  - exists clone. split; [done|]. split.
    + done.
    + apply (pair_at_stable h1); [|done]. exact (stable_trans _ _ _ _ S2 (stable_trans _ _ _ _ S3 (stable_trans _ _ _ _ S4 S5))).
    + apply (key_at_stable h2); [|done]. exact (stable_trans _ _ _ _ S3 (stable_trans _ _ _ _ S4 S5)).
    + exists q3. split; [done|]. apply (stable_at _ _ _ _ S5). by apply (stable_at _ _ _ _ S4).
    + exists q4. split; [done|]. by apply (stable_at _ _ _ _ S5).
  - intros l. unfold footprint. rewrite P5. cbn [clone hMKSkipped hSeenDH hset_SeenDH hset_MKSkipped hset_DHr hset_DHs ptr_set].
    assert (forall h0 k, stable ∅ h h0 -> h0 !! k = None -> h !! k = None) as Hnone.
    { intros h0 k Hst Hk. destruct (h !! k) as [o|] eqn:E; [|done]. rewrite (stable_at _ _ _ _ Hst E) in Hk. done. }
    rewrite !elem_of_union, !elem_of_singleton. intros [[->| ->]| ->]; [by apply (Hnone h4)|by apply (Hnone h2)|by apply (Hnone h3)].
Qed.

Lemma stable_repr h h' p s : stable ∅ h h' -> repr h p s -> repr h' p s /\ evolves p h h'.
Proof.
  intros Hst (st & Hp & Hs). pose proof (stable_at _ _ _ _ Hst Hp) as Hp'. split.
  - exists st. split; [done|]. apply (stands_for_agree h); [|done]. intros l o E _. by apply (stable_at h).
  - split; [intros l o E _; by apply (stable_at h)|]. intros l. unfold footprint. rewrite Hp, Hp'. auto.
Qed.

(** What works on objects that are new does not change the old ones. *)
Lemma evolves_new q h h1 h2 :
  stable ∅ h h1 -> (forall l, l ∈ footprint h1 q -> h !! l = None) -> evolves q h1 h2 ->
  stable ∅ h h2 /\ forall l, l ∈ footprint h2 q -> h !! l = None.
Proof.
  intros S1 F1 [S2 F2]. split.
  - intros l o Hl Hn. apply S2; [by apply S1|]. intros Hi%F1. congruence.
  - intros l [Hl|Hl]%F2; [by apply F1|]. destruct (h !! l) as [o|] eqn:E; [|done]. by rewrite (stable_at _ _ _ _ S1 E) in Hl.
Qed.

Lemma stable_none h h' l : stable ∅ h h' -> h' !! l = None -> h !! l = None.
Proof. intros Hst Hl. destruct (h !! l) as [o|] eqn:E; [|done]. by rewrite (stable_at _ _ _ _ Hst E) in Hl. Qed.

(** [*s = *next] *)
Lemma commit_ok p q h h2 s s' :
  repr h p s -> stable ∅ h h2 -> repr h2 q s' -> (forall l, l ∈ footprint h2 q -> h !! l = None) ->
  exists st h3, get_state q h2 = (h2, Ok st) /\ set_state p (fun _ => st) h2 = (h3, Ok tt) /\ repr h3 p s' /\ evolves p h h3.
Proof.
  intros (sp & Hp & Hsp) Hst (st & Hq & Hs)%get_state_ok Hnew. destruct Hs as [Hq2 Hs]. exists st.
  pose proof (stable_at _ _ _ _ Hst Hp) as Hp2. exists (<[p := OState st]> h2). split; [done|]. split.
  { unfold set_state. by rewrite (st_bind_run _ _ _ h2 sp) by (unfold get_state; by rewrite Hp2). } split.
  - exists st. split; [by rewrite lookup_insert_eq|]. apply (stands_for_agree h2); [|done].
    intros l o E Ho. rewrite lookup_insert_ne; [done|]. intros <-. rewrite Hp2 in E. injection E as <-. done.
  - split.
    + intros l o E Hn. rewrite lookup_insert_ne; [by apply (stable_at h)|]. intros <-. apply Hn. unfold footprint. rewrite Hp. set_solver.
    + intros l. unfold footprint at 1. rewrite lookup_insert_eq. intros Hl.
      destruct (decide (l = p)) as [->|Hn]; [left; unfold footprint; rewrite Hp; set_solver|].
      right. apply Hnew. unfold footprint. rewrite Hq2. set_solver.
Qed.

(** Whatever it returns, [Decrypt] simulates the value-level one; when it fails, no
    object has changed. *)
Lemma heap_Decrypt_ok p h t s msg ad :
  repr h p s ->
  exists h', Decrypt p msg ad (h, t) = ((h', snd (fst (Ratchet.Decrypt msg ad (s, t)))), snd (Ratchet.Decrypt msg ad (s, t))) /\
    repr h' p (fst (fst (Ratchet.Decrypt msg ad (s, t)))) /\ evolves p h h' /\
    (is_ok (snd (Ratchet.Decrypt msg ad (s, t))) = false -> stable ∅ h h').
Proof.
  intros Hr. unfold Decrypt, Ratchet.Decrypt. rewrite (st_bind_run _ _ _ (h, t) (MKSkipped s)) by (unfold st_fst; by rewrite (get_skipped_ok _ _ _ Hr)).
  destruct (MKSkipped s !! skippedKeyForHeader (Header_ msg)) as [mk|] eqn:Ek.
  - destruct (decryptWithMessageKey mk msg ad) as [plaintext|e|].
    + destruct (alter_skipped_ok p h s (delete (skippedKeyForHeader (Header_ msg))) Hr) as (h1 & E1 & R1 & V1). exists h1.
      rewrite (st_bind_lift (Ok plaintext) _ _ plaintext) by done.
      rewrite (st_bind_run _ _ _ (h1, t) tt) by (unfold st_fst; by rewrite E1). done.
    + exists h. split_and!; [done|done|done|by intros _ l o].
    + exists h. split_and!; [done|done|done|by intros _ l o].
  - rewrite decrypt_next_value. destruct (heap_Clone_ok p h s Hr) as (h1 & q & E1 & _ & Rq & S1 & N1).
    rewrite (st_bind_run _ _ _ (h1, t) q) by (unfold st_fst; by rewrite E1).
    destruct (receive_key_ok q h1 t s (Header_ msg) Rq) as (h2 & E2 & R2 & V2). destruct (evolves_new _ _ _ _ S1 N1 V2) as [S2 N2].
    destruct (stable_repr h h2 p s S2 Hr) as [R3 V3]. destruct (receive_value (Header_ msg) (s, t)) as [[s2 t2] r] eqn:Ev.
    cbn [fst snd] in *. destruct r as [mk|e|]; [|exists h2; unfold mbind, st_bind; by rewrite Ev, E2..].
    rewrite !(st_bind_run (receive_value _) _ _ _ _ Ev), (st_bind_run _ _ _ _ _ E2). unfold st_lift at 2 3 4 5.
    destruct (decryptWithMessageKey mk msg ad) as [plaintext|e|]; [|by exists h2..].
    destruct (commit_ok p q h h2 s s2 Hr S2 R2 N2) as (st & h3 & E3 & E4 & R4 & V4). exists h3.
    rewrite (st_bind_lift (Ok plaintext) _ _ plaintext) by done.
    rewrite (st_bind_run _ _ _ (h2, t2) st) by (unfold st_fst; by rewrite E3).
    rewrite (st_bind_run _ _ _ (h3, t2) tt) by (unfold st_fst; by rewrite E4). done.
Qed.

Lemma heap_AdvanceForHeader_ok p h t s header :
  repr h p s -> simulates p h t (AdvanceForHeader p header) (Ratchet.AdvanceForHeader header (s, t)).
Proof.
  intros Hr. rewrite advance_value. apply (sim_read _ _ _ _ _ _ _ (get_skipped_ok _ _ _ Hr)).
  destruct (MKSkipped s !! skippedKeyForHeader header) as [mk|]; [|by apply receive_key_ok].
  eapply sim_step; [exact (alter_skipped_ok _ _ _ _ Hr)|]. intros h1 R1. by apply sim_ret.
Qed.

Lemma heap_NextSendingMessageKey_ok p h s s' r :
  repr h p s -> Ratchet.NextSendingMessageKey s = (s', r) -> hsim p h (NextSendingMessageKey p) s' r.
Proof.
  intros Hr. unfold NextSendingMessageKey, Ratchet.NextSendingMessageKey. rewrite (st_bind_run _ _ _ s s) by done.
  intros E. apply (hsim_read _ _ _ _ _ _ _ (get_DHs_ok _ _ _ Hr)). destruct (DHs s) as [dhs|]; [|injection E as <- <-; by apply hsim_ret].
  destruct (get_state_ok _ _ _ Hr) as (st & Es & _ & [(_ & HCKs & _ & HNs & _ & HPN) _ _ _ _]).
  apply (hsim_read _ _ _ _ _ _ _ Es). rewrite HCKs, HNs, HPN.
  destruct (bool_decide (CKs s = zero32)); [injection E as <- <-; by apply hsim_ret|]. rewrite st_bind_check in E by done.
  apply (hsim_read _ _ _ _ tt); [done|]. destruct (Ns s =? MaxUint32); [injection E as <- <-; by apply hsim_ret|]. rewrite st_bind_check in E by done.
  apply (hsim_read _ _ _ _ tt); [done|]. unfold KDFChain in *. injection E as <- <-.
  set (ck := hmac_sha256 _ [Byte.x02]) in *. set (mk := hmac_sha256 _ [Byte.x01]) in *.
  eapply (hsim_step _ _ _ _ (set_send ck (Ns s) s)); [scalar_step|]. intros h1 R1.
  eapply (hsim_step _ _ _ _ (set_send ck (u32 (Ns s + 1)) s)); [scalar_step|]. intros h2 R2. by apply hsim_ret.
Qed.

Lemma encrypt_value pt ad s :
  Ratchet.Encrypt pt ad s = ('(header, mk) ← Ratchet.NextSendingMessageKey;
    '(encKey, authKey, iv) ← st_lift (DeriveMessageKeys mk);
    nonce ← st_lift (slice iv 0 12);
    ciphertext ← st_lift (AESGCMEncryptWithNonce encKey pt nonce (messageAD ad header));
    mret (mkMessage header (nonce ++ ciphertext))) s.
Proof.
  unfold Ratchet.Encrypt, Ratchet.NextSendingMessageKey. rewrite bind_assoc_run. apply bind_ext. intros s1 w1.
  destruct (DHs s1); [|done]. do 2 (rewrite bind_assoc_run; apply bind_ext; intros ? ?). unfold KDFChain.
  rewrite bind_assoc_run. by apply bind_ext.
Qed.

Lemma heap_Encrypt_ok p h s pt ad s' r : repr h p s -> Ratchet.Encrypt pt ad s = (s', r) -> hsim p h (Encrypt p pt ad) s' r.
Proof.
  intros Hr E. rewrite encrypt_value in E. unfold Encrypt. destruct (Ratchet.NextSendingMessageKey s) as [s1 r1] eqn:E1.
  destruct (heap_NextSendingMessageKey_ok p h s s1 r1 Hr E1) as (h1 & Eh & R1 & V1). exists h1. unfold mbind, st_bind in *. rewrite E1 in E. rewrite Eh.
  destruct r1 as [[header mk]|e|]; [|by injection E as <- <-..]. unfold st_lift in *.
  destruct (DeriveMessageKeys mk) as [[[encKey authKey] iv]|e|]; [|by injection E as <- <-..].
  destruct (slice iv 0 12) as [nonce|e|]; [|by injection E as <- <-..].
  destruct (AESGCMEncryptWithNonce encKey pt nonce (messageAD ad header)) as [ct|e|]; by injection E as <- <-.
Qed.

Lemma heap_RatchetOnSend_ok p h t s : repr h p s -> simulates p h t (RatchetOnSend p) (Ratchet.RatchetOnSend (s, t)).
Proof.
  intros Hr. unfold RatchetOnSend, Ratchet.RatchetOnSend. rewrite (st_bind_run _ _ _ (s, t) s) by done.
  apply (sim_read _ _ _ _ _ _ _ (get_DHr_ok _ _ _ Hr)). apply (sim_read _ _ _ _ _ _ _ (get_DHs_ok _ _ _ Hr)).
  destruct (DHr s), (DHs s); [by apply heap_DHRatchet_ok|by apply sim_ret..].
Qed.

(** *** New states *)

(** [Ratchet.InitializeState], as steps that change a state. *)
Definition root_send_value (dhOut : key32) : ST (State * tape) unit :=
  s ← st_fst st_get;
  '(rk, ck) ← st_lift (KDFRoot (RK s) dhOut);
  st_fst (st_modify (set_root_send rk ck)).
Definition root_recv_value (dhOut : key32) : ST (State * tape) unit :=
  s ← st_fst st_get;
  '(rk, ck) ← st_lift (KDFRoot (RK s) dhOut);
  st_fst (st_modify (set_root_recv rk ck)).
Definition see_value (k : key32) : ST (State * tape) unit := st_fst (st_modify (fun s => set_SeenDH ({[k]} ∪ SeenDH s) s)).

Definition initiator_value (x3 : Result) : ST (State * tape) unit :=
  match RemoteRatchetKey x3 with
  | None => st_err (ErrText "ratchet: initiator missing remote ratchet key")
  | Some dhr =>
      _ ← st_fst (st_modify (set_DHr (Some dhr)));
      _ ← see_value dhr;
      dhs ← match InitialChainKey x3, LocalEphemeral x3 with
            | Some ck, _ => _ ← st_fst (st_modify (fun s => set_recv ck (Nr s) s)); st_snd GenerateKeyPair
            | None, Some kp => mret kp
            | None, None => st_snd GenerateKeyPair
            end;
      _ ← st_fst (st_modify (set_DHs (Some dhs)));
      dhOut ← st_lift (DH (PrivateKey dhs) dhr);
      root_send_value dhOut
  end.

Definition responder_value (x3 : Result) : ST (State * tape) unit :=
  let remoteDH := msg_EphemeralKey (InitialMessage x3) in
  _ ← st_fst (st_modify (set_DHr (Some remoteDH)));
  _ ← see_value remoteDH;
  dhs ← match LocalRatchetKey x3 with Some kp => mret kp | None => st_snd GenerateKeyPair end;
  _ ← st_fst (st_modify (set_DHs (Some dhs)));
  match InitialChainKey x3 with
  | Some ck => st_fst (st_modify (fun s => set_send ck (Ns s) s))
  | None =>
      dhRecv ← st_lift (DH (PrivateKey dhs) remoteDH);
      _ ← root_recv_value dhRecv;
      newDH ← st_snd GenerateKeyPair;
      dhSend ← st_lift (DH (PrivateKey newDH) remoteDH);
      _ ← root_send_value dhSend;
      st_fst (st_modify (set_DHs (Some newDH)))
  end.

Definition initialize_value (x3 : Result) (isInitiator : bool) : ST (State * tape) unit :=
  if isInitiator then initiator_value x3 else responder_value x3.

(** The state that the steps leave is the result. *)
Definition result_of (out : (State * tape) * res unit) : tape * res State :=
  (snd (fst out), match snd out with Ok _ => Ok (fst (fst out)) | Err e => Err e | Panic => Panic end).

Lemma initialize_steps x3 isInitiator t :
  SharedSecret x3 <> zero32 ->
  Ratchet.InitializeState x3 isInitiator t = result_of (initialize_value x3 isInitiator (empty_state (SharedSecret x3), t)).
Proof.
  intros Hss. unfold Ratchet.InitializeState, InitializeStateWithGenerator. cbn [default].
  rewrite st_bind_check by (by apply bool_decide_eq_false_2). destruct isInitiator; cbn [initialize_value].
  - unfold initiator_value, root_send_value. destruct (RemoteRatchetKey x3) as [dhr|]; [|done].
    destruct (InitialChainKey x3) as [ck|], (LocalEphemeral x3) as [kp|]; unfold mbind, st_bind, st_lift, st_fst, st_snd, st_modify, see_value, mret, st_ret; cbn -[GenerateKeyPair DH KDFRoot];
      rewrite ?union_empty_r_L; try (destruct (GenerateKeyPair t) as [t' [dhs|e|]]; [|done..]);
      (destruct (DH _ _) as [dhOut|e|]; [|done..]); by destruct (KDFRoot _ _) as [[rk cks]|e|].
  - unfold responder_value, root_send_value, root_recv_value, mbind, st_bind, st_lift, st_fst, st_snd, st_modify, see_value, mret, st_ret; cbn -[GenerateKeyPair DH KDFRoot].
    rewrite ?union_empty_r_L. destruct (LocalRatchetKey x3) as [kp|]; [|destruct (GenerateKeyPair t) as [t' [kp|e|]]; [|done..]];
      (destruct (InitialChainKey x3) as [ck|]; [done|]);
      (destruct (DH _ _) as [dhRecv|e|]; [|done..]); cbn -[GenerateKeyPair DH KDFRoot];
      (destruct (KDFRoot _ _) as [[rk ckr]|e|]; [|done..]); cbn -[GenerateKeyPair DH KDFRoot];
      (destruct (GenerateKeyPair _) as [t2 [newDH|e|]]; [|done..]);
      (destruct (DH _ _) as [dhSend|e|]; [|done..]); cbn -[GenerateKeyPair DH KDFRoot]; by destruct (KDFRoot _ _) as [[rk2 cks]|e|].
Qed.

Lemma sim_snd {A} p h t s (m : ST tape A) : repr h p s -> simulates p h t (st_snd m) (st_snd m (s, t)).
Proof. intros Hr. unfold simulates, st_snd. destruct (m t) as [t' r]. by exists h. Qed.

Lemma sim_root_send p h t s dhOut : repr h p s -> simulates p h t (st_fst (root_step p dhOut hset_CKs)) (root_send_value dhOut (s, t)).
Proof.
  intros Hr. unfold root_send_value. rewrite (st_bind_run _ _ _ (s, t) s) by done. pose proof (root_send_ok p h s dhOut) as Ho.
  unfold mbind, st_bind, st_lift. destruct (KDFRoot (RK s) dhOut) as [[rk ck]|e|]; apply sim_fst; by apply (Ho _ _ Hr).
Qed.
Lemma sim_root_recv p h t s dhOut : repr h p s -> simulates p h t (st_fst (root_step p dhOut hset_CKr)) (root_recv_value dhOut (s, t)).
Proof.
  intros Hr. unfold root_recv_value. rewrite (st_bind_run _ _ _ (s, t) s) by done. pose proof (root_recv_ok p h s dhOut) as Ho.
  unfold mbind, st_bind, st_lift. destruct (KDFRoot (RK s) dhOut) as [[rk ck]|e|]; apply sim_fst; by apply (Ho _ _ Hr).
Qed.

(** A value-level assignment, and a heap-level step that makes it. *)
Lemma sim_assign {B} p h t s (m : ST heap unit) (f : State -> State) (k : unit -> ST (heap * tape) B) (kv : unit -> ST (State * tape) B) :
  hsim p h m (f s) (Ok tt) -> (forall h1, repr h1 p (f s) -> simulates p h1 t (k tt) (kv tt (f s, t))) ->
  simulates p h t (st_fst m ≫= k) ((st_fst (st_modify f) ≫= kv) (s, t)).
Proof. intros Hm Hk. rewrite (st_bind_run _ _ _ (f s, t) tt) by done. by eapply sim_step. Qed.

Lemma sim_new_pair {B} p h t s k (m : unit -> ST (heap * tape) B) (kv : unit -> ST (State * tape) B) :
  repr h p s -> (forall h1, repr h1 p (set_DHs (Some k) s) -> simulates p h1 t (m tt) (kv tt (set_DHs (Some k) s, t))) ->
  simulates p h t (q ← st_fst (new (OPair k)); u ← st_fst (set_state p (hset_DHs (Some q))); m u) ((st_fst (st_modify (set_DHs (Some k))) ≫= kv) (s, t)).
Proof.
  intros Hr Hk. rewrite (st_bind_run _ _ _ (set_DHs (Some k) s, t) tt) by done.
  by eapply (sim_new p h t s _ (fun q => hset_DHs (Some q))); [exact (new_pair_ok _ _ _ k Hr)|exact Hk|].
Qed.

(** The same as a last step. *)
Lemma sim_last_pair p h t s k : repr h p s ->
  simulates p h t (q ← st_fst (new (OPair k)); st_fst (set_state p (hset_DHs (Some q)))) (st_fst (st_modify (set_DHs (Some k))) (s, t)).
Proof.
  intros Hr. destruct (new_pair_ok p h s k Hr) as (h1 & E & R & V). exists h1. split; [|done].
  destruct (new_ok p h s (OPair k) Hr) as (h0 & l & En & _). rewrite (st_bind_run _ _ _ _ _ En) in E.
  rewrite (st_bind_run _ _ _ (h0, t) l) by (unfold st_fst; by rewrite En). unfold st_fst. by rewrite E.
Qed.

Lemma set_DHr_ok p h s q k : repr h p s -> key_at h q (Some k) -> hsim p h (set_state p (hset_DHr q)) (set_DHr (Some k) s) (Ok tt).
Proof.
  intros Hr Hk. destruct (set_state_ok p h s (hset_DHr q) (set_DHr (Some k) s) Hr) as (h1 & E & R & V & _); [|by exists h1].
  intros st _ [S1 S2 S3 S4 S5]. by split_and!.
Qed.

Lemma initiator_ok p h t s x3 remote :
  repr h p s -> key_at h remote (RemoteRatchetKey x3) ->
  simulates p h t (initialize_initiator x3 remote GenerateKeyPair p) (initiator_value x3 (s, t)).
Proof.
  intros Hr Hk. unfold initialize_initiator, initiator_value.
  apply (sim_read _ _ _ _ _ (RemoteRatchetKey x3)).
  { unfold load_key, key_at in *. destruct remote, (RemoteRatchetKey x3); try done. by rewrite Hk. }
  destruct (RemoteRatchetKey x3) as [dhr|]; [|by apply sim_ret].
  apply sim_assign; [by apply set_DHr_ok|]. intros h1 R1. apply sim_assign; [exact (put_seen_ok _ _ _ dhr R1)|]. intros h2 R2. apply sim_bind.
  { destruct (InitialChainKey x3) as [ck|].
    - apply sim_assign; [scalar_step|]. intros h3 R3. by apply sim_snd.
    - destruct (LocalEphemeral x3); [by apply sim_ret|]. by apply sim_snd. }
  intros h3 s3 t3 dhs R3. apply (sim_new_pair _ _ _ _ dhs); [done|]. intros h4 R4. apply sim_lift; [done|]. intros dhOut _. by apply sim_root_send.
Qed.

Lemma responder_ok p h t s x3 :
  repr h p s -> simulates p h t (initialize_responder x3 GenerateKeyPair p) (responder_value x3 (s, t)).
Proof.
  intros Hr. unfold initialize_responder, responder_value. set (k := msg_EphemeralKey (InitialMessage x3)).
  eapply sim_new; [exact (new_key_ok _ _ _ k Hr)| |exact Hr]. intros h1 R1. rewrite (st_bind_run _ _ _ (set_DHr (Some k) s, t) tt) by done.
  apply sim_assign; [exact (put_seen_ok _ _ _ k R1)|]. intros h2 R2. apply sim_bind.
  { destruct (LocalRatchetKey x3); [by apply sim_ret|]. by apply sim_snd. }
  intros h3 s3 t3 dhs R3. apply (sim_new_pair _ _ _ _ dhs); [done|]. intros h4 R4. destruct (InitialChainKey x3) as [ck|].
  { apply sim_fst. scalar_step. }
  apply sim_lift; [done|]. intros dhRecv _. apply sim_bind; [by apply sim_root_recv|]. intros h5 s5 t5 [] R5.
  apply sim_tape; [done|]. intros newDH t6. apply sim_lift; [done|]. intros dhSend _. apply sim_bind; [by apply sim_root_send|].
  intros h6 s6 t7 [] R6. by apply sim_last_pair.
Qed.
End refinement.

(** ** Any number of states on one heap *)

Inductive op : Type :=
  | OpDecrypt (msg : Message) (associatedData : bytes)
  | OpEncrypt (plaintext associatedData : bytes)
  | OpAdvance (header : Header)
  | OpNext
  | OpRatchet.

Inductive outcome : Type :=
  | RBytes (b : bytes)
  | RMessage (m : Message)
  | RKey (k : key32)
  | RHeaderKey (h : Header) (k : key32)
  | RUnit
  | RPtr (p : ptr).

Section many.
Context `{Primitives}.

Definition run_heap (p : ptr) (o : op) : ST (heap * tape) outcome :=
  match o with
  | OpDecrypt msg ad => b ← Decrypt p msg ad; mret (RBytes b)
  | OpEncrypt pt ad => m ← st_fst (Encrypt p pt ad); mret (RMessage m)
  | OpAdvance header => k ← AdvanceForHeader p header; mret (RKey k)
  | OpNext => hk ← st_fst (NextSendingMessageKey p); mret (RHeaderKey hk.1 hk.2)
  | OpRatchet => _ ← RatchetOnSend p; mret RUnit
  end.

Definition run_value (o : op) : ST (State * tape) outcome :=
  match o with
  | OpDecrypt msg ad => b ← Ratchet.Decrypt msg ad; mret (RBytes b)
  | OpEncrypt pt ad => m ← st_fst (Ratchet.Encrypt pt ad); mret (RMessage m)
  | OpAdvance header => k ← Ratchet.AdvanceForHeader header; mret (RKey k)
  | OpNext => hk ← st_fst Ratchet.NextSendingMessageKey; mret (RHeaderKey hk.1 hk.2)
  | OpRatchet => _ ← Ratchet.RatchetOnSend; mret RUnit
  end.

Lemma heap_run_ok p o h t s : repr h p s -> simulates p h t (run_heap p o) (run_value o (s, t)).
Proof.
  intros Hr. destruct o; cbn [run_heap run_value]; apply sim_bind; try (intros; by apply sim_ret).
  - destruct (heap_Decrypt_ok p h t s msg associatedData Hr) as (h1 & E1 & R1 & V1 & _). by exists h1.
  - unfold st_fst at 2. destruct (Ratchet.Encrypt plaintext associatedData s) as [s' r] eqn:E. apply sim_fst. by apply (heap_Encrypt_ok _ _ s).
  - by apply heap_AdvanceForHeader_ok.
  - unfold st_fst at 2. destruct (Ratchet.NextSendingMessageKey s) as [s' r] eqn:E. apply sim_fst. by apply (heap_NextSendingMessageKey_ok _ _ s).
  - by apply heap_RatchetOnSend_ok.
Qed.

(** Calls on the states of a program, cloning among them. *)
Inductive call : Type := Call (p : ptr) (o : op) | CallClone (p : ptr).

Definition run_call (c : call) : ST (heap * tape) outcome :=
  match c with
  | Call p o => run_heap p o
  | CallClone p => q ← st_fst (Clone p); mret (RPtr q)
  end.

(** The calls of a trace run with these results; a call that fails does not end it. *)
Fixpoint heap_runs (tr : list (call * res outcome)) (w w' : heap * tape) : Prop :=
  match tr with
  | [] => w' = w
  | (c, r) :: tr => snd (run_call c w) = r /\ heap_runs tr (fst (run_call c w)) w'
  end.

(** The specification: every state is a value of its own. *)
Inductive value_step : gmap ptr State * tape -> call -> res outcome -> gmap ptr State * tape -> Prop :=
  | vs_call ws t p o s s' t' r :
      ws !! p = Some s -> run_value o (s, t) = ((s', t'), r) -> value_step (ws, t) (Call p o) r (<[p := s']> ws, t')
  | vs_clone ws t p q s :
      ws !! p = Some s -> ws !! q = None -> value_step (ws, t) (CallClone p) (Ok (RPtr q)) (<[q := s]> ws, t).

Fixpoint value_runs (tr : list (call * res outcome)) (v v' : gmap ptr State * tape) : Prop :=
  match tr with
  | [] => v' = v
  | (c, r) :: tr => exists v1, value_step v c r v1 /\ value_runs tr v1 v'
  end.

(** The calls are on states of the program: given ones, or clones made before. *)
Fixpoint on_states (D : gset ptr) (tr : list (call * res outcome)) : Prop :=
  match tr with
  | [] => True
  | (Call p _, _) :: tr => p ∈ D /\ on_states D tr
  | (CallClone p, r) :: tr => p ∈ D /\ on_states (match r with Ok (RPtr q) => {[q]} ∪ D | _ => D end) tr
  end.

(** The heap holds these states, and no two of them share an object that is written to. *)
Definition represents (h : heap) (ws : gmap ptr State) : Prop :=
  (forall p s, ws !! p = Some s -> repr h p s) /\
  forall p q, p <> q -> is_Some (ws !! p) -> is_Some (ws !! q) -> footprint h p ## footprint h q.

Lemma footprint_objects h p s l :
  repr h p s -> l ∈ footprint h p -> exists o, h !! l = Some o /\ match o with OPair _ | OKey _ => False | _ => True end.
Proof.
  intros (st & Hp & [_ _ _ (l4 & E4 & H4) (l5 & E5 & H5)]). unfold footprint. rewrite Hp, E4, E5. cbn [ptr_set].
  rewrite !elem_of_union, !elem_of_singleton. intros [[-> | ->] | ->]; eexists; (split; [eassumption|done]).
Qed.

Lemma footprint_self h p s : repr h p s -> p ∈ footprint h p.
Proof. intros (st & Hp & _). unfold footprint. rewrite Hp. set_solver. Qed.

(** What a method of one state does is invisible to another one. *)
Lemma other_state p q h h' sp sq :
  repr h p sp -> repr h q sq -> footprint h p ## footprint h q -> evolves p h h' ->
  repr h' q sq /\ footprint h' q = footprint h q /\ footprint h' p ## footprint h' q.
Proof.
  intros Hp (st & Hq & Hs) Hd [Hst Hf]. assert (repr h q sq) as Hrq by (by exists st).
  assert (h' !! q = Some (OState st)) as Hq'.
  { apply Hst; [done|]. pose proof (footprint_self _ _ _ Hrq). set_solver. }
  assert (footprint h' q = footprint h q) as Ef by (unfold footprint; by rewrite Hq, Hq').
  assert (stands_for h' st sq) as Hs'.
  { destruct Hs as [H1 H2 H3 (l4 & E4 & H4) (l5 & E5 & H5)].
    assert (l4 ∈ footprint h q) as F4 by (unfold footprint; rewrite Hq, E4; set_solver).
    assert (l5 ∈ footprint h q) as F5 by (unfold footprint; rewrite Hq, E5; set_solver).
    split; [done| | |exists l4; split; [done|apply Hst; [done|set_solver]]|exists l5; split; [done|apply Hst; [done|set_solver]]].
    - unfold pair_at in *. destruct (hDHs st) as [l|], (DHs sq); try done. apply Hst; [done|]. intros (o & Ho & Hk)%(footprint_objects _ _ _ _ Hp).
      rewrite H2 in Ho. by injection Ho as <-.
    - unfold key_at in *. destruct (hDHr st) as [l|], (DHr sq); try done. apply Hst; [done|]. intros (o & Ho & Hk)%(footprint_objects _ _ _ _ Hp).
      rewrite H3 in Ho. by injection Ho as <-. }
  split; [by exists st|]. split; [done|]. rewrite Ef. intros l [Hl|Hl]%Hf Hlq; [set_solver|].
  destruct (footprint_objects _ _ _ _ Hrq Hlq) as (o & Ho & _). congruence.
Qed.

Lemma represents_call h h' ws p s s' :
  represents h ws -> ws !! p = Some s -> repr h' p s' -> evolves p h h' -> represents h' (<[p := s']> ws).
Proof.
  intros [Hr Hd] Hp Hr' Hv. assert (forall q sq, q <> p -> ws !! q = Some sq ->
    repr h' q sq /\ footprint h' q = footprint h q /\ footprint h' p ## footprint h' q) as Ho.
  { intros q sq Hn Hq. apply (other_state p q h h' s sq); [by apply Hr|by apply Hr|apply Hd; [done|eauto..]|done]. }
  split.
  - intros q sq. destruct (decide (q = p)) as [->|Hn].
    + rewrite lookup_insert_eq. by intros [= <-].
    + rewrite lookup_insert_ne by done. intros Hq. by apply (Ho q sq).
  - intros q1 q2 Hn H1 H2. destruct (decide (q1 = p)) as [->|N1]; [|destruct (decide (q2 = p)) as [->|N2]].
    + rewrite lookup_insert_ne in H2 by done. destruct H2 as [s2 H2]. by apply (Ho q2 s2).
    + rewrite lookup_insert_ne in H1 by done. destruct H1 as [s1 H1]. symmetry. by apply (Ho q1 s1).
    + rewrite lookup_insert_ne in H1, H2 by done. destruct H1 as [s1 H1], H2 as [s2 H2].
      destruct (Ho q1 s1 N1 H1) as (_ & -> & _). destruct (Ho q2 s2 N2 H2) as (_ & -> & _). apply Hd; eauto.
Qed.

Lemma represents_new h h' ws q s :
  represents h ws -> stable ∅ h h' -> repr h' q s -> (forall l, l ∈ footprint h' q -> h !! l = None) ->
  ws !! q = None /\ represents h' (<[q := s]> ws).
Proof.
  intros [Hr Hd] Hst Hq Hnew. assert (ws !! q = None) as Hnq.
  { destruct (ws !! q) as [sq|] eqn:E; [|done]. destruct (Hr q sq E) as (st & Hs & _).
    by rewrite (Hnew q (footprint_self _ _ _ Hq)) in Hs. }
  assert (forall k sk, ws !! k = Some sk -> repr h' k sk /\ footprint h' k = footprint h k /\ footprint h' q ## footprint h' k) as Ho.
  { intros k sk Hk. destruct (stable_repr h h' k sk Hst (Hr k sk Hk)) as [R V]. destruct (Hr k sk Hk) as (st & Hks & _).
    assert (footprint h' k = footprint h k) as Ef by (unfold footprint; by rewrite Hks, (stable_at _ _ _ _ Hst Hks)).
    split_and!; [done|done|]. rewrite Ef. intros l Hl Hlk. destruct (footprint_objects _ _ _ _ (Hr k sk Hk) Hlk) as (o & Eo & _).
    rewrite (Hnew l Hl) in Eo. done. }
  split; [done|]. split.
  - intros k sk. destruct (decide (k = q)) as [->|Hn].
    + rewrite lookup_insert_eq. by intros [= <-].
    + rewrite lookup_insert_ne by done. intros Hk. by apply (Ho k sk).
  - intros q1 q2 Hn H1 H2. destruct (decide (q1 = q)) as [->|N1]; [|destruct (decide (q2 = q)) as [->|N2]].
    + rewrite lookup_insert_ne in H2 by done. destruct H2 as [s2 H2]. by apply (Ho q2 s2).
    + rewrite lookup_insert_ne in H1 by done. destruct H1 as [s1 H1]. symmetry. by apply (Ho q1 s1).
    + rewrite lookup_insert_ne in H1, H2 by done. destruct H1 as [s1 H1], H2 as [s2 H2].
      destruct (Ho q1 s1 H1) as (_ & -> & _). destruct (Ho q2 s2 H2) as (_ & -> & _). apply Hd; eauto.
Qed.

Lemma represents_stable h h' ws : stable ∅ h h' -> represents h ws -> represents h' ws.
Proof.
  intros Hst [Hr Hd]. assert (forall p s, ws !! p = Some s -> footprint h' p = footprint h p) as Ef.
  { intros p s Hp. destruct (Hr p s Hp) as (st & Hs & _). unfold footprint. by rewrite Hs, (stable_at _ _ _ _ Hst Hs). }
  split; [intros p s Hp; by apply (stable_repr h h' p s Hst), Hr|].
  intros p q Hn [sp Hp] [sq Hq]. rewrite (Ef p sp Hp), (Ef q sq Hq). apply Hd; eauto.
Qed.

Lemma run_call_clone h t ws p s :
  represents h ws -> ws !! p = Some s ->
  exists h' q, run_call (CallClone p) (h, t) = ((h', t), Ok (RPtr q)) /\ ws !! q = None /\ represents h' (<[q := s]> ws).
Proof.
  intros Hr Hp. destruct (heap_Clone_ok p h s (proj1 Hr p s Hp)) as (h1 & q & E & _ & Rq & Hst & Hnew). exists h1, q.
  cbn [run_call]. rewrite (st_bind_run _ _ _ (h1, t) q) by (unfold st_fst; by rewrite E). split; [done|].
  by apply (represents_new h h1 ws q s).
Qed.

(** A state of its own is added, made from the result of a handshake. *)
Lemma initialize_ok h t ws x3 remote isInitiator :
  represents h ws -> key_at h remote (RemoteRatchetKey x3) ->
  exists h' r, InitializeState x3 remote isInitiator (h, t) = ((h', fst (Ratchet.InitializeState x3 isInitiator t)), r) /\
    match snd (Ratchet.InitializeState x3 isInitiator t) with
    | Ok s => exists p, r = Ok p /\ ws !! p = None /\ represents h' (<[p := s]> ws)
    | Err e => r = Err e /\ represents h' ws
    | Panic => r = Panic /\ represents h' ws
    end.
Proof.
  intros Hr Hk. unfold InitializeState. destruct (decide (SharedSecret x3 = zero32)) as [Ez|Hss].
  { unfold Ratchet.InitializeState, InitializeStateWithGenerator. rewrite bool_decide_eq_true_2 by done. by exists h, (Err (ErrText "ratchet: shared secret must be set")). }
  rewrite st_bind_check by (by apply bool_decide_eq_false_2). rewrite (initialize_steps x3 isInitiator t Hss).
  destruct (new_stable h (OSkipped ∅)) as (h1 & l1 & E1 & N1 & P1 & S1). rewrite (st_bind_run _ _ _ (h1, t) l1) by (unfold st_fst; by rewrite E1).
  destruct (new_stable h1 (OSeen ∅)) as (h2 & l2 & E2 & N2 & P2 & S2). rewrite (st_bind_run _ _ _ (h2, t) l2) by (unfold st_fst; by rewrite E2).
  match goal with |- context [new (OState ?x)] => set (st := x) end.
  destruct (new_stable h2 (OState st)) as (h3 & p & E3 & N3 & P3 & S3). rewrite (st_bind_run _ _ _ (h3, t) p) by (unfold st_fst; by rewrite E3).
  pose proof (stable_trans _ _ _ _ S1 (stable_trans _ _ _ _ S2 S3)) as S03. set (s0 := empty_state (SharedSecret x3)).
  assert (repr h3 p s0) as R3.
  { exists st. split; [done|]. split; try done.
    - exists l1. split; [done|]. apply (stable_at _ _ _ _ S3). by apply (stable_at _ _ _ _ S2).
    - exists l2. split; [done|]. by apply (stable_at _ _ _ _ S3). }
  assert (simulates p h3 t (if isInitiator then initialize_initiator x3 remote GenerateKeyPair p else initialize_responder x3 GenerateKeyPair p)
    (initialize_value x3 isInitiator (s0, t))) as (h4 & E4 & R4 & V4).
  { destruct isInitiator; [apply initiator_ok; [done|by apply (key_at_stable h)]|by apply responder_ok]. }
  assert (stable ∅ h h4 /\ forall l, l ∈ footprint h4 p -> h !! l = None) as [S4 F4].
  { apply (evolves_new p h h3); [done| |done]. intros l. unfold footprint. rewrite P3. cbn [st hMKSkipped hSeenDH ptr_set].
    rewrite !elem_of_union, !elem_of_singleton. intros [[-> | ->] | ->].
    - apply (stable_none _ _ _ S1), (stable_none _ _ _ S2), N3.
    - done.
    - by apply (stable_none _ _ _ S1). }
  unfold result_of. destruct (initialize_value x3 isInitiator (s0, t)) as [[s' t'] r]. cbn [fst snd] in *.
  destruct r as [[]|e|].
  - exists h4, (Ok p). rewrite (st_bind_run _ _ _ _ _ E4). split; [done|]. exists p. split; [done|]. by apply (represents_new h).
  - exists h4, (Err e). unfold mbind, st_bind. rewrite E4. split_and!; [done|done|by apply (represents_stable h)].
  - exists h4, Panic. unfold mbind, st_bind. rewrite E4. split_and!; [done|done|by apply (represents_stable h)].
Qed.
End many.

(** C4: states are values. The methods of the ratchet work on pointers: the keys
    and the two maps of a state are objects of the heap, the maps are updated in
    place, and [Decrypt] works on a clone that it then copies over the state. Let a
    heap hold any number of states that share no object that is written to. Then
    whatever sequence of calls is made on them and on clones of them, failing calls
    included, every call returns what the methods of [Ratchet] return for the
    values of the states, the state it is called on then has the new value, and no
    other state has changed; and the states still share nothing. [InitializeState]
    adds such a state, although it keeps a pointer of the handshake's result.
    Moreover a call of [Decrypt] that fails has not changed a single object. *)
Theorem ratchet_heap_refines (P : Primitives) (h : heap) ws :
  represents h ws ->
  (forall tr t h' t', heap_runs tr (h, t) (h', t') -> on_states (dom ws) tr ->
    exists ws', value_runs tr (ws, t) (ws', t') /\ represents h' ws') /\
  (forall x3 remote isInitiator t, key_at h remote (RemoteRatchetKey x3) ->
    let '(t', v) := Ratchet.InitializeState x3 isInitiator t in
    exists h' r, RatchetHeap.InitializeState x3 remote isInitiator (h, t) = ((h', t'), r) /\
      match v with
      | Ok s => exists p, r = Ok p /\ ws !! p = None /\ represents h' (<[p := s]> ws)
      | Err e => r = Err e /\ represents h' ws
      | Panic => r = Panic /\ represents h' ws
      end) /\
  forall p msg ad t h' t' r, p ∈ dom ws -> RatchetHeap.Decrypt p msg ad (h, t) = ((h', t'), r) -> is_ok r = false ->
    forall l o, h !! l = Some o -> h' !! l = Some o.
Proof.
  intros Hr. split; [|split].
  - intros tr t h' t' Hrun Hon. revert h ws t Hr Hrun Hon. induction tr as [|[c r] tr IH]; intros h ws t Hr Hrun Hon.
    { injection Hrun as -> ->. by exists ws. }
    cbn [heap_runs] in Hrun. destruct Hrun as [Er Hrun]. destruct c as [p o|p]; cbn [on_states] in Hon; destruct Hon as [[s Hp]%elem_of_dom Hon].
    + destruct (heap_run_ok p o h t s (proj1 Hr p s Hp)) as (h1 & E & R1 & V1). destruct (run_value o (s, t)) as [[s1 t1] r1] eqn:Ev. cbn [fst snd] in *.
      cbn [run_call] in Er, Hrun. rewrite E in Er, Hrun. cbn [fst snd] in Er, Hrun. subst r1.
      destruct (IH h1 (<[p := s1]> ws) t1) as (ws' & Hv & Hr'); [by apply (represents_call h h1 ws p s s1)|done| |].
      { rewrite dom_insert_lookup_L by eauto. done. }
      exists ws'. split; [|done]. exists (<[p := s1]> ws, t1). split; [by apply (vs_call ws t p o s s1 t1)|done].
    + destruct (run_call_clone h t ws p s Hr Hp) as (h1 & q & E & Hq & Hr1). rewrite E in Er, Hrun. cbn [fst snd] in Er, Hrun. subst r.
      destruct (IH h1 (<[q := s]> ws) t) as (ws' & Hv & Hr'); [done|done|by rewrite dom_insert_L|].
      exists ws'. split; [|done]. exists (<[q := s]> ws, t). split; [by apply (vs_clone ws t p q s)|done].
  - intros x3 remote isInitiator t Hk. pose proof (initialize_ok h t ws x3 remote isInitiator Hr Hk) as Hi.
    by destruct (Ratchet.InitializeState x3 isInitiator t).
  - intros p msg ad t h' t' r [s Hp]%elem_of_dom E Hok. destruct (heap_Decrypt_ok p h t s msg ad (proj1 Hr p s Hp)) as (h1 & E1 & _ & _ & Hst).
    rewrite E in E1. injection E1 as <- _ ->. intros l o. by apply (stable_at _ _ _ _ (Hst Hok)).
Qed.

(** An example: both ends of a handshake on one heap. *)
Module HeapDemo.
#[local] Existing Instance Toy.primitives.

Definition ck : option key32 := Some (to_arr 32 [Byte.x06]).
(** The key behind [x3.RemoteRatchetKey] *)
Definition h0 : heap := {[ 1%positive := OKey (PublicKey (toy_pair 41)) ]}.
Definition run_A := RatchetHeap.InitializeState (demo_result true ck) (Some 1%positive) true (h0, z2b <$> seqZ 1 200).
Definition pA : ptr := get_ok 1%positive (snd run_A).
Definition run_B := RatchetHeap.InitializeState (demo_result false ck) None false (fst run_A).
Definition pB : ptr := get_ok 1%positive (snd run_B).
Definition msg : Message := get_ok (mkMessage (mkHeader zero32 0 0) []) (snd (RatchetHeap.Encrypt pA (str "hi") [] (fst (fst run_B)))).

(** A clone is made of the one, its original encrypts, and the other one gets the
    message twice. *)
Definition calls : list call := [CallClone pA; Call pA (OpEncrypt (str "hi") []); Call pB (OpDecrypt msg []); Call pB (OpDecrypt msg [])].

Fixpoint trace (cs : list call) (w : heap * tape) : list (call * res outcome) * (heap * tape) :=
  match cs with
  | [] => ([], w)
  | c :: cs => let '(w1, r) := run_call c w in let '(tr, w2) := trace cs w1 in ((c, r) :: tr, w2)
  end.

Lemma trace_runs cs w : heap_runs (fst (trace cs w)) w (snd (trace cs w)).
Proof.
  revert w. induction cs as [|c cs IH]; intros w; [done|]. cbn [trace]. destruct (run_call c w) as [w1 r] eqn:E.
  specialize (IH w1). destruct (trace cs w1) as [tr w2]. cbn [fst snd heap_runs] in *. by rewrite E.
Qed.

Lemma trace_on_states cs w D : Forall (fun c => match c with Call p _ | CallClone p => p ∈ D end) cs -> on_states D (fst (trace cs w)).
Proof.
  revert w D. induction cs as [|c cs IH]; intros w D; [done|]. cbn [trace]. destruct (run_call c w) as [w1 r].
  intros [Hc Hcs]%Forall_cons. specialize (IH w1). destruct (trace cs w1) as [tr w2]. cbn [fst snd] in *.
  destruct c as [p o|p]; cbn [on_states]; (split; [done|]); apply IH; [done|].
  eapply Forall_impl; [exact Hcs|]. intros [p' o'|p'] Hp; repeat case_match; set_solver.
Qed.

Definition tr : list (call * res outcome) := fst (trace calls (fst run_B)).
End HeapDemo.

Lemma ratchet_heap_refines_witness :
  let P := Toy.primitives in
  (exists ws ws' w', value_runs HeapDemo.tr (ws, snd (fst HeapDemo.run_B)) (ws', w')) /\
  ((is_ok ∘ snd) <$> HeapDemo.tr) = [true; true; true; false].
Proof.
  intros P. split; [|vm_compute; reflexivity].
  assert (represents HeapDemo.h0 ∅) as H0 by (split; intros ? ?; [done|intros _ [? ?]; done]).
  destruct (ratchet_heap_refines P HeapDemo.h0 ∅ H0) as (_ & HA & _).
  specialize (HA (demo_result true HeapDemo.ck) (Some 1%positive) true (z2b <$> seqZ 1 200) eq_refl).
  destruct (Ratchet.InitializeState (demo_result true HeapDemo.ck) true (z2b <$> seqZ 1 200)) as [tA vA].
  destruct HA as (hA & rA & ErA & HA). change (HeapDemo.run_A = ((hA, tA), rA)) in ErA.
  assert (is_ok (snd HeapDemo.run_A) = true) as OA by (vm_compute; reflexivity). rewrite ErA in OA.
  destruct vA as [sA|e|]; [|destruct HA as [-> _]; discriminate OA..]. destruct HA as (pA & -> & _ & HrA).
  assert (HeapDemo.pA = pA) as EpA by (unfold HeapDemo.pA; by rewrite ErA).
  destruct (ratchet_heap_refines P hA _ HrA) as (_ & HB & _). specialize (HB (demo_result false HeapDemo.ck) None false tA I).
  destruct (Ratchet.InitializeState (demo_result false HeapDemo.ck) false tA) as [tB vB].
  destruct HB as (hB & rB & ErB & HB).
  assert (HeapDemo.run_B = ((hB, tB), rB)) as ErB' by (unfold HeapDemo.run_B; rewrite ErA; exact ErB).
  assert (is_ok (snd HeapDemo.run_B) = true) as OB by (vm_compute; reflexivity). rewrite ErB' in OB.
  destruct vB as [sB|e|]; [|destruct HB as [-> _]; discriminate OB..]. destruct HB as (pB & -> & _ & HrB).
  assert (HeapDemo.pB = pB) as EpB by (unfold HeapDemo.pB; by rewrite ErB').
  destruct (ratchet_heap_refines P hB _ HrB) as (Hrun & _ & _).
  pose proof (HeapDemo.trace_runs HeapDemo.calls (hB, tB)) as Ht.
  assert (HeapDemo.tr = fst (HeapDemo.trace HeapDemo.calls (hB, tB))) as Etr
    by exact (f_equal (fun x => fst (HeapDemo.trace HeapDemo.calls (fst x))) ErB').
  assert (on_states (dom (<[pB := sB]> (<[pA := sA]> ∅ : gmap ptr State))) HeapDemo.tr) as Hon.
  { rewrite Etr. apply HeapDemo.trace_on_states. unfold HeapDemo.calls. rewrite EpA, EpB.
    assert (pA ∈ dom (<[pB := sB]> (<[pA := sA]> ∅ : gmap ptr State))) as HpA by (apply dom_insert_subseteq, elem_of_dom_2 with sA, lookup_insert_eq).
    assert (pB ∈ dom (<[pB := sB]> (<[pA := sA]> ∅ : gmap ptr State))) as HpB by (apply elem_of_dom_2 with sB, lookup_insert_eq).
    do 4 (apply Forall_cons_2; [first [exact HpA|exact HpB]|]). apply Forall_nil_2. }
  rewrite <- Etr in Ht. destruct (snd (HeapDemo.trace HeapDemo.calls (hB, tB))) as [h' t'].
  destruct (Hrun HeapDemo.tr tB h' t' Ht Hon) as (ws' & Hv & _).
  rewrite ErB'. exists (<[pB := sB]> (<[pA := sA]> ∅)), ws', t'. exact Hv.
Defined.
