(* ===== verification/RatchetTalk.v ===== *)
(** * The Double Ratchet in a conversation

    Two states that are in step: whatever one of them sends next, the other
    derives the same message key for it and the two are in step again, whoever
    speaks and however often the turns change. This is stated for
    [NextSendingMessageKey] and [AdvanceForHeader], the interface the session
    cipher uses. *)

From Stdlib Require Import ZArith Lia.
From stdpp Require Import base gmap list list_numbers vector.
From S2P Require Import Prelude Crypto Keys X3dh Ratchet RatchetProofs.
Import Crypto Keys X3dh Ratchet.

Section talk.
Context {HP : Primitives} {HL : PrimitiveLaws HP}.

(** [A] has a sending chain that [B] has not seen yet, and [A] has received
    everything [B] sent on [B]'s current chain. *)
Record in_step (a b : KeyPair) (ca cb : key32) (A B : State) : Prop := {
  st_ahead : ahead a b ca A B;
  st_unused : Ns A = 0;
  st_follow : exists got, recv_inv (PublicKey b) cb got A;
  st_chain : CKs B = chain_key cb (Z.to_nat (Ns B));
  st_count : Nr A = Ns B;
  st_prev : PN A <= Nr B;
  st_new : PublicKey a ∉ SeenDH B;
  st_A : st_ok A;
  st_B : st_ok B;
  st_dhr : DHr B <> None;
  st_valid : IsValidPublicKey (PublicKey a) = true /\ IsValidPublicKey (PublicKey b) = true
}.

Definition talk (X Y : State) : Prop :=
  (exists a b ca cb, in_step a b ca cb X Y) \/ (exists a b ca cb, in_step a b ca cb Y X).

Lemma talk_sym X Y : talk X Y -> talk Y X.
Proof. unfold talk. tauto. Qed.

(** The randomness of the receiver [Y] of a message of [X]: a new key pair when
    the header shows a new ratchet key, nothing otherwise. The new key is
    usable, and one that [X] has not seen. *)
Definition turn_ok (X : State) (header : Header) (Y : State) (t t' : tape) : Prop :=
  if current_dh Y (hdr_DH header) then t' = t
  else exists b' z, GenerateKeyPair t = (t', Ok b') /\ DH (PrivateKey b') (hdr_DH header) = Ok z /\
    IsValidPublicKey (PublicKey b') = true /\ PublicKey b' ∉ SeenDH X.

Lemma NextSending_ok X X' header mk :
  NextSendingMessageKey X = (X', Ok (header, mk)) ->
  exists dhs, DHs X = Some dhs /\ CKs X <> zero32 /\ Ns X <> MaxUint32 /\ header = mkHeader (PublicKey dhs) (PN X) (Ns X) /\
    mk = snd (KDFChain (CKs X)) /\ X' = set_send (fst (KDFChain (CKs X))) (u32 (Ns X + 1)) X.
Proof.
  unfold NextSendingMessageKey. unfold mbind at 1, st_bind at 1, st_get. destruct (DHs X) as [dhs|]; [|done].
  destruct (bool_decide_reflect (CKs X = zero32)); [done|]. rewrite st_bind_check by done.
  destruct (Z.eqb_spec (Ns X) MaxUint32); [done|]. rewrite st_bind_check by done.
  destruct (KDFChain (CKs X)) as [ck k] eqn:Ek. intros [= <- <- <-]. exists dhs. by split_and!.
Qed.

(** Sending and receiving on other chains leave the relation of the keys. *)
Lemma ahead_send a b ck A B x n : ahead a b ck A B -> ahead a b ck A (set_send x n B).
Proof. intros [? ? ? ? ? ? ?]. by split. Qed.

Lemma ahead_recv a b ck A B P n : ahead a b ck A B -> ahead a b ck (received_state P n A) B.
Proof. intros [? ? ? ? ? ? ?]. by split. Qed.

(** The party ahead speaks: the turn changes. *)
Lemma talk_ahead a b ca cb A B A' header mk t t' :
  in_step a b ca cb A B -> NextSendingMessageKey A = (A', Ok (header, mk)) -> turn_ok A header B t t' ->
  exists b' ck' B', AdvanceForHeader header (B, t) = ((B', t'), Ok mk) /\ in_step b' a ck' ca B' A'.
Proof.
  intros [Ha Hu [got Hf] Hc Hn Hp Hnew HA HB Hd [Hva Hvb]] E Ht.
  pose proof (NextSending_st_ok A HA) as HA'. rewrite E in HA'. cbn [fst] in HA'.
  apply NextSending_ok in E as (dhs & Hdhs & Hz & _ & -> & -> & ->). rewrite (ah_A _ _ _ _ _ Ha) in Hdhs. injection Hdhs as <-.
  pose proof (ah_chain _ _ _ _ _ Ha) as Hch. rewrite Hu in Hch, Ht, HA' |- *. cbn [Z.to_nat chain_key] in Hch.
  assert (current_dh B (PublicKey a) = false) as Hcur.
  { unfold current_dh. destruct (DHr B) as [d|] eqn:Ed; [|done]. apply bool_decide_eq_false. intros ->. by apply Hnew, (ok_seen _ HB). }
  unfold turn_ok in Ht. cbn [hdr_DH] in Ht. rewrite Hcur in Ht. destruct Ht as (b' & z & Hg & Hdh & Hvb' & Hnb).
  destruct (Advance_turn a b b' ca A B (mkHeader (PublicKey a) (PN A) 0) t t' z) as (B' & ck' & Ead & Hah & Hri & Hcks & Hns & Hnr & _ & Hpn);
    cbn [hdr_DH hdr_PN hdr_N]; try done.
  { apply HA. } { left. done. } { cbn. by rewrite <- Hch. }
  cbn [hdr_N hdr_DH] in *. exists b', ck', B'. rewrite Hch. split; [exact Ead|].
  assert (st_ok B') as HB' by (eapply AdvanceForHeader_ok in Ead as [? _]; [done|done|done|apply HA]).
  split; [by apply ahead_send|done|by eexists|done|by rewrite Hnr|cbn; lia|done|done|by rewrite Hch in HA'|cbn; by rewrite (ah_dhr _ _ _ _ _ Ha)|done].
Qed.

(** The party behind speaks: the other follows its chain. *)
Lemma talk_behind a b ca cb A B B' header mk t t' :
  in_step a b ca cb A B -> NextSendingMessageKey B = (B', Ok (header, mk)) -> turn_ok B header A t t' ->
  exists A', AdvanceForHeader header (A, t) = ((A', t'), Ok mk) /\ in_step a b ca cb A' B'.
Proof.
  intros [Ha Hu [got Hf] Hc Hn Hp Hnew HA HB Hd [Hva Hvb]] E Ht.
  pose proof (NextSending_st_ok B HB) as HB'. rewrite E in HB'. cbn [fst] in HB'.
  apply NextSending_ok in E as (dhs & Hdhs & Hz & Hm & -> & -> & ->). rewrite (ah_B _ _ _ _ _ Ha) in Hdhs. injection Hdhs as <-.
  unfold turn_ok in Ht. cbn [hdr_DH] in Ht. rewrite (current_dh_true A (PublicKey b)) in Ht by apply Hf. subst t'.
  pose proof (ok_ns _ HB) as Hns. unfold is_u32 in Hns. assert (Ns B < MaxUint32) as Hlt by (unfold MaxUint32 in *; lia).
  pose proof (Advance_next (PublicKey b) cb got A t (mkHeader (PublicKey b) (PN B) (Ns B)) (Ns B)) as Ead.
  cbn [hdr_DH hdr_N] in Ead. rewrite <- Hc in Ead. specialize (Ead Hf eq_refl eq_refl ltac:(lia) (or_intror (eq_sym Hn)) Hz).
  assert (st_ok (received_state (PublicKey b) (Ns B) A)) as HA' by (eapply AdvanceForHeader_ok in Ead as [? _]; [done|done|apply HB|apply HB]).
  rewrite Ead.
  exists (received_state (PublicKey b) (Ns B) A). unfold msg_key. rewrite Hc. split; [done|].
  assert (u32 (Ns B + 1) = Ns B + 1) as Hu32 by (apply u32_id; unfold is_u32, MaxUint32 in *; lia). rewrite Hc, Hu32 in HB'. rewrite Hu32.
  assert (recv_inv (PublicKey b) cb ({[Ns B]} ∪ got) (received_state (PublicKey b) (Ns B) A)) as Hf' by (apply received_inv; [done|lia]).
  split; [by apply ahead_send, ahead_recv|done|by eexists| |cbn; lia|done|done|done|done|done|done].
  cbn. replace (Z.to_nat (Ns B + 1)) with (S (Z.to_nat (Ns B))) by lia. done.
Qed.

(** The header of what a party sends is well formed. *)
Lemma talk_header X Y X' header mk :
  talk X Y -> NextSendingMessageKey X = (X', Ok (header, mk)) ->
  IsValidPublicKey (hdr_DH header) = true /\ is_u32 (hdr_N header) /\ is_u32 (hdr_PN header).
Proof.
  intros Ht E. apply NextSending_ok in E as (d & Hd & _ & _ & -> & _). cbn [hdr_DH hdr_N hdr_PN].
  destruct Ht as [(a & b & ca & cb & Hi)|(a & b & ca & cb & Hi)]; pose proof (st_ahead _ _ _ _ _ _ Hi) as Hah.
  - rewrite (ah_A _ _ _ _ _ Hah) in Hd. injection Hd as <-. split_and!; [apply Hi|apply (st_A _ _ _ _ _ _ Hi)..].
  - rewrite (ah_B _ _ _ _ _ Hah) in Hd. injection Hd as <-. split_and!; [apply Hi|apply (st_B _ _ _ _ _ _ Hi)..].
Qed.

(** Either party speaks. *)
Lemma talk_step X Y X' header mk t t' :
  talk X Y -> NextSendingMessageKey X = (X', Ok (header, mk)) -> turn_ok X header Y t t' ->
  exists Y', AdvanceForHeader header (Y, t) = ((Y', t'), Ok mk) /\ talk X' Y'.
Proof.
  intros [(a & b & ca & cb & Hi)|(a & b & ca & cb & Hi)] E Ht.
  - destruct (talk_ahead a b ca cb X Y X' _ mk t t' Hi E Ht) as (b' & ck' & Y' & Ea & Hi'). exists Y'.
    split; [done|right; eauto].
  - destruct (talk_behind a b ca cb Y X X' _ mk t t' Hi E Ht) as (Y' & Ea & Hi'). exists Y'. split; [done|right; eauto].
Qed.

Lemma talk_ok X Y : talk X Y -> st_ok X /\ st_ok Y.
Proof. intros [(a & b & ca & cb & [])|(a & b & ca & cb & [])]; done. Qed.

(** *** The start of a conversation *)

(** With the post-quantum handshake the initiator is ahead. *)
Lemma talk_init_pq ra rb eph spk ck t t' tb tb' A B a :
  paired ra rb eph spk -> InitialChainKey ra = Some ck ->
  InitializeState ra true t = (t', Ok A) -> InitializeState rb false tb = (tb', Ok B) ->
  DHs A = Some a -> PublicKey a <> PublicKey eph ->
  IsValidPublicKey (PublicKey a) = true -> IsValidPublicKey (PublicKey spk) = true -> tb' = tb /\ talk A B.
Proof.
  intros Hp Hck EA EB Ha Hne Hva Hvs.
  destruct (init_pq _ _ _ _ _ _ _ _ _ _ _ Hp Hck EA EB)
    as (a0 & ca & Hah & Hri & Hcks & HnsA & HnsB & HpnA & HA & HB & HdB & HsB & _ & HnrA & ->).
  rewrite (ah_A _ _ _ _ _ Hah) in Ha. injection Ha as ->. split; [done|]. left. exists a, spk, ca, ck.
  split; [done|done|by eexists|by rewrite HnsB|congruence|rewrite HpnA; apply HB| |done|done|congruence|done].
  rewrite HsB. by rewrite elem_of_singleton.
Qed.

(** Without it the responder is. *)
Lemma talk_init_legacy ra rb eph spk t t' tb tb' A B b :
  paired ra rb eph spk -> InitialChainKey ra = None ->
  InitializeState ra true t = (t', Ok A) -> InitializeState rb false tb = (tb', Ok B) ->
  DHs B = Some b -> PublicKey b <> PublicKey spk ->
  IsValidPublicKey (PublicKey b) = true -> IsValidPublicKey (PublicKey eph) = true -> talk A B.
Proof.
  intros Hp Hck EA EB Hb Hne Hvb Hve.
  destruct (init_legacy _ _ _ _ _ _ _ _ _ _ Hp Hck EA EB)
    as (b0 & cb & Hah & Hri & HnsA & HnsB & HpnB & HA & HB & HdA & HsA & HnrB & _).
  rewrite (ah_A _ _ _ _ _ Hah) in Hb. injection Hb as ->. right. exists b, eph, cb, (CKs A).
  split; [done|done|by eexists|by rewrite HnsA|congruence|rewrite HpnB; apply HA| |done|done|congruence|done].
  rewrite HsA. by rewrite elem_of_singleton.
Qed.
End talk.
