(* ===== verification/RatchetCodec.v ===== *)
(** * The ratchet's binary formats: ratchet/serialize.go and ratchet/header.go

    The persisted state, with its sorted skipped-key and seen-key tables, and
    the 40-byte header with its encrypted form. *)

From Stdlib Require Import ZArith Lia.
From Stdlib Require Import Strings.Byte.
From stdpp Require Import base gmap strings list list_numbers vector sorting.
From S2P Require Import Prelude Crypto Keys X3dh Ratchet RatchetProofs.
Import Crypto Keys X3dh Ratchet.

Module RatchetCodec.

(** [bytes.Compare] *)
Fixpoint bytes_Compare (a b : bytes) : comparison :=
  match a, b with
  | [], [] => Eq
  | [], _ => Lt
  | _, [] => Gt
  | x :: a, y :: b =>
      match Z.compare (b2z x) (b2z y) with
      | Eq => bytes_Compare a b
      | c => c
      end
  end.

Definition key_le (a b : key32) : Prop := bytes_Compare a b <> Gt.
#[export] Instance key_le_dec a b : Decision (key_le a b).
Proof. unfold key_le. apply _. Defined.

(** The order of the skipped keys: by public key, then by number. *)
Definition skipped_le (a b : SkippedKey) : Prop :=
  match bytes_Compare (sk_PublicKey a) (sk_PublicKey b) with
  | Eq => sk_N a <= sk_N b
  | Lt => True
  | Gt => False
  end.
#[export] Instance skipped_le_dec a b : Decision (skipped_le a b).
Proof. unfold skipped_le. destruct (bytes_Compare _ _); apply _. Defined.

Definition stateSerializeVersion : byte := Byte.x01.

Definition sorted_skipped (m : gmap SkippedKey key32) : list SkippedKey :=
  merge_sort skipped_le (map_to_list m).*1.
Definition sorted_seen (m : gset key32) : list key32 := merge_sort key_le (elements m).

Definition skipped_entry (m : gmap SkippedKey key32) (k : SkippedKey) : bytes :=
  vec_to_list (sk_PublicKey k) ++ AppendUint32 (sk_N k) ++ vec_to_list (default zero32 (m !! k)).

Definition State_flags (s : State) : Z :=
  Z.lor (if is_nil (DHs s) then 0 else Z.shiftl 1 0) (if is_nil (DHr s) then 0 else Z.shiftl 1 1).

Definition State_Serialize (s : State) : bytes :=
  let entries := sorted_skipped (MKSkipped s) in
  let seenKeys := sorted_seen (SeenDH s) in
  [stateSerializeVersion; z2b (State_flags s)] ++
  match DHs s with Some kp => vec_to_list (PublicKey kp) ++ vec_to_list (PrivateKey kp) | None => [] end ++
  match DHr s with Some d => vec_to_list d | None => [] end ++
  vec_to_list (RK s) ++ vec_to_list (CKs s) ++ vec_to_list (CKr s) ++
  AppendUint32 (Ns s) ++ AppendUint32 (Nr s) ++ AppendUint32 (PN s) ++
  AppendUint32 (u32 (len entries)) ++ mjoin (skipped_entry (MKSkipped s) <$> entries) ++
  AppendUint32 (u32 (len seenKeys)) ++ mjoin (vec_to_list <$> seenKeys).

Definition errState : error := ErrInvalidMessage.

Definition rd_dhs (has : bool) : reader (option KeyPair) :=
  if has then
    _ ← rd_need 64 errState;
    pub ← rd_arr 32;
    priv ← rd_arr 32;
    mret (Some (mkKeyPair pub priv))
  else mret None.

Definition rd_dhr (has : bool) : reader (option key32) :=
  if has then
    _ ← rd_need 32 errState;
    d ← rd_arr 32;
    mret (Some d)
  else mret None.

Definition rd_skipped : reader (gmap SkippedKey key32) :=
  _ ← rd_need 4 errState;
  skippedCount ← rd_u32;
  _ ← rd_check ((skippedCount <? 0) || (skippedCount >? MaxSkip)) errState;
  rd_for (Z.to_nat skippedCount) (fun m =>
    _ ← rd_need (32 + 4 + 32) errState;
    pub ← rd_arr 32;
    n ← rd_u32;
    mk ← rd_arr 32;
    mret (<[mkSkippedKey pub n := mk]> m)) ∅.

Definition rd_seen : reader (gset key32) :=
  _ ← rd_need 4 errState;
  seenCount ← rd_u32;
  _ ← rd_check (seenCount <? 0) errState;
  rd_for (Z.to_nat seenCount) (fun m =>
    _ ← rd_need 32 errState;
    k ← rd_arr 32;
    mret ({[k]} ∪ m)) ∅.

Definition DeserializeState (data : bytes) : res State :=
  _ ← check (len data <? 2) errState;
  rd_run (
    version ← rd_byte;
    _ ← rd_check (negb (bool_decide (version = stateSerializeVersion))) errState;
    flags ← rd_byte;
    let hasDHs := negb (Z.land (b2z flags) (Z.shiftl 1 0) =? 0) in
    let hasDHr := negb (Z.land (b2z flags) (Z.shiftl 1 1) =? 0) in
    dhs ← rd_dhs hasDHs;
    dhr ← rd_dhr hasDHr;
    _ ← rd_need (32 * 3 + 4 * 3) errState;
    rk ← rd_arr 32;
    cks ← rd_arr 32;
    ckr ← rd_arr 32;
    ns ← rd_u32;
    nr ← rd_u32;
    pn ← rd_u32;
    skipped ← rd_skipped;
    seen ← rd_seen;
    _ ← rd_eof errState;
    mret (mkState dhs dhr rk cks ckr ns nr pn skipped seen)) data.

End RatchetCodec.
Import RatchetCodec.

(** ** Headers *)

Record header_ok (h : Header) : Prop := { header_pn : is_u32 (hdr_PN h); header_n : is_u32 (hdr_N h) }.

Lemma DeserializeHeader_serialize h : header_ok h -> DeserializeHeader (Header_Serialize h) = Ok h.
Proof.
  intros [Hpn Hn]. unfold DeserializeHeader, Header_Serialize. autorewrite with len.
  change (negb _) with false. cbn [check mbind res_bind]. apply reads_end_run, reads_end_of.
  eapply reads_bind; [apply reads_arr|]. eapply reads_bind; [by apply reads_uint|].
  eapply reads_bind_end; [by apply reads_uint|]. destruct h. apply reads_ret.
Qed.

(** ** The state *)

Lemma merge_sort_length {A} (R : A -> A -> Prop) `{∀ x y, Decision (R x y)} l : length (merge_sort R l) = length l.
Proof. apply Permutation_length, merge_sort_Permutation. Qed.

Lemma elem_of_sorted_skipped m k : k ∈ sorted_skipped m <-> is_Some (m !! k).
Proof.
  unfold sorted_skipped. rewrite merge_sort_Permutation, list_elem_of_fmap. split.
  - intros ([k' y] & -> & Hy%elem_of_map_to_list). eauto.
  - intros [y Hy]. exists (k, y). by rewrite elem_of_map_to_list.
Qed.

Lemma sorted_skipped_length m : length (sorted_skipped m) = size m.
Proof. unfold sorted_skipped. by rewrite merge_sort_length, length_fmap, length_map_to_list. Qed.

Lemma reads_skipped m :
  Z.of_nat (size m) <= MaxSkip -> (forall k, is_Some (m !! k) -> is_u32 (sk_N k)) ->
  reads rd_skipped (AppendUint32 (u32 (len (sorted_skipped m))) ++ mjoin (skipped_entry m <$> sorted_skipped m)) m.
Proof.
  intros Hsz Hk. assert (len (sorted_skipped m) = Z.of_nat (size m)) as Hl by (unfold len; by rewrite sorted_skipped_length).
  unfold MaxSkip in Hsz. rewrite u32_id by (unfold is_u32; lia). unfold rd_skipped.
  apply reads_need; [lens|]. eapply reads_bind; [apply reads_uint; lia|].
  apply reads_check; [unfold MaxSkip; lia|]. unfold len. rewrite Nat2Z.id.
  eapply reads_eq.
  - apply (reads_for _ (skipped_entry m) (fun acc k => <[k := default zero32 (m !! k)]> acc)).
    intros acc k Hin%elem_of_sorted_skipped. apply reads_need; [unfold skipped_entry; lens|].
    eapply reads_bind; [apply reads_arr|]. eapply reads_bind; [by apply reads_uint, Hk|].
    eapply reads_bind_end; [apply reads_arr|]. destruct k. apply reads_ret.
  - apply map_eq. intros k. rewrite foldl_insert_lookup, lookup_empty.
    case_decide as Hin; rewrite elem_of_sorted_skipped in Hin.
    + by destruct Hin as [v ->].
    + symmetry. by apply eq_None_not_Some.
Qed.

Lemma foldl_seen (l : list key32) (acc : gset key32) :
  foldl (fun m k => {[k]} ∪ m) acc l = list_to_set l ∪ acc.
Proof.
  revert acc. induction l as [|x l IH]; intros acc; cbn [foldl list_to_set]; [by rewrite union_empty_l_L|].
  rewrite IH. rewrite (union_assoc_L (list_to_set l)), (union_comm_L (list_to_set l)). done.
Qed.

Lemma reads_seen m :
  Z.of_nat (size m) < 2 ^ 32 ->
  reads rd_seen (AppendUint32 (u32 (len (sorted_seen m))) ++ mjoin (vec_to_list <$> sorted_seen m)) m.
Proof.
  intros Hsz. assert (len (sorted_seen m) = Z.of_nat (size m)) as Hl
    by (unfold len, sorted_seen; by rewrite merge_sort_length).
  rewrite u32_id by (unfold is_u32; lia). unfold rd_seen. apply reads_need; [lens|].
  eapply reads_bind; [apply reads_uint; lia|]. apply reads_check; [lia|]. unfold len. rewrite Nat2Z.id.
  eapply reads_eq.
  - apply (reads_for _ vec_to_list (fun acc k => {[k]} ∪ acc)). intros acc k _.
    apply reads_need; [lens|]. eapply reads_bind_end; [apply reads_arr|]. apply reads_ret.
  - rewrite foldl_seen, union_empty_r_L. apply set_eq. intros k. rewrite elem_of_list_to_set.
    unfold sorted_seen. by rewrite merge_sort_Permutation, elem_of_elements.
Qed.

(** The states the package can hold. *)
Record serializable (s : State) : Prop := {
  ser_ns : is_u32 (Ns s);
  ser_nr : is_u32 (Nr s);
  ser_pn : is_u32 (PN s);
  ser_size : Z.of_nat (size (MKSkipped s)) <= MaxSkip;
  ser_keys : forall k, is_Some (MKSkipped s !! k) -> is_u32 (sk_N k);
  ser_seen : Z.of_nat (size (SeenDH s)) < 2 ^ 32
}.

Lemma State_flags_bits s :
  let f := b2z (z2b (State_flags s)) in
  negb (Z.land f (Z.shiftl 1 0) =? 0) = negb (is_nil (DHs s)) /\
  negb (Z.land f (Z.shiftl 1 1) =? 0) = negb (is_nil (DHr s)).
Proof. unfold State_flags. by destruct (DHs s), (DHr s). Qed.

Lemma reads_dhs o :
  reads (rd_dhs (negb (is_nil o)))
    (match o with Some kp => vec_to_list (PublicKey kp) ++ vec_to_list (PrivateKey kp) | None => [] end) o.
Proof.
  destruct o as [[pub priv]|]; cbn [is_nil negb rd_dhs]; [|apply reads_ret]. apply reads_need; [lens|].
  eapply reads_bind; [apply reads_arr|]. eapply reads_bind_end; [apply reads_arr|]. apply reads_ret.
Qed.

Lemma reads_dhr o :
  reads (rd_dhr (negb (is_nil o))) (match o with Some d => vec_to_list d | None => [] end) o.
Proof.
  destruct o as [d|]; cbn [is_nil negb rd_dhr]; [|apply reads_ret]. apply reads_need; [lens|].
  eapply reads_bind_end; [apply reads_arr|]. apply reads_ret.
Qed.

Lemma DeserializeState_serialize s : serializable s -> DeserializeState (State_Serialize s) = Ok s.
Proof.
  intros Hs. unfold DeserializeState, State_Serialize. rewrite (proj2 (Z.ltb_ge _ 2)) by lens.
  cbn [check mbind res_bind]. apply reads_end_run. destruct (State_flags_bits s) as [Hf1 Hf2].
  apply (reads_end_bind _ _ [stateSerializeVersion] stateSerializeVersion); [apply reads_byte|].
  apply reads_end_check; [done|].
  apply (reads_end_bind _ _ [z2b (State_flags s)] (z2b (State_flags s))); [apply reads_byte|].
  cbv zeta. rewrite Hf1, Hf2.
  eapply reads_end_bind; [apply reads_dhs|]. eapply reads_end_bind; [apply reads_dhr|].
  apply reads_end_need; [lens|]. do 3 (eapply reads_end_bind; [apply reads_arr|]).
  eapply reads_end_bind; [by apply reads_uint, Hs|]. eapply reads_end_bind; [by apply reads_uint, Hs|].
  eapply reads_end_bind; [by apply reads_uint, Hs|].
  rewrite app_assoc. eapply reads_end_bind; [apply reads_skipped; apply Hs|].
  eapply reads_end_last; [apply reads_seen, Hs|].
  apply reads_end_eof, reads_end_of. destruct s. apply reads_ret.
Qed.

Lemma wp_dhs b data pos (Q : option KeyPair -> Z -> Prop) :
  0 <= pos <= len data -> (forall o pos', 0 <= pos' <= len data -> Q o pos') -> rd_wp (rd_dhs b) data pos Q.
Proof. intros Hp HQ. unfold rd_dhs. destruct b; wp_steps; apply HQ; lia. Qed.

Lemma wp_dhr b data pos (Q : option key32 -> Z -> Prop) :
  0 <= pos <= len data -> (forall o pos', 0 <= pos' <= len data -> Q o pos') -> rd_wp (rd_dhr b) data pos Q.
Proof. intros Hp HQ. unfold rd_dhr. destruct b; wp_steps; apply HQ; lia. Qed.

Lemma DeserializeState_no_panic data : DeserializeState data <> Panic.
Proof.
  unfold DeserializeState. destruct (Z.ltb_spec (len data) 2); [done|]. cbn [check mbind res_bind].
  apply wp_run. wp_steps. apply wp_dhs; [lia|]. intros dhs p1 Hp1. wp_steps. apply wp_dhr; [lia|]. intros dhr p2 Hp2.
  wp_steps. unfold rd_skipped. wp_steps.
  apply (wp_for _ _ _ (fun _ => True)); [|done|lia|].
  { intros m p _ Hp. wp_steps. split; [done|lia]. }
  intros skipped p3 _ Hp3. unfold rd_seen. wp_steps.
  apply (wp_for _ _ _ (fun _ => True)); [|done|lia|].
  { intros m p _ Hp. wp_steps. split; [done|lia]. }
  intros seen p4 _ Hp4. wp_steps. done.
Qed.

(** The invariant of the ratchet makes its states serializable. *)
Lemma st_ok_serializable s : st_ok s -> Z.of_nat (size (SeenDH s)) < 2 ^ 32 -> serializable s.
Proof.
  intros Hs Hseen. split; try apply Hs; [|done]. intros k Hk. apply (ok_keys _ Hs) in Hk as [_ Hk].
  pose proof (ok_nr _ Hs) as Hn. unfold is_u32 in *. lia.
Qed.

(** ** Properties *)

(** C36: persistence of the ratchet. Every state a session can reach from
    [InitializeState] (with fewer than 2^32 remembered peer keys) is restored
    exactly from its [Serialize] bytes, and [DeserializeState] never panics on
    other bytes, it returns an error. *)
Theorem ratchet_state_roundtrip (P : Primitives) x3 isInitiator t t' s0 s data :
  InitializeState x3 isInitiator t = (t', Ok s0) -> rtc ratchet_step s0 s ->
  Z.of_nat (size (SeenDH s)) < 2 ^ 32 ->
  DeserializeState (State_Serialize s) = Ok s /\ DeserializeState data <> Panic.
Proof.
  intros E Hr Hseen. split; [|apply DeserializeState_no_panic].
  apply DeserializeState_serialize, st_ok_serializable; [|done].
  eapply reachable_ok; [exact Hr|]. by eapply InitializeState_st_ok.
Qed.

Lemma ratchet_state_roundtrip_witness :
  let P := Toy.primitives in
  exists tA A, InitializeState (demo_result true None) true [] = (tA, Ok A) /\
    DeserializeState (State_Serialize A) = Ok A.
Proof.
  intros P. pose (d := empty_state zero32).
  destruct (run_ok (InitializeState (demo_result true None) true [])) as (tA & A & EA); [vm_compute; reflexivity|].
  exists tA, A. split; [exact EA|].
  apply (ratchet_state_roundtrip P (demo_result true None) true [] tA A A []); [exact EA|apply rtc_refl|].
  change A with (get_ok d (snd (tA, Ok A))). rewrite <- EA. vm_compute. reflexivity.
Defined.

(** Headers. A header with 32-bit counters survives [Serialize] and
    [DeserializeHeader], and under header encryption [DecryptHeader] with the
    same key and nonce returns it. *)
Theorem header_roundtrip (P : Primitives) h key nonce c :
  PrimitiveLaws P -> is_u32 (hdr_PN h) -> is_u32 (hdr_N h) ->
  DeserializeHeader (Header_Serialize h) = Ok h /\
  (EncryptHeader h key nonce = Ok c -> DecryptHeader key nonce c = Ok h).
Proof.
  intros HP Hpn Hn. assert (DeserializeHeader (Header_Serialize h) = Ok h) as Hh by by apply DeserializeHeader_serialize.
  split; [done|]. unfold EncryptHeader, DecryptHeader. intros E.
  apply res_bind_ok in E as ([] & H1 & E). apply res_bind_ok in E as ([] & H2 & E). apply Ok_inj in E. subst c.
  rewrite H1, H2. cbn [mbind res_bind]. by rewrite gcm_open_seal.
Qed.

Lemma header_roundtrip_witness :
  let P := Toy.primitives in
  let h := mkHeader zero32 3 4 in
  exists c, EncryptHeader h (vec_to_list zero32) (replicate 12 Byte.x01) = Ok c /\
    DecryptHeader (vec_to_list zero32) (replicate 12 Byte.x01) c = Ok h.
Proof.
  intros P h. eexists. split; [reflexivity|].
  refine (proj2 (header_roundtrip P h (vec_to_list zero32) (replicate 12 Byte.x01) _ Toy.laws _ _) _);
    [split; vm_compute; congruence|split; vm_compute; congruence|reflexivity].
Defined.
