(* ===== verification/SpqrChain.v ===== *)
(** * The message-key chains of the post-quantum ratchet: spqr/chain.go

    Each epoch has a sending and a receiving key chain; a receiving chain keeps
    the keys of a window of skipped messages. The nil map of a fresh
    [keyHistory] is the empty map; a nil [next] is the empty slice. A nil
    [*Chain] is not modelled. *)

From Stdlib Require Import ZArith Lia.
From Stdlib Require Import Strings.Byte.
From stdpp Require Import base gmap strings list list_numbers vector sorting.
From S2P Require Import Prelude SpqrUtil Crypto Erasure.
Import Util Crypto.

Module SpqrChain.

Definition chainDefaultMaxJump : Z := 25000.
Definition chainDefaultMaxOOO : Z := 2000.
Definition epochsToKeepPriorToSend : Z := 1.

Record ChainParams : Type := mkParams { MaxJump : Z; MaxOOO : Z }.

Definition maxJump (p : ChainParams) : Z := if MaxJump p =? 0 then chainDefaultMaxJump else MaxJump p.
Definition maxOOO (p : ChainParams) : Z := if MaxOOO p =? 0 then chainDefaultMaxOOO else MaxOOO p.

(** *** keyHistory *)

Abbreviation keyHistory := (gmap Z key32).

Definition history_add (idx : Z) (key : key32) (h : keyHistory) : keyHistory := <[idx := key]> h.
Definition history_clear (h : keyHistory) : keyHistory := ∅.
Definition history_gc (current maxOOO : Z) (h : keyHistory) : keyHistory :=
  filter (fun kv => ~ u32 (kv.1 + maxOOO) < current) h.

Definition history_get (idx current maxOOO : Z) : ST keyHistory key32 := fun h =>
  if u32 (idx + maxOOO) <? current then (h, Err SpqrErrKeyTrimmed)
  else match h !! idx with
       | None => (h, Err SpqrErrKeyAlreadyRequested)
       | Some key => (delete idx h, Ok key)
       end.

(** *** chainEpochDirection *)

Record chainEpochDirection : Type := mkDir { ctr : Z; next : bytes; prev : keyHistory }.

Definition newChainEpochDirection (seed : bytes) : chainEpochDirection := mkDir 0 seed ∅.

Definition chainInfoStart : bytes := str "Signal PQ Ratchet V1 Chain  Start".
Definition chainInfoAddEpoch : bytes := str "Signal PQ Ratchet V1 Chain Add Epoch".
Definition chainInfoNext : bytes := str "Signal PQ Ratchet V1 Chain Next".

Section chain.
Context `{Primitives}.

Definition hkdfTo (ikm : bytes) (salt : option bytes) (info : bytes) (length : Z) : res bytes :=
  HKDF ikm (default (replicate 32 Byte.x00) salt) info length.

Definition nextKey : ST chainEpochDirection (Z * key32) := fun d =>
  if len (next d) =? 0 then (d, Err SpqrErrKeyAlreadyRequested)
  else
    let d := mkDir (u32 (ctr d + 1)) (next d) (prev d) in
    let info := AppendUint32 (ctr d) ++ chainInfoNext in
    (okm ← st_lift (hkdfTo (next d) None info 64);
     a ← st_lift (slice okm 0 32);
     b ← st_lift (slice okm 32 (len okm));
     _ ← st_put (mkDir (ctr d) (copy_into (next d) a) (prev d));
     mret (ctr d, to_arr 32 b)) d.

(** [for d.ctr+1 < at { ... }]; [at - ctr - 1] iterations. *)
Fixpoint key_loop (fuel : nat) (at_ ooo : Z) : ST chainEpochDirection unit := fun d =>
  if u32 (ctr d + 1) <? at_ then
    match fuel with
    | O => (d, Err (ErrText "out of fuel"))
    | S fuel =>
        ('(idx, key) ← nextKey;
         _ ← st_modify (fun d =>
               if u32 (idx + ooo) >=? at_ then mkDir (ctr d) (next d) (history_add idx key (prev d)) else d);
         key_loop fuel at_ ooo) d
    end
  else (d, Ok tt).

Definition set_prev (h : keyHistory) (d : chainEpochDirection) : chainEpochDirection := mkDir (ctr d) (next d) h.

Definition key (at_ : Z) (params : ChainParams) : ST chainEpochDirection key32 := fun d =>
  let jump := maxJump params in
  let ooo := maxOOO params in
  if at_ <? ctr d then
    let '(h, r) := history_get at_ (ctr d) ooo (prev d) in (set_prev h d, r)
  else if at_ =? ctr d then (d, Err SpqrErrKeyAlreadyRequested)
  else if u32 (at_ - ctr d) >? jump then (d, Err SpqrErrKeyJump)
  else
    let d := if at_ >? u32 (ctr d + ooo) then set_prev (history_clear (prev d)) d else d in
    (_ ← key_loop (Z.to_nat (at_ - ctr d)) at_ ooo;
     _ ← st_modify (fun d => set_prev (history_gc (ctr d) ooo (prev d)) d);
     '(_, k) ← nextKey;
     mret k) d.

(** *** Chain *)

Record chainEpoch : Type := mkEpoch { send : chainEpochDirection; recv : chainEpochDirection }.

Record Chain : Type := mkChain {
  dir : Direction;
  currentEpoch : Z;
  sendEpoch : Z;
  links : list chainEpoch;
  nextRoot : key32;
  params : ChainParams
}.

Definition set_links (l : list chainEpoch) (c : Chain) : Chain :=
  mkChain (dir c) (currentEpoch c) (sendEpoch c) l (nextRoot c) (params c).

Definition chainSeedsForDirection (okm : bytes) (dir : Direction) : res (bytes * bytes) :=
  a ← slice okm 32 64;
  b ← slice okm 64 96;
  mret (match dir with DirectionB2A => (b, a) | _ => (a, b) end).

Definition NewChain (authKey : bytes) (dir : Direction) (params : ChainParams) : res Chain :=
  okm ← hkdfTo authKey None chainInfoStart 96;
  root ← slice okm 0 32;
  '(sendSeed, recvSeed) ← chainSeedsForDirection okm dir;
  mret (mkChain dir 0 0 [mkEpoch (newChainEpochDirection sendSeed) (newChainEpochDirection recvSeed)]
          (to_arr 32 root) params).

Definition AddEpoch (epoch : Z) (secret : bytes) : ST Chain unit :=
  c ← st_get;
  _ ← st_check (negb (epoch =? u64 (currentEpoch c + 1))) SpqrErrEpochOutOfRange;
  okm ← st_lift (hkdfTo secret (Some (vec_to_list (nextRoot c))) chainInfoAddEpoch 96);
  root ← st_lift (slice okm 0 32);
  '(sendSeed, recvSeed) ← st_lift (chainSeedsForDirection okm (dir c));
  st_put (mkChain (dir c) epoch (sendEpoch c)
            (links c ++ [mkEpoch (newChainEpochDirection sendSeed) (newChainEpochDirection recvSeed)])
            (to_arr 32 root) (params c)).

(** [int(v)] of a uint64 *)
Definition int_of_u64 (z : Z) : Z := if z <? 2 ^ 63 then z else z - 2 ^ 64.

Definition epochIndex (c : Chain) (epoch : Z) : res Z :=
  _ ← check (epoch >? currentEpoch c) SpqrErrEpochOutOfRange;
  let back := int_of_u64 (u64 (currentEpoch c - epoch)) in
  _ ← check (back >=? len (links c)) SpqrErrEpochOutOfRange;
  mret (len (links c) - 1 - back).

(** [for idx > epochsToKeepPriorToSend { c.links = c.links[1:]; idx-- }] *)
Fixpoint drop_links (fuel : nat) (idx : Z) (l : list chainEpoch) : Z * list chainEpoch :=
  match fuel with
  | O => (idx, l)
  | S fuel => if idx >? epochsToKeepPriorToSend then drop_links fuel (idx - 1) (drop 1 l) else (idx, l)
  end.

Definition clear_send (e : chainEpoch) : chainEpoch :=
  mkEpoch (mkDir (ctr (send e)) [] (prev (send e))) (recv e).

Definition advance_send_epoch (epoch idx : Z) (c : Chain) : Z * Chain :=
  if epoch =? sendEpoch c then (idx, c)
  else
    let '(idx, l) := drop_links (Z.to_nat idx) idx (links c) in
    let l := (clear_send <$> take (Z.to_nat idx) l) ++ drop (Z.to_nat idx) l in
    (idx, mkChain (dir c) (currentEpoch c) epoch l (nextRoot c) (params c)).

Definition SendKey (epoch : Z) : ST Chain (Z * bytes) := fun c =>
  (_ ← st_check (epoch <? sendEpoch c) SpqrErrSendKeyEpochDecreased;
   idx ← st_lift (epochIndex c epoch);
   let '(idx, c) := advance_send_epoch epoch idx c in
   _ ← st_put c;
   link ← st_lift (index (links c) idx);
   let '(d, r) := nextKey (send link) in
   _ ← st_put (set_links (<[Z.to_nat idx := mkEpoch d (recv link)]> (links c)) c);
   '(msgIdx, key) ← st_lift r;
   mret (msgIdx, vec_to_list key)) c.

Definition RecvKey (epoch idx : Z) : ST Chain bytes := fun c =>
  (i ← st_lift (epochIndex c epoch);
   link ← st_lift (index (links c) i);
   let '(d, r) := key idx (params c) (recv link) in
   _ ← st_put (set_links (<[Z.to_nat i := mkEpoch (send link) d]> (links c)) c);
   key ← st_lift r;
   mret (vec_to_list key)) c.

(** *** Persistence *)

Definition appendChainDir (d : chainEpochDirection) : bytes :=
  let keys := Erasure.sortedKeys (prev d) in
  AppendUint32 (ctr d) ++ AppendUint32 (u32 (len (next d))) ++ next d ++
  AppendUint32 (u32 (len keys)) ++
  mjoin ((fun idx => AppendUint32 idx ++ vec_to_list (default zero32 (prev d !! idx))) <$> keys).

Definition serializeChain (c : Chain) : bytes :=
  [Byte.x01; byte_of_Direction (dir c)] ++ AppendUint64 (currentEpoch c) ++ AppendUint64 (sendEpoch c) ++
  vec_to_list (nextRoot c) ++ AppendUint32 (MaxJump (params c)) ++ AppendUint32 (MaxOOO (params c)) ++
  AppendUint32 (u32 (len (links c))) ++
  mjoin ((fun l => appendChainDir (send l) ++ appendChainDir (recv l)) <$> links c).

Definition consumeChainDir : reader chainEpochDirection :=
  _ ← rd_need (4 + 4) SpqrErrInvalidMessage;
  ctr ← rd_u32;
  nextLen ← rd_u32;
  _ ← rd_need nextLen SpqrErrInvalidMessage;
  next ← rd_take nextLen;
  _ ← rd_need 4 SpqrErrInvalidMessage;
  keyCount ← rd_u32;
  keys ← rd_for (Z.to_nat keyCount) (fun m =>
    _ ← rd_need (4 + 32) SpqrErrInvalidMessage;
    idx ← rd_u32;
    k ← rd_arr 32;
    mret (<[idx := k]> m)) ∅;
  mret (mkDir ctr next keys).

(** Empty data is a nil chain. *)
Definition deserializeChain (data : bytes) : res (option Chain) :=
  if len data =? 0 then Ok None
  else
    rd_run (
      version ← rd_byte;
      _ ← rd_check (negb (bool_decide (version = Byte.x01))) SpqrErrInvalidMessage;
      _ ← rd_need 1 SpqrErrInvalidMessage;
      d ← rd_byte;
      _ ← rd_need (8 + 8 + 32 + 4 + 4 + 4) SpqrErrInvalidMessage;
      cur ← rd_u64;
      snd_epoch ← rd_u64;
      root ← rd_arr 32;
      jump ← rd_u32;
      ooo ← rd_u32;
      linkCount ← rd_u32;
      l ← rd_for (Z.to_nat linkCount) (fun acc =>
        s ← consumeChainDir;
        r ← consumeChainDir;
        mret (acc ++ [mkEpoch s r])) [];
      _ ← rd_eof SpqrErrInvalidMessage;
      mret (Some (mkChain (Direction_of_byte d) cur snd_epoch l root (mkParams jump ooo)))) data.

End chain.
End SpqrChain.
Import SpqrChain.
