(* ===== verification/SpqrChainProofs.v ===== *)
(** * Correctness of the message-key chains of the post-quantum ratchet

    The keys of one direction of one epoch as a mathematical sequence
    ([key_at]); a receiving direction as a window over that sequence
    ([window], refined by [key]); the chain of a party as a function of the
    authentication key and the epoch secrets ([reach], [chain_inv]); the
    agreement of two parties; persistence. *)

From Stdlib Require Import ZArith Lia.
From Stdlib Require Import Strings.Byte.
From stdpp Require Import base gmap strings list list_numbers vector.
From S2P Require Import Prelude SpqrUtil Crypto Erasure SpqrChain.
Import Util Crypto SpqrChain.

Section chain.
Context `{Primitives}.

(** ** One direction of one epoch *)

(** The output of step [n] on a seed: the next seed and the message key. *)
Definition step_okm (seed : bytes) (n : Z) : bytes :=
  get_ok [] (hkdfTo seed None (AppendUint32 n ++ chainInfoNext) 64).

Fixpoint seed_at (seed : bytes) (n : nat) : bytes :=
  match n with O => seed | S n => take 32 (step_okm (seed_at seed n) (Z.of_nat (S n))) end.

(** The key of message [n], for [1 <= n]. *)
Definition key_at (seed : bytes) (n : Z) : key32 :=
  to_arr 32 (drop 32 (step_okm (seed_at seed (Z.to_nat (n - 1))) n)).

Lemma hkdfTo_ok ikm salt info n :
  0 <= n <= hkdfMaxLength -> hkdfTo ikm salt info n = Ok (get_ok [] (hkdfTo ikm salt info n)) /\
    len (get_ok [] (hkdfTo ikm salt info n)) = n.
Proof. intros Hn. unfold hkdfTo. destruct (HKDF_ok ikm (default (replicate 32 Byte.x00) salt) info n Hn) as (okm & -> & Hl). done. Qed.

Lemma step_okm_ok seed n :
  hkdfTo seed None (AppendUint32 n ++ chainInfoNext) 64 = Ok (step_okm seed n) /\ len (step_okm seed n) = 64.
Proof. apply hkdfTo_ok. by unfold hkdfMaxLength. Qed.

Lemma seed_at_len seed n : len seed = 32 -> len (seed_at seed n) = 32.
Proof.
  destruct n as [|n]; [done|]. intros _. cbn [seed_at]. unfold len. rewrite length_take.
  pose proof (proj2 (step_okm_ok (seed_at seed n) (Z.of_nat (S n)))) as Hl. unfold len in Hl. lia.
Qed.

(** [nextKey] walks the sequence. *)
Lemma nextKey_ok seed d :
  len seed = 32 -> 0 <= ctr d < MaxUint32 -> next d = seed_at seed (Z.to_nat (ctr d)) ->
  nextKey d = (mkDir (ctr d + 1) (seed_at seed (Z.to_nat (ctr d + 1))) (prev d), Ok (ctr d + 1, key_at seed (ctr d + 1))).
Proof.
  intros Hs Hc Hn. unfold nextKey. rewrite Hn, (seed_at_len seed (Z.to_nat (ctr d)) Hs). cbn [Z.eqb next ctr prev].
  rewrite u32_id by (unfold is_u32, MaxUint32 in *; lia).
  set (sd := seed_at seed (Z.to_nat (ctr d))).
  destruct (step_okm_ok sd (ctr d + 1)) as [Ho Hl]. rewrite (st_bind_lift _ _ _ _ Ho).
  rewrite (st_bind_lift _ _ _ (take 32 (step_okm sd (ctr d + 1)))) by (rewrite slice_take; [done|lia]).
  rewrite (st_bind_lift _ _ _ (drop 32 (step_okm sd (ctr d + 1)))) by (rewrite slice_drop; [done|lia]).
  rewrite copy_into_full.
  2:{ rewrite (seed_at_len seed (Z.to_nat (ctr d)) Hs : len sd = 32). unfold len in *. rewrite length_take. lia. }
  unfold key_at. replace (ctr d + 1 - 1) with (ctr d) by lia. fold sd.
  replace (Z.to_nat (ctr d + 1)) with (S (Z.to_nat (ctr d))) by lia. cbn [seed_at]. fold sd.
  replace (Z.of_nat (S (Z.to_nat (ctr d)))) with (ctr d + 1) by lia. reflexivity.
Qed.

(** *** The window of a receiving direction

    What a receiving direction promises, as a function of the highest message
    number it has reached and of the numbers it has handed out. *)
Definition window (seed : bytes) (p : ChainParams) (reached : Z) (got : gset Z) (at_ : Z) : res key32 :=
  if at_ >? reached then
    if at_ - reached >? maxJump p then Err SpqrErrKeyJump else Ok (key_at seed at_)
  else if at_ + maxOOO p <? reached then Err SpqrErrKeyTrimmed
  else if bool_decide (at_ = 0 \/ at_ ∈ got) then Err SpqrErrKeyAlreadyRequested
  else Ok (key_at seed at_).

(** The direction [d] has reached [ctr d], has handed out [got], and keeps the
    other keys of its window. *)
Record dir_inv (seed : bytes) (ooo : Z) (got : gset Z) (d : chainEpochDirection) : Prop := {
  di_ctr : 0 <= ctr d /\ ctr d + ooo < 2 ^ 32;
  di_next : next d = seed_at seed (Z.to_nat (ctr d));
  di_kept : forall n, 1 <= n < ctr d -> ctr d <= n + ooo -> n ∉ got -> prev d !! n = Some (key_at seed n);
  di_stored : forall n k, prev d !! n = Some k ->
    1 <= n < ctr d /\ ctr d <= n + ooo + 1 /\ (n ∉ got) /\ k = key_at seed n;
  di_got : forall n, n ∈ got -> 1 <= n <= ctr d;
  di_last : ctr d = 0 \/ ctr d ∈ got
}.

Lemma dir_inv_new seed ooo : 0 <= ooo < 2 ^ 32 -> dir_inv seed ooo ∅ (newChainEpochDirection seed).
Proof. intros Ho. split; cbn [newChainEpochDirection ctr next prev]; [lia|done|lia| |set_solver|by left]. intros n k Hk. by apply lookup_empty_Some in Hk. Qed.

(** The loop that skips to [at - 1]: which keys are stored on the way. *)
Lemma key_loop_ok seed ooo at_ fuel d :
  len seed = 32 -> 0 <= ctr d < at_ -> 0 <= ooo -> at_ + ooo < 2 ^ 32 ->
  next d = seed_at seed (Z.to_nat (ctr d)) -> (Z.to_nat (at_ - ctr d) <= fuel)%nat ->
  exists h, key_loop fuel at_ ooo d = (mkDir (at_ - 1) (seed_at seed (Z.to_nat (at_ - 1))) h, Ok tt) /\
    forall n, h !! n = if decide (ctr d < n < at_ /\ at_ <= n + ooo) then Some (key_at seed n) else prev d !! n.
Proof.
  intros Hs Hc Ho Ha. revert d Hc. induction fuel as [|fuel IH]; intros d Hc Hn Hf; [lia|].
  cbn [key_loop]. rewrite (u32_id (ctr d + 1)) by (unfold is_u32; lia).
  destruct (Z.ltb_spec (ctr d + 1) at_) as [Hlt|Hge].
  - rewrite (st_bind_run _ _ _ _ _ (nextKey_ok seed d Hs ltac:(unfold MaxUint32; lia) Hn)).
    unfold st_modify. unfold mbind at 1, st_bind at 1. cbn [ctr next prev]. rewrite (u32_id (ctr d + 1 + ooo)) by (unfold is_u32; lia).
    set (d1 := if _ >=? _ then _ else _).
    assert (ctr d1 = ctr d + 1) as Hc1 by (unfold d1; by case_match).
    assert (next d1 = seed_at seed (Z.to_nat (ctr d1))) as Hn1 by (rewrite Hc1; unfold d1; by case_match).
    destruct (IH d1 ltac:(lia) Hn1 ltac:(lia)) as (h & E & Hh). exists h. split; [exact E|].
    intros n. rewrite Hh. destruct (decide (ctr d1 < n < at_ /\ at_ <= n + ooo)) as [Hin|Hout].
    + rewrite decide_True by lia. done.
    + destruct (Z.geb_spec (ctr d + 1 + ooo) at_) as [Hst|Hst]; unfold d1; cbn [prev history_add].
      * unfold history_add. destruct (decide (n = ctr d + 1)) as [->|Hne].
        -- rewrite lookup_insert_eq, decide_True by lia. done.
        -- rewrite lookup_insert_ne, decide_False by lia. done.
      * rewrite decide_False by lia. done.
  - assert (ctr d = at_ - 1) as Hc1 by lia. exists (prev d). split.
    + rewrite <- Hc1, <- Hn. by destruct d.
    + intros n. rewrite decide_False by lia. done.
Qed.

Lemma history_gc_lookup h current ooo n :
  (forall i, is_Some (h !! i) -> 0 <= i /\ i + ooo < 2 ^ 32) -> 0 <= ooo ->
  history_gc current ooo h !! n = if decide (n + ooo < current) then None else h !! n.
Proof.
  intros Hr Ho. unfold history_gc. destruct (h !! n) as [k|] eqn:Hk.
  - destruct (Hr n (ltac:(eauto))) as [Hn1 Hn2]. case_decide as Hd.
    + apply map_lookup_filter_None_2. right. intros k' Hk'. cbn [fst]. rewrite u32_id by (unfold is_u32; lia). tauto.
    + apply map_lookup_filter_Some_2; [done|]. cbn [fst]. by rewrite u32_id by (unfold is_u32; lia).
  - rewrite map_lookup_filter_None_2 by (by left). by case_decide.
Qed.

(** Keys already passed. *)
Lemma key_behind seed p got d at_ :
  0 <= maxOOO p -> dir_inv seed (maxOOO p) got d -> 0 <= at_ <= ctr d ->
  exists d', key at_ p d = (d', window seed p (ctr d) got at_) /\ ctr d' = ctr d /\
    dir_inv seed (maxOOO p) (if is_ok (window seed p (ctr d) got at_) then {[at_]} ∪ got else got) d'.
Proof.
  intros Ho Hi Ha. pose proof Hi as [[Hc1 Hc2] Hn Hk Hst Hg Hl]. unfold key, window, history_get.
  rewrite (u32_id (at_ + maxOOO p)) by (unfold is_u32; lia).
  destruct (Z.gtb_spec at_ (ctr d)); [lia|].
  destruct (Z.ltb_spec at_ (ctr d)) as [Hlt|Hge].
  - destruct (Z.ltb_spec (at_ + maxOOO p) (ctr d)) as [Ht|Ht].
    + exists d. by destruct d.
    + case_bool_decide as Hd.
      * exists d. assert (prev d !! at_ = None) as ->; [|by destruct d].
        apply eq_None_not_Some. intros [k Hs]. apply Hst in Hs as (Hr1 & _ & Hr2 & _). destruct Hd; [lia|done].
      * assert (at_ ∉ got) by tauto. rewrite (Hk at_) by (done || lia). cbn [is_ok].
        eexists. split; [reflexivity|]. split; [done|]. split; cbn [ctr next prev set_prev]; [lia|done| | | |].
        -- intros n Hr1 Hr2 Hr3. rewrite lookup_delete_ne by (clear -Hr3; set_solver). apply Hk; [done|done|]. clear -Hr3; set_solver.
        -- intros n k Hs. apply lookup_delete_Some in Hs as [Hne Hs]. apply Hst in Hs as (?&?&Hr&?). split_and!; [lia..| |done].
           clear -Hne Hr. set_solver.
        -- intros n [->%elem_of_singleton|Hin]%elem_of_union; [split; [|lia]|by apply Hg]. assert (at_ <> 0) by tauto. lia.
        -- destruct Hl; [by left|right; set_solver].
  - assert (at_ = ctr d) as -> by lia. rewrite Z.eqb_refl, (proj2 (Z.ltb_ge _ _)) by lia.
    rewrite bool_decide_true by tauto. by exists d.
Qed.

(** Keys ahead. *)
Lemma key_ahead seed p got d at_ :
  len seed = 32 -> 0 <= maxOOO p -> dir_inv seed (maxOOO p) got d -> ctr d < at_ -> at_ + maxOOO p < 2 ^ 32 ->
  at_ - ctr d <= maxJump p ->
  exists d', key at_ p d = (d', Ok (key_at seed at_)) /\ ctr d' = at_ /\ dir_inv seed (maxOOO p) ({[at_]} ∪ got) d'.
Proof.
  intros Hs Ho Hi Ha Hm Hj. pose proof Hi as [[Hc1 Hc2] Hn Hk Hst Hg Hl]. unfold key.
  destruct (Z.ltb_spec at_ (ctr d)); [lia|]. destruct (Z.eqb_spec at_ (ctr d)) as [|Hne0]; [lia|].
  rewrite (u32_id (at_ - ctr d)), (u32_id (ctr d + maxOOO p)) by (unfold is_u32; lia).
  destruct (Z.gtb_spec (at_ - ctr d) (maxJump p)); [lia|].
  set (d1 := if at_ >? ctr d + maxOOO p then _ else d).
  assert (ctr d1 = ctr d /\ next d1 = next d) as [Ec En] by (unfold d1; by case_match).
  assert (forall n, prev d1 !! n = if decide (ctr d + maxOOO p < at_) then None else prev d !! n) as Hp1.
  { intros n. unfold d1. destruct (Z.gtb_spec at_ (ctr d + maxOOO p)).
    - rewrite decide_True by lia. done.
    - by rewrite decide_False by lia. }
  destruct (key_loop_ok seed (maxOOO p) at_ (Z.to_nat (at_ - ctr d1)) d1) as (h & E & Hh); [done|lia..|congruence|lia|].
  rewrite (st_bind_run _ _ _ _ _ E). unfold st_modify. unfold mbind at 1, st_bind at 1. cbn [set_prev ctr next prev].
  set (h' := history_gc (at_ - 1) (maxOOO p) h).
  assert (forall n, h' !! n = if decide (n + maxOOO p < at_ - 1) then None
    else if decide (ctr d < n < at_ /\ at_ <= n + maxOOO p) then Some (key_at seed n) else
    if decide (ctr d + maxOOO p < at_) then None else prev d !! n) as Hh'.
  { intros n. unfold h'. rewrite history_gc_lookup, Hh, Ec, Hp1; [done| |done].
    intros i [k Hik]. rewrite Hh, Ec, Hp1 in Hik. repeat case_decide; try (done || lia).
    all: apply Hst in Hik as [? _]; lia. }
  unfold set_prev. cbn [ctr next].
  rewrite (st_bind_run _ _ _ _ _ (nextKey_ok seed (mkDir (at_ - 1) _ h') Hs ltac:(cbn; unfold MaxUint32; lia) eq_refl)).
  cbn [ctr next prev]. replace (at_ - 1 + 1) with at_ by lia.
  eexists. split; [reflexivity|]. split; [done|]. split; cbn [ctr next prev]; [lia|done| | | |].
  - intros n Hr1 Hr2 Hr3. rewrite Hh'. destruct (decide (n + maxOOO p < at_ - 1)); [lia|].
    destruct (decide (ctr d < n < at_ /\ at_ <= n + maxOOO p)); [done|].
    destruct (decide (ctr d + maxOOO p < at_)); [lia|].
    assert (n <> ctr d) by (intros ->; destruct Hl as [|Hl]; [lia|]; clear -Hr3 Hl; set_solver).
    apply Hk; [lia|lia|]. clear -Hr3. set_solver.
  - intros n k. rewrite Hh'. intros Hs'. destruct (decide (n + maxOOO p < at_ - 1)); [done|].
    destruct (decide (ctr d < n < at_ /\ at_ <= n + maxOOO p)) as [Hd|Hd].
    + injection Hs' as <-. split_and!; [lia..| |done]. intros [->%elem_of_singleton|Hin%Hg]%elem_of_union; lia.
    + case_decide; [done|]. apply Hst in Hs' as (?&?&Hng&?). split_and!; [lia..| |done].
      intros [->%elem_of_singleton|Hin]%elem_of_union; [lia|done].
  - intros n [->%elem_of_singleton|Hin%Hg]%elem_of_union; lia.
  - right. set_solver.
Qed.

(** [key] refines the window. *)
Lemma key_window seed p got d at_ :
  len seed = 32 -> 0 <= maxOOO p -> dir_inv seed (maxOOO p) got d -> 0 <= at_ -> at_ + maxOOO p < 2 ^ 32 ->
  let r := window seed p (ctr d) got at_ in
  exists d', key at_ p d = (d', r) /\ ctr d' = (if is_ok r then Z.max (ctr d) at_ else ctr d) /\
    dir_inv seed (maxOOO p) (if is_ok r then {[at_]} ∪ got else got) d'.
Proof.
  intros Hs Ho Hi Ha Hm r. destruct (decide (at_ <= ctr d)) as [Hle|Hgt].
  - destruct (key_behind seed p got d at_) as (d' & E & Ec & Hi'); [done..|].
    exists d'. split; [exact E|]. split; [|exact Hi']. rewrite Ec. destruct (is_ok r); lia.
  - assert (r = if at_ - ctr d >? maxJump p then Err SpqrErrKeyJump else Ok (key_at seed at_)) as ->.
    { unfold r, window. by rewrite (proj2 (Z.gtb_lt _ _)) by lia. }
    destruct (Z.gtb_spec (at_ - ctr d) (maxJump p)) as [Hj|Hj]; cbn [is_ok].
    + exists d. split; [|done]. unfold key. destruct (Z.ltb_spec at_ (ctr d)); [lia|].
      destruct (Z.eqb_spec at_ (ctr d)) as [|Hne0]; [lia|]. destruct Hi as [[? ?] _ _ _ _ _].
      by rewrite u32_id, (proj2 (Z.gtb_lt _ _)) by (unfold is_u32; lia).
    + destruct (key_ahead seed p got d at_) as (d' & E & Ec & Hi'); [done..|lia|done|done|].
      exists d'. split; [exact E|]. split; [lia|exact Hi'].
Qed.

(** A receiving direction stores at most one key more than its window. *)
Lemma dir_inv_size seed ooo got d : 0 <= ooo -> dir_inv seed ooo got d -> Z.of_nat (size (prev d)) <= ooo + 1.
Proof.
  intros Ho Hi. apply (keys_range_size _ (ctr d - ooo - 1)); [lia|].
  intros n [k (?&?&_)%(di_stored _ _ _ _ Hi)]. lia.
Qed.

(** ** The chain of a party *)

(** The key material of an epoch: of epoch 0 from the authentication key, of the
    others from the epoch secrets in order. *)
Definition start_okm (authKey : bytes) : bytes := get_ok [] (hkdfTo authKey None chainInfoStart 96).
Definition add_okm (okm secret : bytes) : bytes :=
  get_ok [] (hkdfTo secret (Some (vec_to_list (to_arr 32 (take 32 okm)))) chainInfoAddEpoch 96).
Definition epoch_okm (authKey : bytes) (secrets : list bytes) : bytes := foldl add_okm (start_okm authKey) secrets.

Definition seed_ab (okm : bytes) : bytes := take 32 (drop 32 okm).
Definition seed_ba (okm : bytes) : bytes := take 32 (drop 64 okm).
Definition seed_out (d : Direction) : bytes -> bytes := match d with DirectionB2A => seed_ba | _ => seed_ab end.
Definition seed_in (d : Direction) : bytes -> bytes := match d with DirectionB2A => seed_ab | _ => seed_ba end.

Lemma epoch_okm_len auth ss : len (epoch_okm auth ss) = 96.
Proof.
  unfold epoch_okm. destruct ss as [|s ss _] using rev_ind.
  - apply hkdfTo_ok. by unfold hkdfMaxLength.
  - rewrite foldl_app. apply hkdfTo_ok. by unfold hkdfMaxLength.
Qed.

Lemma seed_len auth ss d : len (seed_out d (epoch_okm auth ss)) = 32 /\ len (seed_in d (epoch_okm auth ss)) = 32.
Proof.
  pose proof (epoch_okm_len auth ss) as Hl. unfold len in *.
  split; destruct d; unfold seed_out, seed_in, seed_ab, seed_ba; rewrite length_take, length_drop; lia.
Qed.

Lemma chainSeeds_ok okm d : len okm = 96 -> chainSeedsForDirection okm d = Ok (seed_out d okm, seed_in d okm).
Proof.
  intros Hl. unfold chainSeedsForDirection, slice. rewrite Hl. by destruct d.
Qed.

(** A chain that is reached from [NewChain]: [ss] are the epoch secrets it was
    given, [got e] the message numbers it has handed out keys for in epoch [e].
    The counters stay within 32 bits. *)
Inductive reach (auth : bytes) (d : Direction) (p : ChainParams) : list bytes -> (Z -> gset Z) -> Chain -> Prop :=
| reach_new c : NewChain auth d p = Ok c -> reach auth d p [] (fun _ => ∅) c
| reach_add ss got c e s c' r :
    reach auth d p ss got c -> len ss + 1 < 2 ^ 63 -> AddEpoch e s c = (c', r) ->
    reach auth d p (if is_ok r then ss ++ [s] else ss) got c'
| reach_send ss got c e c' r :
    reach auth d p ss got c -> 0 <= e -> (forall l, l ∈ links c -> ctr (send l) < MaxUint32) ->
    SendKey e c = (c', r) -> reach auth d p ss got c'
| reach_recv ss got c e n c' r :
    reach auth d p ss got c -> 0 <= e -> 0 <= n -> n + maxOOO p < 2 ^ 32 -> RecvKey e n c = (c', r) ->
    reach auth d p ss (if is_ok r then fun e' => if decide (e' = e) then {[n]} ∪ got e' else got e' else got) c'.

(** One epoch: the sending direction is live or erased, the receiving one
    follows its window. *)
Definition link_inv (sout sin : bytes) (ooo : Z) (live : bool) (got : gset Z) (l : chainEpoch) : Prop :=
  0 <= ctr (send l) <= MaxUint32 /\
  next (send l) = (if live then seed_at sout (Z.to_nat (ctr (send l))) else []) /\
  prev (send l) = ∅ /\ dir_inv sin ooo got (recv l).

(** The epoch of the [i]-th link. *)
Definition epoch_of (ss : list bytes) (ls : list chainEpoch) (i : nat) : Z := len ss + 1 - len ls + Z.of_nat i.

Definition okm_of (auth : bytes) (ss : list bytes) (e : Z) : bytes := epoch_okm auth (take (Z.to_nat e) ss).

Record chain_inv (auth : bytes) (d : Direction) (p : ChainParams) (ss : list bytes) (got : Z -> gset Z) (c : Chain) : Prop := {
  ci_dir : dir c = d;
  ci_params : params c = p;
  ci_epoch : currentEpoch c = len ss /\ len ss < 2 ^ 63;
  ci_root : nextRoot c = to_arr 32 (take 32 (epoch_okm auth ss));
  ci_links : 0 < len (links c) <= len ss + 1;
  ci_send : len ss - len (links c) < sendEpoch c <= len ss;
  ci_link : forall i l, links c !! i = Some l -> let e := epoch_of ss (links c) i in
    link_inv (seed_out d (okm_of auth ss e)) (seed_in d (okm_of auth ss e)) (maxOOO p) (sendEpoch c <=? e) (got e) l;
  ci_got : forall e, len ss < e -> got e = ∅
}.

Lemma okm_of_snoc auth ss s e : e <= len ss -> okm_of auth (ss ++ [s]) e = okm_of auth ss e.
Proof. intros He. unfold okm_of. rewrite take_app_le; [done|]. unfold len in He. lia. Qed.

Lemma okm_of_last auth ss : okm_of auth ss (len ss) = epoch_okm auth ss.
Proof. unfold okm_of. rewrite take_ge; [done|]. unfold len. lia. Qed.

Definition wf_params (p : ChainParams) : Prop := is_u32 (MaxJump p) /\ is_u32 (MaxOOO p).

Lemma maxOOO_range p : wf_params p -> 0 <= maxOOO p < 2 ^ 32.
Proof. intros [_ Ho]. unfold maxOOO, chainDefaultMaxOOO. unfold is_u32 in Ho. case_match; lia. Qed.

Lemma link_inv_new sout sin p : wf_params p ->
  link_inv sout sin (maxOOO p) true ∅ (mkEpoch (newChainEpochDirection sout) (newChainEpochDirection sin)).
Proof. intros Hp. split; [by cbn|]. do 2 (split; [done|]). by apply dir_inv_new, maxOOO_range. Qed.

Lemma NewChain_ok auth d p : wf_params p -> exists c, NewChain auth d p = Ok c /\ chain_inv auth d p [] (fun _ => ∅) c.
Proof.
  intros Hp. unfold NewChain. destruct (hkdfTo_ok auth None chainInfoStart 96) as [Ho Hl]; [by unfold hkdfMaxLength|].
  fold (start_okm auth) in Ho, Hl. rewrite Ho. cbn [mbind res_bind].
  rewrite slice_take by lia. cbn [mbind res_bind]. rewrite chainSeeds_ok by done. cbn [mbind res_bind].
  eexists. split; [reflexivity|]. split; cbn [dir params currentEpoch nextRoot links sendEpoch]; try done.
  intros [|i] l Hi; [|by destruct i]. injection Hi as <-. by apply link_inv_new.
Qed.

Lemma AddEpoch_err auth d p ss got c e s :
  chain_inv auth d p ss got c -> len ss + 1 < 2 ^ 63 -> e <> len ss + 1 -> AddEpoch e s c = (c, Err SpqrErrEpochOutOfRange).
Proof.
  intros [_ _ [He Hb] _ _ _ _ _] Hs Hne. unfold AddEpoch. rewrite (st_bind_run _ _ _ c c) by done.
  pose proof (len_nonneg ss). rewrite He, u64_id by (unfold is_u64; lia).
  unfold st_check. by rewrite (proj2 (Z.eqb_neq _ _) Hne).
Qed.

Lemma AddEpoch_ok auth d p ss got c s :
  wf_params p -> chain_inv auth d p ss got c -> len ss + 1 < 2 ^ 63 ->
  exists c', AddEpoch (len ss + 1) s c = (c', Ok tt) /\ chain_inv auth d p (ss ++ [s]) got c'.
Proof.
  intros Hp [Hd Hpar [He Hb] Hr Hl Hse Hli Hg] Hs. unfold AddEpoch. rewrite (st_bind_run _ _ _ c c) by done.
  pose proof (len_nonneg ss) as Hnn. rewrite He, u64_id, Z.eqb_refl by (unfold is_u64; lia). rewrite st_bind_check by done.
  assert (epoch_okm auth (ss ++ [s]) = get_ok [] (hkdfTo s (Some (vec_to_list (nextRoot c))) chainInfoAddEpoch 96)) as Hok
    by (unfold epoch_okm; rewrite foldl_app, Hr; done).
  destruct (hkdfTo_ok s (Some (vec_to_list (nextRoot c))) chainInfoAddEpoch 96) as [Ho Hlen]; [by unfold hkdfMaxLength|].
  rewrite <- Hok in Ho, Hlen. rewrite (st_bind_lift _ _ _ _ Ho).
  rewrite (st_bind_lift _ _ _ (take 32 (epoch_okm auth (ss ++ [s])))) by (rewrite slice_take; [done|lia]).
  rewrite (st_bind_lift _ _ _ _ (chainSeeds_ok _ _ Hlen)).
  eexists. split; [reflexivity|]. rewrite Hd.
  assert (len (ss ++ [s]) = len ss + 1) as Hlen1 by lens.
  split; cbn [dir params currentEpoch nextRoot links sendEpoch]; rewrite ?Hlen1; try done; try lens.
  - intros i l Hi. cbv zeta. set (new := mkEpoch _ _) in *.
    assert (epoch_of (ss ++ [s]) (links c ++ [new]) i = epoch_of ss (links c) i) as ->
      by (unfold epoch_of; rewrite Hlen1; lens).
    apply lookup_app_Some in Hi as [Hi|[Hge Hi]].
    + pose proof (lookup_lt_Some _ _ _ Hi) as Hlt.
      rewrite okm_of_snoc by (unfold epoch_of, len in *; lia). by apply Hli.
    + destruct (i - length (links c))%nat as [|j] eqn:Ei; [|by destruct j]. injection Hi as <-.
      assert (epoch_of ss (links c) i = len (ss ++ [s])) as He' by (rewrite Hlen1; unfold epoch_of, len in *; lia).
      rewrite He', okm_of_last, Hg by lia. rewrite (proj2 (Z.leb_le _ _)) by lia. by apply link_inv_new.
  - intros e' He'. apply Hg. lia.
Qed.

(** The epochs whose keys are still kept. *)
Definition kept (ss : list bytes) (c : Chain) (e : Z) : Prop := len ss - len (links c) < e <= len ss.

Lemma epochIndex_spec auth d p ss got c e :
  chain_inv auth d p ss got c -> 0 <= e ->
  epochIndex c e = if decide (kept ss c e) then Ok (len (links c) - 1 - (len ss - e)) else Err SpqrErrEpochOutOfRange.
Proof.
  intros [_ _ [He Hb] _ _ _ _ _] H0. unfold epochIndex, kept. rewrite He. pose proof (len_nonneg ss).
  destruct (Z.gtb_spec e (len ss)); [rewrite decide_False by lia; done|]. cbn [check mbind res_bind].
  rewrite u64_id by (unfold is_u64; lia). unfold int_of_u64. rewrite (proj2 (Z.ltb_lt _ _)) by lia.
  destruct (Z.geb_spec (len ss - e) (len (links c))).
  - by rewrite decide_False by lia.
  - by rewrite decide_True by lia.
Qed.

Lemma drop_links_spec fuel idx l :
  0 <= idx -> idx <= Z.of_nat fuel + 1 -> drop_links fuel idx l = (Z.min idx 1, drop (Z.to_nat (idx - Z.min idx 1)) l).
Proof.
  revert idx l. induction fuel as [|fuel IH]; intros idx l H0 Hf; cbn [drop_links].
  - rewrite Z.min_l, Z.sub_diag by lia. done.
  - unfold epochsToKeepPriorToSend. destruct (Z.gtb_spec idx 1).
    + rewrite IH, drop_drop by lia. f_equal; [lia|f_equal; lia].
    + rewrite Z.min_l, Z.sub_diag by lia. done.
Qed.

(** Changing one link. *)
Lemma chain_inv_update auth d p ss got got' c i l l' :
  chain_inv auth d p ss got c -> links c !! i = Some l ->
  let e := epoch_of ss (links c) i in
  (forall e', e' <> e -> got' e' = got e') ->
  link_inv (seed_out d (okm_of auth ss e)) (seed_in d (okm_of auth ss e)) (maxOOO p) (sendEpoch c <=? e) (got' e) l' ->
  chain_inv auth d p ss got' (set_links (<[i := l']> (links c)) c).
Proof.
  intros [Hd Hpar He Hr Hl Hse Hli Hg] Hi e Hgot Hl'.
  assert (len (<[i := l']> (links c)) = len (links c)) as Hlen by (unfold len; by rewrite length_insert).
  pose proof (lookup_lt_Some _ _ _ Hi) as Hlt.
  split; unfold set_links; cbn [dir params currentEpoch nextRoot links sendEpoch]; rewrite ?Hlen; try done.
  - intros j lj Hj. cbv zeta. unfold epoch_of. rewrite Hlen. fold (epoch_of ss (links c) j).
    apply list_lookup_insert_Some in Hj as [(-> & <- & _)|[Hne Hj]]; [done|].
    rewrite Hgot by (unfold e, epoch_of; lia). by apply Hli.
  - intros e' He'. rewrite Hgot; [by apply Hg|]. unfold e, epoch_of, len in *. lia.
Qed.

(** Moving the sending epoch forward drops all but one of the older links and
    erases the sending seeds of what is left of them. *)
Lemma advance_inv auth d p ss got c e :
  chain_inv auth d p ss got c -> sendEpoch c <= e <= len ss ->
  let idx := len (links c) - 1 - (len ss - e) in
  let '(idx', c') := advance_send_epoch e idx c in
  chain_inv auth d p ss got c' /\ sendEpoch c' = e /\ 0 <= idx' /\ idx' = len (links c') - 1 - (len ss - e) /\
  links c' !! Z.to_nat idx' = links c !! Z.to_nat idx /\
  (sendEpoch c < e -> idx' <= 1) /\ (forall l, l ∈ links c' -> exists l0, l0 ∈ links c /\ ctr (send l) = ctr (send l0)).
Proof.
  intros Hi He idx. pose proof Hi as [Hd Hpar [Hep Hb] Hr Hl Hse Hli Hg]. unfold advance_send_epoch.
  assert (0 <= idx < len (links c)) as Hidx by (unfold idx; lia).
  destruct (Z.eqb_spec e (sendEpoch c)) as [Heq|Hne].
  { split_and!; try done; try lia. eauto. }
  rewrite drop_links_spec by lia. set (k := Z.to_nat (idx - Z.min idx 1)). set (j := Z.min idx 1).
  set (l := (clear_send <$> _) ++ _).
  assert (length (drop k (links c)) = length (links c) - k)%nat as Hlk by apply length_drop.
  assert (len l = len (links c) - Z.of_nat k) as Hlen.
  { unfold l. rewrite len_app, len_fmap. unfold len in *. rewrite length_take, !length_drop. lia. }
  assert (forall i x, l !! i = Some x -> exists x0, links c !! (k + i)%nat = Some x0 /\
    x = if decide (Z.of_nat i < j) then clear_send x0 else x0) as Hlook.
  { intros i x. unfold l. rewrite lookup_app. destruct (decide (Z.of_nat i < j)) as [Hij|Hij].
    - rewrite list_lookup_fmap, lookup_take_lt, lookup_drop by lia.
      destruct (links c !! (k + i)%nat) as [x0|] eqn:Ex; cbn; [intros [= <-]; eauto|].
      apply lookup_ge_None in Ex. unfold len in *. lia.
    - rewrite list_lookup_fmap, lookup_take_ge by lia. cbn. rewrite length_fmap, length_take, Hlk, !lookup_drop.
      replace (k + (Z.to_nat j + (i - Z.to_nat j `min` (length (links c) - k))))%nat with (k + i)%nat
        by (unfold len in *; lia). eauto. }
  assert (Z.of_nat k = idx - j) as Hk by lia.
  cbn [links sendEpoch]. split; [|split_and!; [done|lia|lia| |lia|]].
  - split; cbn [dir params currentEpoch nextRoot links sendEpoch]; try done; [lia|lia|].
    intros i x Hx. cbv zeta. assert (epoch_of ss l i = epoch_of ss (links c) (k + i)) as -> by (unfold epoch_of; lia).
    destruct (Hlook i x Hx) as (x0 & Hx0 & ->). destruct (Hli _ _ Hx0) as (H1 & H2 & H3).
    assert (epoch_of ss (links c) (k + i) = e - j + Z.of_nat i) as He' by (unfold epoch_of; lia).
    rewrite He' in *. case_decide.
    + rewrite (proj2 (Z.leb_gt _ _)) by lia. by split.
    + rewrite (proj2 (Z.leb_le _ _)) by lia. rewrite (proj2 (Z.leb_le _ _)) in H2 by lia. by split.
  - unfold l. rewrite lookup_app_r by (rewrite length_fmap, length_take; lia).
    rewrite length_fmap, length_take, Hlk, !lookup_drop. f_equal. unfold len in *. lia.
  - intros x [i Hx]%list_elem_of_lookup. destruct (Hlook i x Hx) as (x0 & Hx0 & ->).
    exists x0. split; [by eapply list_elem_of_lookup_2|]. by case_decide.
Qed.

(** [SendKey] in an epoch that is not older than the last one sent in: the next
    key of that epoch. *)
Lemma SendKey_ok auth d p ss got c e :
  chain_inv auth d p ss got c -> sendEpoch c <= e <= len ss -> 0 <= e ->
  (forall l, l ∈ links c -> ctr (send l) < MaxUint32) ->
  exists l c', links c !! Z.to_nat (len (links c) - 1 - (len ss - e)) = Some l /\
    let n := ctr (send l) + 1 in
    SendKey e c = (c', Ok (n, vec_to_list (key_at (seed_out d (okm_of auth ss e)) n))) /\
    chain_inv auth d p ss got c' /\ sendEpoch c' = e /\
    (exists l', links c' !! Z.to_nat (len (links c') - 1 - (len ss - e)) = Some l' /\ ctr (send l') = n) /\
    (sendEpoch c < e -> len (links c') <= len ss - e + 2) /\
    (forall x, x ∈ links c' -> exists x0, x0 ∈ links c /\ ctr (send x) <= ctr (send x0) + 1).
Proof.
  intros Hi He H0 Hc. pose proof (advance_inv auth d p ss got c e Hi He) as Ha. cbv zeta in Ha.
  pose proof (ci_send _ _ _ _ _ _ Hi) as Hse.
  unfold SendKey. rewrite st_bind_check by (apply Z.ltb_ge; lia).
  rewrite (st_bind_lift _ _ _ (len (links c) - 1 - (len ss - e)))
    by (rewrite (epochIndex_spec _ _ _ _ _ _ _ Hi H0); rewrite decide_True; [done|]; unfold kept; lia).
  set (idx := len (links c) - 1 - (len ss - e)) in *.
  destruct (advance_send_epoch e idx c) as [idx' c1]. destruct Ha as (Hi1 & Hs1 & Hx0 & Hx & Hlk & Hdrop & Hctr).
  rewrite (st_bind_run _ _ _ c1 tt) by done.
  assert (exists l, links c1 !! Z.to_nat idx' = Some l) as [l Hl].
  { apply lookup_lt_is_Some. pose proof (ci_links _ _ _ _ _ _ Hi1). unfold len in *. lia. }
  rewrite (st_bind_lift _ _ _ l) by (unfold index; rewrite (proj2 (Z.leb_le _ _)) by lia; by rewrite Hl).
  destruct (ci_link _ _ _ _ _ _ Hi1 _ _ Hl) as (Hcr & Hn & Hpv & Hd).
  assert (epoch_of ss (links c1) (Z.to_nat idx') = e) as Hep by (unfold epoch_of; lia).
  rewrite Hep, Hs1, Z.leb_refl in *.
  assert (ctr (send l) < MaxUint32) as Hlt.
  { destruct (Hctr l) as (l0 & Hin & ->); [by eapply list_elem_of_lookup_2|by apply Hc]. }
  pose proof (nextKey_ok _ _ (proj1 (seed_len auth (take (Z.to_nat e) ss) d)) (conj (proj1 Hcr) Hlt) Hn) as Hk.
  fold (okm_of auth ss e) in Hk. rewrite Hk.
  exists l. eexists. split; [by rewrite <- Hlk|]. cbv zeta. split; [reflexivity|].
  set (l' := mkEpoch _ (recv l)).
  assert (len (<[Z.to_nat idx' := l']> (links c1)) = len (links c1)) as Hlen by (unfold len; by rewrite length_insert).
  split_and!.
  - apply (chain_inv_update _ _ _ _ got) with (l := l); [done|done|done|]. rewrite Hep, Hs1, Z.leb_refl.
    split; [cbn; lia|]. by split_and!.
  - done.
  - cbn [set_links links]. rewrite Hlen, <- Hx. exists l'. split; [|done].
    apply list_lookup_insert_eq. by eapply lookup_lt_Some.
  - intros Hlt'. cbn [set_links links]. rewrite Hlen. apply Hdrop in Hlt'. lia.
  - cbn [set_links links]. intros x [i Hxi]%list_elem_of_lookup. apply list_lookup_insert_Some in Hxi as [(<- & <- & _)|[_ Hxi]].
    + destruct (Hctr l) as (l0 & Hin & Hc0); [by eapply list_elem_of_lookup_2|]. exists l0. split; [done|]. cbn. lia.
    + destruct (Hctr x) as (l0 & Hin & Hc0); [by eapply list_elem_of_lookup_2|]. exists l0. split; [done|]. lia.
Qed.

Lemma SendKey_err auth d p ss got c e :
  chain_inv auth d p ss got c -> 0 <= e -> e < sendEpoch c \/ len ss < e ->
  SendKey e c = (c, Err (if e <? sendEpoch c then SpqrErrSendKeyEpochDecreased else SpqrErrEpochOutOfRange)).
Proof.
  intros Hi H0 He. unfold SendKey, st_check. destruct (Z.ltb_spec e (sendEpoch c)); [done|].
  unfold mbind at 1, st_bind at 1, st_lift at 1, check. unfold mbind at 1, st_bind at 1, st_lift at 1.
  rewrite (epochIndex_spec _ _ _ _ _ _ _ Hi H0), decide_False; [done|]. unfold kept. lia.
Qed.

(** [RecvKey] is the window of the epoch. *)
Lemma RecvKey_ok auth d p ss got c e n :
  wf_params p -> chain_inv auth d p ss got c -> 0 <= e -> kept ss c e -> 0 <= n -> n + maxOOO p < 2 ^ 32 ->
  exists l c', links c !! Z.to_nat (len (links c) - 1 - (len ss - e)) = Some l /\
    let r := window (seed_in d (okm_of auth ss e)) p (ctr (recv l)) (got e) n in
    RecvKey e n c = (c', k ← r; mret (vec_to_list k)) /\ Z.of_nat (size (prev (recv l))) <= maxOOO p + 1 /\
    chain_inv auth d p ss (if is_ok r then fun e' => if decide (e' = e) then {[n]} ∪ got e' else got e' else got) c'.
Proof.
  intros Hp Hi H0 Hk Hn0 Hn. pose proof Hk as Hk'. unfold kept in Hk'. unfold RecvKey.
  rewrite (st_bind_lift _ _ _ (len (links c) - 1 - (len ss - e)))
    by (rewrite (epochIndex_spec _ _ _ _ _ _ _ Hi H0); by rewrite decide_True).
  set (idx := len (links c) - 1 - (len ss - e)).
  assert (0 <= idx < len (links c)) as Hidx by (unfold idx; lia).
  assert (exists l, links c !! Z.to_nat idx = Some l) as [l Hl] by (apply lookup_lt_is_Some; unfold len in *; lia).
  rewrite (st_bind_lift _ _ _ l) by (unfold index; rewrite (proj2 (Z.leb_le _ _)) by lia; by rewrite Hl).
  destruct (ci_link _ _ _ _ _ _ Hi _ _ Hl) as (Hcr & Hnx & Hpv & Hd).
  assert (epoch_of ss (links c) (Z.to_nat idx) = e) as Hep by (unfold epoch_of; lia).
  rewrite Hep in *. exists l.
  destruct (key_window _ p (got e) (recv l) n (proj2 (seed_len auth (take (Z.to_nat e) ss) d))) as (d' & E & _ & Hd');
    [by apply maxOOO_range|done..|]. fold (okm_of auth ss e) in E, Hd'.
  rewrite (ci_params _ _ _ _ _ _ Hi), E.
  set (r := window _ p _ _ n) in *.
  exists (set_links (<[Z.to_nat idx := mkEpoch (send l) d']> (links c)) c). split; [done|]. cbv zeta. split_and!.
  - unfold mbind at 1, st_bind at 1, st_put. by destruct r.
  - eapply dir_inv_size; [by apply maxOOO_range|done].
  - apply (chain_inv_update _ _ _ _ got) with (l := l); [done|done| |].
    + rewrite Hep. intros e' He'. destruct (is_ok r); [|done]. by rewrite decide_False.
    + rewrite Hep. do 3 (split; [done|]). cbn [recv]. destruct (is_ok r); [|done]. by rewrite decide_True.
Qed.

Lemma RecvKey_err auth d p ss got c e n :
  chain_inv auth d p ss got c -> 0 <= e -> ~ kept ss c e -> RecvKey e n c = (c, Err SpqrErrEpochOutOfRange).
Proof.
  intros Hi H0 Hk. unfold RecvKey. unfold mbind at 1, st_bind at 1, st_lift at 1.
  by rewrite (epochIndex_spec _ _ _ _ _ _ _ Hi H0), decide_False.
Qed.

(** Every reachable chain satisfies the invariant. *)
Lemma reach_inv auth d p ss got c : wf_params p -> reach auth d p ss got c -> chain_inv auth d p ss got c.
Proof.
  intros Hp. induction 1 as [c E|ss got c e s c' r _ IH Hb E|ss got c e c' r _ IH H0 Hc E|ss got c e n c' r _ IH H0 Hn0 Hn E].
  - destruct (NewChain_ok auth d p Hp) as (c' & E' & Hi). rewrite E in E'. by apply Ok_inj in E' as ->.
  - destruct (decide (e = len ss + 1)) as [->|Hne].
    + destruct (AddEpoch_ok auth d p ss got c s Hp IH Hb) as (c1 & E1 & Hi). rewrite E in E1. by injection E1 as -> ->.
    + rewrite (AddEpoch_err _ _ _ _ _ _ _ s IH Hb Hne) in E. by injection E as <- <-.
  - destruct (decide (sendEpoch c <= e <= len ss)) as [Hin|Hout].
    + destruct (SendKey_ok _ _ _ _ _ _ e IH Hin H0 Hc) as (l & c1 & _ & E1 & Hi & _). rewrite E in E1. by injection E1 as -> _.
    + rewrite (SendKey_err _ _ _ _ _ _ _ IH H0) in E by lia. by injection E as <- _.
  - destruct (decide (kept ss c e)) as [Hk|Hk].
    + destruct (RecvKey_ok _ _ _ _ _ _ e n Hp IH H0 Hk Hn0 Hn) as (l & c1 & _ & E1 & _ & Hi).
      rewrite E in E1. injection E1 as -> ->. by destruct (window _ _ _ _ _).
    + rewrite (RecvKey_err _ _ _ _ _ _ _ _ IH H0 Hk) in E. by injection E as <- <-.
Qed.

(** The highest number handed out. *)
Definition reached (got : gset Z) : Z := set_fold Z.max 0 got.

Lemma reached_spec got : (forall n, n ∈ got -> n <= reached got) /\ (reached got = 0 \/ reached got ∈ got).
Proof.
  unfold reached. apply (set_fold_ind_L (fun r X => (forall n, n ∈ X -> n <= r) /\ (r = 0 \/ r ∈ X))); [set_solver|].
  intros x X r Hx [H1 H2]. split.
  - intros n [->%elem_of_singleton|Hn%H1]%elem_of_union; lia.
  - destruct (Z.max_spec x r) as [[_ ->]|[_ ->]]; [destruct H2; [by left|]|]; right; set_solver.
Qed.

Lemma dir_inv_reached seed ooo got d : dir_inv seed ooo got d -> ctr d = reached got.
Proof.
  intros Hi. destruct (reached_spec got) as [H1 H2]. pose proof (di_got _ _ _ _ Hi) as Hg.
  pose proof (proj1 (di_ctr _ _ _ _ Hi)) as Hc.
  destruct (di_last _ _ _ _ Hi) as [Hz|Hin].
  - destruct H2 as [?|?%Hg]; lia.
  - pose proof (H1 _ Hin). destruct H2 as [?|?%Hg]; lia.
Qed.

(** ** Persistence *)

Record dir_wf (d : chainEpochDirection) : Prop := {
  dw_ctr : is_u32 (ctr d);
  dw_next : len (next d) < 2 ^ 32;
  dw_keys : forall n, is_Some (prev d !! n) -> is_u32 n;
  dw_size : Z.of_nat (size (prev d)) < 2 ^ 32
}.

Record chain_wf (c : Chain) : Prop := {
  cw_dir : Direction_of_byte (byte_of_Direction (dir c)) = dir c;
  cw_cur : is_u64 (currentEpoch c);
  cw_send : is_u64 (sendEpoch c);
  cw_params : wf_params (params c);
  cw_links : len (links c) < 2 ^ 32;
  cw_link : forall l, l ∈ links c -> dir_wf (send l) /\ dir_wf (recv l)
}.

Lemma reads_chain_dir d : dir_wf d -> reads consumeChainDir (appendChainDir d) d.
Proof.
  intros [Hc Hn Hk Hsz]. unfold consumeChainDir, appendChainDir. pose proof (len_nonneg (next d)) as Hnn.
  assert (len (Erasure.sortedKeys (prev d)) = Z.of_nat (size (prev d))) as Hl by (unfold len; by rewrite sortedKeys_length).
  rewrite !u32_id by (unfold is_u32; lia).
  apply reads_need; [lens|]. eapply reads_bind; [by apply reads_uint|]. eapply reads_bind; [apply reads_uint; lia|].
  apply reads_need; [lens|]. eapply reads_bind; [by apply reads_take|].
  apply reads_need; [lens|]. eapply reads_bind; [apply reads_uint; lia|].
  destruct d as [c nx m]. cbn [ctr next prev] in *. eapply reads_bind_end; [|apply reads_ret]. unfold len. rewrite Nat2Z.id.
  eapply reads_eq; [|apply (foldl_sortedKeys m (fun k => default zero32 (m !! k))); by intros k v ->].
  apply reads_for. intros acc k Hin%elem_of_sortedKeys. apply reads_need; [lens|].
  eapply reads_bind; [by apply reads_uint, Hk|]. eapply reads_bind_end; [apply reads_arr|]. apply reads_ret.
Qed.

Lemma deserializeChain_serialize c : chain_wf c -> deserializeChain (serializeChain c) = Ok (Some c).
Proof.
  intros [Hd Hcu Hse [Hj Ho] Hl Hli]. unfold deserializeChain. pose proof (len_nonneg (links c)) as Hnn.
  assert (2 <= len (serializeChain c)) as H2 by (unfold serializeChain; lens).
  rewrite (proj2 (Z.eqb_neq _ 0)) by lia. unfold serializeChain. rewrite u32_id by (unfold is_u32; lia).
  apply reads_end_run.
  apply (reads_end_bind _ _ [Byte.x01] Byte.x01); [apply reads_byte|]. apply reads_end_check; [done|].
  apply reads_end_need; [lens|].
  apply (reads_end_bind _ _ [byte_of_Direction (dir c)] (byte_of_Direction (dir c))); [apply reads_byte|].
  apply reads_end_need; [lens|]. eapply reads_end_bind; [by apply reads_uint|]. eapply reads_end_bind; [by apply reads_uint|].
  eapply reads_end_bind; [apply reads_arr|]. do 2 (eapply reads_end_bind; [by apply reads_uint|]).
  eapply reads_end_bind; [apply reads_uint; lia|]. unfold len at 1. rewrite Nat2Z.id.
  eapply reads_end_last.
  { apply (reads_for _ _ (fun acc l => acc ++ [l])). intros acc l Hin. destruct (Hli l Hin) as [Hs Hr].
    eapply reads_bind; [by apply reads_chain_dir|]. eapply reads_bind_end; [by apply reads_chain_dir|].
    destruct l. apply reads_ret. }
  apply reads_end_eof, reads_end_of. rewrite foldl_snoc, Hd. destruct c as [? ? ? ? ? []]. apply reads_ret.
Qed.

Lemma wp_chain_dir data pos (Q : chainEpochDirection -> Z -> Prop) :
  0 <= pos <= len data -> (forall d pos', 0 <= pos' <= len data -> Q d pos') -> rd_wp consumeChainDir data pos Q.
Proof.
  intros Hpos HQ. unfold consumeChainDir. wp_steps. apply (wp_for _ _ _ (fun _ => True)); [|done|lia|].
  - intros m p _ Hp. wp_steps. split; [done|lia].
  - intros m p _ Hp. wp_steps. by apply HQ.
Qed.

Lemma deserializeChain_no_panic data : deserializeChain data <> Panic.
Proof.
  unfold deserializeChain. destruct (Z.eqb_spec (len data) 0) as [|Hne]; [done|].
  pose proof (len_nonneg data). apply wp_run. wp_steps. apply (wp_for _ _ _ (fun _ => True)); [|done|lia|].
  - intros acc p _ Hp. wp_steps. apply wp_chain_dir; [lia|]. intros s p1 Hp1. wp_steps.
    apply wp_chain_dir; [lia|]. intros r p2 Hp2. wp_steps. split; [done|lia].
  - intros acc p _ Hp. wp_steps. done.
Qed.

Lemma chain_inv_wf auth d p ss got c :
  wf_params p -> (forall b, d <> DirectionOther b) -> chain_inv auth d p ss got c -> len (links c) < 2 ^ 32 -> chain_wf c.
Proof.
  intros Hp Hdir [Hd Hpar [He Hb] Hr Hl Hse Hli Hg] Hlen. pose proof (len_nonneg ss).
  split; [|unfold is_u64; lia|unfold is_u64; lia|by rewrite Hpar|done|].
  - rewrite Hd. destruct d; try done. by destruct (Hdir d).
  - intros l [i Hi]%list_elem_of_lookup. destruct (Hli i l Hi) as (H1 & H2 & H3 & H4).
    destruct (seed_len auth (take (Z.to_nat (epoch_of ss (links c) i)) ss) d) as [L1 L2].
    pose proof (maxOOO_range p Hp). unfold MaxUint32 in H1. split; split.
    + unfold is_u32; lia.
    + rewrite H2. case_match; [|by cbn]. unfold okm_of. rewrite seed_at_len by done. lia.
    + rewrite H3. intros n [k Hk]. by rewrite lookup_empty in Hk.
    + rewrite H3. by rewrite map_size_empty.
    + destruct (di_ctr _ _ _ _ H4). unfold is_u32; lia.
    + rewrite (di_next _ _ _ _ H4). unfold okm_of. rewrite seed_at_len by done. lia.
    + intros n [k Hk]. destruct (di_ctr _ _ _ _ H4). apply (di_stored _ _ _ _ H4) in Hk as [? _]. unfold is_u32; lia.
    + destruct (di_ctr _ _ _ _ H4) as [Hc1 Hc2]. apply Z.le_lt_trans with (ctr (recv l)); [|lia].
      apply (keys_range_size _ 0); [done|]. intros n [k Hk]. apply (di_stored _ _ _ _ H4) in Hk as [? _]. lia.
Qed.

End chain.

(** ** Properties *)

Definition opposite (d : Direction) : Direction :=
  match d with DirectionA2B => DirectionB2A | DirectionB2A => DirectionA2B | DirectionOther b => DirectionOther b end.

(** C25: agreement of the message keys. Two parties start from the same
    authentication key in opposite directions and are given the same epoch
    secrets up to epoch [e]. Then a key that one of them gets from [SendKey] in
    that epoch is the key the other gets from [RecvKey] for that epoch and
    number, whatever else either has sent or received: as long as the receiver
    still keeps the epoch, has not handed the number out, and the number is
    inside its window. *)
Theorem chain_agreement (P : Primitives) auth d pa pb ssa gota a ssb gotb b e n k a' :
  (forall x, d <> DirectionOther x) -> wf_params pa -> wf_params pb ->
  reach auth d pa ssa gota a -> reach auth (opposite d) pb ssb gotb b ->
  0 <= e -> take (Z.to_nat e) ssa = take (Z.to_nat e) ssb ->
  (forall l, l ∈ links a -> ctr (send l) < MaxUint32) ->
  SendKey e a = (a', Ok (n, k)) ->
  kept ssb b e -> n + maxOOO pb < 2 ^ 32 -> n ∉ gotb e ->
  reached (gotb e) - maxOOO pb <= n <= reached (gotb e) + maxJump pb ->
  exists b', RecvKey e n b = (b', Ok k).
Proof.
  intros Hd Hpa Hpb Ha Hb H0 Hss Hc E Hk Hn Hg Hw. apply reach_inv in Ha, Hb; [|done..].
  destruct (decide (sendEpoch a <= e <= len ssa)) as [Hin|Hout].
  2:{ rewrite (SendKey_err _ _ _ _ _ _ _ Ha H0) in E by lia. done. }
  destruct (SendKey_ok _ _ _ _ _ _ e Ha Hin H0 Hc) as (l & c1 & Hl & E1 & _). rewrite E in E1. cbv zeta in E1.
  injection E1 as -> -> ->. destruct (ci_link _ _ _ _ _ _ Ha _ _ Hl) as ([Hn0 _] & _).
  destruct (RecvKey_ok _ _ _ _ _ _ e (ctr (send l) + 1) Hpb Hb H0 Hk) as (lb & b' & Hlb & Eb & _); [lia|done|].
  exists b'. rewrite Eb. f_equal. destruct (ci_link _ _ _ _ _ _ Hb _ _ Hlb) as (_ & _ & _ & Hdb).
  replace (epoch_of ssb (links b) (Z.to_nat (len (links b) - 1 - (len ssb - e)))) with e in Hdb
    by (unfold epoch_of, kept in *; lia).
  rewrite (dir_inv_reached _ _ _ _ Hdb).
  assert (okm_of auth ssa e = okm_of auth ssb e) as -> by (unfold okm_of; by rewrite Hss).
  assert (seed_in (opposite d) = seed_out d) as -> by (destruct d; [done|done|by destruct (Hd d)]).
  unfold window. destruct (Z.gtb_spec (ctr (send l) + 1) (reached (gotb e))).
  - destruct (Z.gtb_spec (ctr (send l) + 1 - reached (gotb e)) (maxJump pb)); [lia|done].
  - rewrite (proj2 (Z.ltb_ge _ _)) by lia. rewrite bool_decide_false; [done|]. intros [|]; [lia|done].
Qed.

Definition demo_params : ChainParams := mkParams 0 0.
Definition demo_chain `{Primitives} (d : Direction) : Chain :=
  get_ok (mkChain d 0 0 [] zero32 demo_params) (NewChain [Byte.x07] d demo_params).

Lemma demo_reach d : @reach Toy.primitives [Byte.x07] d demo_params [] (fun _ => ∅) (@demo_chain Toy.primitives d).
Proof. apply reach_new. apply ok_get. by destruct d. Qed.

Lemma chain_agreement_witness :
  let P := Toy.primitives in
  exists k b', snd (SendKey 0 (demo_chain DirectionA2B)) = Ok (1, k) /\
    RecvKey 0 1 (demo_chain DirectionB2A) = (b', Ok k).
Proof.
  intros P. pose (k := snd (get_ok (0, []) (snd (SendKey 0 (demo_chain DirectionA2B))))).
  assert (snd (SendKey 0 (demo_chain DirectionA2B)) = Ok (1, k)) as E by (vm_compute; reflexivity).
  assert (SendKey 0 (demo_chain DirectionA2B) = (fst (SendKey 0 (demo_chain DirectionA2B)), Ok (1, k))) as E'
    by (rewrite <- E; by destruct (SendKey _ _)).
  destruct (chain_agreement P [Byte.x07] DirectionA2B demo_params demo_params [] (fun _ => ∅) (demo_chain DirectionA2B)
    [] (fun _ => ∅) (demo_chain DirectionB2A) 0 1 k (fst (SendKey 0 (demo_chain DirectionA2B)))) as [b' Hb].
  - clear E E'. done.
  - clear E E'. by split.
  - clear E E'. by split.
  - apply demo_reach.
  - apply demo_reach.
  - lia.
  - clear E E'. done.
  - clear E E'. intros l [->|Hl%not_elem_of_nil]%elem_of_cons; done.
  - exact E'.
  - clear E E'. split; [by vm_compute|done].
  - clear E E'. done.
  - clear E E'. done.
  - clear E E'. by split.
  - exists k, b'. done.
Defined.

(** C28: the receiving side refines a window over the numbers it has handed out.
    On a chain reached from [NewChain], [RecvKey] answers as a function of the
    history only: an epoch outside the kept ones is out of range and changes
    nothing; otherwise the answer is [window] of the set [got] of numbers
    already handed out in the epoch: each number at most once, at most
    [maxJump] ahead of the highest one, refused as trimmed more than [maxOOO]
    behind it. The chain never stores more than [maxOOO + 1] keys for an
    epoch. *)
Theorem chain_window (P : Primitives) auth d p ss got c e n :
  wf_params p -> reach auth d p ss got c -> 0 <= e -> 0 <= n -> n + maxOOO p < 2 ^ 32 ->
  (~ kept ss c e -> RecvKey e n c = (c, Err SpqrErrEpochOutOfRange)) /\
  (kept ss c e -> exists c',
    RecvKey e n c = (c', k ← window (seed_in d (okm_of auth ss e)) p (reached (got e)) (got e) n; mret (vec_to_list k))) /\
  (forall l, l ∈ links c -> Z.of_nat (size (prev (recv l))) <= maxOOO p + 1).
Proof.
  intros Hp Hr H0 Hn0 Hn. apply reach_inv in Hr; [|done]. split_and!.
  - intros Hk. by eapply RecvKey_err.
  - intros Hk. destruct (RecvKey_ok _ _ _ _ _ _ e n Hp Hr H0 Hk Hn0 Hn) as (l & c' & Hl & E & _).
    exists c'. rewrite E. destruct (ci_link _ _ _ _ _ _ Hr _ _ Hl) as (_ & _ & _ & Hd).
    replace (epoch_of ss (links c) (Z.to_nat (len (links c) - 1 - (len ss - e)))) with e in Hd
      by (unfold epoch_of, kept in *; lia).
    by rewrite (dir_inv_reached _ _ _ _ Hd).
  - intros l [i Hl]%list_elem_of_lookup. destruct (ci_link _ _ _ _ _ _ Hr _ _ Hl) as (_ & _ & _ & Hd).
    eapply dir_inv_size; [by apply maxOOO_range|exact Hd].
Qed.

Lemma chain_window_witness :
  let P := Toy.primitives in
  RecvKey 1 3 (demo_chain DirectionA2B) = (demo_chain DirectionA2B, Err SpqrErrEpochOutOfRange).
Proof.
  intros P. refine (proj1 (chain_window P [Byte.x07] DirectionA2B demo_params [] (fun _ => ∅) (demo_chain DirectionA2B)
    1 3 _ _ _ _ _) _).
  - by split.
  - apply demo_reach.
  - lia.
  - lia.
  - done.
  - unfold kept. rewrite len_nil. lia.
Defined.

(** The sending side. On a reached chain whose sending counters are below
    2^32 - 1, [SendKey] refuses an epoch older than the last one it sent in and
    an epoch that does not exist yet, without changing the chain; for every
    other epoch it returns the next number and its key, and then the next call
    for that epoch returns the number after it. After moving to a newer epoch
    at most one older epoch is kept, and the sending seeds of all older epochs
    are erased. *)
Theorem chain_send (P : Primitives) auth d p ss got c e :
  wf_params p -> reach auth d p ss got c -> 0 <= e ->
  (forall l, l ∈ links c -> ctr (send l) < MaxUint32 - 1) ->
  (e < sendEpoch c -> SendKey e c = (c, Err SpqrErrSendKeyEpochDecreased)) /\
  (len ss < e -> SendKey e c = (c, Err SpqrErrEpochOutOfRange)) /\
  (sendEpoch c <= e <= len ss -> exists c' n k,
     SendKey e c = (c', Ok (n, k)) /\ sendEpoch c' = e /\
     k = vec_to_list (key_at (seed_out d (okm_of auth ss e)) n) /\
     (exists k', snd (SendKey e c') = Ok (n + 1, k')) /\
     (forall i l, links c' !! i = Some l -> epoch_of ss (links c') i < e -> next (send l) = []) /\
     (sendEpoch c < e -> len (links c') <= len ss - e + 2)).
Proof.
  intros Hp Hr H0 Hc. apply reach_inv in Hr; [|done]. pose proof (ci_send _ _ _ _ _ _ Hr) as Hse. split_and!.
  - intros He. rewrite (SendKey_err _ _ _ _ _ _ _ Hr H0) by lia. by rewrite (proj2 (Z.ltb_lt _ _)) by lia.
  - intros He. rewrite (SendKey_err _ _ _ _ _ _ _ Hr H0) by lia. by rewrite (proj2 (Z.ltb_ge _ _)) by lia.
  - intros He.
    destruct (SendKey_ok _ _ _ _ _ _ e Hr He H0) as (l & c' & Hl & E & Hi' & Hs' & (l' & Hl' & Hn') & Hdrop & Hctr).
    { intros l Hl%Hc. lia. }
    exists c'. do 2 eexists. split; [exact E|]. split; [done|]. split; [done|]. split; [|split; [|done]].
    + destruct (SendKey_ok _ _ _ _ _ _ e Hi') as (l2 & c2 & Hl2 & E2 & _); [lia|done| |].
      * intros x Hx. destruct (Hctr x Hx) as (x0 & Hx0 & Hle). apply Hc in Hx0. lia.
      * rewrite Hl' in Hl2. injection Hl2 as <-. rewrite E2, <- Hn'. cbv zeta. eexists. reflexivity.
    + intros i x Hx Hlt. destruct (ci_link _ _ _ _ _ _ Hi' _ _ Hx) as (_ & Hn & _).
      rewrite Hs', (proj2 (Z.leb_gt _ _)) in Hn by lia. done.
Qed.

Lemma chain_send_witness :
  let P := Toy.primitives in
  exists c' n k, SendKey 0 (demo_chain DirectionA2B) = (c', Ok (n, k)) /\
    exists k', snd (SendKey 0 c') = Ok (n + 1, k').
Proof.
  intros P. destruct (chain_send P [Byte.x07] DirectionA2B demo_params [] (fun _ => ∅) (demo_chain DirectionA2B) 0)
    as (_ & _ & Hs).
  - by split.
  - apply demo_reach.
  - lia.
  - intros l [->|Hl%not_elem_of_nil]%elem_of_cons; done.
  - destruct Hs as (c' & n & k & E & _ & _ & Hk & _); [by split|]. eauto.
Defined.

(** Persistence of the chain. Every chain a party can reach (with fewer
    than 2^32 links) is restored exactly from [serializeChain], and
    [deserializeChain] never panics on any bytes. *)
Theorem chain_roundtrip (P : Primitives) auth d p ss got c data :
  (forall x, d <> DirectionOther x) -> wf_params p -> reach auth d p ss got c -> len (links c) < 2 ^ 32 ->
  deserializeChain (serializeChain c) = Ok (Some c) /\ deserializeChain data <> Panic.
Proof.
  intros Hd Hp Hr Hl. split; [|apply deserializeChain_no_panic].
  apply deserializeChain_serialize. eapply chain_inv_wf; [done|done|by apply reach_inv|done].
Qed.

Lemma chain_roundtrip_witness :
  let P := Toy.primitives in
  deserializeChain (serializeChain (demo_chain DirectionA2B)) = Ok (Some (demo_chain DirectionA2B)).
Proof.
  intros P. refine (proj1 (chain_roundtrip P [Byte.x07] DirectionA2B demo_params [] (fun _ => ∅) (demo_chain DirectionA2B) [] _ _ _ _)).
  - done.
  - by split.
  - apply demo_reach.
  - done.
Defined.
