(* ===== verification/SpqrCounters.v ===== *)
(** * The counters of a chain

    How far a chain has got in each epoch, by direction, and what its operations
    do to that. A receiver that has got as far as the sender accepts the
    sender's next key: this is what keeps a conversation in order. *)

From Stdlib Require Import ZArith Lia.
From stdpp Require Import base gmap list list_numbers vector.
From S2P Require Import Prelude Crypto SpqrUtil SpqrChain SpqrChainProofs.
Import Crypto Util SpqrChain.

Section counters.
Context {HP : Primitives}.

(** The oldest epoch that is kept, and the link of an epoch. *)
Definition low (c : Chain) : Z := currentEpoch c + 1 - len (links c).

Definition link_of (c : Chain) (e : Z) : option chainEpoch :=
  if low c <=? e then links c !! Z.to_nat (e - low c) else None.

(** The numbers of the last key sent and of the last key received. *)
Definition sctr (c : Chain) (e : Z) : Z := from_option (fun l => ctr (send l)) 0 (link_of c e).
Definition rctr (c : Chain) (e : Z) : Z := from_option (fun l => ctr (recv l)) 0 (link_of c e).

(** [c'] has got exactly as far as [c] in the epochs from [e0] on. *)
Definition same_counters (e0 : Z) (c c' : Chain) : Prop :=
  forall e, e0 <= e -> sctr c' e = sctr c e /\ rctr c' e = rctr c e.

Lemma link_of_index c e l : low c <= e -> links c !! Z.to_nat (e - low c) = Some l -> link_of c e = Some l.
Proof. intros He Hl. unfold link_of. by rewrite (proj2 (Z.leb_le _ _)). Qed.

Lemma AddEpoch_counters e s c c' :
  AddEpoch e s c = (c', Ok tt) -> is_u64 (currentEpoch c + 1) ->
  low c' = low c /\ sendEpoch c' = sendEpoch c /\ forall e0, same_counters e0 c c'.
Proof.
  unfold AddEpoch. intros E Hb. rewrite (st_bind_run _ _ _ c c) in E by done.
  apply st_bind_ok in E as (c1 & u & [-> Hne]%st_check_ok & E). apply st_bind_ok in E as (c1 & okm & [-> _]%st_lift_ok & E).
  apply st_bind_ok in E as (c1 & root & [-> _]%st_lift_ok & E).
  apply st_bind_ok in E as (c1 & [sd rd] & [-> _]%st_lift_ok & E). injection E as <-.
  rewrite u64_id in Hne by done. apply negb_false_iff, Z.eqb_eq in Hne as ->.
  match goal with |- low ?x = _ /\ _ => set (c' := x) end.
  assert (low c' = low c) as Hlow by (unfold low; cbn; rewrite len_app, len_cons, len_nil; lia).
  split; [done|]. split; [done|]. intros e0 e _. unfold sctr, rctr, link_of. rewrite Hlow.
  destruct (low c <=? e); [|done]. cbn [c' links]. set (i := Z.to_nat (e - low c)).
  destruct (decide (i < length (links c))%nat) as [Hi|Hi]; [by rewrite lookup_app_l|].
  rewrite lookup_app_r, (lookup_ge_None_2 (links c)) by lia. destruct (i - length (links c))%nat as [|[|j]]; done.
Qed.

Lemma advance_counters e idx c idx' c' :
  advance_send_epoch e idx c = (idx', c') -> 0 <= idx < len (links c) -> e = low c + idx -> sendEpoch c <= e ->
  low c' = (if sendEpoch c =? e then low c else Z.max (low c) (e - 1)) /\ currentEpoch c' = currentEpoch c /\
  sendEpoch c' = e /\ same_counters (low c') c c' /\ e = low c' + idx' /\ 0 <= idx' < len (links c').
Proof.
  intros E Hidx He Hse. unfold advance_send_epoch in E. destruct (Z.eqb_spec e (sendEpoch c)) as [Heq|Hne].
  { injection E as <- <-. rewrite (proj2 (Z.eqb_eq _ _)) by lia. done. }
  rewrite drop_links_spec in E by lia. set (k := Z.to_nat (idx - Z.min idx 1)) in *. set (j := Z.min idx 1) in *.
  set (l := (clear_send <$> _) ++ _) in E. injection E as <- <-. rewrite (proj2 (Z.eqb_neq _ _)) by lia.
  assert (len l = len (links c) - Z.of_nat k) as Hlen.
  { unfold l. rewrite len_app, len_fmap. unfold len in *. rewrite length_take, !length_drop. lia. }
  match goal with |- low ?x = _ /\ _ => set (c' := x) end.
  assert (low c' = low c + Z.of_nat k) as Hlow by (unfold low, c'; cbn; lia).
  split; [lia|]. split; [done|]. split; [done|]. split; [|cbn; lia].
  intros e' He'. unfold sctr, rctr, link_of. rewrite (proj2 (Z.leb_le (low c') _)), (proj2 (Z.leb_le (low c) _)) by lia.
  cbn [links c']. replace (Z.to_nat (e' - low c)) with (k + Z.to_nat (e' - low c'))%nat by lia.
  set (i := Z.to_nat (e' - low c')). unfold l. rewrite lookup_app.
  destruct (decide (i < Z.to_nat j)%nat) as [Hij|Hij].
  - rewrite list_lookup_fmap, lookup_take_lt, lookup_drop by lia. destruct (links c !! (k + i)%nat) eqn:Ex; cbn; [done|].
    apply lookup_ge_None in Ex. unfold len in *. lia.
  - rewrite list_lookup_fmap, lookup_take_ge by lia. cbn. rewrite length_fmap, length_take, !lookup_drop, length_drop.
    by replace (k + (Z.to_nat j + (i - Z.to_nat j `min` (length (links c) - k))))%nat with (k + i)%nat by (unfold len in *; lia).
Qed.

(** Replacing a link. *)
Lemma link_of_insert c i l e :
  0 <= i < len (links c) ->
  link_of (set_links (<[Z.to_nat i := l]> (links c)) c) e = if decide (e = low c + i) then Some l else link_of c e.
Proof.
  intros Hi. unfold link_of. assert (low (set_links (<[Z.to_nat i := l]> (links c)) c) = low c) as ->
    by (unfold low, len; cbn; by rewrite length_insert).
  case_decide as He.
  - subst e. rewrite (proj2 (Z.leb_le _ _)) by lia. cbn. replace (low c + i - low c) with i by lia.
    apply list_lookup_insert_eq. unfold len in *. lia.
  - destruct (Z.leb_spec (low c) e); [|done]. cbn. apply list_lookup_insert_ne. lia.
Qed.

Lemma nextKey_ctr d d' n k : nextKey d = (d', Ok (n, k)) -> ctr d' = n /\ n = u32 (ctr d + 1).
Proof.
  unfold nextKey. destruct (_ =? _); [done|]. cbv zeta. cbn [ctr next prev]. intros E.
  apply st_bind_ok in E as (? & okm & [-> _]%st_lift_ok & E). apply st_bind_ok in E as (? & x & [-> _]%st_lift_ok & E).
  apply st_bind_ok in E as (? & y & [-> _]%st_lift_ok & E). apply st_bind_ok in E as (d1 & u & Hput & E).
  apply st_ret_ok in E as [-> [= -> ->]]. by injection Hput as <-.
Qed.

(** The epochs of the chain invariant. *)
Lemma chain_low auth d p ss got c : chain_inv auth d p ss got c -> low c = len ss + 1 - len (links c).
Proof. intros Hi. unfold low. by rewrite (proj1 (ci_epoch _ _ _ _ _ _ Hi)). Qed.

Lemma SendKey_counters auth d p ss got c e c' n k :
  chain_inv auth d p ss got c -> sendEpoch c <= e <= len ss -> 0 <= e -> sctr c e < MaxUint32 ->
  SendKey e c = (c', Ok (n, k)) ->
  n = sctr c e + 1 /\ sctr c' e = n /\ rctr c' e = rctr c e /\ same_counters (e + 1) c c' /\
  (forall e', low c' <= e' -> rctr c' e' = rctr c e') /\ (forall e', e' = e \/ sctr c' e' = sctr c e' \/ sctr c' e' = 0) /\
  sendEpoch c' = e /\ low c' = (if sendEpoch c =? e then low c else Z.max (low c) (e - 1)).
Proof.
  intros Hi He H0 Hmax E. pose proof (chain_low _ _ _ _ _ _ Hi) as Hlow. pose proof (ci_send _ _ _ _ _ _ Hi) as Hse.
  pose proof (ci_links _ _ _ _ _ _ Hi) as Hls.
  unfold SendKey in E. rewrite st_bind_check in E by (apply Z.ltb_ge; lia).
  rewrite (st_bind_lift _ _ _ (len (links c) - 1 - (len ss - e))) in E
    by (rewrite (epochIndex_spec _ _ _ _ _ _ _ Hi H0); rewrite decide_True; [done|]; unfold kept; lia).
  set (idx := len (links c) - 1 - (len ss - e)) in *. destruct (advance_send_epoch e idx c) as [idx' c1] eqn:Ea.
  destruct (advance_counters _ _ _ _ _ Ea) as (Hl1 & Hc1 & Hs1 & Hsame & He1 & Hi1); [lia|lia|lia|].
  rewrite (st_bind_run _ _ _ c1 tt) in E by done. apply st_bind_ok in E as (? & l & [-> El]%st_lift_ok & E).
  unfold index in El. rewrite (proj2 (Z.leb_le 0 idx')) in El by lia. destruct (links c1 !! Z.to_nat idx') as [l1|] eqn:Hlk; [|done].
  apply Ok_inj in El as ->. destruct (nextKey (send l)) as [dd r] eqn:En.
  apply st_bind_ok in E as (c2 & u & Hput & E). injection Hput as <-. apply st_bind_ok in E as (? & [n1 k1] & [-> ->]%st_lift_ok & E).
  apply st_ret_ok in E as [-> [= -> ->]]. apply nextKey_ctr in En as [Hdd Hn1].
  assert (link_of c1 e = Some l) as Hlink. { apply link_of_index; [lia|]. by replace (e - low c1) with idx' by lia. }
  assert (sctr c1 e = ctr (send l) /\ rctr c1 e = ctr (recv l)) as [Hsl Hrl] by (unfold sctr, rctr; by rewrite Hlink).
  destruct (Hsame e) as [Hse1 Hre1]; [lia|].
  assert (0 <= ctr (send l)) as Hpos.
  { rewrite <- Hsl, Hse1. unfold sctr. destruct (link_of c e) as [l0|] eqn:El0; [|done]. cbn. unfold link_of in El0.
    destruct (_ <=? _); [|done]. by destruct (ci_link _ _ _ _ _ _ Hi _ _ El0) as ([? _] & _). }
  assert (n1 = sctr c e + 1) as Hn. { rewrite Hn1, <- Hse1, Hsl. apply u32_id. unfold is_u32, MaxUint32 in *. lia. }
  set (c' := set_links _ c1).
  assert (forall e', link_of c' e' = if decide (e' = low c1 + idx') then Some (mkEpoch dd (recv l)) else link_of c1 e') as Hlo
    by (intros; by apply link_of_insert).
  assert (low c' = low c1) as Hlc by (unfold low, c', len; cbn; by rewrite length_insert).
  split_and!; [done| | | | | |done|by rewrite Hlc].
  - unfold sctr. rewrite Hlo, decide_True by done. done.
  - rewrite <- Hre1, Hrl. unfold rctr. by rewrite Hlo, decide_True.
  - intros e' He'. unfold sctr at 1, rctr at 1. rewrite Hlo, decide_False by lia. apply Hsame. lia.
  - intros e' He'. rewrite Hlc in He'. destruct (Hsame e' He') as [_ <-]. unfold rctr at 1. rewrite Hlo. case_decide; [|done].
    assert (e' = e) as -> by lia. by rewrite Hrl.
  - intros e'. destruct (decide (e' = e)) as [|Hne]; [by left|right]. destruct (decide (low c1 <= e')) as [Hle|Hle].
    + left. destruct (Hsame e' Hle) as [<- _]. unfold sctr at 1. by rewrite Hlo, decide_False by lia.
    + right. unfold sctr, link_of. by rewrite Hlc, (proj2 (Z.leb_gt _ _)) by lia.
Qed.

Lemma RecvKey_counters auth d p ss got c e n :
  wf_params p -> chain_inv auth d p ss got c -> low c <= e <= len ss -> 0 <= e ->
  rctr c e < n <= rctr c e + maxJump p -> n + maxOOO p < 2 ^ 32 ->
  exists c' k, RecvKey e n c = (c', Ok k) /\ rctr c' e = n /\ sctr c' e = sctr c e /\
    (forall e', e' <> e -> sctr c' e' = sctr c e' /\ rctr c' e' = rctr c e') /\ sendEpoch c' = sendEpoch c /\ low c' = low c.
Proof.
  intros Hp Hi He H0 Hn Hm. pose proof (chain_low _ _ _ _ _ _ Hi) as Hlow. pose proof (ci_links _ _ _ _ _ _ Hi) as Hls.
  unfold RecvKey. rewrite (st_bind_lift _ _ _ (len (links c) - 1 - (len ss - e)))
    by (rewrite (epochIndex_spec _ _ _ _ _ _ _ Hi H0); rewrite decide_True; [done|]; unfold kept; lia).
  set (idx := len (links c) - 1 - (len ss - e)). assert (0 <= idx < len (links c)) as Hidx by (unfold idx; lia).
  assert (exists l, links c !! Z.to_nat idx = Some l) as [l Hl] by (apply lookup_lt_is_Some; unfold len in *; lia).
  rewrite (st_bind_lift _ _ _ l) by (unfold index; rewrite (proj2 (Z.leb_le _ _)) by lia; by rewrite Hl).
  assert (link_of c e = Some l) as Hlink. { apply link_of_index; [lia|]. by replace (e - low c) with idx by lia. }
  assert (sctr c e = ctr (send l) /\ rctr c e = ctr (recv l)) as [Hsl Hrl] by (unfold sctr, rctr; by rewrite Hlink).
  destruct (ci_link _ _ _ _ _ _ Hi _ _ Hl) as (_ & _ & _ & Hd).
  assert (epoch_of ss (links c) (Z.to_nat idx) = e) as Hep by (unfold epoch_of; lia). rewrite Hep in Hd.
  destruct (key_window _ p (got e) (recv l) n (proj2 (seed_len auth (take (Z.to_nat e) ss) d))) as (d' & E & Hctr & _);
    [by apply maxOOO_range|done|destruct (di_ctr _ _ _ _ Hd); lia|done|].
  unfold window in E, Hctr. rewrite (proj2 (Z.gtb_lt n _)) in E, Hctr by lia.
  rewrite (Z.gtb_ltb (n - _)), (proj2 (Z.ltb_ge (maxJump p) _)) in E, Hctr by lia. cbn [is_ok] in Hctr.
  rewrite (ci_params _ _ _ _ _ _ Hi), E. set (c' := set_links _ c).
  assert (forall e', link_of c' e' = if decide (e' = low c + idx) then Some (mkEpoch (send l) d') else link_of c e') as Hlo
    by (intros; by apply link_of_insert).
  eexists c', _. split; [reflexivity|]. split_and!; [| | |done|].
  - unfold rctr. rewrite Hlo, decide_True by lia. cbn. lia.
  - rewrite Hsl. unfold sctr. by rewrite Hlo, decide_True by lia.
  - intros e' Hne. unfold sctr at 1, rctr at 1. rewrite Hlo, decide_False by lia. done.
  - unfold low, c', len. cbn. by rewrite length_insert.
Qed.

Lemma NewChain_counters auth d p c :
  NewChain auth d p = Ok c -> low c = 0 /\ sendEpoch c = 0 /\ forall e, sctr c e = 0 /\ rctr c e = 0.
Proof.
  unfold NewChain. intros E. apply res_bind_ok in E as (okm & _ & E). apply res_bind_ok in E as (root & _ & E).
  apply res_bind_ok in E as ([s1 s2] & _ & E). apply Ok_inj in E as <-. split; [done|]. split; [done|]. intros e.
  unfold sctr, rctr, link_of. destruct (_ <=? _); [|done]. cbn [links]. by destruct (Z.to_nat _) as [|[|?]].
Qed.
End counters.
