(* ===== verification/SpqrMessage.v ===== *)
(** * Messages of the post-quantum ratchet: spqr/message.go

    The variable-length integers, the [v1Message] encoding and its parser. The
    parser ignores bytes after the message; the [ack] flag of a payload is not
    transmitted. *)

From Stdlib Require Import ZArith Lia.
From Stdlib Require Import Strings.Byte.
From stdpp Require Import base gmap strings list list_numbers vector.
From S2P Require Import Prelude SpqrUtil Erasure.
Import Util Erasure.

Module SpqrMessage.

(** [MessageType] is a [uint8]; a byte without a name is [MessageTypeOther]. *)
Inductive MessageType : Type :=
| MessageTypeNone
| MessageTypeHdr
| MessageTypeEk
| MessageTypeEkCt1Ack
| MessageTypeCt1Ack
| MessageTypeCt1
| MessageTypeCt2
| MessageTypeOther (b : byte).

Definition MessageType_of_byte (b : byte) : MessageType :=
  match b with
  | Byte.x00 => MessageTypeNone
  | Byte.x01 => MessageTypeHdr
  | Byte.x02 => MessageTypeEk
  | Byte.x03 => MessageTypeEkCt1Ack
  | Byte.x04 => MessageTypeCt1Ack
  | Byte.x05 => MessageTypeCt1
  | Byte.x06 => MessageTypeCt2
  | _ => MessageTypeOther b
  end.

Definition byte_of_MessageType (t : MessageType) : byte :=
  match t with
  | MessageTypeNone => Byte.x00
  | MessageTypeHdr => Byte.x01
  | MessageTypeEk => Byte.x02
  | MessageTypeEkCt1Ack => Byte.x03
  | MessageTypeCt1Ack => Byte.x04
  | MessageTypeCt1 => Byte.x05
  | MessageTypeCt2 => Byte.x06
  | MessageTypeOther b => b
  end.

Record messagePayload : Type := mkPayload { kind : MessageType; pl_chunk : option chunk; ack : bool }.

Record v1Message : Type := mkV1Message { msg_epoch : Z; payload : messagePayload }.

Record Message : Type := mkMessage {
  Msg_Version : Z;
  Msg_Epoch : Z;
  Msg_Index : Z;
  Msg_Type : MessageType;
  Msg_ChunkIndex : Z;
  Msg_ChunkData : bytes
}.

Definition hasChunk (t : MessageType) : bool :=
  match t with
  | MessageTypeHdr | MessageTypeEk | MessageTypeEkCt1Ack | MessageTypeCt1 | MessageTypeCt2 => true
  | _ => false
  end.

(** [for i := 0; i < 10; i++ { ... }]; [fuel] is [10 - i]. *)
Fixpoint encodeVarint_loop (fuel : nat) (v : Z) : bytes :=
  match fuel with
  | O => []
  | S fuel =>
      let b := Z.land v 127 in
      if v <? 128 then [z2b b] else z2b (Z.lor b 128) :: encodeVarint_loop fuel (Z.shiftr v 7)
  end.

Definition encodeVarint (v : Z) : bytes := encodeVarint_loop 10 v.

(** The loop reads one byte per iteration; [rest] is [data[*idx:]]. *)
Fixpoint consumeVarint_loop (rest : bytes) (idx x s : Z) : res (Z * Z) :=
  match rest with
  | [] => Err SpqrErrInvalidMessage
  | b :: rest =>
      let idx := idx + 1 in
      if b2z b <? 128 then
        if s >=? 64 then Err SpqrErrInvalidMessage
        else Ok (Z.lor x (u64 (Z.shiftl (b2z b) s)), idx)
      else consumeVarint_loop rest idx (Z.lor x (u64 (Z.shiftl (Z.land (b2z b) 127) s))) (s + 7)
  end.

Definition consumeVarint : reader Z := fun data idx =>
  consumeVarint_loop (drop (Z.to_nat idx) data) idx 0 0.

Definition v1Message_serialize (m : v1Message) (index : Z) : bytes :=
  let out := [z2b VersionV1] ++ encodeVarint (msg_epoch m) ++ encodeVarint index ++
             [byte_of_MessageType (kind (payload m))] in
  if hasChunk (kind (payload m)) then
    match pl_chunk (payload m) with
    | None => out
    | Some c => out ++ encodeVarint (chunk_index c) ++ vec_to_list (chunk_data c)
    end
  else out.

(** The message, its index and the position after it. *)
Definition deserializeV1Message (data : bytes) : res (v1Message * Z * Z) :=
  match data with
  | [] => Err SpqrErrInvalidMessage
  | v :: _ =>
      if negb (b2z v =? VersionV1) then Err SpqrErrInvalidMessage
      else
        '(m, pos) ← (
          epoch ← consumeVarint;
          index ← consumeVarint;
          _ ← rd_need 1 SpqrErrInvalidMessage;
          t ← rd_byte;
          let msgType := MessageType_of_byte t in
          c ← (if hasChunk msgType then
                 chunkIndex ← consumeVarint;
                 _ ← rd_need polyChunkDataSize SpqrErrInvalidMessage;
                 d ← rd_arr 32;
                 mret (Some (mkChunk (u16 chunkIndex) d))
               else mret None);
          mret (mkV1Message epoch (mkPayload msgType c false), u32 index)) data 1;
        mret (m, pos)
  end.

Definition ParseMessage (data : bytes) : res Message :=
  match data with
  | [] => Err SpqrErrInvalidMessage
  | v :: _ =>
      let version := b2z v in
      if version =? VersionDisabled then Ok (mkMessage version 0 0 MessageTypeNone 0 [])
      else if negb (version =? VersionV1) then Err SpqrErrUnsupportedVersion
      else
        '(msg, idx, _) ← deserializeV1Message data;
        let '(ci, cd) := match pl_chunk (payload msg) with
                         | None => (0, [])
                         | Some c => (chunk_index c, vec_to_list (chunk_data c))
                         end in
        mret (mkMessage version (msg_epoch msg) idx (kind (payload msg)) ci cd)
  end.

End SpqrMessage.
Import SpqrMessage.

(** ** Variable-length integers *)

(** The integer the loop has read so far, with the bytes to come. *)
Lemma lor_shiftl_low x v s : 0 <= s -> 0 <= x < 2 ^ s -> Z.lor x (Z.shiftl v s) = x + v * 2 ^ s.
Proof. intros Hs Hx. rewrite Z.lor_comm, lor_shiftl_add by done. lia. Qed.

Lemma land_127 v : Z.land v 127 = v mod 128.
Proof. exact (Z.land_ones v 7 ltac:(lia)). Qed.

Lemma varint_step v : 0 <= v -> b2z (z2b (Z.lor (v mod 128) 128)) = v mod 128 + 128.
Proof.
  intros Hv. pose proof (Z.mod_pos_bound v 128 eq_refl) as Hm.
  assert (Z.lor (v mod 128) 128 = v mod 128 + 128) as ->.
  { change 128 with (Z.shiftl 1 7) at 2. rewrite Z.lor_comm, lor_shiftl_add by (change (2 ^ 7) with 128; lia).
    change (2 ^ 7) with 128. lia. }
  rewrite b2z_z2b. apply Z.mod_small. lia.
Qed.

Lemma encodeVarint_S fuel v :
  encodeVarint_loop (S fuel) v =
  if v <? 128 then [z2b (v mod 128)] else z2b (Z.lor (v mod 128) 128) :: encodeVarint_loop fuel (Z.shiftr v 7).
Proof. cbn [encodeVarint_loop]. by rewrite land_127. Qed.

Lemma consume_encode_loop fuel v rest idx x s :
  0 <= v -> 0 <= s < 64 -> 0 <= x < 2 ^ s -> x + v * 2 ^ s < 2 ^ 64 -> v < 2 ^ (7 * Z.of_nat (S fuel)) ->
  consumeVarint_loop (encodeVarint_loop (S fuel) v ++ rest) idx x s =
  Ok (x + v * 2 ^ s, idx + len (encodeVarint_loop (S fuel) v)).
Proof.
  revert v idx x s. induction fuel as [|fuel IH]; intros v idx x s Hv Hs Hx Hb Hf;
    assert (0 < 2 ^ s) as Hps by (apply Z.pow_pos_nonneg; lia);
    rewrite encodeVarint_S;
    pose proof (Z.mod_pos_bound v 128 eq_refl) as Hm;
    (destruct (Z.ltb_spec v 128) as [Hlt|Hge];
     [cbn [app consumeVarint_loop]; rewrite b2z_z2b, (Z.mod_small v 128), (Z.mod_small v 256) by lia;
      rewrite (proj2 (Z.ltb_lt v 128)), Z.geb_leb, (proj2 (Z.leb_gt 64 s)) by lia;
      rewrite u64_id by (unfold is_u64; rewrite Z.shiftl_mul_pow2 by lia; lia);
      rewrite lor_shiftl_low by lia; done|]).
  { change (2 ^ (7 * Z.of_nat 1)) with 128 in Hf. lia. }
  assert (v = 128 * (v / 128) + v mod 128) as Hdm by (apply Z.div_mod; lia).
  assert (2 ^ (s + 7) = 2 ^ s * 128) as Hp7 by (rewrite Z.pow_add_r by lia; done).
  assert (s + 7 < 64) as Hs7 by (apply (Z.pow_lt_mono_r_iff 2); nia).
  change ((?b :: ?l) ++ rest) with (b :: (l ++ rest)).
  remember (encodeVarint_loop (S fuel) (Z.shiftr v 7)) as l' eqn:El'.
  cbn [consumeVarint_loop]. rewrite varint_step by done.
  rewrite (proj2 (Z.ltb_ge _ 128)) by lia.
  replace (Z.land (v mod 128 + 128) 127) with (v mod 128).
  2:{ rewrite land_127. replace (v mod 128 + 128) with (v mod 128 + 1 * 128) by lia. by rewrite Z.mod_add, Z.mod_mod by lia. }
  rewrite u64_id by (unfold is_u64; rewrite Z.shiftl_mul_pow2 by lia; nia).
  rewrite lor_shiftl_low by lia. subst l'. rewrite Z.shiftr_div_pow2 by lia. change (2 ^ 7) with 128.
  rewrite IH.
  - f_equal. f_equal; [|rewrite len_cons; lia]. rewrite Hp7. nia.
  - apply Z.div_pos; lia.
  - lia.
  - rewrite Hp7. nia.
  - rewrite Hp7. nia.
  - apply Z.div_lt_upper_bound; [lia|]. replace (7 * Z.of_nat (S (S fuel))) with (7 + 7 * Z.of_nat (S fuel)) in Hf by lia.
    rewrite Z.pow_add_r in Hf by lia. exact Hf.
Qed.

Lemma reads_varint v : is_u64 v -> reads consumeVarint (encodeVarint v) v.
Proof.
  intros Hv pre post. unfold consumeVarint, encodeVarint. unfold len at 1. rewrite Nat2Z.id, drop_app_length.
  unfold is_u64 in Hv. rewrite (consume_encode_loop 9) by (rewrite ?Z.pow_0_r; lia || (cbn [Z.of_nat]; lia)).
  do 2 f_equal. rewrite Z.pow_0_r. lia.
Qed.

(** Reading a variable-length integer moves the position forward inside the
    data and does not panic. *)
Lemma wp_varint data pos (Q : Z -> Z -> Prop) :
  0 <= pos <= len data -> (forall z pos', pos < pos' <= len data -> Q z pos') -> rd_wp consumeVarint data pos Q.
Proof.
  intros Hpos HQ. unfold rd_wp, consumeVarint.
  assert (forall rest idx x s, pos <= idx -> idx + len rest = len data ->
    match consumeVarint_loop rest idx x s with Ok (z, p) => idx < p <= len data | Err _ => True | Panic => False end) as Hl.
  { induction rest as [|b rest IH]; intros idx x s Hi Hr; cbn [consumeVarint_loop]; [done|].
    rewrite len_cons in Hr. pose proof (len_nonneg rest). destruct (_ <? _).
    - destruct (_ >=? _); [done|]. lia.
    - specialize (IH (idx + 1) (Z.lor x (u64 (Z.shiftl (Z.land (b2z b) 127) s))) (s + 7) ltac:(lia) ltac:(lia)).
      destruct (consumeVarint_loop _ _ _ _) as [[z p]| |]; [lia|done|done]. }
  specialize (Hl (drop (Z.to_nat pos) data) pos 0 0 ltac:(lia)).
  assert (pos + len (drop (Z.to_nat pos) data) = len data) as Hd by (unfold len in *; rewrite length_drop; lia).
  specialize (Hl Hd). destruct (consumeVarint_loop _ _ _ _) as [[z p]| |]; [|done|done]. apply HQ. lia.
Qed.

(** ** Messages *)

(** The messages the state machine builds. *)
Record msg_wf (m : v1Message) : Prop := {
  mw_epoch : is_u64 (msg_epoch m);
  mw_kind : MessageType_of_byte (byte_of_MessageType (kind (payload m))) = kind (payload m);
  mw_chunk : is_Some (pl_chunk (payload m)) <-> hasChunk (kind (payload m)) = true;
  mw_index : forall c, pl_chunk (payload m) = Some c -> is_u16 (chunk_index c)
}.

(** The message as the peer sees it. *)
Definition received (m : v1Message) : v1Message :=
  mkV1Message (msg_epoch m) (mkPayload (kind (payload m)) (pl_chunk (payload m)) false).

Lemma deserializeV1Message_serialize m index rest :
  msg_wf m -> is_u32 index ->
  deserializeV1Message (v1Message_serialize m index ++ rest) = Ok (received m, index, len (v1Message_serialize m index)).
Proof.
  intros [He Hk Hc Hi] Hx. unfold deserializeV1Message, v1Message_serialize.
  set (k := kind (payload m)) in *.
  set (enc := encodeVarint (msg_epoch m) ++ encodeVarint index ++ [byte_of_MessageType k] ++
    (if hasChunk k then match pl_chunk (payload m) with
       | Some c => encodeVarint (chunk_index c) ++ vec_to_list (chunk_data c) | None => [] end else [])).
  assert ((if hasChunk k then match pl_chunk (payload m) with
       | None => [z2b VersionV1] ++ encodeVarint (msg_epoch m) ++ encodeVarint index ++ [byte_of_MessageType k]
       | Some c => ([z2b VersionV1] ++ encodeVarint (msg_epoch m) ++ encodeVarint index ++ [byte_of_MessageType k]) ++
                     encodeVarint (chunk_index c) ++ vec_to_list (chunk_data c) end
     else [z2b VersionV1] ++ encodeVarint (msg_epoch m) ++ encodeVarint index ++ [byte_of_MessageType k]) =
     [z2b VersionV1] ++ enc) as ->.
  { unfold enc. destruct (hasChunk k), (pl_chunk (payload m)); rewrite ?app_nil_r, <- ?app_assoc; done. }
  change (([z2b VersionV1] ++ enc) ++ rest) with (z2b VersionV1 :: (enc ++ rest)) at 1.
  cbv iota beta. change (negb (b2z (z2b VersionV1) =? VersionV1)) with false. cbv iota.
  match goal with |- mbind _ (?p _ 1) = _ => assert (reads p enc (received m, index)) as Hr end.
  { unfold enc. eapply reads_bind; [by apply reads_varint|].
    eapply reads_bind; [apply reads_varint; unfold is_u32, is_u64 in *; lia|]. apply reads_need; [lens|].
    eapply reads_bind; [apply reads_byte|]. rewrite Hk. fold k. unfold received. fold k.
    destruct (hasChunk k) eqn:Ek.
    - destruct (proj2 Hc eq_refl) as [c Ec]. rewrite Ec. eapply reads_bind_end.
      + eapply reads_bind; [apply reads_varint|]; [pose proof (Hi c Ec); unfold is_u16, is_u64 in *; lia|].
        apply reads_need; [unfold polyChunkDataSize; lens|]. eapply reads_bind_end; [apply reads_arr|]. apply reads_ret.
      + rewrite u32_id by done. rewrite u16_id by by apply Hi. destruct c. apply reads_ret.
    - eapply reads_bind_nil; [apply reads_ret|]. rewrite u32_id by done.
      destruct (pl_chunk (payload m)); [|apply reads_ret]. discriminate (proj1 Hc (mk_is_Some _ _ eq_refl)). }
  specialize (Hr [z2b VersionV1] rest). cbn [app] in Hr. change (len [z2b VersionV1]) with 1 in Hr.
  cbn [app]. rewrite Hr. cbn [mbind res_bind]. rewrite len_cons. done.
Qed.

Lemma deserializeV1Message_no_panic data : deserializeV1Message data <> Panic.
Proof.
  unfold deserializeV1Message. destruct data as [|v data]; [done|]. destruct (negb _); [done|].
  match goal with |- mbind _ (?p ?d 1) <> _ => assert (rd_wp p d 1 (fun _ _ => True)) as Hw end.
  { pose proof (len_nonneg data). assert (1 <= len (v :: data)) by (rewrite len_cons; lia).
    wp_steps. apply wp_varint; [lia|]. intros e p1 Hp1. wp_steps. apply wp_varint; [lia|]. intros x p2 Hp2. wp_steps.
    destruct (hasChunk _); wp_steps; [|done]. apply wp_varint; [lia|]. intros c p3 Hp3. unfold polyChunkDataSize. wp_steps. done. }
  unfold rd_wp in Hw. match goal with |- mbind _ ?r <> _ => destruct r as [[[m i] p]|e|] end; done.
Qed.

(** ** Properties *)

(** Messages on the wire. What [serialize] writes for a message of the state
    machine, [deserializeV1Message] reads back, whatever follows it in the
    data: the same epoch, kind, chunk and index (the [ack] flag is not sent),
    and exactly the bytes of the message. No data makes either parser panic. *)
Theorem v1_message_roundtrip m index rest data :
  msg_wf m -> is_u32 index ->
  deserializeV1Message (v1Message_serialize m index ++ rest) =
    Ok (received m, index, len (v1Message_serialize m index)) /\
  deserializeV1Message data <> Panic /\ ParseMessage data <> Panic.
Proof.
  intros Hm Hi. split; [by apply deserializeV1Message_serialize|]. split; [apply deserializeV1Message_no_panic|].
  unfold ParseMessage. destruct data as [|v data]; [done|]. destruct (_ =? _); [done|]. destruct (negb _); [done|].
  pose proof (deserializeV1Message_no_panic (v :: data)) as Hn.
  destruct (deserializeV1Message (v :: data)) as [[[m' i'] p']|e|]; [|done|done].
  cbn [mbind res_bind]. by destruct (pl_chunk (payload m')).
Qed.

Lemma v1_message_roundtrip_witness :
  let m := mkV1Message 300 (mkPayload MessageTypeHdr (Some (mkChunk 70 zero32)) false) in
  deserializeV1Message (v1Message_serialize m 5 ++ [Byte.x09]) = Ok (m, 5, 38).
Proof.
  intros m. assert (msg_wf m) as Hm.
  { split; cbn [m msg_epoch payload kind pl_chunk]; [unfold is_u64; lia|done|split; eauto|].
    intros c [= <-]. cbn [chunk_index]. unfold is_u16. lia. }
  assert (is_u32 5) as H5 by (unfold is_u32; lia).
  exact (proj1 (v1_message_roundtrip m 5 [Byte.x09] [] Hm H5)).
Defined.
