(* ===== verification/SpqrMlkem.v ===== *)
(** * Incremental ML-KEM-768 and the authenticator of the post-quantum ratchet:
    spqr/incremental_mlkem768.go, spqr/authenticator.go

    ML-KEM and SHA-3 come from outside the repository: they are the operations
    of the class [MLKEM], with what the code relies on in [MLKEMLaws]: the
    sizes, the correctness of decapsulation, and that the first 960 bytes of a
    ciphertext depend on the public key only through its last 32 bytes. *)

From Stdlib Require Import ZArith Lia.
From Stdlib Require Import Strings.Byte.
From stdpp Require Import base gmap strings list list_numbers vector.
From S2P Require Import Prelude SpqrUtil Crypto.
Import Util Crypto.

Class MLKEM : Type := {
  (** golang.org/x/crypto/sha3 *)
  sha3_256 : bytes -> arr 32;
  sha3_512 : bytes -> arr 64;
  (** [mlkem768.NewKeyFromSeed(seed)], both keys packed *)
  mlkem_keygen : bytes -> bytes * bytes;
  (** [sk.Unpack(dk)], [None] when it fails, then [sk.DecapsulateTo(ss, ct)] *)
  mlkem_decapsulate : bytes -> bytes -> option bytes;
  (** [pk.UnpackMLKEM(buf)] returns no error *)
  kyber_unpackable : bytes -> bool;
  (** [pk.Unpack(buf); pk.EncryptTo(ct, pt, seed)] *)
  kyber_encrypt : bytes -> bytes -> bytes -> bytes
}.

Class MLKEMLaws (M : MLKEM) : Prop := {
  keygen_pk_size seed : len (fst (mlkem_keygen seed)) = 1184;
  keygen_sk_size seed : len (snd (mlkem_keygen seed)) = 2400;
  keygen_unpackable seed : kyber_unpackable (fst (mlkem_keygen seed)) = true;
  encrypt_size pk m r : len (kyber_encrypt pk m r) = 1088;
  encrypt_first_part ek ek' rho m r :
    len ek = 1152 -> len ek' = 1152 ->
    take 960 (kyber_encrypt (ek ++ rho) m r) = take 960 (kyber_encrypt (ek' ++ rho) m r);
  decapsulate_correct seed m :
    len m = 32 ->
    let pk := fst (mlkem_keygen seed) in
    let kr := vec_to_list (sha3_512 (m ++ vec_to_list (sha3_256 pk))) in
    mlkem_decapsulate (snd (mlkem_keygen seed)) (kyber_encrypt pk m (drop 32 kr)) = Some (take 32 kr)
}.

(** A concrete instance of the laws. *)
Module ToyMlkem.

Definition sized (n : nat) (l : bytes) : bytes := take n (l ++ replicate n Byte.x00).

Lemma sized_length n l : length (sized n l) = n.
Proof. unfold sized. rewrite length_take, length_app, length_replicate. lia. Qed.

Lemma sized_len n l : len (sized n l) = Z.of_nat n.
Proof. unfold len. by rewrite sized_length. Qed.

#[export] Instance mlkem : MLKEM := {|
  sha3_256 l := to_arr 32 l;
  sha3_512 l := to_arr 64 l;
  mlkem_keygen seed := (sized 1184 seed, sized 2400 (sized 1184 seed));
  mlkem_decapsulate sk ct :=
    Some (take 32 (vec_to_list (to_arr 64 (take 32 ct ++ vec_to_list (to_arr 32 (take 1184 sk))))));
  kyber_unpackable _ := true;
  kyber_encrypt pk m r := sized 960 (take 32 m) ++ sized 128 pk
|}.

Lemma sized_take n k (l : bytes) : (k <= n)%nat -> length l = k -> take k (sized n l) = l.
Proof. intros Hk Hl. unfold sized. rewrite take_take, Nat.min_l by lia. by rewrite take_app_length'. Qed.

#[export] Instance laws : MLKEMLaws mlkem.
Proof.
  constructor; cbn [mlkem_keygen kyber_unpackable kyber_encrypt mlkem_decapsulate sha3_256 sha3_512 mlkem fst snd].
  - intros. by rewrite sized_len.
  - intros. by rewrite sized_len.
  - done.
  - intros. by rewrite len_app, !sized_len.
  - intros ek ek' rho m r _ _. rewrite !take_app_le by (by rewrite sized_length). done.
  - intros seed m Hm. cbv zeta. assert (length m = 32%nat) as Hl by (unfold len in Hm; lia).
    rewrite take_app_le by (rewrite sized_length; apply Nat.leb_le; vm_compute; reflexivity).
    rewrite (take_ge m) by lia.
    rewrite (sized_take 960 32 m) by (done || (apply Nat.leb_le; vm_compute; reflexivity)).
    rewrite sized_take; [done| |apply sized_length]. apply Nat.leb_le. vm_compute. reflexivity.
Qed.

End ToyMlkem.

Module SpqrMlkem.

Definition mlkemCiphertext1Size : Z := 960.
Definition mlkemCiphertext2Size : Z := 128.
Definition mlkemHeaderSize : Z := 64.
Definition mlkemEncapsulationKeySize : Z := 1152.
Definition mlkemDecapsulationKeySize : Z := 2400.

Record mlkemEncapsulationState : Type := mkEncaps { es_seed : key32; es_rho : key32; es_pkHash : key32 }.

Record mlkemKeys : Type := mkKeys { mk_hdr : bytes; mk_ek : bytes; mk_dk : bytes }.

Section mlkem.
Context `{MLKEM}.

Definition mlkemGenerateKeys : ST tape mlkemKeys :=
  seed ← RandomBytes 64;
  let '(pkBytes, dk) := mlkem_keygen seed in
  let hash := vec_to_list (sha3_256 pkBytes) in
  rho ← st_lift (slice pkBytes mlkemEncapsulationKeySize (len pkBytes));
  let hdr := copy_into (replicate 64 Byte.x00) rho in
  let hdr := copy_at 32 hdr hash in
  ek ← st_lift (slice pkBytes 0 mlkemEncapsulationKeySize);
  mret (mkKeys hdr ek dk).

(** [pkBytes := make([]byte, 1152+32); copy(pkBytes, ek); copy(pkBytes[1152:], rho)] *)
Definition public_key_bytes (ek rho : bytes) : bytes :=
  copy_at 1152 (copy_into (replicate 1184 Byte.x00) ek) rho.

Definition mlkemEKMatchesHeader (ek hdr : bytes) : bool :=
  if negb (len ek =? mlkemEncapsulationKeySize) || negb (len hdr =? mlkemHeaderSize) then false
  else
    let pkBytes := public_key_bytes ek (take 32 hdr) in
    if negb (bool_decide (vec_to_list (sha3_256 pkBytes) = drop 32 hdr)) then false
    else kyber_unpackable pkBytes.

Definition mlkemEncaps1 (hdr : bytes) : ST tape (bytes * mlkemEncapsulationState * bytes) :=
  _ ← st_check (negb (len hdr =? mlkemHeaderSize)) (ErrText "spqr: invalid mlkem header size");
  seedBytes ← RandomBytes 32;
  let seed := to_arr 32 seedBytes in
  rho ← st_lift (slice hdr 0 32);
  let rho := to_arr 32 rho in
  pkHash ← st_lift (slice hdr 32 (len hdr));
  let pkHash := to_arr 32 pkHash in
  let kr := vec_to_list (sha3_512 (vec_to_list seed ++ vec_to_list pkHash)) in
  let sharedSecret := take 32 kr in
  let r := drop 32 kr in
  let pkBytes := copy_at 1152 (replicate 1184 Byte.x00) rho in
  let ct := kyber_encrypt pkBytes seed r in
  ct1 ← st_lift (slice ct 0 mlkemCiphertext1Size);
  mret (ct1, mkEncaps seed rho pkHash, sharedSecret).

Definition mlkemEncaps2 (ek : bytes) (state : mlkemEncapsulationState) : res bytes :=
  _ ← check (negb (len ek =? mlkemEncapsulationKeySize)) (ErrText "spqr: invalid mlkem ek size");
  let pkBytes := public_key_bytes ek (es_rho state) in
  let kr := vec_to_list (sha3_512 (vec_to_list (es_seed state) ++ vec_to_list (es_pkHash state))) in
  let r := drop 32 kr in
  let ct := kyber_encrypt pkBytes (es_seed state) r in
  slice ct mlkemCiphertext1Size (len ct).

Definition mlkemDecaps (dk ct1 ct2 : bytes) : res bytes :=
  _ ← check (negb (len dk =? mlkemDecapsulationKeySize)) (ErrText "spqr: invalid mlkem dk size");
  _ ← check (negb (len ct1 =? mlkemCiphertext1Size) || negb (len ct2 =? mlkemCiphertext2Size))
        (ErrText "spqr: invalid mlkem ciphertext size");
  match mlkem_decapsulate dk (ct1 ++ ct2) with
  | None => Err (ErrText "mlkem: unpack private key")
  | Some ss => Ok ss
  end.

End mlkem.

(** *** authenticator.go *)

Definition authenticatorMacSize : Z := 32.
Definition authenticatorInfoUpdate : bytes := str "Signal_PQCKA_V1_MLKEM768:Authenticator Update".
Definition authenticatorInfoHdr : bytes := str "Signal_PQCKA_V1_MLKEM768:ekheader".
Definition authenticatorInfoCt : bytes := str "Signal_PQCKA_V1_MLKEM768:ciphertext".

Record authenticator : Type := mkAuth { rootKey : bytes; macKey : bytes }.

Section auth.
Context `{Primitives}.

Definition update (epoch : Z) (key : bytes) : ST authenticator unit :=
  a ← st_get;
  let ikm := rootKey a ++ key in
  let info := authenticatorInfoUpdate ++ epochBytes epoch in
  okm ← st_lift (HKDF ikm (replicate 32 Byte.x00) info 64);
  r ← st_lift (slice okm 0 32);
  m ← st_lift (slice okm 32 (len okm));
  st_put (mkAuth r m).

(** The error of [update] is discarded. *)
Definition newAuthenticator (rootKey : bytes) (epoch : Z) : authenticator :=
  fst (update epoch rootKey (mkAuth (replicate 32 Byte.x00) (replicate 32 Byte.x00))).

Definition hmacSha256 (key data : bytes) : bytes := vec_to_list (hmac_sha256 key data).

Definition macHdr (a : authenticator) (epoch : Z) (hdr : bytes) : bytes :=
  hmacSha256 (macKey a) (authenticatorInfoHdr ++ epochBytes epoch ++ hdr).

Definition macCt (a : authenticator) (epoch : Z) (ct : bytes) : bytes :=
  hmacSha256 (macKey a) (authenticatorInfoCt ++ epochBytes epoch ++ ct).

Definition verifyHdr (a : authenticator) (epoch : Z) (hdr expected : bytes) : res unit :=
  _ ← check (negb (len expected =? authenticatorMacSize)) SpqrErrInvalidMessage;
  check (negb (bool_decide (expected = macHdr a epoch hdr))) SpqrErrInvalidMAC.

Definition verifyCt (a : authenticator) (epoch : Z) (ct expected : bytes) : res unit :=
  _ ← check (negb (len expected =? authenticatorMacSize)) SpqrErrInvalidMessage;
  check (negb (bool_decide (expected = macCt a epoch ct))) SpqrErrInvalidMAC.

End auth.
End SpqrMlkem.
Import SpqrMlkem.

(** ** The exchange as functions of the two seeds *)

Section kem.
Context `{HM : MLKEM}.

(** The key pair of seed [s], in the three parts the protocol sends. *)
Definition kem_pk (s : bytes) : bytes := fst (mlkem_keygen s).
Definition kem_rho (s : bytes) : bytes := drop 1152 (kem_pk s).
Definition kem_hdr (s : bytes) : bytes := kem_rho s ++ vec_to_list (sha3_256 (kem_pk s)).
Definition kem_ek (s : bytes) : bytes := take 1152 (kem_pk s).
Definition kem_dk (s : bytes) : bytes := snd (mlkem_keygen s).

(** The encapsulation to that key with the randomness [m]. *)
Definition kem_kr (s m : bytes) : bytes := vec_to_list (sha3_512 (m ++ vec_to_list (sha3_256 (kem_pk s)))).
Definition kem_ct (s m : bytes) : bytes := kyber_encrypt (kem_pk s) m (drop 32 (kem_kr s m)).
Definition kem_ct1 (s m : bytes) : bytes := take 960 (kem_ct s m).
Definition kem_ct2 (s m : bytes) : bytes := drop 960 (kem_ct s m).
Definition kem_ss (s m : bytes) : bytes := take 32 (kem_kr s m).
Definition kem_state (s m : bytes) : mlkemEncapsulationState :=
  mkEncaps (to_arr 32 m) (to_arr 32 (kem_rho s)) (sha3_256 (kem_pk s)).

Context `{!MLKEMLaws HM}.

Lemma take_len {A} (l : list A) n : 0 <= n <= len l -> len (take (Z.to_nat n) l) = n.
Proof. intros Hn. unfold len in *. rewrite length_take. lia. Qed.

Lemma drop_len {A} (l : list A) n : 0 <= n <= len l -> len (drop (Z.to_nat n) l) = len l - n.
Proof. intros Hn. unfold len in *. rewrite length_drop. lia. Qed.

Lemma kem_sizes s m :
  len (kem_rho s) = 32 /\ len (kem_hdr s) = 64 /\ len (kem_ek s) = 1152 /\ len (kem_dk s) = 2400 /\
  len (kem_ct1 s m) = 960 /\ len (kem_ct2 s m) = 128 /\ len (kem_ss s m) = 32.
Proof.
  pose proof (keygen_pk_size s) as Hp. pose proof (keygen_sk_size s) as Hs. pose proof (encrypt_size (kem_pk s) m (drop 32 (kem_kr s m))) as Hc.
  fold (kem_pk s) in Hp. fold (kem_ct s m) in Hc.
  assert (len (kem_rho s) = 32) as Hr by (unfold kem_rho; rewrite (drop_len _ 1152) by lia; lia).
  split_and!; [done|unfold kem_hdr; rewrite len_app, vec_list_len; lia| | | | |].
  - unfold kem_ek. by rewrite (take_len _ 1152) by lia.
  - exact Hs.
  - unfold kem_ct1. by rewrite (take_len _ 960) by lia.
  - unfold kem_ct2. rewrite (drop_len _ 960) by lia. lia.
  - unfold kem_ss, kem_kr. rewrite (take_len _ 32); [done|]. rewrite vec_list_len. lia.
Qed.

Lemma kem_pk_split s : kem_ek s ++ kem_rho s = kem_pk s.
Proof. apply take_drop. Qed.

Lemma public_key_bytes_app ek rho : len ek = 1152 -> len rho = 32 -> public_key_bytes ek rho = ek ++ rho.
Proof.
  intros He Hr. assert (Z.of_nat 1184 = 1184) as N1 by reflexivity. assert (Z.of_nat 1152 = 1152) as N2 by reflexivity.
  unfold public_key_bytes, copy_at, len in *.
  rewrite copy_into_app by (rewrite length_replicate; lia).
  rewrite take_app_length' by lia. rewrite drop_app_length' by lia.
  f_equal. apply copy_into_full. unfold len. rewrite length_drop, length_replicate. lia.
Qed.

Lemma RandomBytes_eq n t : 0 <= n -> RandomBytes n t = io_ReadFull (Z.to_nat n) t.
Proof. intros Hn. unfold RandomBytes. by rewrite st_bind_check by (apply Z.ltb_ge; lia). Qed.

(** [mlkemGenerateKeys] draws a seed. *)
Lemma mlkemGenerateKeys_ok t :
  mlkemGenerateKeys t =
  if decide (length t < 64)%nat then ([], Err (ErrText "unexpected EOF"))
  else (drop 64 t, Ok (let s := take 64 t in mkKeys (kem_hdr s) (kem_ek s) (kem_dk s))).
Proof.
  unfold mlkemGenerateKeys. unfold mbind at 1, st_bind at 1. rewrite RandomBytes_eq by lia. unfold io_ReadFull. change (Z.to_nat 64) with 64%nat. case_decide; [done|]. set (s := take 64 t).
  destruct (mlkem_keygen s) as [pk sk] eqn:Ek. destruct (kem_sizes s []) as (Hr & _).
  pose proof (keygen_pk_size s) as Hp. rewrite Ek in Hp. cbn [fst] in Hp.
  rewrite (st_bind_lift _ _ _ (drop 1152 pk)) by (rewrite slice_drop; [done|unfold mlkemEncapsulationKeySize; lia]).
  rewrite (st_bind_lift _ _ _ (take 1152 pk)) by (rewrite slice_take; [done|unfold mlkemEncapsulationKeySize; lia]).
  unfold kem_hdr, kem_rho, kem_ek, kem_dk, kem_pk in *. rewrite Ek in *. cbn [fst snd] in *.
  unfold mret, st_ret. do 3 f_equal. unfold len in Hr.
  rewrite copy_into_app by (rewrite length_replicate; lia). unfold copy_at.
  rewrite take_app_length', drop_app_length' by lia. rewrite copy_into_full; [done|].
  unfold len. rewrite length_drop, length_replicate, vec_list_length. lia.
Qed.

(** The header of a key pair announces that key pair's encapsulation key. *)
Lemma mlkemEKMatchesHeader_ok s : mlkemEKMatchesHeader (kem_ek s) (kem_hdr s) = true.
Proof.
  destruct (kem_sizes s []) as (Hr & Hh & He & _). unfold mlkemEKMatchesHeader. rewrite He, Hh.
  cbn [Z.eqb Pos.eqb negb orb mlkemEncapsulationKeySize mlkemHeaderSize].
  assert (take 32 (kem_hdr s) = kem_rho s /\ drop 32 (kem_hdr s) = vec_to_list (sha3_256 (kem_pk s))) as [-> ->].
  { unfold kem_hdr, len in *. rewrite take_app_length', drop_app_length' by lia. done. }
  rewrite public_key_bytes_app, kem_pk_split by done. rewrite bool_decide_true by done. apply keygen_unpackable.
Qed.

(** Both halves of the encapsulation are those of a full encapsulation. *)
Lemma mlkemEncaps1_ok s t :
  mlkemEncaps1 (kem_hdr s) t =
  if decide (length t < 32)%nat then ([], Err (ErrText "unexpected EOF"))
  else (drop 32 t, Ok (let m := take 32 t in (kem_ct1 s m, kem_state s m, kem_ss s m))).
Proof.
  destruct (kem_sizes s (take 32 t)) as (Hr & Hh & He & _). unfold mlkemEncaps1. rewrite Hh. rewrite st_bind_check by done.
  unfold mbind at 1, st_bind at 1. rewrite RandomBytes_eq by lia. unfold io_ReadFull. change (Z.to_nat 32) with 32%nat. case_decide as Hd; [done|]. set (m := take 32 t) in *.
  assert (length m = 32%nat) as Hm by (unfold m; rewrite length_take; lia).
  assert (length (kem_rho s) = 32%nat) as Hrl by (unfold len in Hr; lia).
  rewrite (st_bind_lift _ _ _ (kem_rho s))
    by (rewrite slice_take by lia; unfold kem_hdr; f_equal; apply take_app_length'; rewrite Hrl; done).
  rewrite (st_bind_lift _ _ _ (vec_to_list (sha3_256 (kem_pk s))))
    by (rewrite <- Hh, slice_drop by lia; unfold kem_hdr; f_equal; apply drop_app_length'; rewrite Hrl; done).
  rewrite to_arr_vec_list. assert (vec_to_list (to_arr 32 m) = m) as -> by by apply vec_list_to_arr.
  assert (vec_to_list (to_arr 32 (kem_rho s)) = kem_rho s) as -> by by apply vec_list_to_arr.
  fold (kem_kr s m). set (pk0 := copy_at 1152 _ _).
  assert (take 960 (kyber_encrypt pk0 m (drop 32 (kem_kr s m))) = kem_ct1 s m) as Hct.
  { unfold kem_ct1, kem_ct. rewrite <- kem_pk_split. unfold pk0, copy_at.
    rewrite copy_into_full by (unfold len in *; rewrite length_drop, length_replicate; lia).
    apply encrypt_first_part; [|done]. rewrite (take_len _ 1152); [done|]. unfold len. rewrite length_replicate. lia. }
  rewrite (st_bind_lift _ _ _ (kem_ct1 s m)); [done|].
  rewrite <- Hct. apply slice_take. rewrite encrypt_size. unfold mlkemCiphertext1Size. lia.
Qed.

Lemma mlkemEncaps2_ok s m : len m = 32 -> mlkemEncaps2 (kem_ek s) (kem_state s m) = Ok (kem_ct2 s m).
Proof.
  intros Hm. destruct (kem_sizes s m) as (Hr & _ & He & _). unfold mlkemEncaps2. rewrite He.
  cbn [Z.eqb Pos.eqb negb check mbind res_bind mlkemEncapsulationKeySize es_rho es_seed es_pkHash kem_state].
  assert (vec_to_list (to_arr 32 m) = m) as -> by (apply vec_list_to_arr; unfold len in Hm; lia).
  assert (vec_to_list (to_arr 32 (kem_rho s)) = kem_rho s) as -> by (apply vec_list_to_arr; unfold len in Hr; lia).
  rewrite public_key_bytes_app, kem_pk_split by done. fold (kem_kr s m). fold (kem_ct s m).
  rewrite slice_drop; [done|]. unfold kem_ct. rewrite encrypt_size. unfold mlkemCiphertext1Size. lia.
Qed.

Lemma mlkemDecaps_ok s m : len m = 32 -> mlkemDecaps (kem_dk s) (kem_ct1 s m) (kem_ct2 s m) = Ok (kem_ss s m).
Proof.
  intros Hm. destruct (kem_sizes s m) as (_ & _ & _ & Hd & H1 & H2 & _). unfold mlkemDecaps. rewrite Hd, H1, H2.
  cbn [Z.eqb Pos.eqb negb orb check mbind res_bind mlkemDecapsulationKeySize mlkemCiphertext1Size mlkemCiphertext2Size].
  unfold kem_ct1, kem_ct2. rewrite take_drop. unfold kem_dk, kem_ct, kem_kr, kem_pk.
  by rewrite (decapsulate_correct s m Hm).
Qed.

End kem.

(** ** Properties *)

(** The incremental encapsulation. For a generated key pair the header
    announces the encapsulation key that follows it; the first ciphertext half,
    made from the header alone, and the second half, made from the
    encapsulation key later, decapsulate to the shared secret that
    [mlkemEncaps1] returned, and have the sizes the protocol expects. *)
Theorem mlkem_incremental (M : MLKEM) t1 t1' keys t2 t2' ct1 st ss :
  MLKEMLaws M -> mlkemGenerateKeys t1 = (t1', Ok keys) -> mlkemEncaps1 (mk_hdr keys) t2 = (t2', Ok (ct1, st, ss)) ->
  len (mk_hdr keys) = mlkemHeaderSize /\ len (mk_ek keys) = mlkemEncapsulationKeySize /\
  mlkemEKMatchesHeader (mk_ek keys) (mk_hdr keys) = true /\
  exists ct2, mlkemEncaps2 (mk_ek keys) st = Ok ct2 /\ mlkemDecaps (mk_dk keys) ct1 ct2 = Ok ss /\
    len ct1 = mlkemCiphertext1Size /\ len ct2 = mlkemCiphertext2Size.
Proof.
  intros HL Eg Ee. rewrite mlkemGenerateKeys_ok in Eg. case_decide; [done|]. injection Eg as <- <-.
  cbn [mk_hdr mk_ek mk_dk] in *. set (s := take 64 t1) in *. rewrite mlkemEncaps1_ok in Ee.
  destruct (decide (length t2 < 32)%nat); [done|]. injection Ee as <- <- <- <-. set (m := take 32 t2).
  assert (len m = 32) as Hm by (unfold m, len; rewrite length_take; lia).
  destruct (kem_sizes s m) as (_ & H1 & H2 & _ & H3 & H4 & _). split_and!; [done|done|apply mlkemEKMatchesHeader_ok|].
  exists (kem_ct2 s m). split_and!; [by apply mlkemEncaps2_ok|by apply mlkemDecaps_ok|done|done].
Qed.

Lemma mlkem_incremental_witness :
  let M := ToyMlkem.mlkem in
  exists t keys t' ct1 st ss ct2, mlkemGenerateKeys (replicate 64 Byte.x05) = (t, Ok keys) /\
    mlkemEncaps1 (mk_hdr keys) (replicate 40 Byte.x06) = (t', Ok (ct1, st, ss)) /\
    mlkemEncaps2 (mk_ek keys) st = Ok ct2 /\ mlkemDecaps (mk_dk keys) ct1 ct2 = Ok ss.
Proof.
  intros M. pose proof ToyMlkem.laws as L. pose proof (mlkemGenerateKeys_ok (replicate 64 Byte.x05)) as Eg.
  rewrite decide_False in Eg by (rewrite length_replicate; lia).
  pose proof (mlkemEncaps1_ok (take 64 (replicate 64 Byte.x05)) (replicate 40 Byte.x06)) as Ee.
  rewrite decide_False in Ee by (rewrite length_replicate; lia).
  do 6 eexists. destruct (mlkem_incremental M _ _ _ _ _ _ _ _ L Eg Ee) as (_ & _ & _ & ct2 & H1 & H2 & _).
  exists ct2. split_and!; [exact Eg|exact Ee|exact H1|exact H2].
Defined.
