(* ===== verification/SpqrV1.v ===== *)
(** * The key-agreement state machine of the post-quantum ratchet:
    spqr/v1_unchunked.go, spqr/v1_chunked.go

    In each epoch one party sends an encapsulation key in pieces (the states
    from [KeysUnsampled] to [EkSentCt1Received]) and the other the two parts of
    a ciphertext (from [NoHeaderReceived] to [Ct2Sampled]); then the roles
    change. The [Unchunked] states do the cryptography, the [Chunked] ones
    spread its messages over chunks.

    A step of the code may mutate the objects of the state it starts from (a
    decoder, the authenticator) and returns the next state; when a later step
    of the caller fails, the caller keeps the old, mutated state. So an
    operation on a state of type [S] is a computation in [ST S] (or
    [ST (S * tape)] when it draws randomness): the world it leaves is the old
    state after the mutations, its result the next state. *)

From Stdlib Require Import ZArith Lia.
From Stdlib Require Import Strings.Byte.
From stdpp Require Import base gmap strings list list_numbers vector.
From S2P Require Import Prelude SpqrUtil Crypto Erasure SpqrMessage SpqrMlkem.
Import Util Crypto Erasure SpqrMessage SpqrMlkem.

Module SpqrV1.

(** ** v1_unchunked.go *)

Definition pqrSckaKeyInfo : bytes := str "Signal_PQCKA_V1_MLKEM768:SCKA Key".

Record epochSecret : Type := mkSecret { sec_epoch : Z; secret : bytes }.

Record unchunkedKeysUnsampled : Type := mkUKeysUnsampled { uku_epoch : Z; uku_auth : authenticator }.
Record unchunkedHeaderSent : Type := mkUHeaderSent {
  uhs_epoch : Z; uhs_auth : authenticator; uhs_ek : bytes; uhs_dk : bytes }.
Record unchunkedEkSent : Type := mkUEkSent { ues_epoch : Z; ues_auth : authenticator; ues_dk : bytes }.
Record unchunkedEkSentCt1Received : Type := mkUEkSentCt1Received {
  uec_epoch : Z; uec_auth : authenticator; uec_dk : bytes; uec_ct1 : bytes }.
Record unchunkedNoHeaderReceived : Type := mkUNoHeaderReceived { unh_epoch : Z; unh_auth : authenticator }.
Record unchunkedHeaderReceived : Type := mkUHeaderReceived {
  uhr_epoch : Z; uhr_auth : authenticator; uhr_hdr : bytes }.
Record unchunkedCt1Sent : Type := mkUCt1Sent {
  uc1_epoch : Z; uc1_auth : authenticator; uc1_hdr : bytes; uc1_encaps : mlkemEncapsulationState; uc1_ct1 : bytes }.
Record unchunkedCt1SentEkReceived : Type := mkUCt1SentEkReceived {
  uce_epoch : Z; uce_auth : authenticator; uce_encaps : mlkemEncapsulationState; uce_ek : bytes; uce_ct1 : bytes }.
Record unchunkedCt2Sent : Type := mkUCt2Sent { uc2_epoch : Z; uc2_auth : authenticator }.

(** ** v1_chunked.go *)

Record chunkedKeysUnsampled : Type := mkKeysUnsampled { cku_uc : unchunkedKeysUnsampled }.
Record chunkedKeysSampled : Type := mkKeysSampled { cks_uc : unchunkedHeaderSent; sendingHdr : polyEncoder }.
Record chunkedHeaderSent : Type := mkHeaderSent {
  chs_uc : unchunkedEkSent; chs_sendingEk : polyEncoder; receivingCt1 : polyDecoder }.
Record chunkedCt1Received : Type := mkCt1Received {
  ccr_uc : unchunkedEkSentCt1Received; ccr_sendingEk : polyEncoder }.
Record chunkedEkSentCt1Received : Type := mkEkSentCt1Received {
  cec_uc : unchunkedEkSentCt1Received; receivingCt2 : polyDecoder }.
Record chunkedNoHeaderReceived : Type := mkNoHeaderReceived {
  cnh_uc : unchunkedNoHeaderReceived; receivingHdr : polyDecoder }.
Record chunkedHeaderReceived : Type := mkHeaderReceived {
  chr_uc : unchunkedHeaderReceived; chr_receivingEk : polyDecoder }.
Record chunkedCt1Sampled : Type := mkCt1Sampled {
  cs1_uc : unchunkedCt1Sent; cs1_sendingCt1 : polyEncoder; cs1_receivingEk : polyDecoder }.
Record chunkedEkReceivedCt1Sampled : Type := mkEkReceivedCt1Sampled {
  ces_uc : unchunkedCt1SentEkReceived; ces_sendingCt1 : polyEncoder }.
Record chunkedCt1Acknowledged : Type := mkCt1Acknowledged {
  cca_uc : unchunkedCt1Sent; cca_receivingEk : polyDecoder }.
Record chunkedCt2Sampled : Type := mkCt2Sampled { cs2_uc : unchunkedCt2Sent; sendingCt2 : polyEncoder }.

(** The dynamic types of [v1States.state]. *)
Inductive v1States : Type :=
| KeysUnsampled (st : chunkedKeysUnsampled)
| KeysSampled (st : chunkedKeysSampled)
| HeaderSent (st : chunkedHeaderSent)
| Ct1Received (st : chunkedCt1Received)
| EkSentCt1Received (st : chunkedEkSentCt1Received)
| NoHeaderReceived (st : chunkedNoHeaderReceived)
| HeaderReceived (st : chunkedHeaderReceived)
| Ct1Sampled (st : chunkedCt1Sampled)
| EkReceivedCt1Sampled (st : chunkedEkReceivedCt1Sampled)
| Ct1Acknowledged (st : chunkedCt1Acknowledged)
| Ct2Sampled (st : chunkedCt2Sampled).

Definition v1_epoch (s : v1States) : Z :=
  match s with
  | KeysUnsampled st => uku_epoch (cku_uc st)
  | KeysSampled st => uhs_epoch (cks_uc st)
  | HeaderSent st => ues_epoch (chs_uc st)
  | Ct1Received st => uec_epoch (ccr_uc st)
  | EkSentCt1Received st => uec_epoch (cec_uc st)
  | NoHeaderReceived st => unh_epoch (cnh_uc st)
  | HeaderReceived st => uhr_epoch (chr_uc st)
  | Ct1Sampled st => uc1_epoch (cs1_uc st)
  | EkReceivedCt1Sampled st => uce_epoch (ces_uc st)
  | Ct1Acknowledged st => uc1_epoch (cca_uc st)
  | Ct2Sampled st => uc2_epoch (cs2_uc st)
  end.

Record v1Send : Type := mkSend { send_msg : v1Message; send_key : option epochSecret; send_state : v1States }.
Record v1Recv : Type := mkRecv { recv_key : option epochSecret; recv_state : v1States }.

Section v1.
Context `{Primitives} `{MLKEM}.

Definition deriveSckaKey (epoch : Z) (secret : bytes) : res bytes :=
  HKDF secret (replicate 32 Byte.x00) (pqrSckaKeyInfo ++ epochBytes epoch) 32.

(** *** The encapsulation-key side, unchunked *)

Definition newUnchunkedKeysUnsampled (authKey : bytes) : res unchunkedKeysUnsampled :=
  _ ← check (len authKey =? 0) SpqrErrInvalidMessage;
  mret (mkUKeysUnsampled 1 (newAuthenticator authKey 1)).

Definition sendHeader (s : unchunkedKeysUnsampled) : ST tape (unchunkedHeaderSent * bytes * bytes) :=
  keys ← mlkemGenerateKeys;
  let mac := macHdr (uku_auth s) (uku_epoch s) (mk_hdr keys) in
  mret (mkUHeaderSent (uku_epoch s) (uku_auth s) (mk_ek keys) (mk_dk keys), mk_hdr keys, mac).

Definition sendEk (s : unchunkedHeaderSent) : unchunkedEkSent * bytes :=
  (mkUEkSent (uhs_epoch s) (uhs_auth s) (uhs_dk s), uhs_ek s).

(** Both branches of the code build the same state. *)
Definition recvCt1 (epoch : Z) (ct1 : bytes) (s : unchunkedEkSent) : unchunkedEkSentCt1Received :=
  if negb (epoch =? ues_epoch s) then mkUEkSentCt1Received (ues_epoch s) (ues_auth s) (ues_dk s) ct1
  else mkUEkSentCt1Received (ues_epoch s) (ues_auth s) (ues_dk s) ct1.

(** [s.auth.update(...)] on a field of the state *)
Definition st_auth {S A} (get : S -> authenticator) (set : authenticator -> S -> S) (m : ST authenticator A) : ST S A :=
  fun s => let '(a, r) := m (get s) in (set a s, r).

Definition set_uec_auth (a : authenticator) (s : unchunkedEkSentCt1Received) : unchunkedEkSentCt1Received :=
  mkUEkSentCt1Received (uec_epoch s) a (uec_dk s) (uec_ct1 s).

Definition recvCt2 (ct2 mac : bytes) : ST unchunkedEkSentCt1Received (unchunkedNoHeaderReceived * epochSecret) :=
  s ← st_get;
  _ ← st_check (negb (len ct2 =? mlkemCiphertext2Size)) (ErrText "spqr: invalid ct2 size");
  _ ← st_check (negb (len mac =? authenticatorMacSize)) SpqrErrInvalidMessage;
  ss ← st_lift (mlkemDecaps (uec_dk s) (uec_ct1 s) ct2);
  key ← st_lift (deriveSckaKey (uec_epoch s) ss);
  _ ← st_auth uec_auth set_uec_auth (update (uec_epoch s) key);
  s ← st_get;
  let fullCt := uec_ct1 s ++ ct2 in
  _ ← st_lift (verifyCt (uec_auth s) (uec_epoch s) fullCt mac);
  mret (mkUNoHeaderReceived (u64 (uec_epoch s + 1)) (uec_auth s), mkSecret (uec_epoch s) key).

(** *** The ciphertext side, unchunked *)

Definition newUnchunkedNoHeaderReceived (authKey : bytes) : res unchunkedNoHeaderReceived :=
  _ ← check (len authKey =? 0) SpqrErrInvalidMessage;
  mret (mkUNoHeaderReceived 1 (newAuthenticator authKey 1)).

Definition recvHeader (s : unchunkedNoHeaderReceived) (epoch : Z) (hdr mac : bytes) : res unchunkedHeaderReceived :=
  _ ← check (negb (epoch =? unh_epoch s)) SpqrErrEpochOutOfRange;
  _ ← check (negb (len hdr =? mlkemHeaderSize)) SpqrErrInvalidMessage;
  _ ← verifyHdr (unh_auth s) epoch hdr mac;
  mret (mkUHeaderReceived (unh_epoch s) (unh_auth s) hdr).

Definition set_uhr_auth (a : authenticator) (s : unchunkedHeaderReceived) : unchunkedHeaderReceived :=
  mkUHeaderReceived (uhr_epoch s) a (uhr_hdr s).

Definition sendCt1 : ST (unchunkedHeaderReceived * tape) (unchunkedCt1Sent * bytes * epochSecret) :=
  s ← st_fst st_get;
  '(ct1, encapsState, ss) ← st_snd (mlkemEncaps1 (uhr_hdr s));
  key ← st_lift (deriveSckaKey (uhr_epoch s) ss);
  _ ← st_fst (st_auth uhr_auth set_uhr_auth (update (uhr_epoch s) key));
  s ← st_fst st_get;
  mret (mkUCt1Sent (uhr_epoch s) (uhr_auth s) (uhr_hdr s) encapsState ct1, ct1, mkSecret (uhr_epoch s) key).

Definition recvEk (s : unchunkedCt1Sent) (epoch : Z) (ek : bytes) : res unchunkedCt1SentEkReceived :=
  _ ← check (negb (epoch =? uc1_epoch s)) SpqrErrEpochOutOfRange;
  _ ← check (negb (mlkemEKMatchesHeader ek (uc1_hdr s))) SpqrErrErroneousData;
  mret (mkUCt1SentEkReceived (uc1_epoch s) (uc1_auth s) (uc1_encaps s) ek (uc1_ct1 s)).

Definition sendCt2 (s : unchunkedCt1SentEkReceived) : res (unchunkedCt2Sent * bytes * bytes) :=
  ct2 ← mlkemEncaps2 (uce_ek s) (uce_encaps s);
  let fullCt := uce_ct1 s ++ ct2 in
  let mac := macCt (uce_auth s) (uce_epoch s) fullCt in
  mret (mkUCt2Sent (uce_epoch s) (uce_auth s), ct2, mac).

Definition recvNextEpoch_uc (s : unchunkedCt2Sent) (nextEpoch : Z) : res unchunkedKeysUnsampled :=
  _ ← check (negb (nextEpoch =? u64 (uc2_epoch s + 1))) SpqrErrEpochOutOfRange;
  mret (mkUKeysUnsampled (u64 (uc2_epoch s + 1)) (uc2_auth s)).

(** *** Initial states *)

Definition initV1StateA (authKey : bytes) : res v1States :=
  uc ← newUnchunkedKeysUnsampled authKey;
  mret (KeysUnsampled (mkKeysUnsampled uc)).

Definition initV1StateB (authKey : bytes) : res v1States :=
  uc ← newUnchunkedNoHeaderReceived authKey;
  dec ← newPolyDecoder (mlkemHeaderSize + authenticatorMacSize);
  mret (NoHeaderReceived (mkNoHeaderReceived uc dec)).

(** *** Sending *)

(** A fresh encoder and its first chunk. *)
Definition first_chunk (payload : bytes) : res (polyEncoder * chunk) :=
  enc ← newPolyEncoder payload;
  let '(enc, r) := nextChunk enc in
  c ← r;
  mret (enc, c).

Definition keysUnsampled_sendHdrChunk (s : chunkedKeysUnsampled) : ST tape (chunkedKeysSampled * chunk) :=
  '(uc, hdr, mac) ← sendHeader (cku_uc s);
  '(enc, c) ← st_lift (first_chunk (hdr ++ mac));
  mret (mkKeysSampled uc enc, c).

Definition keysSampled_sendHdrChunk : ST chunkedKeysSampled (chunkedKeysSampled * chunk) := fun s =>
  let '(enc, r) := nextChunk (sendingHdr s) in
  let s := mkKeysSampled (cks_uc s) enc in
  (s, c ← r; mret (s, c)).

Definition headerSent_sendEkChunk : ST chunkedHeaderSent (chunkedHeaderSent * chunk) := fun s =>
  let '(enc, r) := nextChunk (chs_sendingEk s) in
  let s := mkHeaderSent (chs_uc s) enc (receivingCt1 s) in
  (s, c ← r; mret (s, c)).

Definition ct1Received_sendEkChunk : ST chunkedCt1Received (chunkedCt1Received * chunk) := fun s =>
  let '(enc, r) := nextChunk (ccr_sendingEk s) in
  let s := mkCt1Received (ccr_uc s) enc in
  (s, c ← r; mret (s, c)).

Definition headerReceived_sendCt1Chunk :
    ST (chunkedHeaderReceived * tape) (chunkedCt1Sampled * chunk * epochSecret) := fun '(s, t) =>
  let '((uc', t), r) := sendCt1 (chr_uc s, t) in
  let s := mkHeaderReceived uc' (chr_receivingEk s) in
  ((s, t),
   '(uc, ct1, key) ← r;
   '(enc, c) ← first_chunk ct1;
   mret (mkCt1Sampled uc enc (chr_receivingEk s), c, key)).

Definition ct1Sampled_sendCt1Chunk : ST chunkedCt1Sampled (chunkedCt1Sampled * chunk) := fun s =>
  let '(enc, r) := nextChunk (cs1_sendingCt1 s) in
  let s := mkCt1Sampled (cs1_uc s) enc (cs1_receivingEk s) in
  (s, c ← r; mret (s, c)).

Definition ekReceivedCt1Sampled_sendCt1Chunk :
    ST chunkedEkReceivedCt1Sampled (chunkedEkReceivedCt1Sampled * chunk) := fun s =>
  let '(enc, r) := nextChunk (ces_sendingCt1 s) in
  let s := mkEkReceivedCt1Sampled (ces_uc s) enc in
  (s, c ← r; mret (s, c)).

Definition ct2Sampled_sendCt2Chunk : ST chunkedCt2Sampled (chunkedCt2Sampled * chunk) := fun s =>
  let '(enc, r) := nextChunk (sendingCt2 s) in
  let s := mkCt2Sampled (cs2_uc s) enc in
  (s, c ← r; mret (s, c)).

Definition chunk_msg (epoch : Z) (k : MessageType) (c : chunk) : v1Message :=
  mkV1Message epoch (mkPayload k (Some c) false).

(** One arm of the type switch: run on the object, see it again as a [v1States]. *)
Definition v1_case {S A} (wrap : S -> v1States) (s : S) (m : ST S A) : ST (v1States * tape) A := fun '(_, t) =>
  let '(s', r) := m s in ((wrap s', t), r).

Definition v1_send : ST (v1States * tape) v1Send := fun '(s, t) =>
  let epoch := v1_epoch s in
  match s with
  | KeysUnsampled st =>
      let '(t, r) := keysUnsampled_sendHdrChunk st t in
      ((s, t), '(next, c) ← r; mret (mkSend (chunk_msg epoch MessageTypeHdr c) None (KeysSampled next)))
  | KeysSampled st =>
      ('(next, c) ← v1_case KeysSampled st keysSampled_sendHdrChunk;
       mret (mkSend (chunk_msg epoch MessageTypeHdr c) None (KeysSampled next))) (s, t)
  | HeaderSent st =>
      ('(next, c) ← v1_case HeaderSent st headerSent_sendEkChunk;
       mret (mkSend (chunk_msg epoch MessageTypeEk c) None (HeaderSent next))) (s, t)
  | Ct1Received st =>
      ('(next, c) ← v1_case Ct1Received st ct1Received_sendEkChunk;
       mret (mkSend (chunk_msg epoch MessageTypeEkCt1Ack c) None (Ct1Received next))) (s, t)
  | EkSentCt1Received st =>
      ((s, t), Ok (mkSend (mkV1Message epoch (mkPayload MessageTypeCt1Ack None true)) None (EkSentCt1Received st)))
  | NoHeaderReceived st =>
      ((s, t), Ok (mkSend (mkV1Message epoch (mkPayload MessageTypeNone None false)) None (NoHeaderReceived st)))
  | HeaderReceived st =>
      let '((st, t), r) := headerReceived_sendCt1Chunk (st, t) in
      ((HeaderReceived st, t),
       '(next, c, key) ← r; mret (mkSend (chunk_msg epoch MessageTypeCt1 c) (Some key) (Ct1Sampled next)))
  | Ct1Sampled st =>
      ('(next, c) ← v1_case Ct1Sampled st ct1Sampled_sendCt1Chunk;
       mret (mkSend (chunk_msg epoch MessageTypeCt1 c) None (Ct1Sampled next))) (s, t)
  | EkReceivedCt1Sampled st =>
      ('(next, c) ← v1_case EkReceivedCt1Sampled st ekReceivedCt1Sampled_sendCt1Chunk;
       mret (mkSend (chunk_msg epoch MessageTypeCt1 c) None (EkReceivedCt1Sampled next))) (s, t)
  | Ct1Acknowledged st =>
      ((s, t), Ok (mkSend (mkV1Message epoch (mkPayload MessageTypeNone None false)) None (Ct1Acknowledged st)))
  | Ct2Sampled st =>
      ('(next, c) ← v1_case Ct2Sampled st ct2Sampled_sendCt2Chunk;
       mret (mkSend (chunk_msg epoch MessageTypeCt2 c) None (Ct2Sampled next))) (s, t)
  end.

(** *** Receiving *)

Definition keysSampled_recvCt1Chunk (s : chunkedKeysSampled) (c : chunk) : res chunkedHeaderSent :=
  dec ← newPolyDecoder mlkemCiphertext1Size;
  let dec := addChunk dec c in
  let '(uc, ek) := sendEk (cks_uc s) in
  enc ← newPolyEncoder ek;
  mret (mkHeaderSent uc enc dec).

Definition headerSent_recvCt1Chunk (epoch : Z) (c : chunk) : ST chunkedHeaderSent v1States := fun s =>
  let s := mkHeaderSent (chs_uc s) (chs_sendingEk s) (addChunk (receivingCt1 s) c) in
  (s, decoded ← decodedMessage (receivingCt1 s);
      match decoded with
      | None => mret (HeaderSent s)
      | Some decoded => mret (Ct1Received (mkCt1Received (recvCt1 epoch decoded (chs_uc s)) (chs_sendingEk s)))
      end).

Definition ct1Received_recvCt2Chunk (s : chunkedCt1Received) (c : chunk) : res chunkedEkSentCt1Received :=
  dec ← newPolyDecoder (mlkemCiphertext2Size + authenticatorMacSize);
  mret (mkEkSentCt1Received (ccr_uc s) (addChunk dec c)).

Definition ekSentCt1Received_recvCt2Chunk (c : chunk) :
    ST chunkedEkSentCt1Received (v1States * option epochSecret) := fun s =>
  let s := mkEkSentCt1Received (cec_uc s) (addChunk (receivingCt2 s) c) in
  match decodedMessage (receivingCt2 s) with
  | Err e => (s, Err e)
  | Panic => (s, Panic)
  | Ok None => (s, Ok (EkSentCt1Received s, None))
  | Ok (Some decoded) =>
      if len decoded <? mlkemCiphertext2Size + authenticatorMacSize then (s, Err SpqrErrInvalidMessage)
      else
        match slice decoded 0 mlkemCiphertext2Size, slice decoded mlkemCiphertext2Size (len decoded) with
        | Ok ct2, Ok mac =>
            let '(uc, r) := recvCt2 ct2 mac (cec_uc s) in
            (mkEkSentCt1Received uc (receivingCt2 s),
             '(nextUc, key) ← r;
             dec ← newPolyDecoder (mlkemHeaderSize + authenticatorMacSize);
             mret (NoHeaderReceived (mkNoHeaderReceived nextUc dec), Some key))
        | _, _ => (s, Panic)
        end
  end.

Definition noHeaderReceived_recvHdrChunk (epoch : Z) (c : chunk) : ST chunkedNoHeaderReceived v1States := fun s =>
  let s := mkNoHeaderReceived (cnh_uc s) (addChunk (receivingHdr s) c) in
  (s, decoded ← decodedMessage (receivingHdr s);
      match decoded with
      | None => mret (NoHeaderReceived s)
      | Some decoded =>
          _ ← check (len decoded <? mlkemHeaderSize + authenticatorMacSize) SpqrErrInvalidMessage;
          hdr ← slice decoded 0 mlkemHeaderSize;
          mac ← slice decoded mlkemHeaderSize (len decoded);
          uc ← recvHeader (cnh_uc s) epoch hdr mac;
          dec ← newPolyDecoder mlkemEncapsulationKeySize;
          mret (HeaderReceived (mkHeaderReceived uc dec))
      end).

(** [uc.sendCt2()] and the encoder of its output *)
Definition start_ct2 (uc : unchunkedCt1SentEkReceived) : res v1States :=
  '(ct2State, ct2, mac) ← sendCt2 uc;
  enc ← newPolyEncoder (ct2 ++ mac);
  mret (Ct2Sampled (mkCt2Sampled ct2State enc)).

Definition ct1Sampled_recvEkChunk (epoch : Z) (c : chunk) (ct1Ack : bool) : ST chunkedCt1Sampled v1States := fun s =>
  let s := mkCt1Sampled (cs1_uc s) (cs1_sendingCt1 s) (addChunk (cs1_receivingEk s) c) in
  (s, decoded ← decodedMessage (cs1_receivingEk s);
      match decoded with
      | None =>
          if ct1Ack then mret (Ct1Acknowledged (mkCt1Acknowledged (cs1_uc s) (cs1_receivingEk s)))
          else mret (Ct1Sampled s)
      | Some decoded =>
          uc ← recvEk (cs1_uc s) epoch decoded;
          if ct1Ack then start_ct2 uc
          else mret (EkReceivedCt1Sampled (mkEkReceivedCt1Sampled uc (cs1_sendingCt1 s)))
      end).

Definition recvCt1Ack (s : chunkedEkReceivedCt1Sampled) : res v1States := start_ct2 (ces_uc s).

Definition ct1Acknowledged_recvEkChunk (epoch : Z) (c : chunk) : ST chunkedCt1Acknowledged v1States := fun s =>
  let s := mkCt1Acknowledged (cca_uc s) (addChunk (cca_receivingEk s) c) in
  (s, decoded ← decodedMessage (cca_receivingEk s);
      match decoded with
      | None => mret (Ct1Acknowledged s)
      | Some decoded => uc ← recvEk (cca_uc s) epoch decoded; start_ct2 uc
      end).

Definition recvNextEpoch (s : chunkedCt2Sampled) (epoch : Z) : res v1States :=
  uc ← recvNextEpoch_uc (cs2_uc s) epoch;
  mret (KeysUnsampled (mkKeysUnsampled uc)).

(** [v1Recv{state: &v1States{state: next}}] *)
Definition no_key {S} (wrap : S -> v1States) (x : S * res v1States) : v1States * res v1Recv :=
  let '(s, r) := x in (wrap s, next ← r; mret (mkRecv None next)).

(** The switch on the epoch that every [recv] method starts with: [same] is
    its [default] arm. *)
Definition epoch_switch (msg : v1Message) (s : v1States) (same : v1States * res v1Recv) : v1States * res v1Recv :=
  if msg_epoch msg >? v1_epoch s then (s, Err SpqrErrEpochOutOfRange)
  else if msg_epoch msg <? v1_epoch s then (s, Ok (mkRecv None s))
  else same.

Definition stay (s : v1States) : v1States * res v1Recv := (s, Ok (mkRecv None s)).

Definition keysUnsampled_recv (msg : v1Message) (st : chunkedKeysUnsampled) : v1States * res v1Recv :=
  let s := KeysUnsampled st in
  if msg_epoch msg >? v1_epoch s then (s, Err SpqrErrEpochOutOfRange) else stay s.

Definition keysSampled_recv (msg : v1Message) (st : chunkedKeysSampled) : v1States * res v1Recv :=
  let s := KeysSampled st in
  epoch_switch msg s
    match kind (payload msg), pl_chunk (payload msg) with
    | MessageTypeCt1, Some c => (s, next ← keysSampled_recvCt1Chunk st c; mret (mkRecv None (HeaderSent next)))
    | _, _ => stay s
    end.

Definition headerSent_recv (msg : v1Message) (st : chunkedHeaderSent) : v1States * res v1Recv :=
  let s := HeaderSent st in
  epoch_switch msg s
    match kind (payload msg), pl_chunk (payload msg) with
    | MessageTypeCt1, Some c => no_key HeaderSent (headerSent_recvCt1Chunk (msg_epoch msg) c st)
    | _, _ => stay s
    end.

Definition ct1Received_recv (msg : v1Message) (st : chunkedCt1Received) : v1States * res v1Recv :=
  let s := Ct1Received st in
  epoch_switch msg s
    match kind (payload msg), pl_chunk (payload msg) with
    | MessageTypeCt2, Some c => (s, next ← ct1Received_recvCt2Chunk st c; mret (mkRecv None (EkSentCt1Received next)))
    | _, _ => stay s
    end.

Definition ekSentCt1Received_recv (msg : v1Message) (st : chunkedEkSentCt1Received) : v1States * res v1Recv :=
  let s := EkSentCt1Received st in
  epoch_switch msg s
    match kind (payload msg), pl_chunk (payload msg) with
    | MessageTypeCt2, Some c =>
        let '(st, r) := ekSentCt1Received_recvCt2Chunk c st in
        (EkSentCt1Received st, '(next, key) ← r; mret (mkRecv key next))
    | _, _ => stay s
    end.

Definition noHeaderReceived_recv (msg : v1Message) (st : chunkedNoHeaderReceived) : v1States * res v1Recv :=
  let s := NoHeaderReceived st in
  epoch_switch msg s
    match kind (payload msg), pl_chunk (payload msg) with
    | MessageTypeHdr, Some c => no_key NoHeaderReceived (noHeaderReceived_recvHdrChunk (msg_epoch msg) c st)
    | _, _ => stay s
    end.

Definition headerReceived_recv (msg : v1Message) (st : chunkedHeaderReceived) : v1States * res v1Recv :=
  let s := HeaderReceived st in epoch_switch msg s (stay s).

Definition ct1Sampled_recv (msg : v1Message) (st : chunkedCt1Sampled) : v1States * res v1Recv :=
  let s := Ct1Sampled st in
  epoch_switch msg s
    match kind (payload msg), pl_chunk (payload msg) with
    | MessageTypeEk, Some c => no_key Ct1Sampled (ct1Sampled_recvEkChunk (msg_epoch msg) c false st)
    | MessageTypeEkCt1Ack, Some c => no_key Ct1Sampled (ct1Sampled_recvEkChunk (msg_epoch msg) c true st)
    | _, _ => stay s
    end.

Definition ekReceivedCt1Sampled_recv (msg : v1Message) (st : chunkedEkReceivedCt1Sampled) : v1States * res v1Recv :=
  let s := EkReceivedCt1Sampled st in
  epoch_switch msg s
    match kind (payload msg) with
    | MessageTypeCt1Ack | MessageTypeEkCt1Ack => (s, next ← recvCt1Ack st; mret (mkRecv None next))
    | _ => stay s
    end.

Definition ct1Acknowledged_recv (msg : v1Message) (st : chunkedCt1Acknowledged) : v1States * res v1Recv :=
  let s := Ct1Acknowledged st in
  epoch_switch msg s
    match kind (payload msg), pl_chunk (payload msg) with
    | (MessageTypeEk | MessageTypeEkCt1Ack), Some c =>
        no_key Ct1Acknowledged (ct1Acknowledged_recvEkChunk (msg_epoch msg) c st)
    | _, _ => stay s
    end.

Definition ct2Sampled_recv (msg : v1Message) (st : chunkedCt2Sampled) : v1States * res v1Recv :=
  let s := Ct2Sampled st in
  if msg_epoch msg >? v1_epoch s then
    if msg_epoch msg =? u64 (v1_epoch s + 1)
    then (s, next ← recvNextEpoch st (msg_epoch msg); mret (mkRecv None next))
    else (s, Err SpqrErrEpochOutOfRange)
  else stay s.

Definition v1_recv (msg : v1Message) (s : v1States) : v1States * res v1Recv :=
  match s with
  | KeysUnsampled st => keysUnsampled_recv msg st
  | KeysSampled st => keysSampled_recv msg st
  | HeaderSent st => headerSent_recv msg st
  | Ct1Received st => ct1Received_recv msg st
  | EkSentCt1Received st => ekSentCt1Received_recv msg st
  | NoHeaderReceived st => noHeaderReceived_recv msg st
  | HeaderReceived st => headerReceived_recv msg st
  | Ct1Sampled st => ct1Sampled_recv msg st
  | EkReceivedCt1Sampled st => ekReceivedCt1Sampled_recv msg st
  | Ct1Acknowledged st => ct1Acknowledged_recv msg st
  | Ct2Sampled st => ct2Sampled_recv msg st
  end.

End v1.
End SpqrV1.
Import SpqrV1.
