(* ===== verification/SpqrV1Codec.v ===== *)
(** * Persistence of the key-agreement states: spqr/v1_state_serialize.go

    Each unchunked state is an epoch, the authenticator and the state's own
    byte strings; a chunked state is a tag, its unchunked state and its
    encoders and decoders, each length-prefixed. The decoders of the file check
    the sizes of the strings and reject trailing bytes. The nil checks of the
    serializers are not modelled: the states hold no nil. *)

From Stdlib Require Import ZArith Lia.
From Stdlib Require Import Strings.Byte.
From stdpp Require Import base gmap strings list list_numbers vector.
From S2P Require Import Prelude SpqrUtil Crypto Erasure SpqrMessage SpqrMlkem SpqrV1.
Import Util Crypto Erasure SpqrMessage SpqrMlkem SpqrV1.

Module SpqrV1Codec.

Definition v1StateKeysUnsampled : byte := Byte.x01.
Definition v1StateKeysSampled : byte := Byte.x02.
Definition v1StateHeaderSent : byte := Byte.x03.
Definition v1StateCt1Received : byte := Byte.x04.
Definition v1StateEkSentCt1Received : byte := Byte.x05.
Definition v1StateNoHeaderReceived : byte := Byte.x06.
Definition v1StateHeaderReceived : byte := Byte.x07.
Definition v1StateCt1Sampled : byte := Byte.x08.
Definition v1StateEkReceivedCt1Sampled : byte := Byte.x09.
Definition v1StateCt1Acknowledged : byte := Byte.x0a.
Definition v1StateCt2Sampled : byte := Byte.x0b.

(** *** Parts *)

Definition appendAuthenticator (a : authenticator) : bytes := appendBytes (rootKey a) ++ appendBytes (macKey a).

Definition readAuthenticator : reader authenticator :=
  rootKey ← readBytes;
  macKey ← readBytes;
  _ ← rd_check (negb (len rootKey =? 32) || negb (len macKey =? 32)) SpqrErrStateDecode;
  mret (mkAuth rootKey macKey).

Definition appendEncapsulationState (state : mlkemEncapsulationState) : bytes :=
  appendBytes (es_seed state) ++ appendBytes (es_rho state) ++ appendBytes (es_pkHash state).

Definition readEncapsulationState : reader mlkemEncapsulationState :=
  seed ← readBytes;
  rho ← readBytes;
  pkHash ← readBytes;
  _ ← rd_check (negb (len seed =? 32) || negb (len rho =? 32) || negb (len pkHash =? 32)) SpqrErrStateDecode;
  mret (mkEncaps (to_arr 32 seed) (to_arr 32 rho) (to_arr 32 pkHash)).

Definition decodePolyEncoderWithSize (data : bytes) (size : Z) : res polyEncoder :=
  enc ← decodePolyEncoder data;
  _ ← check (negb (len (enc_msg enc) =? size)) SpqrErrStateDecode;
  mret enc.

Definition decodePolyDecoderWithSize (data : bytes) (size : Z) : res polyDecoder :=
  dec ← decodePolyDecoder data;
  _ ← check (negb (ptsNeeded dec * 2 =? size)) SpqrErrStateDecode;
  mret dec.

(** The common beginning: [pos+8 > len(data)], the epoch, the authenticator. *)
Definition appendEpochAuth (epoch : Z) (a : authenticator) : bytes := appendUint64 epoch ++ appendAuthenticator a.

Definition readEpochAuth : reader (Z * authenticator) :=
  _ ← rd_need 8 SpqrErrStateDecode;
  epoch ← rd_readUint64;
  auth ← readAuthenticator;
  mret (epoch, auth).

(** *** Unchunked states *)

Definition serializeUnchunkedKeysUnsampled (s : unchunkedKeysUnsampled) : bytes :=
  appendEpochAuth (uku_epoch s) (uku_auth s).

Definition deserializeUnchunkedKeysUnsampled : bytes -> res unchunkedKeysUnsampled := rd_run (
  '(epoch, auth) ← readEpochAuth;
  _ ← rd_eof SpqrErrStateDecode;
  mret (mkUKeysUnsampled epoch auth)).

Definition serializeUnchunkedHeaderSent (s : unchunkedHeaderSent) : bytes :=
  appendEpochAuth (uhs_epoch s) (uhs_auth s) ++ appendBytes (uhs_ek s) ++ appendBytes (uhs_dk s).

Definition deserializeUnchunkedHeaderSent : bytes -> res unchunkedHeaderSent := rd_run (
  '(epoch, auth) ← readEpochAuth;
  ek ← readBytes;
  dk ← readBytes;
  _ ← rd_check (negb (len ek =? mlkemEncapsulationKeySize) || negb (len dk =? mlkemDecapsulationKeySize)) SpqrErrStateDecode;
  _ ← rd_eof SpqrErrStateDecode;
  mret (mkUHeaderSent epoch auth ek dk)).

Definition serializeUnchunkedEkSent (s : unchunkedEkSent) : bytes :=
  appendEpochAuth (ues_epoch s) (ues_auth s) ++ appendBytes (ues_dk s).

Definition deserializeUnchunkedEkSent : bytes -> res unchunkedEkSent := rd_run (
  '(epoch, auth) ← readEpochAuth;
  dk ← readBytes;
  _ ← rd_check (negb (len dk =? mlkemDecapsulationKeySize)) SpqrErrStateDecode;
  _ ← rd_eof SpqrErrStateDecode;
  mret (mkUEkSent epoch auth dk)).

Definition serializeUnchunkedEkSentCt1Received (s : unchunkedEkSentCt1Received) : bytes :=
  appendEpochAuth (uec_epoch s) (uec_auth s) ++ appendBytes (uec_dk s) ++ appendBytes (uec_ct1 s).

Definition deserializeUnchunkedEkSentCt1Received : bytes -> res unchunkedEkSentCt1Received := rd_run (
  '(epoch, auth) ← readEpochAuth;
  dk ← readBytes;
  ct1 ← readBytes;
  _ ← rd_check (negb (len dk =? mlkemDecapsulationKeySize) || negb (len ct1 =? mlkemCiphertext1Size)) SpqrErrStateDecode;
  _ ← rd_eof SpqrErrStateDecode;
  mret (mkUEkSentCt1Received epoch auth dk ct1)).

Definition serializeUnchunkedNoHeaderReceived (s : unchunkedNoHeaderReceived) : bytes :=
  appendEpochAuth (unh_epoch s) (unh_auth s).

Definition deserializeUnchunkedNoHeaderReceived : bytes -> res unchunkedNoHeaderReceived := rd_run (
  '(epoch, auth) ← readEpochAuth;
  _ ← rd_eof SpqrErrStateDecode;
  mret (mkUNoHeaderReceived epoch auth)).

Definition serializeUnchunkedHeaderReceived (s : unchunkedHeaderReceived) : bytes :=
  appendEpochAuth (uhr_epoch s) (uhr_auth s) ++ appendBytes (uhr_hdr s).

Definition deserializeUnchunkedHeaderReceived : bytes -> res unchunkedHeaderReceived := rd_run (
  '(epoch, auth) ← readEpochAuth;
  hdr ← readBytes;
  _ ← rd_check (negb (len hdr =? mlkemHeaderSize)) SpqrErrStateDecode;
  _ ← rd_eof SpqrErrStateDecode;
  mret (mkUHeaderReceived epoch auth hdr)).

Definition serializeUnchunkedCt1Sent (s : unchunkedCt1Sent) : bytes :=
  appendEpochAuth (uc1_epoch s) (uc1_auth s) ++ appendBytes (uc1_hdr s) ++
  appendEncapsulationState (uc1_encaps s) ++ appendBytes (uc1_ct1 s).

Definition deserializeUnchunkedCt1Sent : bytes -> res unchunkedCt1Sent := rd_run (
  '(epoch, auth) ← readEpochAuth;
  hdr ← readBytes;
  encaps ← readEncapsulationState;
  ct1 ← readBytes;
  _ ← rd_check (negb (len hdr =? mlkemHeaderSize) || negb (len ct1 =? mlkemCiphertext1Size)) SpqrErrStateDecode;
  _ ← rd_eof SpqrErrStateDecode;
  mret (mkUCt1Sent epoch auth hdr encaps ct1)).

Definition serializeUnchunkedCt1SentEkReceived (s : unchunkedCt1SentEkReceived) : bytes :=
  appendEpochAuth (uce_epoch s) (uce_auth s) ++ appendEncapsulationState (uce_encaps s) ++
  appendBytes (uce_ek s) ++ appendBytes (uce_ct1 s).

Definition deserializeUnchunkedCt1SentEkReceived : bytes -> res unchunkedCt1SentEkReceived := rd_run (
  '(epoch, auth) ← readEpochAuth;
  encaps ← readEncapsulationState;
  ek ← readBytes;
  ct1 ← readBytes;
  _ ← rd_check (negb (len ek =? mlkemEncapsulationKeySize) || negb (len ct1 =? mlkemCiphertext1Size)) SpqrErrStateDecode;
  _ ← rd_eof SpqrErrStateDecode;
  mret (mkUCt1SentEkReceived epoch auth encaps ek ct1)).

Definition serializeUnchunkedCt2Sent (s : unchunkedCt2Sent) : bytes := appendEpochAuth (uc2_epoch s) (uc2_auth s).

Definition deserializeUnchunkedCt2Sent : bytes -> res unchunkedCt2Sent := rd_run (
  '(epoch, auth) ← readEpochAuth;
  _ ← rd_eof SpqrErrStateDecode;
  mret (mkUCt2Sent epoch auth)).

(** *** Chunked states *)

Definition serializeV1States (s : v1States) : bytes :=
  match s with
  | KeysUnsampled st =>
      [v1StateKeysUnsampled] ++ appendBytes (serializeUnchunkedKeysUnsampled (cku_uc st))
  | KeysSampled st =>
      [v1StateKeysSampled] ++ appendBytes (serializeUnchunkedHeaderSent (cks_uc st)) ++
      appendBytes (encoder_serialize (sendingHdr st))
  | HeaderSent st =>
      [v1StateHeaderSent] ++ appendBytes (serializeUnchunkedEkSent (chs_uc st)) ++
      appendBytes (encoder_serialize (chs_sendingEk st)) ++ appendBytes (decoder_serialize (receivingCt1 st))
  | Ct1Received st =>
      [v1StateCt1Received] ++ appendBytes (serializeUnchunkedEkSentCt1Received (ccr_uc st)) ++
      appendBytes (encoder_serialize (ccr_sendingEk st))
  | EkSentCt1Received st =>
      [v1StateEkSentCt1Received] ++ appendBytes (serializeUnchunkedEkSentCt1Received (cec_uc st)) ++
      appendBytes (decoder_serialize (receivingCt2 st))
  | NoHeaderReceived st =>
      [v1StateNoHeaderReceived] ++ appendBytes (serializeUnchunkedNoHeaderReceived (cnh_uc st)) ++
      appendBytes (decoder_serialize (receivingHdr st))
  | HeaderReceived st =>
      [v1StateHeaderReceived] ++ appendBytes (serializeUnchunkedHeaderReceived (chr_uc st)) ++
      appendBytes (decoder_serialize (chr_receivingEk st))
  | Ct1Sampled st =>
      [v1StateCt1Sampled] ++ appendBytes (serializeUnchunkedCt1Sent (cs1_uc st)) ++
      appendBytes (encoder_serialize (cs1_sendingCt1 st)) ++ appendBytes (decoder_serialize (cs1_receivingEk st))
  | EkReceivedCt1Sampled st =>
      [v1StateEkReceivedCt1Sampled] ++ appendBytes (serializeUnchunkedCt1SentEkReceived (ces_uc st)) ++
      appendBytes (encoder_serialize (ces_sendingCt1 st))
  | Ct1Acknowledged st =>
      [v1StateCt1Acknowledged] ++ appendBytes (serializeUnchunkedCt1Sent (cca_uc st)) ++
      appendBytes (decoder_serialize (cca_receivingEk st))
  | Ct2Sampled st =>
      [v1StateCt2Sampled] ++ appendBytes (serializeUnchunkedCt2Sent (cs2_uc st)) ++
      appendBytes (encoder_serialize (sendingCt2 st))
  end.

(** The three shapes of a case of the switch: the strings are read first, then
    each is decoded, then the end of the data is checked. *)
Definition rd_uc {U} (deserializeUc : bytes -> res U) (wrap : U -> v1States) : reader v1States :=
  ucBytes ← readBytes;
  uc ← rd_lift (deserializeUc ucBytes);
  _ ← rd_eof SpqrErrStateDecode;
  mret (wrap uc).

Definition rd_uc_enc {U} (deserializeUc : bytes -> res U) (size : Z) (wrap : U -> polyEncoder -> v1States) : reader v1States :=
  ucBytes ← readBytes;
  encBytes ← readBytes;
  uc ← rd_lift (deserializeUc ucBytes);
  enc ← rd_lift (decodePolyEncoderWithSize encBytes size);
  _ ← rd_eof SpqrErrStateDecode;
  mret (wrap uc enc).

Definition rd_uc_dec {U} (deserializeUc : bytes -> res U) (size : Z) (wrap : U -> polyDecoder -> v1States) : reader v1States :=
  ucBytes ← readBytes;
  decBytes ← readBytes;
  uc ← rd_lift (deserializeUc ucBytes);
  dec ← rd_lift (decodePolyDecoderWithSize decBytes size);
  _ ← rd_eof SpqrErrStateDecode;
  mret (wrap uc dec).

Definition rd_uc_enc_dec {U} (deserializeUc : bytes -> res U) (encSize decSize : Z)
    (wrap : U -> polyEncoder -> polyDecoder -> v1States) : reader v1States :=
  ucBytes ← readBytes;
  encBytes ← readBytes;
  decBytes ← readBytes;
  uc ← rd_lift (deserializeUc ucBytes);
  enc ← rd_lift (decodePolyEncoderWithSize encBytes encSize);
  dec ← rd_lift (decodePolyDecoderWithSize decBytes decSize);
  _ ← rd_eof SpqrErrStateDecode;
  mret (wrap uc enc dec).

Definition deserializeV1States (data : bytes) : res v1States :=
  if len data =? 0 then Err SpqrErrStateDecode
  else rd_run (
    tag ← rd_byte;
    match tag with
    | Byte.x01 => rd_uc deserializeUnchunkedKeysUnsampled (fun uc => KeysUnsampled (mkKeysUnsampled uc))
    | Byte.x02 => rd_uc_enc deserializeUnchunkedHeaderSent (mlkemHeaderSize + authenticatorMacSize)
        (fun uc enc => KeysSampled (mkKeysSampled uc enc))
    | Byte.x03 => rd_uc_enc_dec deserializeUnchunkedEkSent mlkemEncapsulationKeySize mlkemCiphertext1Size
        (fun uc enc dec => HeaderSent (mkHeaderSent uc enc dec))
    | Byte.x04 => rd_uc_enc deserializeUnchunkedEkSentCt1Received mlkemEncapsulationKeySize
        (fun uc enc => Ct1Received (mkCt1Received uc enc))
    | Byte.x05 => rd_uc_dec deserializeUnchunkedEkSentCt1Received (mlkemCiphertext2Size + authenticatorMacSize)
        (fun uc dec => EkSentCt1Received (mkEkSentCt1Received uc dec))
    | Byte.x06 => rd_uc_dec deserializeUnchunkedNoHeaderReceived (mlkemHeaderSize + authenticatorMacSize)
        (fun uc dec => NoHeaderReceived (mkNoHeaderReceived uc dec))
    | Byte.x07 => rd_uc_dec deserializeUnchunkedHeaderReceived mlkemEncapsulationKeySize
        (fun uc dec => HeaderReceived (mkHeaderReceived uc dec))
    | Byte.x08 => rd_uc_enc_dec deserializeUnchunkedCt1Sent mlkemCiphertext1Size mlkemEncapsulationKeySize
        (fun uc enc dec => Ct1Sampled (mkCt1Sampled uc enc dec))
    | Byte.x09 => rd_uc_enc deserializeUnchunkedCt1SentEkReceived mlkemCiphertext1Size
        (fun uc enc => EkReceivedCt1Sampled (mkEkReceivedCt1Sampled uc enc))
    | Byte.x0a => rd_uc_dec deserializeUnchunkedCt1Sent mlkemEncapsulationKeySize
        (fun uc dec => Ct1Acknowledged (mkCt1Acknowledged uc dec))
    | Byte.x0b => rd_uc_enc deserializeUnchunkedCt2Sent (mlkemCiphertext2Size + authenticatorMacSize)
        (fun uc enc => Ct2Sampled (mkCt2Sampled uc enc))
    | _ => rd_err SpqrErrStateDecode
    end) data.

End SpqrV1Codec.
Import SpqrV1Codec.

(** ** What can be persisted *)

Definition auth_wf (a : authenticator) : Prop := len (rootKey a) = 32 /\ len (macKey a) = 32.

Definition enc_wf (size : Z) (e : polyEncoder) : Prop :=
  exists msg, valid_msg msg /\ len msg = size /\ enc_ok msg e /\ is_u32 (enc_idx e).

Definition dec_sized (size : Z) (d : polyDecoder) : Prop := dec_wf d /\ ptsNeeded d * 2 = size.

Definition v1_wf (s : v1States) : Prop :=
  is_u64 (v1_epoch s) /\
  match s with
  | KeysUnsampled st => auth_wf (uku_auth (cku_uc st))
  | KeysSampled st => auth_wf (uhs_auth (cks_uc st)) /\ len (uhs_ek (cks_uc st)) = 1152 /\ len (uhs_dk (cks_uc st)) = 2400 /\
      enc_wf 96 (sendingHdr st)
  | HeaderSent st => auth_wf (ues_auth (chs_uc st)) /\ len (ues_dk (chs_uc st)) = 2400 /\
      enc_wf 1152 (chs_sendingEk st) /\ dec_sized 960 (receivingCt1 st)
  | Ct1Received st => auth_wf (uec_auth (ccr_uc st)) /\ len (uec_dk (ccr_uc st)) = 2400 /\ len (uec_ct1 (ccr_uc st)) = 960 /\
      enc_wf 1152 (ccr_sendingEk st)
  | EkSentCt1Received st => auth_wf (uec_auth (cec_uc st)) /\ len (uec_dk (cec_uc st)) = 2400 /\ len (uec_ct1 (cec_uc st)) = 960 /\
      dec_sized 160 (receivingCt2 st)
  | NoHeaderReceived st => auth_wf (unh_auth (cnh_uc st)) /\ dec_sized 96 (receivingHdr st)
  | HeaderReceived st => auth_wf (uhr_auth (chr_uc st)) /\ len (uhr_hdr (chr_uc st)) = 64 /\ dec_sized 1152 (chr_receivingEk st)
  | Ct1Sampled st => auth_wf (uc1_auth (cs1_uc st)) /\ len (uc1_hdr (cs1_uc st)) = 64 /\ len (uc1_ct1 (cs1_uc st)) = 960 /\
      enc_wf 960 (cs1_sendingCt1 st) /\ dec_sized 1152 (cs1_receivingEk st)
  | EkReceivedCt1Sampled st => auth_wf (uce_auth (ces_uc st)) /\ len (uce_ek (ces_uc st)) = 1152 /\ len (uce_ct1 (ces_uc st)) = 960 /\
      enc_wf 960 (ces_sendingCt1 st)
  | Ct1Acknowledged st => auth_wf (uc1_auth (cca_uc st)) /\ len (uc1_hdr (cca_uc st)) = 64 /\ len (uc1_ct1 (cca_uc st)) = 960 /\
      dec_sized 1152 (cca_receivingEk st)
  | Ct2Sampled st => auth_wf (uc2_auth (cs2_uc st)) /\ enc_wf 160 (sendingCt2 st)
  end.

(** The state that comes back: the encoders have forgotten the polynomials they
    had computed. *)
Definition v1_reset (s : v1States) : v1States :=
  match s with
  | KeysSampled st => KeysSampled (mkKeysSampled (cks_uc st) (enc_reset (sendingHdr st)))
  | HeaderSent st => HeaderSent (mkHeaderSent (chs_uc st) (enc_reset (chs_sendingEk st)) (receivingCt1 st))
  | Ct1Received st => Ct1Received (mkCt1Received (ccr_uc st) (enc_reset (ccr_sendingEk st)))
  | Ct1Sampled st => Ct1Sampled (mkCt1Sampled (cs1_uc st) (enc_reset (cs1_sendingCt1 st)) (cs1_receivingEk st))
  | EkReceivedCt1Sampled st => EkReceivedCt1Sampled (mkEkReceivedCt1Sampled (ces_uc st) (enc_reset (ces_sendingCt1 st)))
  | Ct2Sampled st => Ct2Sampled (mkCt2Sampled (cs2_uc st) (enc_reset (sendingCt2 st)))
  | s => s
  end.

(** ** Reading back *)

Lemma appendBytes_len b : len (appendBytes b) = 4 + len b.
Proof. unfold appendBytes. rewrite len_app. done. Qed.
#[export] Hint Rewrite appendBytes_len : len.

Lemma reads_bytes b n : len b = n -> 0 <= n < 2 ^ 32 -> reads readBytes (appendBytes b) b.
Proof. intros <- Hn. by apply reads_readBytes. Qed.

Lemma reads_authenticator a : auth_wf a -> reads readAuthenticator (appendAuthenticator a) a.
Proof.
  intros [H1 H2]. unfold readAuthenticator, appendAuthenticator.
  eapply reads_bind; [by eapply reads_bytes|]. eapply reads_bind_end; [by eapply reads_bytes|].
  apply reads_check; [by rewrite H1, H2|]. destruct a. apply reads_ret.
Qed.

Lemma reads_encaps s : reads readEncapsulationState (appendEncapsulationState s) s.
Proof.
  unfold readEncapsulationState, appendEncapsulationState.
  eapply reads_bind; [eapply reads_bytes; [apply vec_list_len|done]|].
  eapply reads_bind; [eapply reads_bytes; [apply vec_list_len|done]|].
  eapply reads_bind_end; [eapply reads_bytes; [apply vec_list_len|done]|].
  apply reads_check; [by rewrite !vec_list_len|]. rewrite !to_arr_vec_list. destruct s. apply reads_ret.
Qed.

Lemma reads_epoch_auth e a : is_u64 e -> auth_wf a -> reads readEpochAuth (appendEpochAuth e a) (e, a).
Proof.
  intros He Ha. unfold readEpochAuth, appendEpochAuth. apply reads_need.
  { rewrite len_app. change (len (appendUint64 e)) with 8. pose proof (len_nonneg (appendAuthenticator a)). lia. }
  eapply reads_bind; [by apply reads_readUint64|]. eapply reads_bind_end; [by apply reads_authenticator|]. apply reads_ret.
Qed.

Lemma epochAuth_len e a : auth_wf a -> len (appendEpochAuth e a) = 80.
Proof. intros [H1 H2]. unfold appendEpochAuth, appendAuthenticator. rewrite !len_app, !appendBytes_len, H1, H2. done. Qed.

(** [read_uc He Ha] reads an unchunked state back: the epoch and the
    authenticator, then the strings, the size checks and the end. *)
Ltac read_string := eapply reads_end_bind; [eapply reads_bytes; [eassumption|done]|].
Ltac read_last := eapply reads_end_last; [eapply reads_bytes; [eassumption|done]|].
Ltac sizes := rewrite ?Z.eqb_refl; repeat match goal with E : len _ = _ |- _ => rewrite E; clear E end; done.

Lemma keysUnsampled_codec s :
  is_u64 (uku_epoch s) -> auth_wf (uku_auth s) ->
  deserializeUnchunkedKeysUnsampled (serializeUnchunkedKeysUnsampled s) = Ok s /\ len (serializeUnchunkedKeysUnsampled s) < 2 ^ 32.
Proof.
  intros He Ha. unfold serializeUnchunkedKeysUnsampled. split; [|by rewrite epochAuth_len].
  apply reads_end_run. eapply reads_end_last; [by apply reads_epoch_auth|].
  apply reads_end_eof, reads_end_of. destruct s. apply reads_ret.
Qed.

Lemma headerSent_codec s :
  is_u64 (uhs_epoch s) -> auth_wf (uhs_auth s) -> len (uhs_ek s) = 1152 -> len (uhs_dk s) = 2400 ->
  deserializeUnchunkedHeaderSent (serializeUnchunkedHeaderSent s) = Ok s /\ len (serializeUnchunkedHeaderSent s) < 2 ^ 32.
Proof.
  intros He Ha Hek Hdk. unfold serializeUnchunkedHeaderSent. split.
  - apply reads_end_run. eapply reads_end_bind; [by apply reads_epoch_auth|]. read_string. read_last.
    apply reads_end_check; [sizes|]. apply reads_end_eof, reads_end_of. destruct s. apply reads_ret.
  - rewrite !len_app, epochAuth_len, !appendBytes_len by done. lia.
Qed.

Lemma ekSent_codec s :
  is_u64 (ues_epoch s) -> auth_wf (ues_auth s) -> len (ues_dk s) = 2400 ->
  deserializeUnchunkedEkSent (serializeUnchunkedEkSent s) = Ok s /\ len (serializeUnchunkedEkSent s) < 2 ^ 32.
Proof.
  intros He Ha Hdk. unfold serializeUnchunkedEkSent. split.
  - apply reads_end_run. eapply reads_end_bind; [by apply reads_epoch_auth|]. read_last.
    apply reads_end_check; [sizes|]. apply reads_end_eof, reads_end_of. destruct s. apply reads_ret.
  - rewrite !len_app, epochAuth_len, !appendBytes_len by done. lia.
Qed.

Lemma ekSentCt1Received_codec s :
  is_u64 (uec_epoch s) -> auth_wf (uec_auth s) -> len (uec_dk s) = 2400 -> len (uec_ct1 s) = 960 ->
  deserializeUnchunkedEkSentCt1Received (serializeUnchunkedEkSentCt1Received s) = Ok s /\
  len (serializeUnchunkedEkSentCt1Received s) < 2 ^ 32.
Proof.
  intros He Ha Hdk Hct. unfold serializeUnchunkedEkSentCt1Received. split.
  - apply reads_end_run. eapply reads_end_bind; [by apply reads_epoch_auth|]. read_string. read_last.
    apply reads_end_check; [sizes|]. apply reads_end_eof, reads_end_of. destruct s. apply reads_ret.
  - rewrite !len_app, epochAuth_len, !appendBytes_len by done. lia.
Qed.

Lemma noHeaderReceived_codec s :
  is_u64 (unh_epoch s) -> auth_wf (unh_auth s) ->
  deserializeUnchunkedNoHeaderReceived (serializeUnchunkedNoHeaderReceived s) = Ok s /\
  len (serializeUnchunkedNoHeaderReceived s) < 2 ^ 32.
Proof.
  intros He Ha. unfold serializeUnchunkedNoHeaderReceived. split; [|by rewrite epochAuth_len].
  apply reads_end_run. eapply reads_end_last; [by apply reads_epoch_auth|].
  apply reads_end_eof, reads_end_of. destruct s. apply reads_ret.
Qed.

Lemma headerReceived_codec s :
  is_u64 (uhr_epoch s) -> auth_wf (uhr_auth s) -> len (uhr_hdr s) = 64 ->
  deserializeUnchunkedHeaderReceived (serializeUnchunkedHeaderReceived s) = Ok s /\
  len (serializeUnchunkedHeaderReceived s) < 2 ^ 32.
Proof.
  intros He Ha Hh. unfold serializeUnchunkedHeaderReceived. split.
  - apply reads_end_run. eapply reads_end_bind; [by apply reads_epoch_auth|]. read_last.
    apply reads_end_check; [sizes|]. apply reads_end_eof, reads_end_of. destruct s. apply reads_ret.
  - rewrite !len_app, epochAuth_len, !appendBytes_len by done. lia.
Qed.

Lemma encaps_len s : len (appendEncapsulationState s) = 108.
Proof. unfold appendEncapsulationState. by rewrite !len_app, !appendBytes_len, !vec_list_len. Qed.

Lemma ct1Sent_codec s :
  is_u64 (uc1_epoch s) -> auth_wf (uc1_auth s) -> len (uc1_hdr s) = 64 -> len (uc1_ct1 s) = 960 ->
  deserializeUnchunkedCt1Sent (serializeUnchunkedCt1Sent s) = Ok s /\ len (serializeUnchunkedCt1Sent s) < 2 ^ 32.
Proof.
  intros He Ha Hh Hct. unfold serializeUnchunkedCt1Sent. split.
  - apply reads_end_run. eapply reads_end_bind; [by apply reads_epoch_auth|]. read_string.
    eapply reads_end_bind; [apply reads_encaps|]. read_last.
    apply reads_end_check; [sizes|]. apply reads_end_eof, reads_end_of. destruct s. apply reads_ret.
  - rewrite !len_app, epochAuth_len, encaps_len, !appendBytes_len by done. lia.
Qed.

Lemma ct1SentEkReceived_codec s :
  is_u64 (uce_epoch s) -> auth_wf (uce_auth s) -> len (uce_ek s) = 1152 -> len (uce_ct1 s) = 960 ->
  deserializeUnchunkedCt1SentEkReceived (serializeUnchunkedCt1SentEkReceived s) = Ok s /\
  len (serializeUnchunkedCt1SentEkReceived s) < 2 ^ 32.
Proof.
  intros He Ha Hh Hct. unfold serializeUnchunkedCt1SentEkReceived. split.
  - apply reads_end_run. eapply reads_end_bind; [by apply reads_epoch_auth|].
    eapply reads_end_bind; [apply reads_encaps|]. read_string. read_last.
    apply reads_end_check; [sizes|]. apply reads_end_eof, reads_end_of. destruct s. apply reads_ret.
  - rewrite !len_app, epochAuth_len, encaps_len, !appendBytes_len by done. lia.
Qed.

Lemma ct2Sent_codec s :
  is_u64 (uc2_epoch s) -> auth_wf (uc2_auth s) ->
  deserializeUnchunkedCt2Sent (serializeUnchunkedCt2Sent s) = Ok s /\ len (serializeUnchunkedCt2Sent s) < 2 ^ 32.
Proof.
  intros He Ha. unfold serializeUnchunkedCt2Sent. split; [|by rewrite epochAuth_len].
  apply reads_end_run. eapply reads_end_last; [by apply reads_epoch_auth|].
  apply reads_end_eof, reads_end_of. destruct s. apply reads_ret.
Qed.

Lemma enc_codec size e :
  enc_wf size e -> decodePolyEncoderWithSize (encoder_serialize e) size = Ok (enc_reset e) /\ len (encoder_serialize e) < 2 ^ 32.
Proof.
  intros (msg & Hv & Hl & He & Hi). unfold decodePolyEncoderWithSize.
  rewrite (decodePolyEncoder_serialize msg) by done. cbn [mbind res_bind enc_reset enc_msg].
  rewrite (proj1 He), Hl, Z.eqb_refl. split; [done|]. unfold encoder_serialize. rewrite !len_app, (proj1 He).
  change (len (appendUint32 _)) with 4. destruct Hv as [_ Hv]. unfold polyNumPolys in Hv. lia.
Qed.

Lemma dec_codec size d :
  dec_sized size d -> decodePolyDecoderWithSize (decoder_serialize d) size = Ok d /\ len (decoder_serialize d) < 2 ^ 32.
Proof.
  intros [Hw Hn]. unfold decodePolyDecoderWithSize. rewrite decodePolyDecoder_serialize by done. cbn [mbind res_bind].
  rewrite Hn, Z.eqb_refl. split; [done|by apply decoder_serialize_len].
Qed.

(** The shapes of the switch. *)
Lemma reads_field b : len b < 2 ^ 32 -> reads readBytes (appendBytes b) b.
Proof. intros Hb. apply reads_readBytes. pose proof (len_nonneg b). unfold is_u32. lia. Qed.

Lemma reads_end_lift {A B} (r : res A) (k : A -> reader B) v enc w :
  r = Ok v -> reads_end (k v) enc w -> reads_end (rd_lift r ≫= k) enc w.
Proof. intros Hr Hk. eapply reads_end_nil; [by apply reads_lift|done]. Qed.

Lemma reads_uc {U} (dsz : bytes -> res U) wrap b uc :
  dsz b = Ok uc /\ len b < 2 ^ 32 -> reads_end (rd_uc dsz wrap) (appendBytes b) (wrap uc).
Proof.
  intros [E Hl]. unfold rd_uc. eapply reads_end_last; [by apply reads_field|]. eapply reads_end_lift; [exact E|].
  apply reads_end_eof, reads_end_of, reads_ret.
Qed.

Lemma reads_uc_enc {U} (dsz : bytes -> res U) size wrap b uc e :
  dsz b = Ok uc /\ len b < 2 ^ 32 -> enc_wf size e ->
  reads_end (rd_uc_enc dsz size wrap) (appendBytes b ++ appendBytes (encoder_serialize e)) (wrap uc (enc_reset e)).
Proof.
  intros [E Hl] He. destruct (enc_codec size e He) as [Ee Hle]. unfold rd_uc_enc.
  eapply reads_end_bind; [by apply reads_field|]. eapply reads_end_last; [by apply reads_field|].
  eapply reads_end_lift; [exact E|]. eapply reads_end_lift; [exact Ee|]. apply reads_end_eof, reads_end_of, reads_ret.
Qed.

Lemma reads_uc_dec {U} (dsz : bytes -> res U) size wrap b uc d :
  dsz b = Ok uc /\ len b < 2 ^ 32 -> dec_sized size d ->
  reads_end (rd_uc_dec dsz size wrap) (appendBytes b ++ appendBytes (decoder_serialize d)) (wrap uc d).
Proof.
  intros [E Hl] He. destruct (dec_codec size d He) as [Ee Hle]. unfold rd_uc_dec.
  eapply reads_end_bind; [by apply reads_field|]. eapply reads_end_last; [by apply reads_field|].
  eapply reads_end_lift; [exact E|]. eapply reads_end_lift; [exact Ee|]. apply reads_end_eof, reads_end_of, reads_ret.
Qed.

Lemma reads_uc_enc_dec {U} (dsz : bytes -> res U) s1 s2 wrap b uc e d :
  dsz b = Ok uc /\ len b < 2 ^ 32 -> enc_wf s1 e -> dec_sized s2 d ->
  reads_end (rd_uc_enc_dec dsz s1 s2 wrap)
    (appendBytes b ++ appendBytes (encoder_serialize e) ++ appendBytes (decoder_serialize d)) (wrap uc (enc_reset e) d).
Proof.
  intros [E Hl] He Hd. destruct (enc_codec s1 e He) as [Ee Hle]. destruct (dec_codec s2 d Hd) as [Ed Hld]. unfold rd_uc_enc_dec.
  do 2 (eapply reads_end_bind; [by apply reads_field|]). eapply reads_end_last; [by apply reads_field|].
  eapply reads_end_lift; [exact E|]. eapply reads_end_lift; [exact Ee|]. eapply reads_end_lift; [exact Ed|].
  apply reads_end_eof, reads_end_of, reads_ret.
Qed.

Lemma deserializeV1States_serialize s :
  v1_wf s -> deserializeV1States (serializeV1States s) = Ok (v1_reset s).
Proof.
  intros [He Hs]. unfold deserializeV1States.
  assert (forall tag (l : bytes), (len ([tag] ++ l) =? 0) = false) as Hlen
    by (intros tag l; apply Z.eqb_neq; rewrite len_app; change (len [tag]) with 1; pose proof (len_nonneg l); lia).
  destruct s as [[uc]|[uc e]|[uc e d]|[uc e]|[uc d]|[uc d]|[uc d]|[uc e d]|[uc e]|[uc d]|[uc e]];
    cbn [serializeV1States v1_reset v1_epoch cku_uc cks_uc chs_uc ccr_uc cec_uc cnh_uc chr_uc cs1_uc ces_uc cca_uc cs2_uc
         sendingHdr chs_sendingEk receivingCt1 ccr_sendingEk receivingCt2 receivingHdr chr_receivingEk cs1_sendingCt1
         cs1_receivingEk ces_sendingCt1 cca_receivingEk sendingCt2] in *;
    rewrite Hlen; apply reads_end_run; (eapply reads_end_bind; [apply reads_byte|]); 
    cbv beta iota delta [v1StateKeysUnsampled v1StateKeysSampled v1StateHeaderSent v1StateCt1Received v1StateEkSentCt1Received
      v1StateNoHeaderReceived v1StateHeaderReceived v1StateCt1Sampled v1StateEkReceivedCt1Sampled v1StateCt1Acknowledged v1StateCt2Sampled].
  - apply (reads_uc deserializeUnchunkedKeysUnsampled (fun uc => KeysUnsampled (mkKeysUnsampled uc)) _ uc). by apply keysUnsampled_codec.
  - destruct Hs as (Ha & H1 & H2 & H3). apply (reads_uc_enc deserializeUnchunkedHeaderSent _ (fun uc e => KeysSampled (mkKeysSampled uc e)) _ uc e); [by apply headerSent_codec|done].
  - destruct Hs as (Ha & H1 & H2 & H3). apply (reads_uc_enc_dec deserializeUnchunkedEkSent _ _ (fun uc e d => HeaderSent (mkHeaderSent uc e d)) _ uc e d); [by apply ekSent_codec|done|done].
  - destruct Hs as (Ha & H1 & H2 & H3). apply (reads_uc_enc deserializeUnchunkedEkSentCt1Received _ (fun uc e => Ct1Received (mkCt1Received uc e)) _ uc e); [by apply ekSentCt1Received_codec|done].
  - destruct Hs as (Ha & H1 & H2 & H3). apply (reads_uc_dec deserializeUnchunkedEkSentCt1Received _ (fun uc d => EkSentCt1Received (mkEkSentCt1Received uc d)) _ uc d); [by apply ekSentCt1Received_codec|done].
  - destruct Hs as (Ha & H1). apply (reads_uc_dec deserializeUnchunkedNoHeaderReceived _ (fun uc d => NoHeaderReceived (mkNoHeaderReceived uc d)) _ uc d); [by apply noHeaderReceived_codec|done].
  - destruct Hs as (Ha & H1 & H2). apply (reads_uc_dec deserializeUnchunkedHeaderReceived _ (fun uc d => HeaderReceived (mkHeaderReceived uc d)) _ uc d); [by apply headerReceived_codec|done].
  - destruct Hs as (Ha & H1 & H2 & H3 & H4). apply (reads_uc_enc_dec deserializeUnchunkedCt1Sent _ _ (fun uc e d => Ct1Sampled (mkCt1Sampled uc e d)) _ uc e d); [by apply ct1Sent_codec|done|done].
  - destruct Hs as (Ha & H1 & H2 & H3). apply (reads_uc_enc deserializeUnchunkedCt1SentEkReceived _ (fun uc e => EkReceivedCt1Sampled (mkEkReceivedCt1Sampled uc e)) _ uc e); [by apply ct1SentEkReceived_codec|done].
  - destruct Hs as (Ha & H1 & H2 & H3). apply (reads_uc_dec deserializeUnchunkedCt1Sent _ (fun uc d => Ct1Acknowledged (mkCt1Acknowledged uc d)) _ uc d); [by apply ct1Sent_codec|done].
  - destruct Hs as (Ha & H1). apply (reads_uc_enc deserializeUnchunkedCt2Sent _ (fun uc e => Ct2Sampled (mkCt2Sampled uc e)) _ uc e); [by apply ct2Sent_codec|done].
Qed.

(** ** Absence of panics *)

Lemma wp_authenticator data pos (Q : authenticator -> Z -> Prop) :
  0 <= pos <= len data -> (forall a pos', 0 <= pos' <= len data -> Q a pos') -> rd_wp readAuthenticator data pos Q.
Proof.
  intros Hp HQ. unfold readAuthenticator. wp_steps. apply wp_readBytes; [lia|]. intros r p1 Hp1. wp_steps.
  apply wp_readBytes; [lia|]. intros m p2 Hp2. wp_steps. by apply HQ.
Qed.

Lemma wp_encaps data pos (Q : mlkemEncapsulationState -> Z -> Prop) :
  0 <= pos <= len data -> (forall a pos', 0 <= pos' <= len data -> Q a pos') -> rd_wp readEncapsulationState data pos Q.
Proof.
  intros Hp HQ. unfold readEncapsulationState. do 3 (wp_steps; apply wp_readBytes; [lia|]; intros ? ? ?). wp_steps. by apply HQ.
Qed.

Lemma wp_epoch_auth data pos (Q : Z * authenticator -> Z -> Prop) :
  0 <= pos <= len data -> (forall a pos', 0 <= pos' <= len data -> Q a pos') -> rd_wp readEpochAuth data pos Q.
Proof.
  intros Hp HQ. unfold readEpochAuth. wp_steps. apply wp_readUint64; [lia..|]. intros e _. wp_steps.
  apply wp_authenticator; [lia|]. intros a p1 Hp1. wp_steps. by apply HQ.
Qed.

(** One string or part after another. *)
Ltac wp_part :=
  lazymatch goal with
  | |- rd_wp readBytes _ _ _ => apply wp_readBytes; [lia|intros ? ? ?]
  | |- rd_wp readEpochAuth _ _ _ => apply wp_epoch_auth; [lia|intros [? ?] ? ?]
  | |- rd_wp readEncapsulationState _ _ _ => apply wp_encaps; [lia|intros ? ? ?]
  | |- _ => wp_step
  end.
Ltac wp_uc := intros data; pose proof (len_nonneg data); apply wp_run; repeat wp_part; done.

Lemma keysUnsampled_no_panic : forall data, deserializeUnchunkedKeysUnsampled data <> Panic.
Proof. wp_uc. Qed.
Lemma headerSent_no_panic : forall data, deserializeUnchunkedHeaderSent data <> Panic.
Proof. wp_uc. Qed.
Lemma ekSent_no_panic : forall data, deserializeUnchunkedEkSent data <> Panic.
Proof. wp_uc. Qed.
Lemma ekSentCt1Received_no_panic : forall data, deserializeUnchunkedEkSentCt1Received data <> Panic.
Proof. wp_uc. Qed.
Lemma noHeaderReceived_no_panic : forall data, deserializeUnchunkedNoHeaderReceived data <> Panic.
Proof. wp_uc. Qed.
Lemma headerReceived_no_panic : forall data, deserializeUnchunkedHeaderReceived data <> Panic.
Proof. wp_uc. Qed.
Lemma ct1Sent_no_panic : forall data, deserializeUnchunkedCt1Sent data <> Panic.
Proof. wp_uc. Qed.
Lemma ct1SentEkReceived_no_panic : forall data, deserializeUnchunkedCt1SentEkReceived data <> Panic.
Proof. wp_uc. Qed.
Lemma ct2Sent_no_panic : forall data, deserializeUnchunkedCt2Sent data <> Panic.
Proof. wp_uc. Qed.

Lemma enc_no_panic size data : decodePolyEncoderWithSize data size <> Panic.
Proof.
  unfold decodePolyEncoderWithSize. pose proof (wp_encoder data) as Hn. destruct (decodePolyEncoder data); [|done|done].
  cbn [mbind res_bind]. by destruct (negb _).
Qed.

Lemma dec_no_panic size data : decodePolyDecoderWithSize data size <> Panic.
Proof.
  unfold decodePolyDecoderWithSize. pose proof (wp_decoder data) as Hn. destruct (decodePolyDecoder data); [|done|done].
  cbn [mbind res_bind]. by destruct (negb _).
Qed.

Create HintDb no_panic.
#[export] Hint Resolve keysUnsampled_no_panic headerSent_no_panic ekSent_no_panic ekSentCt1Received_no_panic
  noHeaderReceived_no_panic headerReceived_no_panic ct1Sent_no_panic ct1SentEkReceived_no_panic ct2Sent_no_panic
  enc_no_panic dec_no_panic : no_panic.

Lemma deserializeV1States_no_panic data : deserializeV1States data <> Panic.
Proof.
  unfold deserializeV1States. destruct (Z.eqb_spec (len data) 0) as [|Hne]; [done|]. pose proof (len_nonneg data).
  apply wp_run. wp_steps.
  match goal with |- rd_wp (match ?b with _ => _ end) _ _ _ => destruct b end;
    unfold rd_uc, rd_uc_enc, rd_uc_dec, rd_uc_enc_dec;
    repeat (wp_part || (apply wp_lift; [auto with no_panic|intros ? ?])); done.
Qed.

(** ** Properties *)

(** Persistence of the key-agreement state. A well-formed state of any of the
    eleven kinds comes back from its bytes as it was, except that its encoders
    have forgotten the polynomials they had computed (they are computed again
    from the message); what comes back has the same bytes. No data makes
    [deserializeV1States] panic. *)
Theorem v1_states_roundtrip s data :
  v1_wf s ->
  deserializeV1States (serializeV1States s) = Ok (v1_reset s) /\
  serializeV1States (v1_reset s) = serializeV1States s /\
  deserializeV1States data <> Panic.
Proof.
  intros Hs. split; [by apply deserializeV1States_serialize|]. split; [by destruct s|apply deserializeV1States_no_panic].
Qed.

Lemma v1_states_roundtrip_witness :
  let auth := mkAuth (replicate 32 Byte.x01) (replicate 32 Byte.x02) in
  let d := addChunk (mkDecoder 48 (replicate 16 ∅) false) (mkChunk 5 zero32) in
  let s := NoHeaderReceived (mkNoHeaderReceived (mkUNoHeaderReceived 7 auth) d) in
  deserializeV1States (serializeV1States s) = Ok s.
Proof.
  intros auth d s. assert (v1_wf s) as Hs.
  { split; [unfold is_u64; cbn [v1_epoch]; cbn; lia|]. split; [by split|]. split; [|done].
    apply addChunk_wf, (newPolyDecoder_wf 96); [lia|reflexivity]. }
  exact (proj1 (v1_states_roundtrip s [] Hs)).
Defined.
