(* ===== verification/SpqrV1Proofs.v ===== *)
(** * Correctness of the key agreement of the post-quantum ratchet

    Two parties run the state machine of SpqrV1.v against each other over a
    network that may lose, repeat and reorder messages. The proof describes
    every reachable state by a history [hist]: the key seed and the
    encapsulation seed of each epoch, each drawn once by the party whose turn it
    is. [st_inv] says what a state holds in terms of the history, [msg_inv] what
    a message carries; both survive the history growing. *)

From Stdlib Require Import ZArith Lia.
From Stdlib Require Import Strings.Byte.
From stdpp Require Import base gmap strings list list_numbers vector.
From S2P Require Import Prelude SpqrUtil Crypto Erasure SpqrMessage SpqrMlkem SpqrV1 SpqrV1Codec.
Import Util Crypto Erasure SpqrMessage SpqrMlkem SpqrV1 SpqrV1Codec.

(** ** Chunks of a known payload *)

(** A decoder that has only been given chunks of [msg]. *)
Definition dec_for (msg : bytes) (d : polyDecoder) : Prop :=
  exists S, (forall x, x ∈ S -> is_u16 x) /\ dec_ok (words msg) S d.

(** Payloads of the protocol: short and of even length. *)
Definition payload_ok (msg : bytes) : Prop := len msg mod 2 = 0 /\ 32 <= len msg <= 2 ^ 16.

Lemma payload_valid msg : payload_ok msg -> valid_msg msg.
Proof. intros [H1 H2]. split; [done|]. unfold polyNumPolys. lia. Qed.

Lemma dec_for_fresh msg d : payload_ok msg -> newPolyDecoder (len msg) = Ok d -> dec_for msg d.
Proof.
  intros Hp Hd. destruct (newPolyDecoder_ok msg (payload_valid _ Hp)) as (d' & E & Hok).
  rewrite E in Hd. apply Ok_inj in Hd as ->. exists ∅. split; [|done]. intros x Hx. by apply elem_of_empty in Hx.
Qed.

Lemma dec_for_add msg d idx : dec_for msg d -> is_u16 idx -> dec_for msg (addChunk d (chunk_of (words msg) idx)).
Proof.
  intros (S & HS & Hok) Hi. exists ({[idx]} ∪ S). split; [|by apply addChunk_spec].
  intros x [->%elem_of_singleton|Hx]%elem_of_union; auto.
Qed.

Lemma dec_for_decoded msg d :
  payload_ok msg -> dec_for msg d -> decodedMessage d = Ok None \/ decodedMessage d = Ok (Some msg).
Proof.
  intros Hp (S & HS & Hok). pose proof (payload_valid _ Hp) as Hv. pose proof (words_length _ (valid_msg_even _ Hv)) as Hw.
  rewrite (decodedMessage_spec _ _ _ Hok HS).
  - rewrite words_bytes by by apply valid_msg_even. case_decide; auto.
  - destruct Hp as [_ Hp]. unfold len in Hp. lia.
  - by apply valid_msg_words.
Qed.

(** An encoder of [msg], at some position. *)
Definition enc_for (msg : bytes) (e : polyEncoder) : Prop := enc_ok msg e /\ is_u32 (enc_idx e).

Lemma encoder_for msg : payload_ok msg -> exists e, newPolyEncoder msg = Ok e /\ enc_for msg e.
Proof.
  intros Hp. destruct (newPolyEncoder_ok msg (payload_valid _ Hp)) as (e & E & Hok & Hi). exists e.
  split; [done|]. split; [done|]. by rewrite Hi.
Qed.

Lemma next_for msg e :
  payload_ok msg -> enc_for msg e ->
  exists e' idx, nextChunk e = (e', Ok (chunk_of (words msg) idx)) /\ is_u16 idx /\ enc_for msg e'.
Proof.
  intros Hp [He _]. destruct (nextChunk_spec msg e (payload_valid _ Hp) He) as (e' & E & Hok & Hi).
  exists e', (u16 (enc_idx e)). split; [done|]. split; [apply u16_range|]. split; [done|]. rewrite Hi. apply u32_range.
Qed.

Lemma enc_for_wf msg n e : payload_ok msg -> len msg = n -> enc_for msg e -> enc_wf n e.
Proof. intros Hp <- [He Hi]. exists msg. split_and!; [by apply payload_valid|done|done|done]. Qed.

Lemma enc_for_reset msg e : enc_for msg e -> enc_for msg (enc_reset e).
Proof. intros [He Hi]. split; [by apply enc_reset_ok|done]. Qed.

Lemma dec_for_sized msg n d : payload_ok msg -> len msg = n -> dec_for msg d -> dec_sized n d.
Proof.
  intros Hp <- (S & HS & [Hn Ho Hl Hc]). pose proof (payload_valid _ Hp) as Hv.
  pose proof (words_length _ (valid_msg_even _ Hv)) as Hw. pose proof (valid_msg_words _ Hv) as Hb. split.
  - split; [unfold is_u32; rewrite Hn; unfold len; lia|done|]. apply Forall_forall. intros m [i Hi]%list_elem_of_lookup x [y Hy].
    rewrite <- (Nat2Z.id i) in Hi. by apply HS, (proj1 (Hc (Z.of_nat i) m Hi ltac:(lia)) x y Hy).
  - rewrite Hn. unfold len. lia.
Qed.

Lemma fresh_sized n d : n mod 2 = 0 -> 0 <= n < 2 ^ 32 -> newPolyDecoder n = Ok d -> dec_sized n d.
Proof.
  intros Hm Hn Hd. split; [by eapply newPolyDecoder_wf|]. unfold newPolyDecoder in Hd. rewrite Hm in Hd.
  cbn [Z.eqb negb check mbind res_bind] in Hd. apply Ok_inj in Hd as <-. cbn [ptsNeeded]. pose proof (Z.div_mod n 2). lia.
Qed.

Lemma decoder_exists n : n mod 2 = 0 -> exists d, newPolyDecoder n = Ok d.
Proof. intros Hn. unfold newPolyDecoder. rewrite Hn. cbn [Z.eqb negb check mbind res_bind]. eauto. Qed.

(** ** The history *)

Record hist : Type := mkHist { ks : gmap Z bytes; ms : gmap Z bytes }.

Section agreement.
Context {HP : Primitives} {HM : MLKEM} {HL : MLKEMLaws HM}.
Context (authKey : bytes).

Definition kseed (H : hist) (e : Z) : bytes := default [] (ks H !! e).
Definition mseed (H : hist) (e : Z) : bytes := default [] (ms H !! e).

(** The secret of an epoch, and the authenticator at the start of an epoch. *)
Definition key_of (H : hist) (e : Z) : bytes := get_ok [] (deriveSckaKey e (kem_ss (kseed H e) (mseed H e))).

Definition auth_next (e : Z) (key : bytes) (a : authenticator) : authenticator := fst (update e key a).

Fixpoint auth_n (H : hist) (n : nat) : authenticator :=
  match n with
  | O => newAuthenticator authKey 1
  | S n => auth_next (Z.of_nat (S n)) (key_of H (Z.of_nat (S n))) (auth_n H n)
  end.

Definition auth_at (H : hist) (e : Z) : authenticator := auth_n H (Z.to_nat (e - 1)).

Lemma update_ok e key a : update e key a = (auth_next e key a, Ok tt).
Proof.
  unfold auth_next. enough (snd (update e key a) = Ok tt) as Hs by (rewrite <- Hs; by destruct (update e key a)).
  unfold update. unfold mbind at 1, st_bind at 1, st_get.
  destruct (HKDF_ok (rootKey a ++ key) (replicate 32 Byte.x00) (authenticatorInfoUpdate ++ epochBytes e) 64)
    as (okm & Ho & Hl); [by unfold hkdfMaxLength|]. rewrite (st_bind_lift _ _ _ _ Ho).
  rewrite (st_bind_lift _ _ _ (take 32 okm)) by (rewrite slice_take; [done|lia]).
  by rewrite (st_bind_lift _ _ _ (drop 32 okm)) by (rewrite slice_drop; [done|lia]).
Qed.

Lemma deriveSckaKey_ok e ss : deriveSckaKey e ss = Ok (get_ok [] (deriveSckaKey e ss)).
Proof.
  unfold deriveSckaKey. destruct (HKDF_ok ss (replicate 32 Byte.x00) (pqrSckaKeyInfo ++ epochBytes e) 32)
    as (okm & -> & _); [by unfold hkdfMaxLength|]. done.
Qed.

Lemma auth_at_succ H e : 1 <= e -> auth_at H (e + 1) = auth_next e (key_of H e) (auth_at H e).
Proof.
  intros He. unfold auth_at. replace (Z.to_nat (e + 1 - 1)) with (S (Z.to_nat (e - 1))) by lia.
  cbn [auth_n]. by replace (Z.of_nat (S (Z.to_nat (e - 1)))) with e by lia.
Qed.

(** Histories grow. *)
Definition hle (H H' : hist) : Prop := ks H ⊆ ks H' /\ ms H ⊆ ms H'.

Lemma hle_refl H : hle H H.
Proof. done. Qed.

Lemma hle_ks H H' e s : hle H H' -> ks H !! e = Some s -> ks H' !! e = Some s.
Proof. intros [Hk _] Hs. by eapply lookup_weaken. Qed.
Lemma hle_ms H H' e m : hle H H' -> ms H !! e = Some m -> ms H' !! e = Some m.
Proof. intros [_ Hk] Hs. by eapply lookup_weaken. Qed.

(** All epochs before [e] are finished. *)
Definition complete (H : hist) (e : Z) : Prop :=
  forall i, 1 <= i < e -> is_Some (ks H !! i) /\ exists m, ms H !! i = Some m /\ len m = 32.

Lemma complete_mono H H' e : hle H H' -> complete H e -> complete H' e.
Proof.
  intros Hle Hc i Hi. destruct (Hc i Hi) as [[s Hs] (m & Hm & Hl)]. split.
  - exists s. by eapply hle_ks.
  - exists m. split; [by eapply hle_ms|done].
Qed.

Lemma complete_succ H e s m :
  complete H e -> ks H !! e = Some s -> ms H !! e = Some m -> len m = 32 -> complete H (e + 1).
Proof. intros Hc Hs Hm Hl i Hi. destruct (decide (i = e)) as [->|]; [eauto|]. apply Hc. lia. Qed.

Lemma key_of_mono H H' e : hle H H' -> complete H (e + 1) -> 1 <= e -> key_of H' e = key_of H e.
Proof.
  intros Hle Hc He. destruct (Hc e ltac:(lia)) as [[s Hs] (m & Hm & _)]. unfold key_of, kseed, mseed.
  by rewrite Hs, Hm, (hle_ks _ _ _ _ Hle Hs), (hle_ms _ _ _ _ Hle Hm).
Qed.

Lemma auth_at_mono H H' e : hle H H' -> complete H e -> 1 <= e -> auth_at H' e = auth_at H e.
Proof.
  intros Hle Hc He. unfold auth_at. assert (Z.of_nat (Z.to_nat (e - 1)) < e) as Hn by lia. revert Hn.
  generalize (Z.to_nat (e - 1)) as n. induction n as [|n IH]; intros Hn; [done|]. cbn [auth_n].
  rewrite IH by lia. f_equal. apply key_of_mono; [done| |lia]. intros i Hi. apply Hc. lia.
Qed.

(** ** What is sent *)

Definition hdr_payload (H : hist) (e : Z) (s : bytes) : bytes := kem_hdr s ++ macHdr (auth_at H e) e (kem_hdr s).
Definition ct2_payload (H : hist) (e : Z) (s m : bytes) : bytes :=
  kem_ct2 s m ++ macCt (auth_at H (e + 1)) e (kem_ct1 s m ++ kem_ct2 s m).

Lemma macHdr_len a e hdr : len (macHdr a e hdr) = 32.
Proof. unfold macHdr, hmacSha256. by rewrite vec_list_len. Qed.
Lemma macCt_len a e ct : len (macCt a e ct) = 32.
Proof. unfold macCt, hmacSha256. by rewrite vec_list_len. Qed.

Lemma payloads_len H e s m :
  len (hdr_payload H e s) = 96 /\ len (kem_ek s) = 1152 /\ len (kem_ct1 s m) = 960 /\ len (ct2_payload H e s m) = 160.
Proof.
  destruct (kem_sizes s m) as (_ & H1 & H2 & _ & H3 & H4 & _). unfold hdr_payload, ct2_payload.
  rewrite !len_app, macHdr_len, macCt_len, H1, H2, H3, H4. done.
Qed.

Lemma payloads_ok H e s m :
  payload_ok (hdr_payload H e s) /\ payload_ok (kem_ek s) /\ payload_ok (kem_ct1 s m) /\ payload_ok (ct2_payload H e s m).
Proof. destruct (payloads_len H e s m) as (H1 & H2 & H3 & H4). unfold payload_ok. rewrite H1, H2, H3, H4. by repeat split. Qed.

Lemma hdr_payload_mono H H' e s : hle H H' -> complete H e -> 1 <= e -> hdr_payload H' e s = hdr_payload H e s.
Proof. intros. unfold hdr_payload. by rewrite (auth_at_mono H H'). Qed.

Lemma ct2_payload_mono H H' e s m :
  hle H H' -> complete H (e + 1) -> 1 <= e -> ct2_payload H' e s m = ct2_payload H e s m.
Proof. intros. unfold ct2_payload. rewrite (auth_at_mono H H'); [done|done|done|lia]. Qed.

(** A chunk of a payload. *)
Definition chunk_for (msg : bytes) (c : chunk) : Prop := exists idx, is_u16 idx /\ c = chunk_of (words msg) idx.

(** The seeds of an epoch. *)
Definition has_key (H : hist) (e : Z) (s : bytes) : Prop := ks H !! e = Some s.
Definition has_seeds (H : hist) (e : Z) (s m : bytes) : Prop := ks H !! e = Some s /\ ms H !! e = Some m /\ len m = 32.

(** What a message carries. *)
Definition msg_inv (H : hist) (m : v1Message) : Prop :=
  let e := msg_epoch m in
  1 <= e /\ complete H e /\
  match kind (payload m), pl_chunk (payload m) with
  | MessageTypeHdr, Some c => exists s, has_key H e s /\ chunk_for (hdr_payload H e s) c
  | (MessageTypeEk | MessageTypeEkCt1Ack), Some c => exists s, has_key H e s /\ chunk_for (kem_ek s) c
  | MessageTypeCt1, Some c => exists s r, has_seeds H e s r /\ chunk_for (kem_ct1 s r) c
  | MessageTypeCt2, Some c => exists s r, has_seeds H e s r /\ chunk_for (ct2_payload H e s r) c
  | (MessageTypeNone | MessageTypeCt1Ack), None => True
  | _, _ => False
  end.

Lemma has_seeds_mono H H' e s m : hle H H' -> has_seeds H e s m -> has_seeds H' e s m.
Proof. intros Hle (H1 & H2 & H3). split_and!; [by eapply hle_ks|by eapply hle_ms|done]. Qed.

Lemma has_seeds_complete H e s m : complete H e -> has_seeds H e s m -> complete H (e + 1).
Proof. intros Hc (H1 & H2 & H3). by eapply complete_succ. Qed.

Lemma msg_inv_mono H H' m : hle H H' -> msg_inv H m -> msg_inv H' m.
Proof.
  intros Hle (H1 & Hc & Hm). split; [done|]. split; [by eapply complete_mono|].
  destruct (kind (payload m)), (pl_chunk (payload m)) as [c|]; try done.
  - destruct Hm as (s & Hs & Hch). exists s. split; [by eapply hle_ks|]. by rewrite (hdr_payload_mono H H').
  - destruct Hm as (s & Hs & Hch). exists s. split; [by eapply hle_ks|done].
  - destruct Hm as (s & Hs & Hch). exists s. split; [by eapply hle_ks|done].
  - destruct Hm as (s & r & Hs & Hch). exists s, r. split; [by eapply has_seeds_mono|done].
  - destruct Hm as (s & r & Hs & Hch). exists s, r. split; [by eapply has_seeds_mono|].
    rewrite (ct2_payload_mono H H'); [done|done|by eapply has_seeds_complete|done].
Qed.

(** ** What a state holds *)

(** Party [p] sends the encapsulation key in the epochs of its parity. *)
Definition ek_turn (p : bool) (e : Z) : bool := Bool.eqb (Z.odd e) p.

Lemma ek_turn_succ p e : ek_turn p (e + 1) = negb (ek_turn p e).
Proof. unfold ek_turn. rewrite Z.add_1_r, Z.odd_succ, <- Z.negb_odd. by destruct (Z.odd e), p. Qed.

Lemma ek_turn_other p e : ek_turn (negb p) e = negb (ek_turn p e).
Proof. unfold ek_turn. by destruct (Z.odd e), p. Qed.

Definition fresh_dec (n : Z) (d : polyDecoder) : Prop := newPolyDecoder n = Ok d.

(** Party [p] has drawn nothing for the epochs after [e]. *)
Definition future (H : hist) (p : bool) (e : Z) : Prop :=
  forall i, e < i -> (ek_turn p i = true -> ks H !! i = None) /\ (ek_turn p i = false -> ms H !! i = None).

Definition st_inv (H : hist) (p : bool) (st : v1States) : Prop :=
  let e := v1_epoch st in
  1 <= e /\ complete H e /\ future H p e /\
  match st with
  | KeysUnsampled st => ek_turn p e = true /\ uku_auth (cku_uc st) = auth_at H e /\ ks H !! e = None
  | KeysSampled st => ek_turn p e = true /\ exists s, has_key H e s /\
      uhs_auth (cks_uc st) = auth_at H e /\ uhs_ek (cks_uc st) = kem_ek s /\ uhs_dk (cks_uc st) = kem_dk s /\
      enc_for (hdr_payload H e s) (sendingHdr st)
  | HeaderSent st => ek_turn p e = true /\ exists s m, has_seeds H e s m /\
      ues_auth (chs_uc st) = auth_at H e /\ ues_dk (chs_uc st) = kem_dk s /\
      enc_for (kem_ek s) (chs_sendingEk st) /\ dec_for (kem_ct1 s m) (receivingCt1 st)
  | Ct1Received st => ek_turn p e = true /\ exists s m, has_seeds H e s m /\
      uec_auth (ccr_uc st) = auth_at H e /\ uec_dk (ccr_uc st) = kem_dk s /\ uec_ct1 (ccr_uc st) = kem_ct1 s m /\
      enc_for (kem_ek s) (ccr_sendingEk st)
  | EkSentCt1Received st => ek_turn p e = true /\ exists s m, has_seeds H e s m /\
      uec_auth (cec_uc st) = auth_at H e /\ uec_dk (cec_uc st) = kem_dk s /\ uec_ct1 (cec_uc st) = kem_ct1 s m /\
      dec_for (ct2_payload H e s m) (receivingCt2 st)
  | NoHeaderReceived st => ek_turn p e = false /\ unh_auth (cnh_uc st) = auth_at H e /\ ms H !! e = None /\
      (fresh_dec 96 (receivingHdr st) \/ exists s, has_key H e s /\ dec_for (hdr_payload H e s) (receivingHdr st))
  | HeaderReceived st => ek_turn p e = false /\ exists s, has_key H e s /\
      uhr_auth (chr_uc st) = auth_at H e /\ uhr_hdr (chr_uc st) = kem_hdr s /\ ms H !! e = None /\
      dec_for (kem_ek s) (chr_receivingEk st)
  | Ct1Sampled st => ek_turn p e = false /\ exists s m, has_seeds H e s m /\
      cs1_uc st = mkUCt1Sent e (auth_at H (e + 1)) (kem_hdr s) (kem_state s m) (kem_ct1 s m) /\
      enc_for (kem_ct1 s m) (cs1_sendingCt1 st) /\ dec_for (kem_ek s) (cs1_receivingEk st)
  | EkReceivedCt1Sampled st => ek_turn p e = false /\ exists s m, has_seeds H e s m /\
      ces_uc st = mkUCt1SentEkReceived e (auth_at H (e + 1)) (kem_state s m) (kem_ek s) (kem_ct1 s m) /\
      enc_for (kem_ct1 s m) (ces_sendingCt1 st)
  | Ct1Acknowledged st => ek_turn p e = false /\ exists s m, has_seeds H e s m /\
      cca_uc st = mkUCt1Sent e (auth_at H (e + 1)) (kem_hdr s) (kem_state s m) (kem_ct1 s m) /\
      dec_for (kem_ek s) (cca_receivingEk st)
  | Ct2Sampled st => ek_turn p e = false /\ exists s m, has_seeds H e s m /\
      cs2_uc st = mkUCt2Sent e (auth_at H (e + 1)) /\ enc_for (ct2_payload H e s m) (sendingCt2 st)
  end.

(** The other party extends the history only at its own places. *)
Definition hext (p : bool) (H H' : hist) : Prop :=
  hle H H' /\ (forall e, ek_turn p e = false -> ks H' !! e = ks H !! e) /\
  (forall e, ek_turn p e = true -> ms H' !! e = ms H !! e).

Lemma hext_refl p H : hext p H H.
Proof. done. Qed.

Lemma st_inv_other p H H' st : hext (negb p) H H' -> st_inv H p st -> st_inv H' p st.
Proof.
  intros (Hle & Hk & Hm) (H1 & Hc & Hf & Hst). split; [done|]. split; [by eapply complete_mono|]. split.
  { intros i Hi. destruct (Hf i Hi) as [F1 F2]. split; intros Ht.
    - rewrite Hk; [by apply F1|]. by rewrite ek_turn_other, Ht.
    - rewrite Hm; [by apply F2|]. by rewrite ek_turn_other, Ht. }
  pose proof (auth_at_mono H H' (v1_epoch st) Hle Hc H1) as Ha.
  destruct st as [st|st|st|st|st|st|st|st|st|st|st]; cbn [v1_epoch] in *.
  - destruct Hst as (Hp & Hau & Hn). split_and!; [done|by rewrite Ha|]. rewrite Hk; [done|]. by rewrite ek_turn_other, Hp.
  - destruct Hst as (Hp & s & Hs & Hau & ? & ? & He). split; [done|]. exists s.
    rewrite Ha, (hdr_payload_mono H H') by done. split_and!; try done. by eapply hle_ks.
  - destruct Hst as (Hp & s & m & Hs & Hau & ? & ? & ?). split; [done|]. exists s, m.
    rewrite Ha. split_and!; try done. by eapply has_seeds_mono.
  - destruct Hst as (Hp & s & m & Hs & Hau & ? & ? & ?). split; [done|]. exists s, m.
    rewrite Ha. split_and!; try done. by eapply has_seeds_mono.
  - destruct Hst as (Hp & s & m & Hs & Hau & ? & ? & ?). split; [done|]. exists s, m.
    rewrite Ha, (ct2_payload_mono H H'); [|done|by eapply has_seeds_complete|done]. split_and!; try done. by eapply has_seeds_mono.
  - destruct Hst as (Hp & Hau & Hn & Hd). split_and!; [done|by rewrite Ha| |].
    + rewrite Hm; [done|]. by rewrite ek_turn_other, Hp.
    + destruct Hd as [Hd|(s & Hs & Hd)]; [by left|right]. exists s. rewrite (hdr_payload_mono H H') by done.
      split; [by eapply hle_ks|done].
  - destruct Hst as (Hp & s & Hs & Hau & ? & Hn & ?). split; [done|]. exists s. rewrite Ha. split_and!; try done.
    + by eapply hle_ks.
    + rewrite Hm; [done|]. by rewrite ek_turn_other, Hp.
  - destruct Hst as (Hp & s & m & Hs & Huc & ? & ?). split; [done|]. exists s, m.
    rewrite (auth_at_mono H H'); [|done|by eapply has_seeds_complete|lia]. split_and!; try done. by eapply has_seeds_mono.
  - destruct Hst as (Hp & s & m & Hs & Huc & ?). split; [done|]. exists s, m.
    rewrite (auth_at_mono H H'); [|done|by eapply has_seeds_complete|lia]. split_and!; try done. by eapply has_seeds_mono.
  - destruct Hst as (Hp & s & m & Hs & Huc & ?). split; [done|]. exists s, m.
    rewrite (auth_at_mono H H'); [|done|by eapply has_seeds_complete|lia]. split_and!; try done. by eapply has_seeds_mono.
  - destruct Hst as (Hp & s & m & Hs & Huc & ?). split; [done|]. exists s, m.
    rewrite (auth_at_mono H H'), (ct2_payload_mono H H'); [|done|by eapply has_seeds_complete|lia|done|by eapply has_seeds_complete|lia].
    split_and!; try done. by eapply has_seeds_mono.
Qed.

(** ** One party's steps *)

(** The epochs whose secret a state has handed out. *)
Definition emitted (st : v1States) : Z :=
  match st with
  | Ct1Sampled _ | EkReceivedCt1Sampled _ | Ct1Acknowledged _ | Ct2Sampled _ => v1_epoch st
  | _ => v1_epoch st - 1
  end.

Definition is_ct2 (st : v1States) : bool := match st with Ct2Sampled _ => true | _ => false end.
Definition waits_ct2 (st : v1States) : bool := match st with EkSentCt1Received _ => true | _ => false end.

(** The secret that a step from [st] to [st'] reports. *)
Definition reports (H : hist) (st st' : v1States) (k : option epochSecret) : Prop :=
  (k = None /\ emitted st' = emitted st) \/
  (k = Some (mkSecret (emitted st') (key_of H (emitted st'))) /\ emitted st' = emitted st + 1).

Lemma st_inv_emitted H p st : st_inv H p st -> complete H (emitted st + 1) /\ 0 <= emitted st.
Proof.
  intros (H1 & Hc & _ & Hst). destruct st as [st|st|st|st|st|st|st|st|st|st|st]; cbn [emitted v1_epoch] in *;
    try (rewrite Z.sub_add; split; [done|lia]);
    destruct Hst as (_ & s & m & Hs & _); (split; [by eapply has_seeds_complete|lia]).
Qed.

Lemma first_chunk_ok msg :
  payload_ok msg -> exists enc idx, first_chunk msg = Ok (enc, chunk_of (words msg) idx) /\ is_u16 idx /\ enc_for msg enc.
Proof.
  intros Hp. destruct (encoder_for msg Hp) as (e & E & Hok). destruct (next_for msg e Hp Hok) as (e' & idx & En & Hi & Hok').
  exists e', idx. unfold first_chunk. rewrite E. cbn [mbind res_bind]. rewrite En. done.
Qed.

(** What sending does: [H'] is the history after it. *)
Record sent (H H' : hist) (p : bool) (st : v1States) (sd : v1Send) : Prop := {
  sent_ext : hext p H H';
  sent_inv : st_inv H' p (send_state sd);
  sent_msg : msg_inv H' (send_msg sd);
  sent_epoch : msg_epoch (send_msg sd) = v1_epoch st /\ v1_epoch (send_state sd) = v1_epoch st;
  sent_key : reports H' st (send_state sd) (send_key sd);
  sent_ct2 : is_ct2 (send_state sd) = is_ct2 st /\ waits_ct2 (send_state sd) = waits_ct2 st;
  sent_kind : kind (payload (send_msg sd)) = MessageTypeCt2 -> is_ct2 st = true
}.

(** A state that sends a chunk of a payload it is already sending. *)
Lemma sent_chunk H p st k c st' :
  st_inv H p st' -> v1_epoch st' = v1_epoch st -> emitted st' = emitted st -> is_ct2 st' = is_ct2 st ->
  waits_ct2 st' = waits_ct2 st -> (k = MessageTypeCt2 -> is_ct2 st = true) ->
  msg_inv H (chunk_msg (v1_epoch st) k c) ->
  sent H H p st (mkSend (chunk_msg (v1_epoch st) k c) None st').
Proof. intros. split; cbn; try done. by left. Qed.

Lemma sent_quiet H p st k a : 
  st_inv H p st -> (k = MessageTypeNone \/ k = MessageTypeCt1Ack) ->
  sent H H p st (mkSend (mkV1Message (v1_epoch st) (mkPayload k None a)) None st).
Proof.
  intros Hst Hk. pose proof Hst as (H1 & Hc & _). split; cbn [send_msg send_key send_state]; try done.
  - split; [done|]. split; [done|]. by destruct Hk as [-> | ->].
  - by left.
  - cbn. destruct Hk as [-> | ->]; discriminate.
Qed.

(** Drawing the key seed. *)
Lemma send_keys_unsampled H p st (t : tape) :
  st_inv H p (KeysUnsampled st) -> (64 <= length t)%nat ->
  exists H' t' sd, v1_send (KeysUnsampled st, t) = ((KeysUnsampled st, t'), Ok sd) /\ sent H H' p (KeysUnsampled st) sd.
Proof.
  intros (H1 & Hc & Hf & Hp & Ha & Hn) Ht. cbn [v1_epoch] in *. set (e := uku_epoch (cku_uc st)) in *.
  set (s := take 64 t). set (H' := mkHist (<[e := s]> (ks H)) (ms H)).
  assert (hext p H H') as Hx.
  { split_and!; cbn; [split; cbn; [by apply insert_subseteq|done]| |done].
    intros i Hi. rewrite lookup_insert_ne; [done|]. intros <-. congruence. }
  assert (future H' p e) as Hf'.
  { intros i Hi. destruct (Hf i Hi) as [F1 F2]. split; [|done]. cbn. rewrite lookup_insert_ne by lia. done. }
  pose proof (proj1 Hx) as Hle. assert (has_key H' e s) as Hs by apply lookup_insert_eq.
  pose proof (auth_at_mono H H' e Hle Hc H1) as Hau.
  destruct (payloads_ok H' e s []) as [Hpl _].
  destruct (first_chunk_ok _ Hpl) as (enc & idx & Ef & Hi & Henc).
  exists H', (drop 64 t). eexists. split.
  - assert (sendHeader (cku_uc st) t = (drop 64 t, Ok (mkUHeaderSent e (auth_at H' e) (kem_ek s) (kem_dk s), kem_hdr s,
      macHdr (auth_at H' e) e (kem_hdr s)))) as Es.
    { unfold sendHeader. unfold mbind, st_bind. rewrite mlkemGenerateKeys_ok, decide_False by lia. by rewrite Ha, <- Hau. }
    unfold v1_send, keysUnsampled_sendHdrChunk. rewrite (st_bind_run _ _ _ _ _ Es). cbv iota beta.
    fold (hdr_payload H' e s). rewrite (st_bind_lift _ _ _ _ Ef). cbn. reflexivity.
  - assert (complete H' e) as Hc' by by eapply complete_mono. split; cbn [send_msg send_key send_state].
    + done.
    + do 4 (split; [done|]). exists s. by split_and!.
    + split; [done|]. split; [done|]. exists s. split; [done|]. by exists idx.
    + done.
    + by left.
    + done.
    + discriminate.
Qed.

(** Drawing the encapsulation seed. *)
Lemma send_header_received H p st (t : tape) :
  st_inv H p (HeaderReceived st) -> (32 <= length t)%nat ->
  exists H' old t' sd, v1_send (HeaderReceived st, t) = ((old, t'), Ok sd) /\ sent H H' p (HeaderReceived st) sd.
Proof.
  intros (H1 & Hc & Hf & Hp & s & Hs & Ha & Hh & Hn & Hd) Ht. cbn [v1_epoch] in *. set (e := uhr_epoch (chr_uc st)) in *.
  set (m := take 32 t). set (H' := mkHist (ks H) (<[e := m]> (ms H))).
  assert (len m = 32) as Hm by (unfold m, len; rewrite length_take; lia).
  assert (hext p H H') as Hx.
  { split_and!; cbn; [split; cbn; [done|by apply insert_subseteq]|done|].
    intros i Hi. rewrite lookup_insert_ne; [done|]. intros <-. congruence. }
  assert (future H' p e) as Hf'.
  { intros i Hi. destruct (Hf i Hi) as [F1 F2]. split; [done|]. cbn. rewrite lookup_insert_ne by lia. done. }
  pose proof (proj1 Hx) as Hle.
  assert (has_seeds H' e s m) as Hsm by (split_and!; [done|apply lookup_insert_eq|done]).
  pose proof (auth_at_mono H H' e Hle Hc H1) as Hau.
  assert (key_of H' e = get_ok [] (deriveSckaKey e (kem_ss s m))) as Hkey.
  { destruct Hsm as (E1 & E2 & _). unfold key_of, kseed, mseed. by rewrite E1, E2. }
  destruct (payloads_ok H' e s m) as (_ & _ & Hpl & _).
  destruct (first_chunk_ok _ Hpl) as (enc & idx & Ef & Hi & Henc).
  exists H'. do 3 eexists. split.
  - unfold v1_send, headerReceived_sendCt1Chunk.
    assert (sendCt1 (chr_uc st, t) = ((mkUHeaderReceived e (auth_at H' (e + 1)) (kem_hdr s), drop 32 t),
      Ok (mkUCt1Sent e (auth_at H' (e + 1)) (kem_hdr s) (kem_state s m) (kem_ct1 s m), kem_ct1 s m, mkSecret e (key_of H' e)))) as ->.
    { unfold sendCt1. rewrite (st_bind_run _ _ _ (chr_uc st, t) (chr_uc st)) by done.
      rewrite (st_bind_run _ _ _ (chr_uc st, drop 32 t) (kem_ct1 s m, kem_state s m, kem_ss s m)).
      2:{ unfold st_snd. by rewrite Hh, mlkemEncaps1_ok, decide_False by lia. }
      fold e. rewrite (st_bind_lift _ _ _ _ (deriveSckaKey_ok e (kem_ss s m))), <- Hkey.
      rewrite (st_bind_run _ _ _ (mkUHeaderReceived e (auth_at H' (e + 1)) (kem_hdr s), drop 32 t) tt).
      2:{ unfold st_fst, st_auth. rewrite Ha, <- Hau, update_ok, <- auth_at_succ by done. unfold set_uhr_auth. by rewrite Hh. }
      done. }
    cbv iota beta. cbn [mbind res_bind]. rewrite Ef. cbn. reflexivity.
  - assert (complete H' e) as Hc' by by eapply complete_mono. split; cbn [send_msg send_key send_state].
    + done.
    + do 4 (split; [done|]). by exists s, m.
    + split; [done|]. split; [done|]. exists s, m. split; [done|]. by exists idx.
    + done.
    + right. cbn. fold e. split; [done|lia].
    + done.
    + discriminate.
Qed.

(** Take the next chunk of the encoder of a state. *)
Ltac send_next H Hpl Henc :=
  let enc := fresh "enc" in let idx := fresh "idx" in let En := fresh "En" in
  destruct (next_for _ _ Hpl Henc) as (enc & idx & En & Hi & Henc');
  exists H; do 3 eexists;
  split; [unfold v1_send, v1_case, keysSampled_sendHdrChunk, headerSent_sendEkChunk, ct1Received_sendEkChunk,
            ct1Sampled_sendCt1Chunk, ekReceivedCt1Sampled_sendCt1Chunk, ct2Sampled_sendCt2Chunk;
          unfold mbind at 1, st_bind at 1; rewrite En; cbn; reflexivity|].

(** Every [send] succeeds, unless it has to draw a seed and the randomness runs
    out. *)
Lemma v1_send_inv H p st (t : tape) :
  st_inv H p st ->
  (exists H' old t' sd, v1_send (st, t) = ((old, t'), Ok sd) /\ sent H H' p st sd) \/
  (length t < 64)%nat /\ is_ok (snd (v1_send (st, t))) = false.
Proof.
  intros Hst. destruct st as [st|st|st|st|st|st|st|st|st|st|st].
  - destruct (decide (64 <= length t)%nat) as [Ht|Ht]; [left|right].
    { destruct (send_keys_unsampled H p st t Hst Ht) as (H' & t' & sd & E & Hsd). by exists H', (KeysUnsampled st), t', sd. }
    split; [lia|]. unfold v1_send, keysUnsampled_sendHdrChunk, sendHeader. unfold mbind, st_bind.
    by rewrite mlkemGenerateKeys_ok, decide_True by lia.
  - left. pose proof Hst as (H1 & Hc & Hf & Hp & s & Hs & Ha & Hek & Hdk & Henc). cbn [v1_epoch] in *.
    destruct (payloads_ok H (uhs_epoch (cks_uc st)) s []) as [Hpl _].
    send_next H Hpl Henc. apply (sent_chunk H p (KeysSampled st)); try done.
    + do 4 (split; [done|]). by exists s.
    + split; [done|]. split; [done|]. exists s. split; [done|]. by exists idx.
  - left. pose proof Hst as (H1 & Hc & Hf & Hp & s & m & Hs & Ha & Hdk & Henc & Hdec). cbn [v1_epoch] in *.
    destruct (payloads_ok H 0 s m) as (_ & Hpl & _).
    send_next H Hpl Henc. apply (sent_chunk H p (HeaderSent st)); try done.
    + do 4 (split; [done|]). by exists s, m.
    + split; [done|]. split; [done|]. exists s. split; [apply Hs|]. by exists idx.
  - left. pose proof Hst as (H1 & Hc & Hf & Hp & s & m & Hs & Ha & Hdk & Hct & Henc). cbn [v1_epoch] in *.
    destruct (payloads_ok H 0 s m) as (_ & Hpl & _).
    send_next H Hpl Henc. apply (sent_chunk H p (Ct1Received st)); try done.
    + do 4 (split; [done|]). by exists s, m.
    + split; [done|]. split; [done|]. exists s. split; [apply Hs|]. by exists idx.
  - left. exists H. do 3 eexists. split; [reflexivity|]. apply (sent_quiet H p (EkSentCt1Received st)); auto.
  - left. exists H. do 3 eexists. split; [reflexivity|]. apply (sent_quiet H p (NoHeaderReceived st)); auto.
  - destruct (decide (32 <= length t)%nat) as [Ht|Ht]; [left; by apply send_header_received|right].
    split; [lia|]. pose proof Hst as (_ & _ & _ & _ & s & _ & _ & Hh & _).
    unfold v1_send, headerReceived_sendCt1Chunk, sendCt1. rewrite (st_bind_run _ _ _ (chr_uc st, t) (chr_uc st)) by done.
    unfold mbind, st_bind, st_snd. by rewrite Hh, mlkemEncaps1_ok, decide_True by lia.
  - left. pose proof Hst as (H1 & Hc & Hf & Hp & s & m & Hs & Huc & Henc & Hdec). cbn [v1_epoch] in *.
    destruct (payloads_ok H 0 s m) as (_ & _ & Hpl & _).
    send_next H Hpl Henc. apply (sent_chunk H p (Ct1Sampled st)); try done.
    + do 4 (split; [done|]). by exists s, m.
    + split; [done|]. split; [done|]. exists s, m. split; [done|]. by exists idx.
  - left. pose proof Hst as (H1 & Hc & Hf & Hp & s & m & Hs & Huc & Henc). cbn [v1_epoch] in *.
    destruct (payloads_ok H 0 s m) as (_ & _ & Hpl & _).
    send_next H Hpl Henc. apply (sent_chunk H p (EkReceivedCt1Sampled st)); try done.
    + do 4 (split; [done|]). by exists s, m.
    + split; [done|]. split; [done|]. exists s, m. split; [done|]. by exists idx.
  - left. exists H. do 3 eexists. split; [reflexivity|]. apply (sent_quiet H p (Ct1Acknowledged st)); auto.
  - left. pose proof Hst as (H1 & Hc & Hf & Hp & s & m & Hs & Huc & Henc). cbn [v1_epoch] in *.
    destruct (payloads_ok H (uc2_epoch (cs2_uc st)) s m) as (_ & _ & _ & Hpl).
    send_next H Hpl Henc. apply (sent_chunk H p (Ct2Sampled st)); try done.
    + do 4 (split; [done|]). by exists s, m.
    + split; [done|]. split; [done|]. exists s, m. split; [done|]. by exists idx.
Qed.

(** ** Receiving *)

Record received_ok (H : hist) (p : bool) (m : v1Message) (st : v1States) (rv : v1Recv) : Prop := {
  rc_inv : st_inv H p (recv_state rv);
  rc_key : reports H st (recv_state rv) (recv_key rv);
  rc_epoch :
    (v1_epoch (recv_state rv) = v1_epoch st /\ (is_ct2 st = true -> is_ct2 (recv_state rv) = true)) \/
    (v1_epoch (recv_state rv) = v1_epoch st + 1 /\
     (is_ct2 st = true /\ msg_epoch m = v1_epoch st + 1 \/ waits_ct2 st = true));
  rc_wait : waits_ct2 (recv_state rv) = true -> v1_epoch (recv_state rv) = v1_epoch st /\
    (waits_ct2 st = true \/ kind (payload m) = MessageTypeCt2 /\ msg_epoch m = v1_epoch st)
}.

Lemma recv_stay H p m st : st_inv H p st -> received_ok H p m st (mkRecv None st).
Proof. intros Hst. split; cbn [recv_state recv_key]; [done|by left|by left|by auto]. Qed.

(** A step within the epoch that reports no secret. *)
Lemma recv_move H p m st st' :
  st_inv H p st' -> v1_epoch st' = v1_epoch st -> emitted st' = emitted st -> is_ct2 st = false ->
  (waits_ct2 st' = true -> waits_ct2 st = true \/ kind (payload m) = MessageTypeCt2 /\ msg_epoch m = v1_epoch st) ->
  received_ok H p m st (mkRecv None st').
Proof.
  intros Hst He Hem Hc Hw. split; cbn [recv_state recv_key]; [done|by left| |by auto].
  left. split; [done|]. rewrite Hc. discriminate.
Qed.

Lemma has_seeds_key H e s m s' : has_seeds H e s m -> has_key H e s' -> s' = s.
Proof. intros (H1 & _) H2. unfold has_key in H2. congruence. Qed.

Lemma has_seeds_eq H e s m s' m' : has_seeds H e s m -> has_seeds H e s' m' -> s' = s /\ m' = m.
Proof. intros (H1 & H2 & _) (H3 & H4 & _). split; congruence. Qed.

Lemma start_ct2_ok H e s m :
  len m = 32 ->
  exists enc, start_ct2 (mkUCt1SentEkReceived e (auth_at H (e + 1)) (kem_state s m) (kem_ek s) (kem_ct1 s m)) =
    Ok (Ct2Sampled (mkCt2Sampled (mkUCt2Sent e (auth_at H (e + 1))) enc)) /\ enc_for (ct2_payload H e s m) enc.
Proof.
  intros Hm. destruct (payloads_ok H e s m) as (_ & _ & _ & Hp). destruct (encoder_for _ Hp) as (enc & E & Hok).
  exists enc. split; [|done]. unfold start_ct2, sendCt2. cbn [uce_ek uce_encaps uce_ct1 uce_auth uce_epoch].
  rewrite mlkemEncaps2_ok by done. cbn [mbind res_bind mret res_ret]. fold (ct2_payload H e s m). by rewrite E.
Qed.

Lemma recvEk_ok H e s m :
  recvEk (mkUCt1Sent e (auth_at H (e + 1)) (kem_hdr s) (kem_state s m) (kem_ct1 s m)) e (kem_ek s) =
  Ok (mkUCt1SentEkReceived e (auth_at H (e + 1)) (kem_state s m) (kem_ek s) (kem_ct1 s m)).
Proof. unfold recvEk. cbn [uc1_epoch uc1_hdr uc1_auth uc1_encaps uc1_ct1]. by rewrite Z.eqb_refl, mlkemEKMatchesHeader_ok. Qed.

(** The payloads split where the code cuts them. *)
Lemma hdr_payload_split H e s :
  slice (hdr_payload H e s) 0 64 = Ok (kem_hdr s) /\
  slice (hdr_payload H e s) 64 (len (hdr_payload H e s)) = Ok (macHdr (auth_at H e) e (kem_hdr s)).
Proof.
  destruct (kem_sizes s []) as (_ & Hh & _). unfold hdr_payload. rewrite <- Hh. split; [apply slice_prefix|apply slice_suffix].
Qed.

Lemma ct2_payload_split H e s m :
  slice (ct2_payload H e s m) 0 128 = Ok (kem_ct2 s m) /\
  slice (ct2_payload H e s m) 128 (len (ct2_payload H e s m)) =
    Ok (macCt (auth_at H (e + 1)) e (kem_ct1 s m ++ kem_ct2 s m)).
Proof.
  destruct (kem_sizes s m) as (_ & _ & _ & _ & _ & Hh & _). unfold ct2_payload. rewrite <- Hh.
  split; [apply slice_prefix|apply slice_suffix].
Qed.

Lemma recvHeader_ok H e s :
  recvHeader (mkUNoHeaderReceived e (auth_at H e)) e (kem_hdr s) (macHdr (auth_at H e) e (kem_hdr s)) =
  Ok (mkUHeaderReceived e (auth_at H e) (kem_hdr s)).
Proof.
  destruct (kem_sizes s []) as (_ & Hh & _). unfold recvHeader, verifyHdr. cbn [unh_epoch unh_auth]. rewrite Z.eqb_refl, Hh, macHdr_len.
  cbn. by rewrite bool_decide_true.
Qed.

Lemma recvCt2_ok H e s m :
  1 <= e < 2 ^ 63 -> has_seeds H e s m ->
  exists uc', recvCt2 (kem_ct2 s m) (macCt (auth_at H (e + 1)) e (kem_ct1 s m ++ kem_ct2 s m))
    (mkUEkSentCt1Received e (auth_at H e) (kem_dk s) (kem_ct1 s m)) =
    (uc', Ok (mkUNoHeaderReceived (e + 1) (auth_at H (e + 1)), mkSecret e (key_of H e))).
Proof.
  intros He (Hs & Hm & Hl). destruct (kem_sizes s m) as (_ & _ & _ & _ & _ & H2 & _).
  assert (key_of H e = get_ok [] (deriveSckaKey e (kem_ss s m))) as Hkey by (unfold key_of, kseed, mseed; by rewrite Hs, Hm).
  set (uc := mkUEkSentCt1Received _ _ _ _). set (mac := macCt _ _ _).
  eexists. unfold recvCt2. rewrite (st_bind_run _ _ _ uc uc) by done.
  rewrite st_bind_check by (by rewrite H2). rewrite st_bind_check by (unfold mac; by rewrite macCt_len).
  change (uec_dk uc) with (kem_dk s). change (uec_ct1 uc) with (kem_ct1 s m). change (uec_epoch uc) with e.
  rewrite (st_bind_lift _ _ _ _ (mlkemDecaps_ok s m Hl)). rewrite (st_bind_lift _ _ _ _ (deriveSckaKey_ok e (kem_ss s m))).
  rewrite (st_bind_run _ _ _ (set_uec_auth (auth_at H (e + 1)) uc) tt).
  2:{ unfold st_auth. cbn [uec_auth uec_epoch uc]. rewrite <- Hkey, update_ok, <- auth_at_succ by lia. done. }
  rewrite (st_bind_run _ _ _ (set_uec_auth (auth_at H (e + 1)) uc) (set_uec_auth (auth_at H (e + 1)) uc)) by done.
  rewrite (st_bind_lift _ _ _ tt).
  2:{ unfold verifyCt. cbn [set_uec_auth uec_auth uec_epoch uec_ct1 uc]. fold mac.
      assert (len mac = 32) as -> by apply macCt_len. cbn. by rewrite bool_decide_true. }
  unfold mret, st_ret. cbn [set_uec_auth uec_auth uec_epoch uc]. rewrite u64_id by (unfold is_u64; lia). by rewrite Hkey.
Qed.

(** The first chunk of a payload into a fresh decoder. *)
Lemma fresh_add n msg c :
  payload_ok msg -> len msg = n -> chunk_for msg c ->
  exists d, newPolyDecoder n = Ok d /\ dec_for msg (addChunk d c).
Proof.
  intros Hp <- (idx & Hi & ->). destruct (newPolyDecoder_ok msg (payload_valid _ Hp)) as (d & E & _).
  exists d. split; [done|]. apply dec_for_add; [by apply dec_for_fresh|done].
Qed.

Lemma dec_for_chunk msg d c : dec_for msg d -> chunk_for msg c -> dec_for msg (addChunk d c).
Proof. intros Hd (idx & Hi & ->). by apply dec_for_add. Qed.

(** Splits on whether the decoder of a payload is full. *)
Ltac decode Hpl Hdec :=
  let E := fresh "Edec" in
  destruct (dec_for_decoded _ _ Hpl Hdec) as [E|E]; rewrite E; cbn [mbind res_bind mret res_ret].

(** The reaction to a message of the current epoch, all states together. *)
Definition recv_current (msg : v1Message) (s : v1States) : v1States * res v1Recv :=
  let stay := SpqrV1.stay s in
  match s, kind (payload msg), pl_chunk (payload msg) with
  | KeysSampled st, MessageTypeCt1, Some c =>
      (s, next ← keysSampled_recvCt1Chunk st c; mret (mkRecv None (HeaderSent next)))
  | HeaderSent st, MessageTypeCt1, Some c =>
      no_key HeaderSent (headerSent_recvCt1Chunk (msg_epoch msg) c st)
  | Ct1Received st, MessageTypeCt2, Some c =>
      (s, next ← ct1Received_recvCt2Chunk st c; mret (mkRecv None (EkSentCt1Received next)))
  | EkSentCt1Received st, MessageTypeCt2, Some c =>
      let '(st, r) := ekSentCt1Received_recvCt2Chunk c st in
      (EkSentCt1Received st, '(next, key) ← r; mret (mkRecv key next))
  | NoHeaderReceived st, MessageTypeHdr, Some c =>
      no_key NoHeaderReceived (noHeaderReceived_recvHdrChunk (msg_epoch msg) c st)
  | Ct1Sampled st, MessageTypeEk, Some c =>
      no_key Ct1Sampled (ct1Sampled_recvEkChunk (msg_epoch msg) c false st)
  | Ct1Sampled st, MessageTypeEkCt1Ack, Some c =>
      no_key Ct1Sampled (ct1Sampled_recvEkChunk (msg_epoch msg) c true st)
  | EkReceivedCt1Sampled st, (MessageTypeCt1Ack | MessageTypeEkCt1Ack), _ =>
      (s, next ← recvCt1Ack st; mret (mkRecv None next))
  | Ct1Acknowledged st, (MessageTypeEk | MessageTypeEkCt1Ack), Some c =>
      no_key Ct1Acknowledged (ct1Acknowledged_recvEkChunk (msg_epoch msg) c st)
  | _, _, _ => stay
  end.

Lemma v1_recv_eq msg s :
  v1_recv msg s =
    if msg_epoch msg >? v1_epoch s then
      match s with
      | Ct2Sampled st =>
          if msg_epoch msg =? u64 (v1_epoch s + 1)
          then (s, next ← recvNextEpoch st (msg_epoch msg); mret (mkRecv None next))
          else (s, Err SpqrErrEpochOutOfRange)
      | _ => (s, Err SpqrErrEpochOutOfRange)
      end
    else if msg_epoch msg <? v1_epoch s then SpqrV1.stay s
    else recv_current msg s.
Proof.
  destruct s; cbn [v1_recv recv_current];
    unfold keysUnsampled_recv, keysSampled_recv, headerSent_recv, ct1Received_recv, ekSentCt1Received_recv,
      noHeaderReceived_recv, headerReceived_recv, ct1Sampled_recv, ekReceivedCt1Sampled_recv, ct1Acknowledged_recv,
      ct2Sampled_recv, epoch_switch, SpqrV1.stay;
    case_match; try done; case_match; try done; by destruct (kind (payload msg)), (pl_chunk (payload msg)).
Qed.

Section recv_current.
Context (H : hist) (p : bool) (m : v1Message).
Context (Hm : msg_inv H m).

(** The chunk of the message, for each kind. *)
Lemma msg_hdr c : kind (payload m) = MessageTypeHdr -> pl_chunk (payload m) = Some c ->
  exists s, has_key H (msg_epoch m) s /\ chunk_for (hdr_payload H (msg_epoch m) s) c.
Proof. intros Hk Hc. destruct Hm as (_ & _ & Hx). by rewrite Hk, Hc in Hx. Qed.

Lemma msg_ek c : (kind (payload m) = MessageTypeEk \/ kind (payload m) = MessageTypeEkCt1Ack) ->
  pl_chunk (payload m) = Some c -> exists s, has_key H (msg_epoch m) s /\ chunk_for (kem_ek s) c.
Proof. intros Hk Hc. destruct Hm as (_ & _ & Hx). destruct Hk as [Hk|Hk]; by rewrite Hk, Hc in Hx. Qed.

Lemma msg_ct1 c : kind (payload m) = MessageTypeCt1 -> pl_chunk (payload m) = Some c ->
  exists s r, has_seeds H (msg_epoch m) s r /\ chunk_for (kem_ct1 s r) c.
Proof. intros Hk Hc. destruct Hm as (_ & _ & Hx). by rewrite Hk, Hc in Hx. Qed.

Lemma msg_ct2 c : kind (payload m) = MessageTypeCt2 -> pl_chunk (payload m) = Some c ->
  exists s r, has_seeds H (msg_epoch m) s r /\ chunk_for (ct2_payload H (msg_epoch m) s r) c.
Proof. intros Hk Hc. destruct Hm as (_ & _ & Hx). by rewrite Hk, Hc in Hx. Qed.

Lemma recv_keys_sampled st c :
  st_inv H p (KeysSampled st) -> msg_epoch m = v1_epoch (KeysSampled st) ->
  kind (payload m) = MessageTypeCt1 -> pl_chunk (payload m) = Some c ->
  exists next, keysSampled_recvCt1Chunk st c = Ok next /\ received_ok H p m (KeysSampled st) (mkRecv None (HeaderSent next)).
Proof.
  intros (H1 & Hc & Hf & Hp & s & Hs & Ha & Hek & Hdk & Henc) He Hk Hch. destruct (msg_ct1 c Hk Hch) as (s' & r & Hsr & Hcf).
  rewrite He in Hsr. rewrite (has_seeds_key _ _ _ _ _ Hsr Hs) in *. clear Hs.
  destruct (payloads_len H 0 s' r) as (_ & _ & Hl1 & _). destruct (payloads_ok H 0 s' r) as (_ & Hp2 & Hp3 & _).
  destruct (fresh_add 960 _ c Hp3 Hl1 Hcf) as (d & Ed & Hd). destruct (encoder_for _ Hp2) as (enc & Ee & Hok).
  eexists. split.
  - unfold keysSampled_recvCt1Chunk, mlkemCiphertext1Size. rewrite Ed. cbn [mbind res_bind sendEk].
    rewrite Hek, Ee. cbn. reflexivity.
  - apply recv_move; try done. do 4 (split; [done|]). by exists s', r.
Qed.

Lemma recv_header_sent st c :
  st_inv H p (HeaderSent st) -> msg_epoch m = v1_epoch (HeaderSent st) ->
  kind (payload m) = MessageTypeCt1 -> pl_chunk (payload m) = Some c ->
  exists old rv, no_key HeaderSent (headerSent_recvCt1Chunk (msg_epoch m) c st) = (old, Ok rv) /\ received_ok H p m (HeaderSent st) rv.
Proof.
  intros (H1 & Hc & Hf & Hp & s & r & Hs & Ha & Hdk & Henc & Hdec) He Hk Hch. destruct (msg_ct1 c Hk Hch) as (s' & r' & Hsr & Hcf).
  rewrite He in Hsr. destruct (has_seeds_eq _ _ _ _ _ _ Hs Hsr) as [-> ->]. clear Hsr.
  destruct (payloads_ok H 0 s r) as (_ & _ & Hpl & _). pose proof (dec_for_chunk _ _ _ Hdec Hcf) as Hd.
  unfold headerSent_recvCt1Chunk, no_key. cbn [receivingCt1 chs_uc chs_sendingEk]. decode Hpl Hd.
  - do 2 eexists. split; [reflexivity|]. apply recv_move; try done. do 4 (split; [done|]). by exists s, r.
  - do 2 eexists. split; [reflexivity|]. unfold recvCt1. rewrite He, Z.eqb_refl. cbn [negb].
    apply recv_move; try done. do 4 (split; [done|]). by exists s, r.
Qed.

Lemma recv_ct1_received st c :
  st_inv H p (Ct1Received st) -> msg_epoch m = v1_epoch (Ct1Received st) ->
  kind (payload m) = MessageTypeCt2 -> pl_chunk (payload m) = Some c ->
  exists next, ct1Received_recvCt2Chunk st c = Ok next /\
    received_ok H p m (Ct1Received st) (mkRecv None (EkSentCt1Received next)).
Proof.
  intros (H1 & Hc & Hf & Hp & s & r & Hs & Ha & Hdk & Hct & Henc) He Hk Hch. destruct (msg_ct2 c Hk Hch) as (s' & r' & Hsr & Hcf).
  rewrite He in Hsr, Hcf. destruct (has_seeds_eq _ _ _ _ _ _ Hs Hsr) as [-> ->]. clear Hsr.
  destruct (payloads_len H (v1_epoch (Ct1Received st)) s r) as (_ & _ & _ & Hl).
  destruct (payloads_ok H (v1_epoch (Ct1Received st)) s r) as (_ & _ & _ & Hpl).
  destruct (fresh_add 160 _ c Hpl Hl Hcf) as (d & Ed & Hd).
  eexists. split.
  - unfold ct1Received_recvCt2Chunk. change (mlkemCiphertext2Size + authenticatorMacSize) with 160. rewrite Ed. reflexivity.
  - apply recv_move; try done; [|by right]. do 4 (split; [done|]). by exists s, r.
Qed.

Lemma recv_ek_sent_ct1_received st c :
  st_inv H p (EkSentCt1Received st) -> msg_epoch m = v1_epoch (EkSentCt1Received st) -> msg_epoch m < 2 ^ 63 ->
  kind (payload m) = MessageTypeCt2 -> pl_chunk (payload m) = Some c ->
  exists old next key, ekSentCt1Received_recvCt2Chunk c st = (old, Ok (next, key)) /\
    received_ok H p m (EkSentCt1Received st) (mkRecv key next).
Proof.
  intros (H1 & Hc & Hf & Hp & s & r & Hs & Ha & Hdk & Hct & Hdec) He Hb Hk Hch. destruct (msg_ct2 c Hk Hch) as (s' & r' & Hsr & Hcf).
  rewrite He in Hsr, Hcf, Hb. destruct (has_seeds_eq _ _ _ _ _ _ Hs Hsr) as [-> ->]. clear Hsr. cbn [v1_epoch] in *.
  destruct st as [[e a dk ct] d]. cbn [cec_uc uec_epoch uec_auth uec_dk uec_ct1 receivingCt2] in *. subst a dk ct.
  destruct (payloads_len H e s r) as (_ & _ & _ & Hl). destruct (payloads_ok H e s r) as (_ & _ & _ & Hpl).
  pose proof (dec_for_chunk _ _ _ Hdec Hcf) as Hd.
  unfold ekSentCt1Received_recvCt2Chunk. cbn [receivingCt2 cec_uc]. decode Hpl Hd.
  - do 3 eexists. split; [reflexivity|]. apply recv_move; try done; [|by left]. do 4 (split; [done|]). by exists s, r.
  - rewrite Hl. change (160 <? mlkemCiphertext2Size + authenticatorMacSize) with false. cbv iota.
    destruct (ct2_payload_split H e s r) as [S1 S2]. rewrite Hl in S2. unfold mlkemCiphertext2Size. rewrite S1, S2.
    destruct (recvCt2_ok H e s r) as (uc' & Eu); [lia|done|]. rewrite Eu.
    destruct (decoder_exists 96) as [d' Ed']; [done|].
    change (mlkemHeaderSize + authenticatorMacSize) with 96. cbn [mbind res_bind]. rewrite Ed'. cbn [mbind res_bind mret res_ret].
    do 3 eexists. split; [reflexivity|]. split; cbn [recv_state recv_key v1_epoch cnh_uc unh_epoch emitted waits_ct2].
    + split; [cbn; lia|]. split; [by eapply has_seeds_complete|]. split; [intros i Hi; apply Hf; cbn in *; lia|].
      cbn [v1_epoch cnh_uc unh_epoch unh_auth]. rewrite ek_turn_succ, Hp. split; [done|]. split; [done|]. split; [|by left].
      apply (Hf (e + 1)); [lia|]. by rewrite ek_turn_succ, Hp.
    + right. cbn [emitted v1_epoch cnh_uc unh_epoch]. rewrite Z.add_simpl_r. split; [done|cbn; lia].
    + right. cbn. auto.
    + discriminate.
Qed.

Lemma recv_no_header st c :
  st_inv H p (NoHeaderReceived st) -> msg_epoch m = v1_epoch (NoHeaderReceived st) ->
  kind (payload m) = MessageTypeHdr -> pl_chunk (payload m) = Some c ->
  exists old rv, no_key NoHeaderReceived (noHeaderReceived_recvHdrChunk (msg_epoch m) c st) = (old, Ok rv) /\
    received_ok H p m (NoHeaderReceived st) rv.
Proof.
  intros (H1 & Hc & Hf & Hp & Ha & Hn & Hdec) He Hk Hch. destruct (msg_hdr c Hk Hch) as (s & Hs & Hcf).
  rewrite He in *. destruct st as [[e a] d]. cbn [v1_epoch cnh_uc unh_epoch unh_auth receivingHdr] in *. subst a.
  destruct (payloads_len H e s []) as (Hl & Hl2 & _). destruct (payloads_ok H e s []) as (Hpl & Hpl2 & _).
  assert (dec_for (hdr_payload H e s) (addChunk d c)) as Hd.
  { apply dec_for_chunk; [|done]. destruct Hdec as [Hd|(s' & Hs' & Hd)].
    - apply dec_for_fresh; [done|]. by rewrite Hl.
    - unfold has_key in *. by replace s with s' by congruence. }
  unfold noHeaderReceived_recvHdrChunk, no_key. cbn [receivingHdr cnh_uc]. decode Hpl Hd.
  - do 2 eexists. split; [reflexivity|]. apply recv_move; try done.
    do 4 (split; [done|]). split_and!; try done. right. by exists s.
  - rewrite Hl. change (96 <? mlkemHeaderSize + authenticatorMacSize) with false. cbn [check].
    destruct (hdr_payload_split H e s) as [S1 S2]. rewrite Hl in S2. unfold mlkemHeaderSize. rewrite S1, S2.
    cbn [mbind res_bind]. rewrite recvHeader_ok. destruct (decoder_exists 1152) as [d' Ed']; [done|].
    unfold mlkemEncapsulationKeySize. cbn [mbind res_bind]. rewrite Ed'.
    do 2 eexists. split; [reflexivity|]. apply recv_move; try done. do 4 (split; [done|]). exists s. split_and!; try done.
    apply dec_for_fresh; [done|]. by rewrite Hl2.
Qed.

(** The encapsulation key arrives at the ciphertext side. *)
Lemma recv_ct1_sampled st c b :
  st_inv H p (Ct1Sampled st) -> msg_epoch m = v1_epoch (Ct1Sampled st) ->
  (kind (payload m) = MessageTypeEk \/ kind (payload m) = MessageTypeEkCt1Ack) -> pl_chunk (payload m) = Some c ->
  exists old rv, no_key Ct1Sampled (ct1Sampled_recvEkChunk (msg_epoch m) c b st) = (old, Ok rv) /\
    received_ok H p m (Ct1Sampled st) rv.
Proof.
  intros (H1 & Hc & Hf & Hp & s & r & Hs & Huc & Henc & Hdec) He Hk Hch. destruct (msg_ek c Hk Hch) as (s' & Hs' & Hcf).
  rewrite He in *. rewrite (has_seeds_key _ _ _ _ _ Hs Hs') in *. clear Hs'.
  destruct st as [[e a h es ct] enc d]. cbn [v1_epoch cs1_uc cs1_sendingCt1 cs1_receivingEk uc1_epoch] in *. injection Huc as -> -> -> ->.
  destruct (payloads_ok H e s r) as (_ & Hpl & _). pose proof (dec_for_chunk _ _ _ Hdec Hcf) as Hd.
  unfold ct1Sampled_recvEkChunk, no_key. cbn [cs1_receivingEk cs1_uc cs1_sendingCt1]. decode Hpl Hd.
  - destruct b; (do 2 eexists; split; [reflexivity|]; apply recv_move; try done;
      do 4 (split; [done|]); by exists s, r).
  - rewrite recvEk_ok. cbn [mbind res_bind]. destruct b.
    + destruct (start_ct2_ok H e s r) as (enc2 & -> & Hok); [apply Hs|].
      do 2 eexists. split; [reflexivity|]. apply recv_move; try done. do 4 (split; [done|]). by exists s, r.
    + do 2 eexists. split; [reflexivity|]. apply recv_move; try done. do 4 (split; [done|]). by exists s, r.
Qed.

Lemma recv_ct1_acknowledged st c :
  st_inv H p (Ct1Acknowledged st) -> msg_epoch m = v1_epoch (Ct1Acknowledged st) ->
  (kind (payload m) = MessageTypeEk \/ kind (payload m) = MessageTypeEkCt1Ack) -> pl_chunk (payload m) = Some c ->
  exists old rv, no_key Ct1Acknowledged (ct1Acknowledged_recvEkChunk (msg_epoch m) c st) = (old, Ok rv) /\
    received_ok H p m (Ct1Acknowledged st) rv.
Proof.
  intros (H1 & Hc & Hf & Hp & s & r & Hs & Huc & Hdec) He Hk Hch. destruct (msg_ek c Hk Hch) as (s' & Hs' & Hcf).
  rewrite He in *. rewrite (has_seeds_key _ _ _ _ _ Hs Hs') in *. clear Hs'.
  destruct st as [[e a h es ct] d]. cbn [v1_epoch cca_uc cca_receivingEk uc1_epoch] in *. injection Huc as -> -> -> ->.
  destruct (payloads_ok H e s r) as (_ & Hpl & _). pose proof (dec_for_chunk _ _ _ Hdec Hcf) as Hd.
  unfold ct1Acknowledged_recvEkChunk, no_key. cbn [cca_receivingEk cca_uc]. decode Hpl Hd.
  - do 2 eexists. split; [reflexivity|]. apply recv_move; try done. do 4 (split; [done|]). by exists s, r.
  - rewrite recvEk_ok. cbn [mbind res_bind]. destruct (start_ct2_ok H e s r) as (enc2 & -> & Hok); [apply Hs|].
    do 2 eexists. split; [reflexivity|]. apply recv_move; try done. do 4 (split; [done|]). by exists s, r.
Qed.

Lemma recv_ct1_ack st :
  st_inv H p (EkReceivedCt1Sampled st) ->
  exists next, recvCt1Ack st = Ok next /\ received_ok H p m (EkReceivedCt1Sampled st) (mkRecv None next).
Proof.
  intros (H1 & Hc & Hf & Hp & s & r & Hs & Huc & Henc). destruct st as [[e a es ek ct] enc].
  cbn [v1_epoch ces_uc ces_sendingCt1 uce_epoch] in *. injection Huc as -> -> -> ->.
  destruct (start_ct2_ok H e s r) as (enc2 & E & Hok); [apply Hs|]. unfold recvCt1Ack. cbn [ces_uc]. rewrite E.
  eexists. split; [reflexivity|]. apply recv_move; try done. do 4 (split; [done|]). by exists s, r.
Qed.

Lemma recv_next_epoch st :
  st_inv H p (Ct2Sampled st) -> msg_epoch m = v1_epoch (Ct2Sampled st) + 1 -> msg_epoch m < 2 ^ 63 ->
  exists next, recvNextEpoch st (msg_epoch m) = Ok next /\ received_ok H p m (Ct2Sampled st) (mkRecv None next).
Proof.
  intros (H1 & Hc & Hf & Hp & s & r & Hs & Huc & Henc) He Hb. destruct st as [[e a] enc].
  cbn [v1_epoch cs2_uc sendingCt2 uc2_epoch] in *. injection Huc as ->.
  unfold recvNextEpoch, recvNextEpoch_uc. cbn [cs2_uc uc2_epoch uc2_auth]. rewrite He, u64_id, Z.eqb_refl by (unfold is_u64; lia).
  eexists. split; [reflexivity|]. split; cbn [recv_state recv_key].
  - split; [cbn; lia|]. split; [by eapply has_seeds_complete|]. split; [intros i Hi; apply Hf; cbn in *; lia|].
    cbn [v1_epoch cku_uc uku_epoch uku_auth]. rewrite ek_turn_succ, Hp. split; [done|]. split; [done|].
    apply (Hf (e + 1)); [lia|]. by rewrite ek_turn_succ, Hp.
  - left. split; [done|]. cbn. lia.
  - right. split; [done|]. by left.
  - discriminate.
Qed.

Lemma recv_current_inv st :
  st_inv H p st -> msg_epoch m = v1_epoch st -> msg_epoch m < 2 ^ 63 ->
  exists old rv, recv_current m st = (old, Ok rv) /\ received_ok H p m st rv.
Proof.
  intros Hst He Hb. unfold recv_current.
  destruct st as [st|st|st|st|st|st|st|st|st|st|st], (kind (payload m)) eqn:Hk, (pl_chunk (payload m)) as [c|] eqn:Hch;
    try (do 2 eexists; split; [reflexivity|by apply recv_stay]).
  - destruct (recv_keys_sampled st c Hst He Hk Hch) as (next & -> & Hr). do 2 eexists. split; [reflexivity|done].
  - by apply recv_header_sent.
  - destruct (recv_ct1_received st c Hst He Hk Hch) as (next & -> & Hr). do 2 eexists. split; [reflexivity|done].
  - destruct (recv_ek_sent_ct1_received st c Hst He Hb Hk Hch) as (old & next & key & -> & Hr). do 2 eexists. split; [reflexivity|done].
  - by apply recv_no_header.
  - apply recv_ct1_sampled; auto.
  - apply recv_ct1_sampled; auto.
  - destruct (recv_ct1_ack st Hst) as (next & -> & Hr). do 2 eexists. split; [reflexivity|done].
  - destruct (recv_ct1_ack st Hst) as (next & -> & Hr). do 2 eexists. split; [reflexivity|done].
  - destruct (recv_ct1_ack st Hst) as (next & -> & Hr). do 2 eexists. split; [reflexivity|done].
  - destruct (recv_ct1_ack st Hst) as (next & -> & Hr). do 2 eexists. split; [reflexivity|done].
  - apply recv_ct1_acknowledged; auto.
  - apply recv_ct1_acknowledged; auto.
Qed.

(** Every [recv] of a message that is not ahead succeeds. *)
Lemma v1_recv_inv st :
  st_inv H p st -> msg_epoch m < 2 ^ 63 ->
  msg_epoch m <= v1_epoch st \/ (msg_epoch m = v1_epoch st + 1 /\ is_ct2 st = true) ->
  exists old rv, v1_recv m st = (old, Ok rv) /\ received_ok H p m st rv.
Proof.
  intros Hst Hb He. rewrite v1_recv_eq. destruct (Z.gtb_spec (msg_epoch m) (v1_epoch st)) as [Hgt|Hle].
  - destruct He as [|[He Hct]]; [lia|]. destruct st; try done. pose proof (proj1 Hst) as H1.
    rewrite u64_id by (unfold is_u64; lia). rewrite (proj2 (Z.eqb_eq _ _) He).
    destruct (recv_next_epoch st Hst He Hb) as (next & E & Hr). rewrite E. do 2 eexists. split; [reflexivity|done].
  - destruct (Z.ltb_spec (msg_epoch m) (v1_epoch st)).
    + do 2 eexists. split; [reflexivity|]. by apply recv_stay.
    + apply recv_current_inv; [done|lia|done].
Qed.

End recv_current.

(** ** Persistence *)

Lemma auth_next_wf e key a : auth_wf (auth_next e key a).
Proof.
  unfold auth_next, update. unfold mbind at 1, st_bind at 1, st_get.
  destruct (HKDF_ok (rootKey a ++ key) (replicate 32 Byte.x00) (authenticatorInfoUpdate ++ epochBytes e) 64)
    as (okm & Ho & Hl); [by unfold hkdfMaxLength|]. rewrite (st_bind_lift _ _ _ _ Ho).
  rewrite (st_bind_lift _ _ _ (take 32 okm)) by (rewrite slice_take; [done|lia]).
  rewrite (st_bind_lift _ _ _ (drop 32 okm)) by (rewrite slice_drop; [done|lia]).
  cbn [st_put fst]. unfold len in Hl. split; cbn [rootKey macKey]; unfold len; rewrite ?length_take, ?length_drop; lia.
Qed.

Lemma auth_at_wf H e : auth_wf (auth_at H e).
Proof. unfold auth_at. destruct (Z.to_nat (e - 1)); cbn [auth_n]; [apply (auth_next_wf 1)|apply auth_next_wf]. Qed.

(** Every state of the protocol can be persisted, *)
Lemma st_inv_wf H p st : st_inv H p st -> v1_epoch st < 2 ^ 64 -> v1_wf st.
Proof.
  intros (H1 & Hc & Hf & Hst) Hb. split; [unfold is_u64; lia|].
  destruct st as [st|st|st|st|st|st|st|st|st|st|st]; cbn [v1_epoch] in *.
  - destruct Hst as (_ & -> & _). apply auth_at_wf.
  - destruct Hst as (_ & s & _ & -> & -> & -> & He). destruct (payloads_len H (uhs_epoch (cks_uc st)) s []) as (L1 & L2 & _).
    destruct (payloads_ok H (uhs_epoch (cks_uc st)) s []) as (P1 & _). destruct (kem_sizes s []) as (_ & _ & _ & L3 & _).
    split_and!; [apply auth_at_wf|done|done|eapply enc_for_wf; [| |exact He]; done].
  - destruct Hst as (_ & s & m & _ & -> & -> & He & Hd). destruct (payloads_len H 0 s m) as (_ & L1 & L2 & _).
    destruct (payloads_ok H 0 s m) as (_ & P1 & P2 & _). destruct (kem_sizes s m) as (_ & _ & _ & L3 & _).
    split_and!; [apply auth_at_wf|done|eapply enc_for_wf; [| |exact He]; done|eapply dec_for_sized; [| |exact Hd]; done].
  - destruct Hst as (_ & s & m & _ & -> & -> & -> & He). destruct (payloads_len H 0 s m) as (_ & L1 & L2 & _).
    destruct (payloads_ok H 0 s m) as (_ & P1 & _). destruct (kem_sizes s m) as (_ & _ & _ & L3 & _).
    split_and!; [apply auth_at_wf|done|done|eapply enc_for_wf; [| |exact He]; done].
  - destruct Hst as (_ & s & m & _ & -> & -> & -> & Hd). destruct (payloads_len H (uec_epoch (cec_uc st)) s m) as (_ & _ & L2 & L4).
    destruct (payloads_ok H (uec_epoch (cec_uc st)) s m) as (_ & _ & _ & P4). destruct (kem_sizes s m) as (_ & _ & _ & L3 & _).
    split_and!; [apply auth_at_wf|done|done|eapply dec_for_sized; [| |exact Hd]; done].
  - destruct Hst as (_ & -> & _ & Hd). split; [apply auth_at_wf|]. destruct Hd as [Hd|(s & _ & Hd)]; [by apply fresh_sized|].
    destruct (payloads_len H (unh_epoch (cnh_uc st)) s []) as (L1 & _). destruct (payloads_ok H (unh_epoch (cnh_uc st)) s []) as (P1 & _).
    eapply dec_for_sized; [| |exact Hd]; done.
  - destruct Hst as (_ & s & _ & -> & -> & _ & Hd). destruct (payloads_len H 0 s []) as (_ & L1 & _).
    destruct (payloads_ok H 0 s []) as (_ & P1 & _). destruct (kem_sizes s []) as (_ & L3 & _).
    split_and!; [apply auth_at_wf|done|eapply dec_for_sized; [| |exact Hd]; done].
  - destruct Hst as (_ & s & m & _ & -> & He & Hd). destruct (payloads_len H 0 s m) as (_ & L1 & L2 & _).
    destruct (payloads_ok H 0 s m) as (_ & P1 & P2 & _). destruct (kem_sizes s m) as (_ & L3 & _).
    split_and!; [apply auth_at_wf|done|done|eapply enc_for_wf; [| |exact He]; done|eapply dec_for_sized; [| |exact Hd]; done].
  - destruct Hst as (_ & s & m & _ & -> & He). destruct (payloads_len H 0 s m) as (_ & L1 & L2 & _).
    destruct (payloads_ok H 0 s m) as (_ & _ & P2 & _). split_and!; [apply auth_at_wf|done|done|eapply enc_for_wf; [| |exact He]; done].
  - destruct Hst as (_ & s & m & _ & -> & Hd). destruct (payloads_len H 0 s m) as (_ & L1 & L2 & _).
    destruct (payloads_ok H 0 s m) as (_ & P1 & _). destruct (kem_sizes s m) as (_ & L3 & _).
    split_and!; [apply auth_at_wf|done|done|eapply dec_for_sized; [| |exact Hd]; done].
  - destruct Hst as (_ & s & m & _ & Huc & He). destruct (payloads_len H (uc2_epoch (cs2_uc st)) s m) as (_ & _ & _ & L4).
    destruct (payloads_ok H (uc2_epoch (cs2_uc st)) s m) as (_ & _ & _ & P4). split; [|eapply enc_for_wf; [| |exact He]; done].
    rewrite Huc. apply auth_at_wf.
Qed.

(** and what comes back is as good as what was stored. *)
Lemma st_inv_reset H p st : st_inv H p st -> st_inv H p (v1_reset st).
Proof.
  intros (H1 & Hc & Hf & Hst). destruct st as [st|st|st|st|st|st|st|st|st|st|st]; do 3 (split; [done|]);
    cbn [v1_reset v1_epoch cks_uc chs_uc ccr_uc cs1_uc ces_uc cs2_uc sendingHdr chs_sendingEk receivingCt1 ccr_sendingEk
         cs1_sendingCt1 cs1_receivingEk ces_sendingCt1 sendingCt2] in *; try done.
  - destruct Hst as (Hp & s & Hs & ? & ? & ? & He). split; [done|]. exists s. split_and!; try done. by apply enc_for_reset.
  - destruct Hst as (Hp & s & m & Hs & ? & ? & He & ?). split; [done|]. exists s, m. split_and!; try done. by apply enc_for_reset.
  - destruct Hst as (Hp & s & m & Hs & ? & ? & ? & He). split; [done|]. exists s, m. split_and!; try done. by apply enc_for_reset.
  - destruct Hst as (Hp & s & m & Hs & ? & He & ?). split; [done|]. exists s, m. split_and!; try done. by apply enc_for_reset.
  - destruct Hst as (Hp & s & m & Hs & ? & He). split; [done|]. exists s, m. split_and!; try done. by apply enc_for_reset.
  - destruct Hst as (Hp & s & m & Hs & ? & He). split; [done|]. exists s, m. split_and!; try done. by apply enc_for_reset.
Qed.

Lemma persist_ok H p st :
  st_inv H p st -> v1_epoch st < 2 ^ 64 -> deserializeV1States (serializeV1States st) = Ok (v1_reset st).
Proof. intros Hst Hb. apply deserializeV1States_serialize. by eapply st_inv_wf. Qed.

Lemma v1_reset_same st :
  v1_epoch (v1_reset st) = v1_epoch st /\ emitted (v1_reset st) = emitted st /\ is_ct2 (v1_reset st) = is_ct2 st /\
  waits_ct2 (v1_reset st) = waits_ct2 st.
Proof. by destruct st. Qed.

(** ** Two parties and a network *)

(** A party: its state, every message it has sent, every secret it has
    reported. *)
Record side : Type := mkSide { st : v1States; out : list v1Message; keys : list epochSecret }.

Definition to_list (k : option epochSecret) : list epochSecret := match k with Some k => [k] | None => [] end.

(** Party [a] sends, or is handed any message the peer [b] has ever sent, or is
    stored and loaded again. *)
Inductive local_step (a b : side) : side -> Prop :=
| step_send t old t' sd :
    v1_send (st a, t) = ((old, t'), Ok sd) ->
    local_step a b (mkSide (send_state sd) (out a ++ [send_msg sd]) (keys a ++ to_list (send_key sd)))
| step_recv m old rv :
    m ∈ out b -> v1_epoch (st a) < 2 ^ 62 -> v1_recv (received m) (st a) = (old, Ok rv) ->
    local_step a b (mkSide (recv_state rv) (out a) (keys a ++ to_list (recv_key rv)))
| step_persist s :
    v1_epoch (st a) < 2 ^ 62 -> deserializeV1States (serializeV1States (st a)) = Ok s ->
    local_step a b (mkSide s (out a) (keys a)).

Inductive net_step : side * side -> side * side -> Prop :=
| step_left a b a' : local_step a b a' -> net_step (a, b) (a', b)
| step_right a b b' : local_step b a b' -> net_step (a, b) (a, b').

Definition secrets (H : hist) (n : Z) : list epochSecret := (fun i => mkSecret i (key_of H i)) <$> seqZ 1 n.

(** The party has got to the second ciphertext part of epoch [e]. *)
Definition reached_ct2 (st : v1States) (e : Z) : Prop := e < v1_epoch st \/ (v1_epoch st = e /\ is_ct2 st = true).

Record side_inv (H : hist) (p : bool) (a : side) : Prop := {
  si_st : st_inv H p (st a);
  si_out : forall m, m ∈ out a -> msg_inv H m /\ msg_epoch m <= v1_epoch (st a) /\
    (kind (payload m) = MessageTypeCt2 -> reached_ct2 (st a) (msg_epoch m));
  si_keys : keys a = secrets H (emitted (st a))
}.

(** [a] is at most one epoch ahead of [b], and only while [b] is in the last
    state of its epoch. *)
Record couple (a b : side) : Prop := {
  cp_epoch : v1_epoch (st a) <= v1_epoch (st b) + 1;
  cp_ahead : v1_epoch (st a) = v1_epoch (st b) + 1 -> is_ct2 (st b) = true;
  cp_wait : waits_ct2 (st a) = true -> reached_ct2 (st b) (v1_epoch (st a))
}.

Record joint (H : hist) (p : bool) (a b : side) : Prop := {
  jt_a : side_inv H p a;
  jt_b : side_inv H (negb p) b;
  jt_ab : couple a b;
  jt_ba : couple b a
}.

Lemma secrets_mono H H' n : hle H H' -> complete H (n + 1) -> 0 <= n -> secrets H' n = secrets H n.
Proof.
  intros Hle Hc Hn. unfold secrets. apply list_fmap_ext. intros i x Hx. f_equal.
  apply list_elem_of_lookup_2, elem_of_seqZ in Hx. apply key_of_mono; [done| |lia]. intros j Hj. apply Hc. lia.
Qed.

Lemma secrets_snoc H n : 0 <= n -> secrets H (n + 1) = secrets H n ++ [mkSecret (n + 1) (key_of H (n + 1))].
Proof.
  intros Hn. unfold secrets. rewrite seqZ_app by lia. rewrite fmap_app. f_equal. cbn. by rewrite Z.add_comm.
Qed.

Lemma side_inv_other H H' p b : hext (negb p) H H' -> side_inv H p b -> side_inv H' p b.
Proof.
  intros Hx [Hst Ho Hk]. pose proof (proj1 Hx) as Hle. split.
  - by eapply st_inv_other.
  - intros m Hm. destruct (Ho m Hm) as (H1 & H2 & H3). split; [by eapply msg_inv_mono|done].
  - rewrite Hk. symmetry. destruct (st_inv_emitted _ _ _ Hst). by apply secrets_mono.
Qed.

Lemma reports_keys H H' p st0 st1 k :
  hle H H' -> st_inv H p st0 -> reports H' st0 st1 k -> secrets H (emitted st0) ++ to_list k = secrets H' (emitted st1).
Proof.
  intros Hle Hst Hr. destruct (st_inv_emitted _ _ _ Hst) as [Hc Hn]. rewrite <- (secrets_mono H H') by done.
  destruct Hr as [[-> ->]|[-> He]]; cbn [to_list]; [apply app_nil_r|]. rewrite He. by rewrite secrets_snoc.
Qed.

Lemma msg_inv_received H m : msg_inv H m -> msg_inv H (received m).
Proof. done. Qed.

(** Facts about a party stay true while the peer makes progress. *)
Definition progress (s s' : v1States) : Prop :=
  (v1_epoch s' = v1_epoch s /\ (is_ct2 s = true -> is_ct2 s' = true)) \/ v1_epoch s' = v1_epoch s + 1.

Lemma reached_progress s s' e : progress s s' -> reached_ct2 s e -> reached_ct2 s' e.
Proof. intros [[He Hc]|He] [Hr|[Hr Hc']]; unfold reached_ct2; rewrite He; [left; lia|right; auto|left; lia|left; lia]. Qed.

Lemma couple_progress a b a' : couple b a -> progress (st a) (st a') -> couple b a'.
Proof.
  intros [H1 H2 H3] Hp. split.
  - destruct Hp as [[-> _]| ->]; lia.
  - destruct Hp as [[He Hc]| He]; rewrite He; [auto|lia].
  - intros Hw. eapply reached_progress; [done|auto].
Qed.

Lemma joint_send H p a b t old t' sd :
  joint H p a b -> v1_send (st a, t) = ((old, t'), Ok sd) ->
  exists H', joint H' p (mkSide (send_state sd) (out a ++ [send_msg sd]) (keys a ++ to_list (send_key sd))) b.
Proof.
  intros [[Hst Ho Hk] Hb Hab Hba] E.
  assert (exists H', sent H H' p (st a) sd) as (H' & Hs).
  { destruct (v1_send_inv H p (st a) t Hst) as [(H' & old' & t'' & sd' & E' & Hs)|[_ Hn]].
    - rewrite E in E'. injection E' as <- <- <-. eauto.
    - by rewrite E in Hn. }
  destruct Hs as [Hx Hi Hm [He1 He2] Hkey [Hc Hw] Hkind]. exists H'. pose proof (proj1 Hx) as Hle.
  assert (progress (st a) (send_state sd)) as Hpr by (left; by rewrite Hc).
  split; [split|..]; cbn [st out keys].
  - done.
  - intros m [Hin| ->%list_elem_of_singleton]%elem_of_app.
    + destruct (Ho m Hin) as (M1 & M2 & M3). split; [by eapply msg_inv_mono|]. split; [lia|].
      intros Hk2. eapply reached_progress; [done|auto].
    + split; [done|]. split; [lia|]. intros Hk2. right. rewrite Hc. split; [lia|auto].
  - rewrite Hk. by eapply reports_keys.
  - eapply side_inv_other; [|done]. by rewrite negb_involutive.
  - destruct Hab as [C1 C2 C3]. split; cbn [st]; rewrite ?He2, ?Hw; auto.
  - by eapply couple_progress.
Qed.

Lemma joint_recv H p a b m :
  joint H p a b -> m ∈ out b -> v1_epoch (st a) < 2 ^ 62 ->
  exists old rv, v1_recv (received m) (st a) = (old, Ok rv) /\ v1_epoch (st a) <= v1_epoch (recv_state rv) /\
    joint H p (mkSide (recv_state rv) (out a) (keys a ++ to_list (recv_key rv))) b.
Proof.
  intros [[Hst Ho Hk] Hb Hab Hba] Hm Hlt. destruct (si_out _ _ _ Hb m Hm) as (M1 & M2 & M3).
  pose proof (cp_epoch _ _ Hba) as Hahead.
  destruct (v1_recv_inv H p (received m) M1 (st a) Hst) as (old & rv & E & Hr).
  { cbn [msg_epoch received]. lia. }
  { cbn [msg_epoch received]. destruct (decide (msg_epoch m <= v1_epoch (st a))); [by left|right].
    split; [lia|]. apply Hba. lia. }
  exists old, rv. split; [exact E|]. destruct Hr as [Hi Hkey Hep Hw]. cbn [msg_epoch payload kind received] in *.
  assert (progress (st a) (recv_state rv)) as Hpr by (destruct Hep as [?|[? _]]; [by left|by right]).
  split; [destruct Hpr as [[? _]|?]; lia|]. split; [split|..]; cbn [st out keys].
  - done.
  - intros m' Hin. destruct (Ho m' Hin) as (N1 & N2 & N3). split; [done|].
    split; [destruct Hpr as [[-> _]| ->]; lia|]. intros Hk2. eapply reached_progress; [done|auto].
  - rewrite Hk. by eapply reports_keys.
  - done.
  - destruct Hab as [C1 C2 C3]. destruct Hep as [[He Hc]|[He Hwhy]].
    + split; cbn [st]; rewrite ?He; [done|done|]. intros Hw'. destruct (Hw Hw') as [_ [Hw0|[Hk2 Hme]]]; [auto|].
      rewrite <- Hme. auto.
    + assert (v1_epoch (st a) < v1_epoch (st b) \/ (v1_epoch (st b) = v1_epoch (st a) /\ is_ct2 (st b) = true)) as Hbs.
      { destruct Hwhy as [[_ Hme]|Hw0]; [left; lia|]. by apply C3. }
      split; cbn [st]; rewrite ?He.
      * lia.
      * intros Heq. destruct Hbs as [?|[_ ?]]; [lia|done].
      * intros Hw'. destruct (Hw Hw') as [He' _]. lia.
  - by eapply couple_progress.
Qed.

Lemma joint_persist H p a b :
  joint H p a b -> joint H p (mkSide (v1_reset (st a)) (out a) (keys a)) b.
Proof.
  intros [[Hst Ho Hk] Hb Hab Hba]. destruct (v1_reset_same (st a)) as (E1 & E2 & E3 & E4).
  assert (progress (st a) (v1_reset (st a))) as Hpr by (left; by rewrite E1, E3).
  split; [split|..]; cbn [st out keys].
  - by apply st_inv_reset.
  - intros m Hm. destruct (Ho m Hm) as (M1 & M2 & M3). rewrite E1. split_and!; [done|done|].
    intros Hk2. eapply reached_progress; [done|auto].
  - by rewrite E2.
  - done.
  - destruct Hab as [C1 C2 C3]. split; cbn [st]; rewrite ?E1, ?E4; auto.
  - by eapply couple_progress.
Qed.

Lemma joint_sym H p a b : joint H p a b -> joint H (negb p) b a.
Proof. intros [H1 H2 H3 H4]. split; [done|by rewrite negb_involutive|done|done]. Qed.

Lemma joint_local H p a b a' : joint H p a b -> local_step a b a' -> exists H', joint H' p a' b.
Proof.
  intros Hj [t old t' sd E|m old rv Hm Hlt E|s Hlt E].
  - by eapply joint_send.
  - destruct (joint_recv H p a b m Hj Hm Hlt) as (old' & rv' & E' & _ & Hj'). rewrite E in E'. injection E' as <- <-. eauto.
  - rewrite (persist_ok H p (st a)) in E; [|apply Hj|lia]. apply Ok_inj in E as <-. exists H. by apply joint_persist.
Qed.

Lemma joint_reach x y :
  rtc net_step x y -> (exists H, joint H true (fst x) (snd x)) -> exists H, joint H true (fst y) (snd y).
Proof.
  induction 1 as [|x y z Hs _ IH]; [done|]. intros [H Hj]. apply IH.
  destruct Hs as [a b a' Hs|a b b' Hs]; cbn [fst snd] in *.
  - by eapply joint_local.
  - apply joint_sym in Hj. destruct (joint_local _ _ _ _ _ Hj Hs) as [H' Hj']. exists H'.
    apply joint_sym in Hj'. by rewrite negb_involutive in Hj'.
Qed.

Lemma joint_init a0 b0 :
  initV1StateA authKey = Ok a0 -> initV1StateB authKey = Ok b0 ->
  joint (mkHist ∅ ∅) true (mkSide a0 [] []) (mkSide b0 [] []).
Proof.
  unfold initV1StateA, initV1StateB, newUnchunkedKeysUnsampled, newUnchunkedNoHeaderReceived.
  change (mlkemHeaderSize + authenticatorMacSize) with 96.
  destruct (len authKey =? 0); [done|]. cbn [check mbind res_bind mret res_ret]. intros Ea Eb. apply Ok_inj in Ea as <-.
  destruct (newPolyDecoder 96) as [d| |] eqn:Ed; [|done|done]. cbn [mbind res_bind] in Eb. apply Ok_inj in Eb as <-.
  assert (forall p e, future (mkHist ∅ ∅) p e) as Hf by (intros p e i _; split; intros _; apply lookup_empty).
  assert (complete (mkHist ∅ ∅) 1) as Hc by (intros i Hi; lia).
  split; [split|split|..]; cbn [st out keys].
  - do 3 (split; [done|]). by split_and!.
  - intros m Hm. by apply not_elem_of_nil in Hm.
  - done.
  - do 3 (split; [done|]). split_and!; try done. by left.
  - intros m Hm. by apply not_elem_of_nil in Hm.
  - done.
  - by split.
  - by split.
Qed.

End agreement.

(** ** Properties *)

(** C19: agreement of the epoch secrets. Two parties start from the same
    authentication key, one with [initV1StateA], the other with
    [initV1StateB]; each sends whenever it likes and is handed any message the
    other has ever sent, in any order, any number of times, or never, and may be
    stored and loaded again at any time. In every configuration this can reach, the secrets the two have reported are the
    same: one list is a beginning of the other, they differ in length by at most
    one, and they are the secrets of the epochs 1, 2, 3, ... in order. *)
Theorem v1_key_agreement (P : Primitives) (M : MLKEM) authKey a0 b0 a b :
  MLKEMLaws M -> initV1StateA authKey = Ok a0 -> initV1StateB authKey = Ok b0 ->
  rtc net_step (mkSide a0 [] [], mkSide b0 [] []) (a, b) ->
  (keys a `prefix_of` keys b \/ keys b `prefix_of` keys a) /\
  -1 <= len (keys a) - len (keys b) <= 1 /\
  sec_epoch <$> keys a = seqZ 1 (len (keys a)) /\ sec_epoch <$> keys b = seqZ 1 (len (keys b)).
Proof.
  intros HL Ea Eb Hr. destruct (joint_reach authKey _ _ Hr) as [H [Ha Hb Hab Hba]].
  { exists (mkHist ∅ ∅). by apply joint_init. }
  cbn [fst snd] in *. rewrite (si_keys _ _ _ _ Ha), (si_keys _ _ _ _ Hb).
  destruct (st_inv_emitted _ _ _ _ (si_st _ _ _ _ Ha)) as [_ Hna]. destruct (st_inv_emitted _ _ _ _ (si_st _ _ _ _ Hb)) as [_ Hnb].
  assert (forall n, 0 <= n -> len (secrets H n) = n) as Hlen.
  { intros n Hn. unfold secrets. rewrite len_fmap. unfold len. rewrite length_seqZ. lia. }
  assert (forall n, sec_epoch <$> secrets H n = seqZ 1 n) as Hep.
  { intros n. unfold secrets. rewrite <- list_fmap_compose. apply list_fmap_id. }
  assert (forall n k, 0 <= n <= k -> secrets H n `prefix_of` secrets H k) as Hpre.
  { intros n k Hn. unfold secrets. replace k with (n + (k - n)) by lia. rewrite seqZ_app by lia. rewrite fmap_app. by eexists. }
  rewrite !Hlen by done. split_and!; [| | |done|done].
  - destruct (decide (emitted (st a) <= emitted (st b))); [left|right]; apply Hpre; lia.
  - destruct Hab as [C1 C2 _], Hba as [D1 D2 _].
    destruct (st a), (st b); cbn [emitted v1_epoch is_ct2] in *; lia.
  - destruct Hab as [C1 C2 _], Hba as [D1 D2 _]. destruct (st a), (st b); cbn [emitted v1_epoch is_ct2] in *; lia.
Qed.

(** The parties of the examples, and party A after its first message. *)
Definition demo_auth : bytes := [Byte.x2a].
Definition demo_A : v1States := get_ok (KeysUnsampled (mkKeysUnsampled (mkUKeysUnsampled 0 (mkAuth [] []))))
  (@initV1StateA Toy.primitives demo_auth).
Definition demo_B : v1States := get_ok (KeysUnsampled (mkKeysUnsampled (mkUKeysUnsampled 0 (mkAuth [] []))))
  (@initV1StateB Toy.primitives demo_auth).

Lemma demo_first :
  exists t old sd, @v1_send Toy.primitives ToyMlkem.mlkem (demo_A, replicate 64 Byte.x01) = ((old, t), Ok sd).
Proof.
  destruct (run_ok (@v1_send Toy.primitives ToyMlkem.mlkem (demo_A, replicate 64 Byte.x01))) as ([old t] & sd & E);
    [vm_compute; reflexivity|]. eauto.
Qed.

Lemma v1_key_agreement_witness :
  let P := Toy.primitives in let M := ToyMlkem.mlkem in
  exists a b, net_step (mkSide demo_A [] [], mkSide demo_B [] []) (a, b) /\ length (out a) = 1%nat /\
    (keys a `prefix_of` keys b \/ keys b `prefix_of` keys a).
Proof.
  intros P M. destruct demo_first as (t & old & sd & E).
  pose proof (step_left _ _ _ (step_send (mkSide demo_A [] []) (mkSide demo_B [] []) _ _ _ _ E)) as Hs.
  do 2 eexists. split; [exact Hs|]. split; [reflexivity|].
  eapply (v1_key_agreement P M demo_auth demo_A demo_B); [exact ToyMlkem.laws|reflexivity|reflexivity|by apply rtc_once].
Defined.

(** C20: the key agreement never gets stuck on an error. In every configuration
    the two parties can reach over such a network (while the epochs stay below
    2^62), receiving any message the other party has ever sent succeeds: no
    error, no panic, whatever was lost or reordered before; sending succeeds
    given 64 bytes of randomness; and a stored state can be loaded. *)
Theorem v1_no_errors (P : Primitives) (M : MLKEM) authKey a0 b0 a b m (t : tape) :
  MLKEMLaws M -> initV1StateA authKey = Ok a0 -> initV1StateB authKey = Ok b0 ->
  rtc net_step (mkSide a0 [] [], mkSide b0 [] []) (a, b) ->
  v1_epoch (st a) < 2 ^ 62 -> v1_epoch (st b) < 2 ^ 62 -> (64 <= length t)%nat ->
  (m ∈ out b -> is_ok (snd (v1_recv (received m) (st a))) = true) /\
  (m ∈ out a -> is_ok (snd (v1_recv (received m) (st b))) = true) /\
  is_ok (snd (v1_send (st a, t))) = true /\ is_ok (snd (v1_send (st b, t))) = true /\
  is_ok (deserializeV1States (serializeV1States (st a))) = true /\
  is_ok (deserializeV1States (serializeV1States (st b))) = true.
Proof.
  intros HL Ea Eb Hr Hla Hlb Ht. destruct (joint_reach authKey _ _ Hr) as [H Hj].
  { exists (mkHist ∅ ∅). by apply joint_init. }
  cbn [fst snd] in Hj. pose proof (joint_sym _ _ _ _ _ Hj) as Hj'. split_and!.
  - intros Hm. destruct (joint_recv _ _ _ _ _ _ Hj Hm Hla) as (old & rv & -> & _). done.
  - intros Hm. destruct (joint_recv _ _ _ _ _ _ Hj' Hm Hlb) as (old & rv & -> & _). done.
  - destruct (v1_send_inv authKey H true (st a) t (si_st _ _ _ _ (jt_a _ _ _ _ _ Hj))) as [(? & ? & ? & ? & -> & _)|[? _]]; [done|lia].
  - destruct (v1_send_inv authKey H false (st b) t (si_st _ _ _ _ (jt_b _ _ _ _ _ Hj))) as [(? & ? & ? & ? & -> & _)|[? _]]; [done|lia].
  - by rewrite (persist_ok authKey H true (st a) (si_st _ _ _ _ (jt_a _ _ _ _ _ Hj))) by lia.
  - by rewrite (persist_ok authKey H false (st b) (si_st _ _ _ _ (jt_b _ _ _ _ _ Hj))) by lia.
Qed.

Lemma v1_no_errors_witness :
  let P := Toy.primitives in let M := ToyMlkem.mlkem in
  exists a b m, net_step (mkSide demo_A [] [], mkSide demo_B [] []) (a, b) /\ m ∈ out a /\
    is_ok (snd (v1_recv (received m) (st b))) = true.
Proof.
  intros P M. destruct demo_first as (t & old & sd & E).
  pose proof (step_left _ _ _ (step_send (mkSide demo_A [] []) (mkSide demo_B [] []) _ _ _ _ E)) as Hs.
  exists (mkSide (send_state sd) [send_msg sd] (to_list (send_key sd))), (mkSide demo_B [] []), (send_msg sd).
  split; [exact Hs|]. split; [by left|].
  assert (v1_epoch (send_state sd) = 1) as He.
  { destruct (joint_init (HP := Toy.primitives) (HM := ToyMlkem.mlkem) demo_auth demo_A demo_B eq_refl eq_refl) as [[Hst _ _] _ _ _].
    destruct (v1_send_inv (HP := Toy.primitives) (HL := ToyMlkem.laws) demo_auth _ true demo_A (replicate 64 Byte.x01) Hst) as [(H' & o & t' & sd' & E' & Hsd)|[Hl _]].
    - pose proof (eq_trans (eq_sym E) E') as E''. injection E'' as <- <- <-. by destruct (sent_epoch _ _ _ _ _ _ Hsd) as [_ ->].
    - rewrite length_replicate in Hl. lia. }
  eapply (v1_no_errors P M demo_auth demo_A demo_B _ _ (send_msg sd) (replicate 64 Byte.x01));
    [exact ToyMlkem.laws|reflexivity|reflexivity|by apply rtc_once| | |by rewrite length_replicate|by left].
  - cbn [st]. rewrite He. done.
  - done.
Defined.
