(* ===== verification/SpqrState.v ===== *)
(** * The state of the post-quantum ratchet: spqr/state.go

    A [State] couples the key-agreement state machine with the chain of message
    keys: every [Send] and [Receive] steps the machine, feeds the secret it may
    report to the chain, and takes the salt of the message from the chain.
    Until the first message of the peer arrives, the state remembers what it
    needs to create the chain and to fall back to no ratchet at all
    ([negotiation]).

    Receivers are non-nil; a nil [*State] is the [None] of [Serialize] and
    [DeserializeState]. A nil slice is the empty list. The step of the machine
    and the chain mutate the objects in place, so the world an operation
    leaves when it fails shows those mutations. *)

From Stdlib Require Import ZArith Lia.
From Stdlib Require Import Strings.Byte.
From stdpp Require Import base gmap strings list list_numbers vector.
From S2P Require Import Prelude SpqrUtil Crypto Erasure SpqrChain SpqrMessage SpqrMlkem SpqrV1 SpqrV1Codec.
Import Util Crypto Erasure SpqrChain SpqrMessage SpqrMlkem SpqrV1 SpqrV1Codec.

Module SpqrState.

Definition stateSerializeVersionV1 : byte := Byte.x01.
Definition stateSerializeVersionV2 : byte := Byte.x02.

Record versionNegotiation : Type := mkNegotiation {
  authKey : bytes; direction : Direction; minVersion : Z; chainParams : ChainParams }.

Record State : Type := mkState {
  version : Z;
  v1 : option v1States;
  chain : option Chain;
  negotiation : option versionNegotiation
}.

Definition set_v1 (v : v1States) (s : State) : State := mkState (version s) (Some v) (chain s) (negotiation s).
Definition set_chain (c : Chain) (s : State) : State := mkState (version s) (v1 s) (Some c) (negotiation s).
Definition set_negotiation (n : option versionNegotiation) (s : State) : State :=
  mkState (version s) (v1 s) (chain s) n.

Definition disable : ST State unit := st_put (mkState VersionDisabled None None None).

(** [None] is the [false] of the second result. *)
Definition msgVersion (message : bytes) : option Z :=
  match message with
  | [] => Some VersionDisabled
  | b :: _ => if (b2z b =? VersionDisabled) || (b2z b =? VersionV1) then Some (b2z b) else None
  end.

Section state.
Context `{Primitives} `{MLKEM}.

Definition initV1StateForDirection (dir : Direction) (authKey : bytes) : res v1States :=
  match dir with
  | DirectionA2B => initV1StateA authKey
  | DirectionB2A => initV1StateB authKey
  | DirectionOther _ => initV1StateA authKey
  end.

Definition NewStateWithMinVersion (authKey : bytes) (dir : Direction) (params : ChainParams) (minVersion : Z) : res State :=
  _ ← check (len authKey =? 0) (ErrText "spqr: auth key required");
  _ ← check (minVersion >? VersionV1) SpqrErrUnsupportedVersion;
  v1 ← initV1StateForDirection dir authKey;
  mret (mkState VersionV1 (Some v1) None (Some (mkNegotiation authKey dir minVersion params))).

Definition NewState (authKey : bytes) (dir : Direction) (params : ChainParams) : res State :=
  NewStateWithMinVersion authKey dir params VersionDisabled.

Definition chainFromNegotiation (vn : versionNegotiation) : res Chain :=
  NewChain (authKey vn) (direction vn) (chainParams vn).

Definition chainForSend : ST State (option Chain) :=
  s ← st_get;
  match chain s, negotiation s with
  | Some c, _ => mret (Some c)
  | None, None => st_err SpqrErrChainNotAvailable
  | None, Some vn =>
      if minVersion vn <=? VersionDisabled then mret None
      else
        c ← st_lift (chainFromNegotiation vn);
        _ ← st_modify (set_chain c);
        mret (Some c)
  end.

Definition chainForRecv (s : State) : res Chain :=
  match chain s, negotiation s with
  | Some c, _ => Ok c
  | None, None => Err SpqrErrChainNotAvailable
  | None, Some vn => chainFromNegotiation vn
  end.

(** A step of the machine [s.v1] points to. *)
Definition on_v1 {T A} (m : ST (v1States * T) A) (v : v1States) : ST (State * T) A := fun '(s, t) =>
  let '((v, t), r) := m (v, t) in ((set_v1 v s, t), r).

(** A computation on the chain that [s.chain] points to. *)
Definition on_chain {A} (m : ST Chain A) (c : Chain) : ST State A := fun s =>
  let '(c, r) := m c in (set_chain c s, r).

Definition add_secret (k : option epochSecret) : ST Chain unit :=
  match k with Some k => AddEpoch (sec_epoch k) (secret k) | None => mret tt end.

(** The message and the salt. *)
Definition Send : ST (State * tape) (bytes * bytes) :=
  s ← st_fst st_get;
  match v1 s with
  | None => mret ([], [])
  | Some v =>
      if version s =? VersionDisabled then mret ([], [])
      else
        sd ← on_v1 v1_send v;
        chain ← st_fst chainForSend;
        '(idx, msgKey) ← st_fst
          match chain with
          | Some c =>
              on_chain (
                _ ← add_secret (send_key sd);
                _ ← st_check (msg_epoch (send_msg sd) =? 0) SpqrErrEpochOutOfRange;
                SendKey (u64 (msg_epoch (send_msg sd) - 1))) c
          | None =>
              _ ← st_check (bool_decide (is_Some (send_key sd))) SpqrErrChainNotAvailable;
              mret (0, [])
          end;
        _ ← st_fst (st_modify (set_v1 (send_state sd)));
        mret (v1Message_serialize (send_msg sd) idx, msgKey)
  end.

(** The message of an enabled version: lines 138 to 173. A chain made from the
    negotiation is not yet [s.chain]: what happens to it when a step fails is
    lost. *)
Definition receive_message (message : bytes) (v : v1States) : ST State bytes := fun s =>
  match deserializeV1Message message with
  | Err e => (s, Err e)
  | Panic => (s, Panic)
  | Ok (msg, idx, _) =>
      let '(v, r) := v1_recv msg v in
      let s := set_v1 v s in
      match r with
      | Err e => (s, Err e)
      | Panic => (s, Panic)
      | Ok rv =>
          if msg_epoch msg =? 0 then (s, Err SpqrErrEpochOutOfRange)
          else
            match chainForRecv s with
            | Err e => (s, Err e)
            | Panic => (s, Panic)
            | Ok c =>
                let msgKeyEpoch := u64 (msg_epoch msg - 1) in
                let '(c, r) :=
                  (_ ← add_secret (recv_key rv);
                   if negb (msgKeyEpoch =? 0) || negb (idx =? 0) then RecvKey msgKeyEpoch idx else mret []) c in
                let s := match chain s with Some _ => set_chain c s | None => s end in
                match r with
                | Err e => (s, Err e)
                | Panic => (s, Panic)
                | Ok msgKey => (set_negotiation None (set_chain c (set_v1 (recv_state rv) s)), Ok msgKey)
                end
            end
      end
  end.

(** [err == ErrUnsupportedVersion]: [ParseMessage] returns that error as it is. *)
Definition receiveLegacy (message : bytes) : ST State bytes := fun s =>
  match chain s with
  | None => (s, Err SpqrErrChainNotAvailable)
  | Some c =>
      if len message =? 0 then (s, Ok [])
      else
        match ParseMessage message with
        | Err e => if decide (e = SpqrErrUnsupportedVersion) then (s, Ok []) else (s, Err e)
        | Panic => (s, Panic)
        | Ok msg =>
            if negb (Msg_Version msg =? VersionV1) then (s, Ok [])
            else if Msg_Epoch msg =? 0 then (s, Err SpqrErrEpochOutOfRange)
            else
              let msgKeyEpoch := u64 (Msg_Epoch msg - 1) in
              if (msgKeyEpoch =? 0) && (Msg_Index msg =? 0) then (s, Ok [])
              else on_chain (RecvKey msgKeyEpoch (Msg_Index msg)) c s
        end
  end.

Definition Receive (message : bytes) : ST State bytes :=
  s ← st_get;
  match v1 s with
  | None => receiveLegacy message
  | Some v =>
      match msgVersion message with
      | None => mret []
      | Some ver =>
          if version s =? VersionDisabled then mret []
          else
            '(stop : bool) ←
              (if ver <? version s then
                 match negotiation s with
                 | None => st_err SpqrErrVersionMismatch
                 | Some vn =>
                     _ ← st_check (ver <? minVersion vn) SpqrErrMinimumVersion;
                     if ver =? VersionDisabled then _ ← disable; mret true else mret false
                 end
               else mret false);
            if stop then mret []
            else if ver =? VersionDisabled then mret []
            else receive_message message v
      end
  end.

(** ** Persistence *)

Definition serializeChain_ptr (c : option Chain) : bytes :=
  match c with Some c => serializeChain c | None => [] end.

Definition serializeLegacyState (s : State) : bytes :=
  let chainBytes := serializeChain_ptr (chain s) in
  let dir :=
    match chain s, negotiation s with
    | Some c, _ => SpqrChain.dir c
    | None, Some vn => direction vn
    | None, None => DirectionA2B
    end in
  [stateSerializeVersionV1; byte_of_Direction dir] ++ appendUint32 (u32 (len chainBytes)) ++ chainBytes.

Definition negotiation_bytes (n : option versionNegotiation) : bytes :=
  match n with
  | None => []
  | Some vn =>
      [z2b (minVersion vn); byte_of_Direction (direction vn)] ++
      appendUint32 (MaxJump (chainParams vn)) ++ appendUint32 (MaxOOO (chainParams vn)) ++ appendBytes (authKey vn)
  end.

Definition state_flags (s : State) : byte :=
  match negotiation s, chain s with
  | None, None => Byte.x00
  | Some _, None => Byte.x01
  | None, Some _ => Byte.x02
  | Some _, Some _ => Byte.x03
  end.

Definition Serialize (s : option State) : bytes :=
  match s with
  | None => []
  | Some s =>
      if version s =? VersionDisabled then []
      else
        match v1 s with
        | None => serializeLegacyState s
        | Some v =>
            let v1Bytes := serializeV1States v in
            [stateSerializeVersionV2; z2b (version s); state_flags s] ++ negotiation_bytes (negotiation s) ++
            appendUint32 (u32 (len v1Bytes)) ++ v1Bytes ++
            match chain s with
            | Some c => appendUint32 (u32 (len (serializeChain c))) ++ serializeChain c
            | None => []
            end
        end
  end.

Definition is_named (d : Direction) : bool := match d with DirectionOther _ => false | _ => true end.

Definition rd_negotiation : reader versionNegotiation :=
  _ ← rd_need (2 + 4 + 4) SpqrErrStateDecode;
  minVersion ← rd_byte;
  d ← rd_byte;
  _ ← rd_check (b2z minVersion >? VersionV1) SpqrErrStateDecode;
  _ ← rd_check (negb (is_named (Direction_of_byte d))) SpqrErrStateDecode;
  maxJump ← rd_readUint32;
  maxOOO ← rd_readUint32;
  authKey ← readBytes;
  _ ← rd_check (len authKey =? 0) SpqrErrStateDecode;
  mret (mkNegotiation authKey (Direction_of_byte d) (b2z minVersion) (mkParams maxJump maxOOO)).

(** A length-prefixed part of the data, handed to its own decoder. *)
Definition rd_part {A} (decode : bytes -> res A) : reader A :=
  _ ← rd_need 4 SpqrErrStateDecode;
  n ← rd_readUint32;
  _ ← rd_need n SpqrErrStateDecode;
  b ← rd_take n;
  rd_lift (decode b).

Definition DeserializeState (data : bytes) : res (option State) :=
  if len data =? 0 then Ok None
  else
    rd_run (
      tag ← rd_byte;
      if bool_decide (tag = stateSerializeVersionV1) then
        _ ← rd_need 1 SpqrErrStateDecode;
        _ ← rd_byte;
        chain ← rd_part deserializeChain;
        _ ← rd_eof SpqrErrStateDecode;
        mret (Some (mkState VersionV1 None chain None))
      else if bool_decide (tag = stateSerializeVersionV2) then
        _ ← rd_need 2 SpqrErrStateDecode;
        version ← rd_byte;
        flags ← rd_byte;
        _ ← rd_check (negb (b2z version =? VersionV1)) SpqrErrStateDecode;
        negotiation ← (if Z.land (b2z flags) 1 =? 0 then mret None else vn ← rd_negotiation; mret (Some vn));
        v ← rd_part deserializeV1States;
        chain ← (if Z.land (b2z flags) 2 =? 0 then mret None else rd_part deserializeChain);
        _ ← rd_eof SpqrErrStateDecode;
        mret (Some (mkState (b2z version) (Some v) chain negotiation))
      else rd_err SpqrErrStateDecode) data.

(** [None] when a part does not decode. *)
Definition Clone (s : State) : option State :=
  let v :=
    match v1 s with
    | None => Ok None
    | Some v => v ← deserializeV1States (serializeV1States v); mret (Some v)
    end in
  let c := match chain s with None => Ok None | Some c => deserializeChain (serializeChain c) end in
  match v, c with
  | Ok v, Ok c => Some (mkState (version s) v c (negotiation s))
  | _, _ => None
  end.

End state.
End SpqrState.
Import SpqrState.
