(* ===== verification/SpqrStateProofs.v ===== *)
(** * The post-quantum ratchet: agreement of the salts, version negotiation,
    persistence

    The theorems about [State] put the key agreement (SpqrV1Proofs) and the
    chains (SpqrChainProofs) together: over any network, the salt that the
    receiver of a message derives is the salt the sender used. *)

From Stdlib Require Import ZArith Lia.
From Stdlib Require Import Strings.Byte.
From stdpp Require Import base gmap strings list list_numbers vector relations.
From S2P Require Import Prelude SpqrUtil Crypto Erasure SpqrChain SpqrChainProofs SpqrCounters SpqrMessage SpqrMlkem SpqrV1 SpqrV1Codec.
From S2P Require Import SpqrV1Proofs SpqrState.
Import Util Crypto Erasure SpqrChain SpqrMessage SpqrMlkem SpqrV1 SpqrV1Codec SpqrState.

Lemma appendUint32_len v : len (appendUint32 v) = 4.
Proof. done. Qed.
#[local] Hint Rewrite appendUint32_len : len.

(** ** Persistence *)

(** A state with its machine, and a state of the older format with a chain
    only. *)
Record state_wf (s : State) : Prop := {
  sw_version : version s = VersionV1;
  sw_v1 : match v1 s with
          | Some v => v1_wf v /\ len (serializeV1States v) < 2 ^ 32
          | None => negotiation s = None
          end;
  sw_chain : forall c, chain s = Some c -> chain_wf c /\ len (serializeChain c) < 2 ^ 32;
  sw_neg : forall vn, negotiation s = Some vn ->
    0 < len (authKey vn) < 2 ^ 32 /\ is_named (direction vn) = true /\ 0 <= minVersion vn <= 1 /\ wf_params (chainParams vn)
}.

(** What comes back: the encoders have forgotten their polynomials. *)
Definition state_reset (s : State) : State := mkState (version s) (v1_reset <$> v1 s) (chain s) (negotiation s).

Lemma reads_part {A} (decode : bytes -> res A) b v :
  decode b = Ok v -> len b < 2 ^ 32 -> reads (rd_part decode) (appendUint32 (u32 (len b)) ++ b) v.
Proof.
  intros Hd Hb. pose proof (len_nonneg b). rewrite u32_id by (unfold is_u32; lia). unfold rd_part.
  apply reads_need; [lens|]. eapply reads_bind; [apply reads_readUint32; unfold is_u32; lia|].
  apply reads_need; [lens|]. rewrite <- (app_nil_r b) at 2. eapply reads_bind; [by apply reads_take|]. by apply reads_lift.
Qed.

Lemma reads_negotiation vn :
  0 < len (authKey vn) < 2 ^ 32 -> is_named (direction vn) = true -> 0 <= minVersion vn <= 1 -> wf_params (chainParams vn) ->
  reads rd_negotiation (negotiation_bytes (Some vn)) vn.
Proof.
  intros Ha Hd Hm [Hj Ho]. unfold rd_negotiation, negotiation_bytes.
  assert (b2z (z2b (minVersion vn)) = minVersion vn) as Hv by (rewrite b2z_z2b; apply Z.mod_small; lia).
  assert (Direction_of_byte (byte_of_Direction (direction vn)) = direction vn) as Hdir by by destruct (direction vn).
  apply reads_need; [lens|].
  change ([?x; ?y] ++ ?l) with ([x] ++ [y] ++ l).
  eapply reads_bind; [apply reads_byte|]. eapply reads_bind; [apply reads_byte|].
  rewrite Hv, Hdir. apply reads_check; [rewrite Z.gtb_ltb; apply Z.ltb_ge; unfold VersionV1; lia|]. apply reads_check; [by rewrite Hd|].
  eapply reads_bind; [by apply reads_readUint32|]. eapply reads_bind; [by apply reads_readUint32|].
  rewrite <- (app_nil_r (appendBytes _)). eapply reads_bind; [apply reads_readBytes; unfold is_u32; lia|].
  apply reads_check; [by apply Z.eqb_neq; lia|]. destruct vn as [? ? ? []]. apply reads_ret.
Qed.

Lemma flags_bits s :
  (Z.land (b2z (state_flags s)) 1 =? 0) = bool_decide (negotiation s = None) /\
  (Z.land (b2z (state_flags s)) 2 =? 0) = bool_decide (chain s = None).
Proof. unfold state_flags. by destruct (negotiation s), (chain s). Qed.

Lemma SpqrState_roundtrip s :
  state_wf s -> DeserializeState (Serialize (Some s)) = Ok (Some (state_reset s)).
Proof.
  intros [Hv Hv1 Hc Hn]. unfold DeserializeState, Serialize. rewrite Hv. cbn [Z.eqb VersionV1 VersionDisabled].
  destruct s as [ver [v|] c n]; cbn [version v1 chain negotiation] in *; subst ver.
  - destruct Hv1 as [Hwf Hl]. destruct (flags_bits (mkState VersionV1 (Some v) c n)) as [F1 F2].
    set (flags := state_flags _) in *. cbn [negotiation chain] in F1, F2.
    match goal with |- context [len (?a ++ ?b) =? 0] => assert ((len (a ++ b) =? 0) = false) as -> end.
    { apply Z.eqb_neq. lens. }
    apply reads_end_run. change ([?x; ?y; ?z] ++ ?l) with ([x] ++ [y] ++ [z] ++ l).
    eapply reads_end_bind; [apply reads_byte|]. cbn [bool_decide stateSerializeVersionV1 stateSerializeVersionV2].
    rewrite (bool_decide_false (stateSerializeVersionV2 = stateSerializeVersionV1)), bool_decide_true by done.
    apply reads_end_need; [lens|]. eapply reads_end_bind; [apply reads_byte|]. eapply reads_end_bind; [apply reads_byte|].
    apply reads_end_check; [done|]. rewrite F1, F2.
    eapply (reads_end_bind _ _ (negotiation_bytes n) n).
    { destruct n as [vn|]; [|apply reads_ret]. rewrite bool_decide_false by done. destruct (Hn vn eq_refl) as (? & ? & ? & ?).
      eapply reads_bind_end; [by apply reads_negotiation|apply reads_ret]. }
    rewrite app_assoc. eapply reads_end_bind; [by apply reads_part; [apply deserializeV1States_serialize|]|].
    eapply (reads_end_last _ _ _ c).
    { destruct c as [c|]; [|apply reads_ret]. rewrite bool_decide_false by done. destruct (Hc c eq_refl) as [? ?].
      by apply reads_part; [apply deserializeChain_serialize|]. }
    apply reads_end_eof, reads_end_of. apply reads_ret.
  - subst n. unfold serializeLegacyState. cbn [chain negotiation].
    match goal with |- context [len (?a ++ ?b) =? 0] => assert ((len (a ++ b) =? 0) = false) as -> end.
    { apply Z.eqb_neq. lens. }
    apply reads_end_run. change ([?x; ?y] ++ ?l) with ([x] ++ [y] ++ l).
    eapply reads_end_bind; [apply reads_byte|]. rewrite bool_decide_true by done.
    apply reads_end_need; [lens|]. eapply reads_end_bind; [apply reads_byte|].
    eapply (reads_end_last _ _ _ c).
    { apply reads_part; destruct c as [c|]; cbn [serializeChain_ptr]; try done; destruct (Hc c eq_refl); [|done].
      by apply deserializeChain_serialize. }
    apply reads_end_eof, reads_end_of. apply reads_ret.
Qed.

Lemma wp_part {A} (decode : bytes -> res A) data pos (Q : A -> Z -> Prop) :
  (forall b, decode b <> Panic) -> 0 <= pos <= len data -> (forall v pos', 0 <= pos' <= len data -> Q v pos') ->
  rd_wp (rd_part decode) data pos Q.
Proof.
  intros Hd Hpos HQ. unfold rd_part. wp_steps. apply wp_readUint32; [lia..|]. intros n Hn. unfold is_u32 in Hn. wp_steps.
  apply wp_lift; [apply Hd|]. intros v _. apply HQ. lia.
Qed.

Lemma wp_negotiation data pos (Q : versionNegotiation -> Z -> Prop) :
  0 <= pos <= len data -> (forall v pos', 0 <= pos' <= len data -> Q v pos') -> rd_wp rd_negotiation data pos Q.
Proof.
  intros Hpos HQ. unfold rd_negotiation. wp_steps. apply wp_readUint32; [lia..|]. intros j Hj. wp_steps.
  apply wp_readUint32; [lia..|]. intros o Ho. wp_steps. apply wp_readBytes; [lia|]. intros k p Hp. wp_steps. by apply HQ.
Qed.

Lemma wp_optional {A} (c : bool) (p : reader (option A)) data pos (Q : option A -> Z -> Prop) :
  0 <= pos <= len data -> (forall v pos', 0 <= pos' <= len data -> Q v pos') ->
  (forall Q, (forall v pos', 0 <= pos' <= len data -> Q v pos') -> rd_wp p data pos Q) ->
  rd_wp (if c then mret None else p) data pos Q.
Proof. intros Hpos HQ Hp. destruct c; [by apply wp_ret, HQ|by apply Hp]. Qed.

Lemma SpqrState_no_panic data : DeserializeState data <> Panic.
Proof.
  unfold DeserializeState. destruct (Z.eqb_spec (len data) 0) as [|Hne]; [done|]. pose proof (len_nonneg data).
  apply wp_run. wp_steps. case_bool_decide; [|case_bool_decide; [|apply wp_err]].
  - wp_steps. apply wp_part; [apply deserializeChain_no_panic|lia|]. intros c p Hp. wp_steps. done.
  - wp_steps. apply wp_optional; [lia| |].
    2:{ intros Q HQ. wp_steps. apply wp_negotiation; [lia|]. intros vn p Hp. wp_steps. by apply HQ. }
    intros n p Hp. wp_steps. apply wp_part; [apply deserializeV1States_no_panic|lia|]. intros v p2 Hp2. wp_steps.
    apply wp_optional; [lia| |].
    2:{ intros Q HQ. by apply wp_part; [apply deserializeChain_no_panic|lia|]. }
    intros c p3 Hp3. wp_steps. done.
Qed.

(** A message of version 1 goes to the machine. *)
Lemma Receive_machine `{Primitives, MLKEM} s v msg :
  version s = VersionV1 -> v1 s = Some v -> msgVersion msg = Some VersionV1 -> Receive msg s = receive_message msg v s.
Proof.
  intros Hv H1 Hm. unfold Receive. rewrite (st_bind_run _ _ _ s s) by done. by rewrite H1, Hv, Hm.
Qed.

Lemma msgVersion_serialize m idx : msgVersion (v1Message_serialize m idx) = Some VersionV1.
Proof. unfold v1Message_serialize. by destruct (hasChunk (kind (payload m))), (pl_chunk (payload m)). Qed.

(** ** Pieces of a step *)

Section agreement.
Context {HP : Primitives} {HM : MLKEM} {HL : MLKEMLaws HM}.
Context (auth : bytes).

Lemma AddEpoch_send e s c c' :
  AddEpoch e s c = (c', Ok tt) ->
  sendEpoch c' = sendEpoch c /\ (forall l, l ∈ links c' -> l ∈ links c \/ ctr (send l) = 0).
Proof.
  unfold AddEpoch. intros E. rewrite (st_bind_run _ _ _ c c) in E by done.
  apply st_bind_ok in E as (c1 & u & [-> _]%st_check_ok & E). apply st_bind_ok in E as (c1 & okm & [-> _]%st_lift_ok & E).
  apply st_bind_ok in E as (c1 & root & [-> _]%st_lift_ok & E).
  apply st_bind_ok in E as (c1 & [sd rd] & [-> _]%st_lift_ok & E). injection E as <-. split; [done|].
  cbn [links]. intros l [Hl| ->%list_elem_of_singleton]%elem_of_app; [by left|by right].
Qed.

Lemma NewChain_links d p c l : NewChain auth d p = Ok c -> l ∈ links c -> ctr (send l) = 0.
Proof.
  unfold NewChain. intros E. apply res_bind_ok in E as (okm & _ & E). apply res_bind_ok in E as (root & _ & E).
  apply res_bind_ok in E as ([s1 s2] & _ & E). apply Ok_inj in E as <-. cbn [links]. by intros ->%list_elem_of_singleton.
Qed.

Lemma RecvKey_send e n c c' r : RecvKey e n c = (c', r) -> sendEpoch c' = sendEpoch c.
Proof.
  unfold RecvKey, mbind, st_bind, st_lift, st_put. destruct (epochIndex c e); [|by intros [= <- _]..].
  destruct (index (links c) _); [|by intros [= <- _]..].
  destruct (key n (params c) _) as [d [k| |]]; by intros [= <- _].
Qed.

Lemma add_secret_ok d p ss got c k :
  wf_params p -> chain_inv auth d p ss got c -> len ss + 1 < 2 ^ 63 ->
  (forall k', k = Some k' -> sec_epoch k' = len ss + 1) ->
  exists c', add_secret k c = (c', Ok tt) /\ chain_inv auth d p (ss ++ (secret <$> to_list k)) got c' /\
    sendEpoch c' = sendEpoch c /\ (forall l, l ∈ links c' -> l ∈ links c \/ ctr (send l) = 0).
Proof.
  intros Hp Hi Hb Hk. destruct k as [k|]; cbn [add_secret to_list fmap list_fmap].
  - rewrite (Hk k eq_refl). destruct (AddEpoch_ok auth d p ss got c (secret k) Hp Hi Hb) as (c' & E & Hi').
    exists c'. split; [done|]. split; [done|]. by eapply AddEpoch_send.
  - exists c. rewrite app_nil_r. split_and!; auto.
Qed.

(** The secret that a party has just reported is that of the next epoch. *)
Lemma secrets_len H n : 0 <= n -> len (secrets H n) = n.
Proof. intros Hn. unfold secrets. rewrite len_fmap. unfold len. rewrite length_seqZ. lia. Qed.

Lemma side_keys H p s : side_inv auth H p s -> len (keys s) = emitted (st s) /\ sec_epoch <$> keys s = seqZ 1 (emitted (st s)).
Proof.
  intros [Hst _ ->]. destruct (st_inv_emitted _ _ _ _ Hst). split; [by apply secrets_len|].
  unfold secrets. rewrite <- list_fmap_compose. apply list_fmap_id.
Qed.

Lemma reported_epoch H p v o ks k :
  side_inv auth H p (mkSide v o (ks ++ to_list k)) -> forall k', k = Some k' -> sec_epoch k' = len ks + 1.
Proof.
  intros Hs k' ->. apply side_keys in Hs as [Hl He]. cbn [keys st to_list] in *.
  assert ((sec_epoch <$> ks ++ [k']) !! length ks = Some (sec_epoch k')) as Hk.
  { rewrite fmap_app, lookup_app_r; rewrite length_fmap; [|done]. by rewrite Nat.sub_diag. }
  rewrite He in Hk. apply lookup_seqZ in Hk as [-> _]. unfold len. lia.
Qed.

Lemma emitted_range v : v1_epoch v - 1 <= emitted v <= v1_epoch v.
Proof. destruct v; cbn [emitted v1_epoch]; lia. Qed.

(** The messages of the machine are well formed. *)
Lemma msg_inv_wf H m : msg_inv auth H m -> msg_epoch m < 2 ^ 64 -> msg_wf m.
Proof.
  intros (H1 & _ & Hm) Hb.
  assert (forall c, pl_chunk (payload m) = Some c -> is_u16 (chunk_index c)) as Hi.
  { intros c Hc. rewrite Hc in Hm. destruct (kind (payload m)); try done.
    - by destruct Hm as (s & _ & idx & Hi & ->).
    - by destruct Hm as (s & _ & idx & Hi & ->).
    - by destruct Hm as (s & _ & idx & Hi & ->).
    - by destruct Hm as (s & r & _ & idx & Hi & ->).
    - by destruct Hm as (s & r & _ & idx & Hi & ->). }
  split; [unfold is_u64; lia| | |done].
  - destruct (kind (payload m)); done.
  - destruct (kind (payload m)), (pl_chunk (payload m)); try done; split; intros Hx; (done || (by inversion Hx) || eauto).
Qed.

(** Two lists of secrets of the same history agree where both are defined. *)
Lemma keys_agree H p a b e :
  side_inv auth H p a -> side_inv auth H (negb p) b -> 0 <= e <= len (keys a) -> e <= len (keys b) ->
  okm_of auth (secret <$> keys a) e = okm_of auth (secret <$> keys b) e.
Proof.
  intros Ha Hb He1 He2. pose proof (side_keys _ _ _ Ha) as [La _]. pose proof (side_keys _ _ _ Hb) as [Lb _].
  assert (forall n, e <= n -> take (Z.to_nat e) (secrets H n) = secrets H e) as Ht.
  { intros n Hn. unfold secrets. replace n with (e + (n - e)) by lia. rewrite seqZ_app by lia. rewrite fmap_app.
    apply take_app_length'. rewrite length_fmap, length_seqZ. lia. }
  unfold okm_of. rewrite <- !fmap_take. rewrite (si_keys _ _ _ _ Ha), (si_keys _ _ _ _ Hb), !Ht by lia. done.
Qed.

(** ** Two parties and a network *)

Context (pars : bool -> ChainParams) (mins : bool -> Z).
Context (Hpars : forall p, wf_params (pars p) /\ maxOOO (pars p) < 2 ^ 31).
Context (Hmins : forall p, 0 <= mins p <= 1) (Hauth : 0 < len auth < 2 ^ 32).

(** [true] is the initiator of the session. *)
Definition dir_of (p : bool) : Direction := if p then DirectionA2B else DirectionB2A.

Definition initial_negotiation (p : bool) : versionNegotiation := mkNegotiation auth (dir_of p) (mins p) (pars p).

(** A party: its state, and every message it has sent with the salt it was
    given for it. *)
Record party : Type := mkParty { ps : State; psent : list (bytes * bytes) }.

(** The counters have room: the epochs below 2^31, the numbers of the messages
    of an epoch too. *)
Definition roomy (s : State) : Prop :=
  (forall v, v1 s = Some v -> v1_epoch v < 2 ^ 31) /\
  (forall c l, chain s = Some c -> l ∈ links c -> ctr (send l) < 2 ^ 31 - 1).

(** As the session cipher does it: every operation works on a clone, which
    replaces the state only when the operation succeeds. Any message the peer
    has ever sent may arrive. The state may be stored and loaded. *)
Inductive party_step (a b : party) : party -> Prop :=
| party_send s1 t s2 t' msg salt :
    roomy (ps a) -> Clone (ps a) = Some s1 -> Send (s1, t) = ((s2, t'), Ok (msg, salt)) ->
    party_step a b (mkParty s2 (psent a ++ [(msg, salt)]))
| party_recv s1 s2 msg salt salt' :
    roomy (ps a) -> (msg, salt) ∈ psent b -> Clone (ps a) = Some s1 -> Receive msg s1 = (s2, Ok salt') ->
    party_step a b (mkParty s2 (psent a))
| party_load s :
    roomy (ps a) -> (forall v, v1 (ps a) = Some v -> len (serializeV1States v) < 2 ^ 32) ->
    (forall c, chain (ps a) = Some c -> len (serializeChain c) < 2 ^ 32) ->
    DeserializeState (Serialize (Some (ps a))) = Ok (Some s) ->
    party_step a b (mkParty s (psent a)).

Inductive parties_step : party * party -> party * party -> Prop :=
| parties_left a b a' : party_step a b a' -> parties_step (a, b) (a', b)
| parties_right a b b' : party_step b a b' -> parties_step (a, b) (a, b').

(** The salt of the [idx]-th message of the epoch of [m]. *)
Definition salt_of (p : bool) (ks : list epochSecret) (m : v1Message) (idx : Z) : bytes :=
  vec_to_list (key_at (seed_out (dir_of p) (okm_of auth (secret <$> ks) (msg_epoch m - 1))) idx).

(** What is known of a message on the wire, which carries the message [m] of
    the key agreement and the number [idx]. *)
Definition wire_at (p : bool) (sd : side) (m : v1Message) (idx : Z) (msg salt : bytes) : Prop :=
  m ∈ out sd /\ msg = v1Message_serialize m idx /\ msg_epoch m < 2 ^ 32 /\ msg_epoch m - 1 <= len (keys sd) /\
  ((idx = 0 /\ msg_epoch m = 1 /\ salt = []) \/ (1 <= idx < 2 ^ 31 /\ salt = salt_of p (keys sd) m idx)).

Definition wire_inv (p : bool) (sd : side) (msg salt : bytes) : Prop := exists m idx, wire_at p sd m idx msg salt.

(** The states before the first message of the peer. *)
Definition quiet (v : v1States) : Prop :=
  match v with KeysUnsampled _ | KeysSampled _ | NoHeaderReceived _ => True | _ => False end.

(** A state whose machine is that of the (ghost) party [sd]. *)
Record state_inv (p : bool) (sd : side) (s : State) : Prop := {
  sti_version : version s = VersionV1;
  sti_v1 : v1 s = Some (st sd);
  sti_chain : match chain s with
    | Some c => exists got, chain_inv auth (dir_of p) (pars p) (secret <$> keys sd) got c /\ sendEpoch c <= v1_epoch (st sd) - 1
    | None => keys sd = [] /\ v1_epoch (st sd) = 1 /\ quiet (st sd) /\ negotiation s = Some (initial_negotiation p)
    end;
  sti_neg : forall vn, negotiation s = Some vn -> vn = initial_negotiation p
}.

Record party_inv (p : bool) (sd : side) (a : party) : Prop := {
  pi_state : state_inv p sd (ps a);
  pi_sent : forall msg salt, (msg, salt) ∈ psent a -> wire_inv p sd msg salt
}.

Definition parties_inv (p : bool) (a b : party) : Prop :=
  exists H sa sb, joint auth H p sa sb /\ party_inv p sa a /\ party_inv (negb p) sb b.

Lemma maxOOO_room p n : 0 <= n < 2 ^ 31 -> n + maxOOO (pars p) < 2 ^ 32.
Proof. intros Hn. destruct (Hpars p). lia. Qed.

(** *** Cloning *)

Definition reset_side (sd : side) : side := mkSide (v1_reset (st sd)) (out sd) (keys sd).

Lemma state_inv_reset p sd s : state_inv p sd s -> state_inv p (reset_side sd) (state_reset s).
Proof.
  intros [Hv H1 Hc Hn]. destruct (v1_reset_same (st sd)) as (E1 & _).
  split; cbn [state_reset version v1 chain negotiation reset_side st keys]; [done|by rewrite H1| |done].
  destruct (chain s); [by rewrite E1|]. destruct Hc as (? & ? & Hq & ?). rewrite E1. split_and!; try done.
  by destruct (st sd).
Qed.

Lemma roomy_reset s : roomy s -> roomy (state_reset s).
Proof.
  intros [H1 H2]. split; [|done]. cbn [state_reset v1]. intros v Hv. destruct (v1 s) as [v0|]; [|done].
  injection Hv as <-. destruct (v1_reset_same v0) as (-> & _). by apply H1.
Qed.

(** The parts of a state of the protocol are well formed. *)
Lemma state_parts H p sd s c :
  side_inv auth H p sd -> state_inv p sd s -> roomy s ->
  v1_wf (st sd) /\ (chain s = Some c -> chain_wf c).
Proof.
  intros Hs [_ H1 Hc _] [Hr _]. pose proof (Hr _ H1) as Hb. split; [eapply st_inv_wf; [apply Hs|lia]|].
  intros Ec. rewrite Ec in Hc. destruct Hc as (got & Hi & _). eapply chain_inv_wf; [apply Hpars| |exact Hi|].
  - by destruct p.
  - pose proof (ci_links _ _ _ _ _ _ Hi) as Hl. pose proof (side_keys _ _ _ Hs) as [Hk _]. rewrite len_fmap in Hl.
    pose proof (emitted_range (st sd)). lia.
Qed.

Lemma Clone_ok H p sd s :
  side_inv auth H p sd -> state_inv p sd s -> roomy s -> Clone s = Some (state_reset s).
Proof.
  intros Hs Hi Hr. pose proof (fun c => state_parts H p sd s c Hs Hi Hr) as Hp. unfold Clone, state_reset.
  rewrite (sti_v1 _ _ _ Hi). rewrite deserializeV1States_serialize by apply (Hp (mkChain DirectionA2B 0 0 [] zero32 (pars p))).
  cbn [mbind res_bind mret res_ret]. destruct (chain s) as [c|]; [|done].
  by rewrite deserializeChain_serialize by (by apply (Hp c)).
Qed.

(** *** Counters *)

(** How far the chain of a state has got in an epoch. *)
Definition sent_to (s : State) (e : Z) : Z := from_option (fun c => sctr c e) 0 (chain s).
Definition received_to (s : State) (e : Z) : Z := from_option (fun c => rctr c e) 0 (chain s).

(** The epoch before the one it sends in is kept. *)
Definition low_ok (s : State) : Prop := forall c, chain s = Some c -> low c <= Z.max 0 (sendEpoch c - 1).

(** Sending in epoch [e] used the number [idx], the next one; the counters of
    the later epochs, and those of the receiving direction from the epoch
    before on, are as they were. *)
Record send_counts (s s2 : State) (e idx : Z) : Prop := {
  sc_idx : (idx = 0 /\ sent_to s2 e = sent_to s e) \/ (1 <= idx /\ idx = sent_to s e + 1 /\ sent_to s2 e = idx);
  sc_later e' : e < e' -> sent_to s2 e' = sent_to s e';
  sc_recv e' : 0 <= e' -> e - 1 <= e' -> received_to s2 e' = received_to s e';
  sc_max n : 0 <= n -> (forall e', sent_to s e' <= n) -> forall e', sent_to s2 e' <= n + 1;
  sc_low : low_ok s2
}.

Lemma add_secret_counters d p ss got c k c' :
  chain_inv auth d p ss got c -> len ss + 1 < 2 ^ 63 -> add_secret k c = (c', Ok tt) ->
  low c' = low c /\ sendEpoch c' = sendEpoch c /\ forall e0, same_counters e0 c c'.
Proof.
  intros Hi Hb. destruct k as [k|]; cbn [add_secret].
  - intros E. eapply AddEpoch_counters; [exact E|]. destruct (ci_epoch _ _ _ _ _ _ Hi) as [-> ?]. pose proof (len_nonneg ss).
    unfold is_u64. lia.
  - intros [= <-]. done.
Qed.

(** *** Sending *)

Lemma quiet_send v t o t' sd : quiet v -> v1_send (v, t) = ((o, t'), Ok sd) -> quiet (send_state sd) /\ send_key sd = None.
Proof.
  intros Hq E. destruct v as [x|x|x|x|x|x|x|x|x|x|x]; try done; unfold v1_send in E.
  - destruct (keysUnsampled_sendHdrChunk x t) as [? [[? ?]| |]]; try done. by injection E as _ _ <-.
  - unfold v1_case, mbind, st_bind in E. destruct (keysSampled_sendHdrChunk x) as [? [[? ?]| |]]; try done. by injection E as _ _ <-.
  - by injection E as _ _ <-.
Qed.

Lemma wire_inv_grow p sd sd' msg salt :
  (forall m, m ∈ out sd -> m ∈ out sd') -> keys sd `prefix_of` keys sd' -> wire_inv p sd msg salt -> wire_inv p sd' msg salt.
Proof.
  intros Ho [ks Hk] (m & idx & Hm & -> & Hb & He & Hs). exists m, idx. split_and!; auto.
  - rewrite Hk, len_app. pose proof (len_nonneg ks). lia.
  - destruct Hs as [?|[? ->]]; [by left|right]. split; [done|]. unfold salt_of. do 3 f_equal.
    rewrite Hk, fmap_app. unfold okm_of. rewrite take_app_le; [done|]. rewrite length_fmap. unfold len in He. lia.
Qed.

Record chain_sent (c c' : Chain) (e idx : Z) : Prop := {
  cs_idx : idx = sctr c e + 1 /\ sctr c' e = idx;
  cs_later e' : e < e' -> sctr c' e' = sctr c e';
  cs_max n : 0 <= n -> (forall e', sctr c e' <= n) -> forall e', sctr c' e' <= n + 1;
  cs_low : low c <= Z.max 0 (sendEpoch c - 1) ->
    low c' <= Z.max 0 (sendEpoch c' - 1) /\ forall e', 0 <= e' -> e - 1 <= e' -> rctr c' e' = rctr c e'
}.

Lemma sctr_bound c e n : (forall l, l ∈ links c -> ctr (send l) < n) -> 0 < n -> sctr c e < n.
Proof.
  intros Hl Hn. unfold sctr, link_of. destruct (_ <=? _); [|done]. destruct (links c !! _) as [l|] eqn:El; [|done].
  apply list_elem_of_lookup_2 in El. by apply Hl.
Qed.

Lemma chain_send_ok d p ss got c k e :
  wf_params p -> chain_inv auth d p ss got c -> len ss + 1 < 2 ^ 63 -> (forall k', k = Some k' -> sec_epoch k' = len ss + 1) ->
  1 <= e < 2 ^ 64 -> sendEpoch c <= e - 1 <= len (ss ++ (secret <$> to_list k)) ->
  (forall l, l ∈ links c -> ctr (send l) < 2 ^ 31 - 1) ->
  exists c' idx, (_ ← add_secret k; _ ← st_check (e =? 0) SpqrErrEpochOutOfRange; SendKey (u64 (e - 1))) c =
      (c', Ok (idx, vec_to_list (key_at (seed_out d (okm_of auth (ss ++ (secret <$> to_list k)) (e - 1))) idx))) /\
    chain_inv auth d p (ss ++ (secret <$> to_list k)) got c' /\ sendEpoch c' = e - 1 /\ 1 <= idx < 2 ^ 31 /\
    chain_sent c c' (e - 1) idx.
Proof.
  intros Hp Hi Hb Hk He Hse Hc. destruct (add_secret_ok d p ss got c k Hp Hi Hb Hk) as (c1 & E1 & Hi1 & Hs1 & Hl1).
  assert (forall l, l ∈ links c1 -> ctr (send l) < 2 ^ 31 - 1) as Hc1.
  { intros l Hl. destruct (Hl1 l Hl) as [?| ->]; [auto|lia]. }
  destruct (SendKey_ok _ _ _ _ _ _ (e - 1) Hi1) as (l & c' & Hl & E & Hi' & Hs' & _).
  { rewrite Hs1. lia. }
  { lia. }
  { intros l Hl. specialize (Hc1 l Hl). unfold MaxUint32. lia. }
  exists c', (ctr (send l) + 1). rewrite (st_bind_run _ _ _ _ _ E1). rewrite st_bind_check by (apply Z.eqb_neq; lia).
  rewrite u64_id by (unfold is_u64; lia). cbv zeta in E. rewrite E. split_and!; [done|done|done| | |].
  - destruct (ci_link _ _ _ _ _ _ Hi1 _ _ Hl) as ([? _] & _). lia.
  - apply list_elem_of_lookup_2, Hc1 in Hl. lia.
  - destruct (add_secret_counters _ _ _ _ _ _ _ Hi Hb E1) as (Hlow1 & Hse1 & Hsame1).
    pose proof (sctr_bound c1 (e - 1) _ Hc1 ltac:(lia)) as Hsb.
    assert (sctr c1 (e - 1) < MaxUint32) as Hsm by (unfold MaxUint32; lia). rewrite <- Hs1 in Hse.
    destruct (SendKey_counters _ _ _ _ _ _ (e - 1) c' _ _ Hi1 Hse ltac:(lia) Hsm E) as (N1 & N2 & _ & N4 & N5 & Nm & N6 & N7).
    destruct (Hsame1 (e - 1) (e - 1) ltac:(lia)) as [Hsc _]. split; [by rewrite <- Hsc| | |].
    + intros e' He'. destruct (N4 e' ltac:(lia)) as [-> _]. by apply (Hsame1 e').
    + intros n Hn Hle e'. destruct (Hsame1 e' e' (Z.le_refl _)) as [Hs1' _]. specialize (Hle e') as Hle'.
      destruct (Nm e') as [->|[->| ->]]; [|lia|lia]. rewrite N2, N1, Hsc. specialize (Hle (e - 1)). lia.
    + intros Hlo. rewrite N6, N7, Hse1, Hlow1. pose proof (ci_send _ _ _ _ _ _ Hi1) as Hcs.
      assert ((if sendEpoch c =? e - 1 then low c else Z.max (low c) (e - 1 - 1)) <= Z.max 0 (e - 1 - 1)) as Hb2.
      { destruct (Z.eqb_spec (sendEpoch c) (e - 1)); lia. }
      split; [done|]. intros e' H0 He'. rewrite N5 by (rewrite N7, Hse1, Hlow1; lia). by apply (Hsame1 e').
Qed.

(** What a successful step of a party gives. *)
Record stepped (p : bool) (sd sd' : side) (H : hist) (sd1 : side) (s1 : State) : Prop := {
  stp_joint : joint auth H p sd1 sd';
  stp_state : state_inv p sd1 s1;
  stp_out : forall m, m ∈ out sd -> m ∈ out sd1;
  stp_keys : keys sd `prefix_of` keys sd1
}.

Lemma to_list_prefix (ks : list epochSecret) k : ks `prefix_of` ks ++ to_list k.
Proof. by eexists. Qed.

Lemma state_eta (s s' : State) :
  version s = version s' -> v1 s = v1 s' -> chain s = chain s' -> negotiation s = negotiation s' -> s = s'.
Proof. destruct s, s'. cbn. congruence. Qed.

(** The machine's part of [Send]. *)
Lemma Send_machine s v (t : tape) old t' sd :
  version s = VersionV1 -> v1 s = Some v -> v1_send (v, t) = ((old, t'), Ok sd) ->
  Send (s, t) =
    (chain ← st_fst chainForSend;
     '(idx, msgKey) ← st_fst
       match chain with
       | Some c =>
           on_chain (
             _ ← add_secret (send_key sd);
             _ ← st_check (msg_epoch (send_msg sd) =? 0) SpqrErrEpochOutOfRange;
             SendKey (u64 (msg_epoch (send_msg sd) - 1))) c
       | None => _ ← st_check (bool_decide (is_Some (send_key sd))) SpqrErrChainNotAvailable; mret (0, [])
       end;
     _ ← st_fst (st_modify (set_v1 (send_state sd)));
     mret (v1Message_serialize (send_msg sd) idx, msgKey)) (set_v1 old s, t').
Proof.
  intros Hv H1 E. unfold Send. rewrite (st_bind_run _ _ _ (s, t) s) by done. rewrite H1, Hv.
  cbn [Z.eqb VersionV1 VersionDisabled]. rewrite (st_bind_run _ _ _ (set_v1 old s, t') sd); [done|].
  unfold on_v1. by rewrite E.
Qed.

(** The rest of [Send] once there is a chain. *)
Lemma Send_chain p sd s c got snt (t : tape) :
  let e := v1_epoch (st sd) in
  let ks := keys sd ++ to_list (send_key snt) in
  version s = VersionV1 -> (forall vn, negotiation s = Some vn -> vn = initial_negotiation p) ->
  chain_inv auth (dir_of p) (pars p) (secret <$> keys sd) got c -> sendEpoch c <= e - 1 ->
  (forall l, l ∈ links c -> ctr (send l) < 2 ^ 31 - 1) ->
  (forall k', send_key snt = Some k' -> sec_epoch k' = len (keys sd) + 1) ->
  msg_epoch (send_msg snt) = e -> v1_epoch (send_state snt) = e -> 1 <= e < 2 ^ 31 -> e - 1 <= len ks -> len (keys sd) <= e ->
  exists s2 idx,
    ('(idx, msgKey) ← st_fst
       (on_chain (
          _ ← add_secret (send_key snt);
          _ ← st_check (msg_epoch (send_msg snt) =? 0) SpqrErrEpochOutOfRange;
          SendKey (u64 (msg_epoch (send_msg snt) - 1))) c);
     _ ← st_fst (st_modify (set_v1 (send_state snt)));
     mret (v1Message_serialize (send_msg snt) idx, msgKey)) (s, t) =
    ((s2, t), Ok (v1Message_serialize (send_msg snt) idx, salt_of p ks (send_msg snt) idx)) /\
    1 <= idx < 2 ^ 31 /\
    state_inv p (mkSide (send_state snt) (out sd ++ [send_msg snt]) ks) s2 /\
    exists c', chain s2 = Some c' /\ chain_sent c c' (e - 1) idx.
Proof.
  intros e ks Hv Hn Hi Hse Hl Hk Hm He Hb Hks Hks0.
  assert (len (secret <$> keys sd) = len (keys sd)) as Hf by apply len_fmap.
  destruct (chain_send_ok (dir_of p) (pars p) (secret <$> keys sd) got c (send_key snt) e) as (c' & idx & E & Hi' & Hs' & Hidx1 & Hcnt).
  { apply Hpars. } { done. } { lia. } { intros k' Hk'. rewrite Hf. auto. } { lia. }
  { split; [done|]. rewrite <- fmap_app, len_fmap. done. } { done. }
  exists (set_v1 (send_state snt) (set_chain c' s)), idx. split_and!; [|lia|lia| |by eexists].
  - rewrite (st_bind_run _ _ _ (set_chain c' s, t) (idx, salt_of p ks (send_msg snt) idx)); [done|].
    unfold st_fst, on_chain. rewrite Hm, E. unfold salt_of, ks. by rewrite fmap_app, Hm.
  - rewrite <- fmap_app in Hi'. split; cbn; [done|done| |done]. exists got. split; [done|]. rewrite He. lia.
Qed.

(** A send that succeeds: the message is on the wire with its salt, and what it
    steps to. *)
Definition sends_well (p : bool) (sd sd' : side) (s : State) (t : tape) : Prop :=
  exists s2 t' msg salt, Send (s, t) = ((s2, t'), Ok (msg, salt)) /\
    exists H2 sd2 m idx, stepped p sd sd' H2 sd2 s2 /\ wire_at p sd2 m idx msg salt /\
      msg_epoch m = v1_epoch (st sd) /\ v1_epoch (st sd2) = v1_epoch (st sd) /\
      (low_ok s -> send_counts s s2 (msg_epoch m - 1) idx).

(** The side after the machine has sent, and what is known about it. *)
Definition side_sent (sd : side) (snt : v1Send) : side :=
  mkSide (send_state snt) (out sd ++ [send_msg snt]) (keys sd ++ to_list (send_key snt)).

Lemma side_sent_inv H H' p sd sd' t old t' snt :
  joint auth H p sd sd' -> v1_send (st sd, t) = ((old, t'), Ok snt) -> sent auth H H' p (st sd) snt ->
  exists H2, joint auth H2 p (side_sent sd snt) sd' /\ (forall s2, state_inv p (side_sent sd snt) s2 -> stepped p sd sd' H2 (side_sent sd snt) s2) /\
    msg_epoch (send_msg snt) = v1_epoch (st sd) /\ v1_epoch (send_state snt) = v1_epoch (st sd) /\
    1 <= v1_epoch (st sd) /\ v1_epoch (st sd) - 1 <= len (keys sd ++ to_list (send_key snt)) /\ len (keys sd) <= v1_epoch (st sd) /\
    forall k', send_key snt = Some k' -> sec_epoch k' = len (keys sd) + 1.
Proof.
  intros Hj E Hs. pose proof (jt_a _ _ _ _ _ Hj) as Hsd. destruct (joint_send auth H p sd sd' t old t' snt Hj E) as [H2 Hj2].
  destruct (sent_epoch _ _ _ _ _ _ Hs) as [Hm He]. pose proof (si_st _ _ _ _ Hsd) as (Hge & _).
  pose proof (reported_epoch H2 p _ _ _ _ (jt_a _ _ _ _ _ Hj2)) as Hrep.
  pose proof (side_keys _ _ _ (jt_a _ _ _ _ _ Hj2)) as [Hlen _]. cbn [keys st side_sent] in Hlen.
  pose proof (side_keys _ _ _ Hsd) as [Hlen0 _]. pose proof (emitted_range (st sd)). pose proof (emitted_range (send_state snt)).
  exists H2. split; [exact Hj2|]. split.
  { intros s2 Hs2. split; [exact Hj2|done|set_solver|apply to_list_prefix]. }
  split_and!; try done; try lia.
Qed.

(** [Send] once it has a chain [c], which counts as the state did. *)
Lemma send_with_chain H H' p sd sd' s (t : tape) old t' snt s0 c got :
  joint auth H p sd sd' -> state_inv p sd s -> roomy s ->
  v1_send (st sd, t) = ((old, t'), Ok snt) -> sent auth H H' p (st sd) snt ->
  version s0 = VersionV1 -> negotiation s0 = negotiation s ->
  chain_inv auth (dir_of p) (pars p) (secret <$> keys sd) got c -> sendEpoch c <= v1_epoch (st sd) - 1 ->
  (forall l, l ∈ links c -> ctr (send l) < 2 ^ 31 - 1) ->
  (low_ok s -> low c <= Z.max 0 (sendEpoch c - 1)) -> (forall e, sctr c e = sent_to s e /\ rctr c e = received_to s e) ->
  chainForSend (set_v1 old s) = (s0, Ok (Some c)) -> sends_well p sd sd' s t.
Proof.
  intros Hj Hst Hr E Hs Hv0 Hn0 Hi Hse Hl Hlow Hctr Ec. pose proof (proj1 Hr _ (sti_v1 _ _ _ Hst)) as Hb.
  destruct (side_sent_inv _ _ _ _ _ _ _ _ _ Hj E Hs) as (H2 & Hj2 & Hstep & Hm & He & Hge & Hlen & Hlen0 & Hk).
  unfold sends_well. rewrite (Send_machine s (st sd) t old t' snt (sti_version _ _ _ Hst) (sti_v1 _ _ _ Hst) E).
  rewrite (st_bind_run _ _ _ (s0, t') (Some c)) by (unfold st_fst; by rewrite Ec).
  destruct (Send_chain p sd s0 c got snt t') as (s2 & idx & Es & Hidx & Hi2 & c' & Hc' & [Cidx Clater Cmax Clow]); try done; try lia.
  { rewrite Hn0. apply (sti_neg _ _ _ Hst). }
  exists s2, t'. do 2 eexists. split; [exact Es|]. exists H2, (side_sent sd snt), (send_msg snt), idx. split; [by apply Hstep|].
  split; [|split; [done|split; [done|]]].
  - split_and!; [set_solver|done|lia|unfold side_sent; cbn [keys]; lia|by right].
  - intros Hlo. destruct (Clow (Hlow Hlo)) as [Cl1 Cl2]. rewrite Hm. destruct (Hctr (v1_epoch (st sd) - 1)) as [Hc1 _].
    assert (forall e, sent_to s2 e = sctr c' e /\ received_to s2 e = rctr c' e) as Hx
      by (intros e; unfold sent_to, received_to; by rewrite Hc').
    split.
    + right. rewrite (proj1 (Hx _)), <- Hc1. split; [lia|done].
    + intros e' He'. rewrite (proj1 (Hx _)), Clater by done. apply Hctr.
    + intros e' Hpos He'. rewrite (proj2 (Hx _)), Cl2 by done. apply Hctr.
    + intros n Hn Hle e'. rewrite (proj1 (Hx _)). apply Cmax; [done|]. intros e1. by rewrite (proj1 (Hctr _)).
    + intros c0 Hc0. rewrite Hc' in Hc0. by injection Hc0 as <-.
Qed.

(** [Send] without a chain, while none is required. *)
Lemma send_without_chain H H' p sd sd' s (t : tape) old t' snt :
  joint auth H p sd sd' -> state_inv p sd s -> roomy s ->
  v1_send (st sd, t) = ((old, t'), Ok snt) -> sent auth H H' p (st sd) snt -> chain s = None ->
  chainForSend (set_v1 old s) = (set_v1 old s, Ok None) -> sends_well p sd sd' s t.
Proof.
  intros Hj Hst Hr E Hs Ec Ecs. pose proof (proj1 Hr _ (sti_v1 _ _ _ Hst)) as Hb. pose proof (sti_chain _ _ _ Hst) as Hc. rewrite Ec in Hc.
  destruct Hc as (Hk0 & He1 & Hq & Hn). destruct (quiet_send _ _ _ _ _ Hq E) as [Hq2 Hnk].
  destruct (side_sent_inv _ _ _ _ _ _ _ _ _ Hj E Hs) as (H2 & Hj2 & Hstep & Hm & He & Hge & Hlen & Hlen0 & _).
  unfold sends_well. rewrite (Send_machine s (st sd) t old t' snt (sti_version _ _ _ Hst) (sti_v1 _ _ _ Hst) E).
  rewrite (st_bind_run _ _ _ (set_v1 old s, t') None) by (unfold st_fst; by rewrite Ecs). rewrite Hnk.
  do 4 eexists. split; [reflexivity|]. exists H2, (side_sent sd snt), (send_msg snt), 0. split_and!; [| |done|done|].
  - apply Hstep. split; cbn [set_v1 version v1 chain negotiation]; [apply (sti_version _ _ _ Hst)|done| |apply (sti_neg _ _ _ Hst)].
    rewrite Ec. cbn [side_sent keys st]. rewrite Hnk, Hk0, He. by split_and!.
  - split_and!; [set_solver|done|lia|unfold side_sent; cbn [keys]; lia|left]. split_and!; [done|lia|done].
  - intros Hlo. split; [by left|done|done| |exact Hlo]. intros n Hn0 Hle e'. specialize (Hle e'). unfold sent_to in *. cbn. lia.
Qed.

Lemma Send_inv H p sd sd' s (t : tape) :
  joint auth H p sd sd' -> state_inv p sd s -> roomy s ->
  sends_well p sd sd' s t \/ (length t < 64)%nat /\ is_ok (snd (Send (s, t))) = false.
Proof.
  intros Hj Hst Hr. pose proof (sti_v1 _ _ _ Hst) as H1. pose proof (sti_version _ _ _ Hst) as Hv.
  destruct (v1_send_inv auth H p (st sd) t (si_st _ _ _ _ (jt_a _ _ _ _ _ Hj))) as [(H' & old & t' & snt & E & Hs)|[Ht Hf]].
  2:{ right. split; [done|]. unfold Send. rewrite (st_bind_run _ _ _ (s, t) s) by done. rewrite H1, Hv.
      cbn [Z.eqb VersionV1 VersionDisabled]. unfold mbind, st_bind, on_v1 at 1.
      destruct (v1_send (st sd, t)) as [[old t'] [r| |]]; done. }
  left. pose proof (sti_chain _ _ _ Hst) as Hc. destruct (chain s) as [c|] eqn:Ec.
  - destruct Hc as (got & Hi & Hse). apply (send_with_chain H H' p sd sd' s t old t' snt (set_v1 old s) c got); try done.
    + intros l. by apply (proj2 Hr).
    + intros Hlo. by apply Hlo.
    + intros e. unfold sent_to, received_to. by rewrite Ec.
    + unfold chainForSend. rewrite (st_bind_run _ _ _ (set_v1 old s) (set_v1 old s)) by done. cbn [set_v1 chain]. by rewrite Ec.
  - destruct Hc as (Hk0 & He1 & Hq & Hn).
    assert (chainForSend (set_v1 old s) = (if mins p <=? VersionDisabled then mret None
        else c ← st_lift (chainFromNegotiation (initial_negotiation p)); _ ← st_modify (set_chain c); mret (Some c)) (set_v1 old s)) as Ecs.
    { unfold chainForSend. rewrite (st_bind_run _ _ _ (set_v1 old s) (set_v1 old s)) by done. cbn [set_v1 chain negotiation].
      by rewrite Ec, Hn. }
    destruct (mins p <=? VersionDisabled); [by apply (send_without_chain H H' p sd sd' s t old t' snt)|].
    destruct (NewChain_ok auth (dir_of p) (pars p)) as (c & Enew & Hi); [apply Hpars|].
    apply (send_with_chain H H' p sd sd' s t old t' snt (set_chain c (set_v1 old s)) c (fun _ => ∅)); try done.
    + by rewrite Hk0.
    + pose proof (ci_send _ _ _ _ _ _ Hi) as Hse. rewrite len_nil in Hse. lia.
    + intros l Hl. rewrite (NewChain_links _ _ _ _ Enew Hl). lia.
    + intros _. destruct (NewChain_counters _ _ _ _ Enew) as (-> & -> & _). lia.
    + intros e. unfold sent_to, received_to. rewrite Ec. by apply (NewChain_counters _ _ _ _ Enew).
    + rewrite Ecs. unfold chainFromNegotiation, initial_negotiation. cbn [authKey direction chainParams].
      by rewrite (st_bind_lift _ _ _ _ Enew).
Qed.

(** *** Receiving *)

(** The refusals of the receiving chain: the number was used, is too far
    behind or too far ahead, or its epoch is no longer kept. *)
Definition refusals : list error :=
  [SpqrErrKeyAlreadyRequested; SpqrErrKeyTrimmed; SpqrErrKeyJump; SpqrErrEpochOutOfRange].

Ltac refused := clear; unfold refusals; set_solver.

Lemma chain_recv_ok p ss got c k e idx :
  let ss' := ss ++ (secret <$> to_list k) in
  chain_inv auth (dir_of p) (pars p) ss got c -> len ss + 1 < 2 ^ 63 -> (forall k', k = Some k' -> sec_epoch k' = len ss + 1) ->
  1 <= e < 2 ^ 64 -> 0 <= idx < 2 ^ 31 ->
  exists c' r got', (_ ← add_secret k;
      if negb (u64 (e - 1) =? 0) || negb (idx =? 0) then RecvKey (u64 (e - 1)) idx else mret []) c = (c', r) /\
    chain_inv auth (dir_of p) (pars p) ss' got' c' /\ sendEpoch c' = sendEpoch c /\
    match r with
    | Ok salt => (e = 1 /\ idx = 0 /\ salt = []) \/
        (e - 1 <= len ss' /\ (e <> 1 \/ idx <> 0) /\
         salt = vec_to_list (key_at (seed_out (dir_of (negb p)) (okm_of auth ss' (e - 1))) idx))
    | Err er => er ∈ refusals /\ (e <> 1 \/ idx <> 0)
    | Panic => False
    end.
Proof.
  intros ss' Hi Hb Hk He Hx. destruct (Hpars p) as [Hp _].
  destruct (add_secret_ok (dir_of p) (pars p) ss got c k Hp Hi Hb Hk) as (c1 & E1 & Hi1 & Hs1 & _). fold ss' in Hi1.
  rewrite (st_bind_run _ _ _ _ _ E1), u64_id by (unfold is_u64; lia).
  destruct (negb (e - 1 =? 0) || negb (idx =? 0)) eqn:Ec.
  2:{ exists c1, (Ok []), got. apply orb_false_iff in Ec as [E2%negb_false_iff%Z.eqb_eq E3%negb_false_iff%Z.eqb_eq].
      split_and!; [done|done|done|]. left. split_and!; [lia|lia|done]. }
  assert (e <> 1 \/ idx <> 0) as Hne.
  { apply orb_true_iff in Ec as [E2%negb_true_iff%Z.eqb_neq|E2%negb_true_iff%Z.eqb_neq]; lia. }
  destruct (decide (kept ss' c1 (e - 1))) as [Hkept|Hkept].
  - destruct (RecvKey_ok _ _ _ _ _ _ (e - 1) idx Hp Hi1) as (l & c' & _ & Er & _ & Hi'); [lia|done|lia|by apply maxOOO_room|].
    pose proof (RecvKey_send _ _ _ _ _ Er) as Hs'. do 3 eexists. split; [exact Er|]. split; [exact Hi'|]. split; [congruence|].
    unfold window. assert (seed_in (dir_of p) = seed_out (dir_of (negb p))) as -> by by destruct p.
    destruct Hkept as [_ Hle].
    destruct (_ >? _); [destruct (_ >? _)|destruct (_ <? _); [|case_bool_decide]]; cbn [mbind res_bind mret res_ret];
      [split; [refused|done]|by right|split; [refused|done]|split; [refused|done]|by right].
  - pose proof (RecvKey_err _ _ _ _ _ _ (e - 1) idx Hi1 ltac:(lia) Hkept) as Er. do 3 eexists.
    split; [exact Er|]. split; [exact Hi1|]. split; [done|]. split; [refused|done].
Qed.

(** [Receive] up to the chain: the machine takes the message, and there is a
    chain to ask for the key. *)
Lemma Receive_chain H p sd sd' s m idx msg salt :
  joint auth H p sd sd' -> state_inv p sd s -> roomy s -> wire_at (negb p) sd' m idx msg salt ->
  exists old rv c got, let sd2 := mkSide (recv_state rv) (out sd) (keys sd ++ to_list (recv_key rv)) in
    Receive msg s =
      (let '(c', r) := (_ ← add_secret (recv_key rv);
          if negb (u64 (msg_epoch m - 1) =? 0) || negb (idx =? 0) then RecvKey (u64 (msg_epoch m - 1)) idx else mret []) c in
       let s1 := match chain s with Some _ => set_chain c' (set_v1 old s) | None => set_v1 old s end in
       match r with
       | Ok k => (set_negotiation None (set_chain c' (set_v1 (recv_state rv) s1)), Ok k)
       | Err e => (s1, Err e)
       | Panic => (s1, Panic)
       end) /\
    joint auth H p sd2 sd' /\ (forall k', recv_key rv = Some k' -> sec_epoch k' = len (secret <$> keys sd) + 1) /\
    chain_inv auth (dir_of p) (pars p) (secret <$> keys sd) got c /\ sendEpoch c <= v1_epoch (st sd) - 1 /\
    v1_epoch (st sd) <= v1_epoch (recv_state rv) /\ len (secret <$> keys sd) <= v1_epoch (st sd) /\ v1_epoch (st sd) < 2 ^ 31 /\
    1 <= msg_epoch m < 2 ^ 32 /\ 0 <= idx < 2 ^ 31 /\ msg_epoch m <= v1_epoch (st sd') /\
    (forall e, sctr c e = sent_to s e /\ rctr c e = received_to s e) /\ (low_ok s -> low c <= Z.max 0 (sendEpoch c - 1)).
Proof.
  intros Hj Hst Hr (Hm & -> & Hmb & Hme & Hsalt).
  pose proof (sti_v1 _ _ _ Hst) as H1. pose proof (sti_version _ _ _ Hst) as Hv. pose proof (proj1 Hr _ H1) as Hb.
  rewrite (Receive_machine s (st sd) _ Hv H1 (msgVersion_serialize m idx)). unfold receive_message.
  destruct (si_out _ _ _ _ (jt_b _ _ _ _ _ Hj) m Hm) as (Mi & Mle & _). pose proof Mi as (Hm1 & _).
  assert (0 <= idx < 2 ^ 31) as Hidx by (destruct Hsalt as [(-> & _)|[? _]]; lia).
  pose proof (deserializeV1Message_serialize m idx []) as Hd. rewrite app_nil_r in Hd.
  rewrite Hd; [|apply (msg_inv_wf H); [done|lia]|unfold is_u32; lia]. clear Hd.
  destruct (joint_recv auth H p sd sd' m Hj Hm) as (old & rv & E & Hmono & Hj2); [lia|]. rewrite E. cbn [msg_epoch received].
  rewrite (proj2 (Z.eqb_neq _ _)) by lia.
  pose proof (reported_epoch H p _ _ _ _ (jt_a _ _ _ _ _ Hj2)) as Hrep.
  pose proof (side_keys _ _ _ (jt_a _ _ _ _ _ Hj)) as [Hlen0 _]. pose proof (emitted_range (st sd)) as Hem.
  pose proof (sti_chain _ _ _ Hst) as Hc. assert (len (secret <$> keys sd) = len (keys sd)) as Hf by apply len_fmap.
  assert (exists got c, chainForRecv (set_v1 old s) = Ok c /\ sendEpoch c <= v1_epoch (st sd) - 1 /\
    chain_inv auth (dir_of p) (pars p) (secret <$> keys sd) got c /\
    (forall e, sctr c e = sent_to s e /\ rctr c e = received_to s e) /\ (low_ok s -> low c <= Z.max 0 (sendEpoch c - 1)))
    as (got & c & Ec & Hse & Hi & Hctr & Hlow).
  { unfold chainForRecv, sent_to, received_to, low_ok. cbn [set_v1 chain negotiation]. destruct (chain s) as [c|].
    - destruct Hc as (got & Hi & Hse). exists got, c. split_and!; auto.
    - destruct Hc as (-> & -> & _ & ->). destruct (NewChain_ok auth (dir_of p) (pars p)) as (c & Enew & Hi); [apply Hpars|].
      destruct (NewChain_counters _ _ _ _ Enew) as (Hl0 & Hs0 & Hz0).
      exists (fun _ => ∅), c. split_and!; [done|lia|done|done|lia]. }
  rewrite Ec. exists old, rv, c, got. cbv zeta. split; [reflexivity|].
  split_and!; try done; try lia. intros k' Hk'. rewrite Hf. auto.
Qed.

(** The state after a message that was taken. *)
Lemma Receive_stepped H p sd sd' s rv old c' got' ss' :
  let sd2 := mkSide (recv_state rv) (out sd) (keys sd ++ to_list (recv_key rv)) in
  state_inv p sd s -> joint auth H p sd2 sd' -> ss' = secret <$> keys sd2 ->
  chain_inv auth (dir_of p) (pars p) ss' got' c' -> sendEpoch c' <= v1_epoch (recv_state rv) - 1 ->
  let s1 := match chain s with Some _ => set_chain c' (set_v1 old s) | None => set_v1 old s end in
  stepped p sd sd' H sd2 (set_negotiation None (set_chain c' (set_v1 (recv_state rv) s1))).
Proof.
  intros sd2 Hst Hj -> Hi Hse s1. split; [done| |done|apply to_list_prefix].
  split; [pose proof (sti_version _ _ _ Hst); by destruct (chain s)|done| |done]. cbn [set_negotiation set_chain chain]. by exists got'.
Qed.

Lemma Receive_inv H p sd sd' s msg salt :
  joint auth H p sd sd' -> state_inv p sd s -> roomy s -> wire_inv (negb p) sd' msg salt ->
  exists s2 r, Receive msg s = (s2, r) /\
    match r with
    | Ok salt' => salt' = salt /\ exists sd2, stepped p sd sd' H sd2 s2
    | Err er => er ∈ refusals /\ salt <> []
    | Panic => False
    end.
Proof.
  intros Hj Hst Hr (m & idx & Hw).
  destruct (Receive_chain H p sd sd' s m idx msg salt Hj Hst Hr Hw) as (old & rv & c & got & -> & Hj2 & Hrep & Hi & Hse & Hmono & Hlen & Hb & Hm1 & Hidx & _).
  destruct (chain_recv_ok p (secret <$> keys sd) got c (recv_key rv) (msg_epoch m) idx) as (c' & r & got' & Er & Hi' & Hs' & Hres);
    [done|lia|done|lia|done|]. destruct Hw as (_ & _ & _ & Hme & Hsalt).
  rewrite Er. rewrite <- fmap_app in Hi', Hres. destruct r as [salt'|er|]; [| |done]; do 2 eexists; (split; [reflexivity|]).
  - split; [|eexists; eapply Receive_stepped; [done|done|reflexivity|exact Hi'|lia]].
    destruct Hsalt as [(-> & Hm0 & ->)|[Hi0 ->]], Hres as [(Hr1 & Hr2 & ->)|(Hle & Hne & ->)]; [done|lia|lia|].
    unfold salt_of. rewrite len_fmap in Hle. do 3 f_equal. 
    apply (keys_agree H p _ sd' (msg_epoch m - 1) (jt_a _ _ _ _ _ Hj2) (jt_b _ _ _ _ _ Hj2)); [cbn [keys]; lia|done].
  - destruct Hres as [Hrf Hne]. split; [done|].
    destruct Hsalt as [(-> & Hm0 & _)|[_ ->]]; [lia|]. intros He%(f_equal length). unfold salt_of in He. by rewrite vec_list_length in He.
Qed.
(** *** The invariant of the network *)

Lemma joint_reset H p sa sb : joint auth H p sa sb -> joint auth H p (reset_side sa) sb.
Proof. apply joint_persist. Qed.

Lemma party_inv_step p sd sd' H2 sd2 s2 a sent :
  party_inv p sd a -> stepped p (reset_side sd) sd' H2 sd2 s2 -> (forall msg salt, (msg, salt) ∈ sent -> wire_inv p sd2 msg salt) ->
  party_inv p sd2 (mkParty s2 (psent a ++ sent)).
Proof.
  intros [_ Hse] [_ Hs Ho Hk] Hnew. split; [done|]. cbn [psent]. intros msg salt [Hin|Hin]%elem_of_app; [|auto].
  eapply wire_inv_grow; [exact Ho|exact Hk|]. by apply Hse.
Qed.

Lemma parties_send p a b s1 t s2 t' msg salt :
  parties_inv p a b -> roomy (ps a) -> Clone (ps a) = Some s1 -> Send (s1, t) = ((s2, t'), Ok (msg, salt)) ->
  parties_inv p (mkParty s2 (psent a ++ [(msg, salt)])) b.
Proof.
  intros (H & sa & sb & Hj & Ha & Hb) Hr Ec Es. rewrite (Clone_ok H p sa) in Ec; [|apply Hj|apply Ha|done].
  injection Ec as <-.
  destruct (Send_inv H p (reset_side sa) sb (state_reset (ps a)) t (joint_reset _ _ _ _ Hj)) as [(s3 & t3 & m3 & x3 & E3 & H2 & sd2 & m & idx & Hst & Hw & _)|[_ Hf]].
  - apply state_inv_reset, Ha.
  - by apply roomy_reset.
  - rewrite Es in E3. injection E3 as <- <- <- <-. exists H2, sd2, sb. split; [apply Hst|]. split; [|done].
    eapply party_inv_step; [exact Ha|exact Hst|]. intros ? ? [= -> ->]%list_elem_of_singleton. by exists m, idx.
  - by rewrite Es in Hf.
Qed.

Lemma parties_recv p a b msg salt :
  parties_inv p a b -> roomy (ps a) -> (msg, salt) ∈ psent b ->
  exists s1 s2 r, Clone (ps a) = Some s1 /\ Receive msg s1 = (s2, r) /\
    match r with
    | Ok salt' => salt' = salt /\ parties_inv p (mkParty s2 (psent a)) b
    | Err er => er ∈ refusals /\ salt <> []
    | Panic => False
    end.
Proof.
  intros (H & sa & sb & Hj & Ha & Hb) Hr Hm. exists (state_reset (ps a)).
  destruct (Receive_inv H p (reset_side sa) sb (state_reset (ps a)) msg salt (joint_reset _ _ _ _ Hj)) as (s2 & r & E & Hres).
  - apply state_inv_reset, Ha.
  - by apply roomy_reset.
  - by apply Hb.
  - exists s2, r. split; [eapply Clone_ok; [apply Hj|apply Ha|done]|]. split; [done|]. destruct r as [salt'|er|]; [|done|done].
    destruct Hres as (-> & sd2 & Hst). split; [done|]. exists H, sd2, sb. split; [apply Hst|]. split; [|done].
    rewrite <- (app_nil_r (psent a)). eapply party_inv_step; [exact Ha|exact Hst|]. by intros ? ? ?%not_elem_of_nil.
Qed.

(** The states of the protocol can be stored. *)
Lemma state_inv_state_wf H p sd sd' s :
  joint auth H p sd sd' -> state_inv p sd s -> roomy s -> (forall v, v1 s = Some v -> len (serializeV1States v) < 2 ^ 32) ->
  (forall c, chain s = Some c -> len (serializeChain c) < 2 ^ 32) -> state_wf s.
Proof.
  intros Hj Hst Hr Hl1 Hl2. pose proof (fun c => state_parts H p sd s c (jt_a _ _ _ _ _ Hj) Hst Hr) as Hp.
  destruct Hst as [Hv H1 Hc Hn]. split; [done| | |].
  - rewrite H1. split; [apply (Hp (mkChain DirectionA2B 0 0 [] zero32 (pars p)))|auto].
  - intros c Hc'. split; [by apply Hp|auto].
  - intros vn ->%Hn. cbn. split; [done|]. split; [by destruct p|]. split; [apply Hmins|apply Hpars].
Qed.

Lemma parties_load p a b s :
  parties_inv p a b -> roomy (ps a) -> (forall v, v1 (ps a) = Some v -> len (serializeV1States v) < 2 ^ 32) ->
  (forall c, chain (ps a) = Some c -> len (serializeChain c) < 2 ^ 32) ->
  DeserializeState (Serialize (Some (ps a))) = Ok (Some s) ->
  parties_inv p (mkParty s (psent a)) b.
Proof.
  intros (H & sa & sb & Hj & Ha & Hb) Hr Hl1 Hl2 E. pose proof (pi_state _ _ _ Ha) as Hst.
  rewrite SpqrState_roundtrip in E by (by eapply state_inv_state_wf).
  injection E as <-. exists H, (reset_side sa), sb. split; [by apply joint_reset|]. split; [|done].
  split; [by apply state_inv_reset|]. intros msg salt Hin. apply (pi_sent _ _ _ Ha) in Hin. exact Hin.
Qed.

Lemma parties_local p a b a' : parties_inv p a b -> party_step a b a' -> parties_inv p a' b.
Proof.
  intros Hi [s1 t s2 t' msg salt Hr Ec Es|s1 s2 msg salt salt' Hr Hm Ec Es|s Hr Hl1 Hl2 E].
  - by eapply parties_send.
  - destruct (parties_recv p a b msg salt Hi Hr Hm) as (s3 & s4 & r & Ec' & Er & Hres). rewrite Ec in Ec'. injection Ec' as <-.
    rewrite Es in Er. injection Er as <- <-. by destruct Hres.
  - by eapply parties_load.
Qed.

Lemma parties_sym p a b : parties_inv p a b -> parties_inv (negb p) b a.
Proof.
  intros (H & sa & sb & Hj & Ha & Hb). exists H, sb, sa. split; [by apply joint_sym|]. split; [done|]. by rewrite negb_involutive.
Qed.

Lemma parties_reach x y :
  rtc parties_step x y -> parties_inv true (fst x) (snd x) -> parties_inv true (fst y) (snd y).
Proof.
  induction 1 as [|x y z Hs _ IH]; [done|]. intros Hi. apply IH. destruct Hs as [a b a' Hs|a b b' Hs]; cbn [fst snd] in *.
  - by eapply parties_local.
  - apply parties_sym in Hi. apply (parties_local _ _ _ _ Hi) in Hs. by apply parties_sym in Hs.
Qed.

Lemma new_state_inv p s :
  NewStateWithMinVersion auth (dir_of p) (pars p) (mins p) = Ok s ->
  exists v, (if p then initV1StateA auth else initV1StateB auth) = Ok v /\
    (quiet v -> v1_epoch v = 1 -> state_inv p (mkSide v [] []) s).
Proof.
  unfold NewStateWithMinVersion. intros E. apply res_bind_ok in E as (? & _ & E). apply res_bind_ok in E as (? & _ & E).
  apply res_bind_ok in E as (v & Ev & E). apply Ok_inj in E as <-. exists v. split; [by destruct p|]. intros Hq He.
  split; cbn; [done|done|by split_and!|by intros ? [= <-]].
Qed.

Lemma init_quiet v :
  initV1StateA auth = Ok v \/ initV1StateB auth = Ok v -> quiet v /\ v1_epoch v = 1.
Proof.
  intros [E|E].
  - apply res_bind_ok in E as (uc & Eu & E). apply Ok_inj in E as <-. apply res_bind_ok in Eu as (? & _ & Eu).
    by apply Ok_inj in Eu as <-.
  - unfold initV1StateB in E. apply res_bind_ok in E as (uc & Eu & E). apply res_bind_ok in E as (d & _ & E). apply Ok_inj in E as <-.
    apply res_bind_ok in Eu as (? & _ & Eu). by apply Ok_inj in Eu as <-.
Qed.

Lemma parties_init sa sb :
  NewStateWithMinVersion auth DirectionA2B (pars true) (mins true) = Ok sa ->
  NewStateWithMinVersion auth DirectionB2A (pars false) (mins false) = Ok sb ->
  parties_inv true (mkParty sa []) (mkParty sb []).
Proof.
  intros Ea Eb. destruct (new_state_inv true sa Ea) as (va & Eva & Ha). destruct (new_state_inv false sb Eb) as (vb & Evb & Hb).
  destruct (init_quiet va (or_introl Eva)). destruct (init_quiet vb (or_intror Evb)).
  exists (mkHist ∅ ∅), (mkSide va [] []), (mkSide vb [] []). split; [by apply joint_init|].
  split; (split; [auto|]); by intros ? ? ?%not_elem_of_nil.
Qed.

End agreement.

(** ** Properties *)

(** The settings of the theorems: one authentication key, sensible windows,
    minimum versions that exist. *)
Definition settings (auth : bytes) (pars : bool -> ChainParams) (mins : bool -> Z) : Prop :=
  0 < len auth < 2 ^ 32 /\ (forall p, wf_params (pars p) /\ maxOOO (pars p) < 2 ^ 31) /\ (forall p, 0 <= mins p <= 1).

(** C21: agreement of the salts. Two parties start the post-quantum ratchet from
    the same authentication key, in opposite directions, each with its own
    window and minimum version. Each sends whenever it likes, is handed any
    message the other has ever sent, in any order, any number of times or never,
    and may be stored and loaded, every operation on a clone that is kept when
    it succeeds. Then in every configuration this can reach, receiving a message
    of the peer yields the very salt the peer was given when it sent the message,
    or is refused by the window of the chain (the number was used, is too far
    behind or ahead, its epoch is no longer kept). There is no other error and
    no panic. *)
Theorem spqr_salts_agree (P : Primitives) (M : MLKEM) auth pars mins sa sb a b msg salt :
  MLKEMLaws M -> settings auth pars mins ->
  NewStateWithMinVersion auth DirectionA2B (pars true) (mins true) = Ok sa ->
  NewStateWithMinVersion auth DirectionB2A (pars false) (mins false) = Ok sb ->
  rtc parties_step (mkParty sa [], mkParty sb []) (a, b) ->
  (roomy (ps b) -> (msg, salt) ∈ psent a ->
   exists s1, Clone (ps b) = Some s1 /\
     (snd (Receive msg s1) = Ok salt \/ exists e, e ∈ refusals /\ snd (Receive msg s1) = Err e)) /\
  (roomy (ps a) -> (msg, salt) ∈ psent b ->
   exists s1, Clone (ps a) = Some s1 /\
     (snd (Receive msg s1) = Ok salt \/ exists e, e ∈ refusals /\ snd (Receive msg s1) = Err e)).
Proof.
  intros HL (Hauth & Hpars & Hmins) Ea Eb Hr.
  pose proof (parties_reach auth pars mins Hpars Hmins Hauth _ _ Hr (parties_init auth pars mins sa sb Ea Eb)) as Hi.
  cbn [fst snd] in Hi. pose proof (parties_sym _ _ _ _ _ _ Hi) as Hi'.
  split; intros Hro Hm.
  - destruct (parties_recv _ _ _ Hpars _ _ _ _ _ Hi' Hro Hm) as (s1 & s2 & r & Ec & Er & Hres). exists s1. split; [done|].
    rewrite Er. cbn [snd]. destruct r; [left; by destruct Hres as [-> _]|right; destruct Hres; eauto|done].
  - destruct (parties_recv _ _ _ Hpars _ _ _ _ _ Hi Hro Hm) as (s1 & s2 & r & Ec & Er & Hres). exists s1. split; [done|].
    rewrite Er. cbn [snd]. destruct r; [left; by destruct Hres as [-> _]|right; destruct Hres; eauto|done].
Qed.

Definition demo_state (d : Direction) : State :=
  get_ok (mkState 0 None None None) (@NewState Toy.primitives demo_auth d (mkParams 0 0)).
Definition demo_sent : (State * tape) * res (bytes * bytes) :=
  @Send Toy.primitives ToyMlkem.mlkem (demo_state DirectionA2B, replicate 64 Byte.x01).
Definition demo_party_A : party := mkParty (fst (fst demo_sent)) [get_ok ([], []) (snd demo_sent)].

Lemma demo_settings : settings demo_auth (fun _ => mkParams 0 0) (fun _ => 0).
Proof. split; [done|]. split; [done|]. intros p. lia. Qed.

Lemma demo_roomy d : roomy (demo_state d).
Proof.
  assert (chain (demo_state d) = None) as Hc by (destruct d; vm_compute; reflexivity).
  assert (v1_epoch <$> v1 (demo_state d) = Some 1) as Hv by (destruct d; vm_compute; reflexivity).
  split; [|by rewrite Hc]. intros v Ev. rewrite Ev in Hv. injection Hv as ->. lia.
Qed.

Lemma demo_parties_step :
  let P := Toy.primitives in let M := ToyMlkem.mlkem in
  parties_step (mkParty (demo_state DirectionA2B) [], mkParty (demo_state DirectionB2A) [])
    (demo_party_A, mkParty (demo_state DirectionB2A) []).
Proof.
  intros P M. apply parties_left.
  assert (demo_sent = ((fst (fst demo_sent), snd (fst demo_sent)), Ok (get_ok ([], []) (snd demo_sent)))) as E.
  { rewrite <- ok_get by (vm_compute; reflexivity). by destruct demo_sent as [[? ?] ?]. }
  destruct (get_ok ([], []) (snd demo_sent)) as [msg salt] eqn:Em. unfold demo_party_A. rewrite Em.
  eapply (party_send (mkParty (demo_state DirectionA2B) []) _ (demo_state DirectionA2B)); [|reflexivity|exact E].
  apply demo_roomy.
Qed.

Lemma spqr_salts_agree_witness :
  let P := Toy.primitives in let M := ToyMlkem.mlkem in
  exists msg salt s1, psent demo_party_A = [(msg, salt)] /\ Clone (demo_state DirectionB2A) = Some s1 /\
    (snd (Receive msg s1) = Ok salt \/ exists e, e ∈ refusals /\ snd (Receive msg s1) = Err e).
Proof.
  intros P M. exists (fst (get_ok ([], []) (snd demo_sent))), (snd (get_ok ([], []) (snd demo_sent))).
  pose proof (demo_roomy DirectionB2A) as Hro.
  assert ((fst (get_ok ([], []) (snd demo_sent)), snd (get_ok ([], []) (snd demo_sent))) ∈ psent demo_party_A) as Hin.
  { rewrite <- surjective_pairing. by left. }
  destruct (proj1 (spqr_salts_agree P M demo_auth (fun _ => mkParams 0 0) (fun _ => 0) (demo_state DirectionA2B)
    (demo_state DirectionB2A) demo_party_A (mkParty (demo_state DirectionB2A) []) _ _ ToyMlkem.laws demo_settings eq_refl eq_refl
    (rtc_once _ _ demo_parties_step)) Hro Hin) as (s1 & Ec & Hs).
  exists s1. split; [|exact (conj Ec Hs)]. unfold demo_party_A. cbn [psent]. by rewrite <- surjective_pairing.
Defined.

(** C23: the post-quantum ratchet does not wedge. In every configuration two
    parties can reach over such a network, a party's state can be cloned, and
    with 64 bytes of randomness [Send] on the clone succeeds: whatever was lost
    or delayed, the ratchet always has a message to send. *)
Theorem spqr_send_total (P : Primitives) (M : MLKEM) auth pars mins sa sb a b (t : tape) :
  MLKEMLaws M -> settings auth pars mins ->
  NewStateWithMinVersion auth DirectionA2B (pars true) (mins true) = Ok sa ->
  NewStateWithMinVersion auth DirectionB2A (pars false) (mins false) = Ok sb ->
  rtc parties_step (mkParty sa [], mkParty sb []) (a, b) -> (64 <= length t)%nat ->
  (roomy (ps a) -> exists s1 s2 t' msg salt,
     Clone (ps a) = Some s1 /\ Send (s1, t) = ((s2, t'), Ok (msg, salt)) /\ msg <> []) /\
  (roomy (ps b) -> exists s1 s2 t' msg salt,
     Clone (ps b) = Some s1 /\ Send (s1, t) = ((s2, t'), Ok (msg, salt)) /\ msg <> []).
Proof.
  intros HL (Hauth & Hpars & Hmins) Ea Eb Hr Ht.
  pose proof (parties_reach auth pars mins Hpars Hmins Hauth _ _ Hr (parties_init auth pars mins sa sb Ea Eb)) as Hi.
  cbn [fst snd] in Hi. pose proof (parties_sym _ _ _ _ _ _ Hi) as Hi'.
  assert (forall p x y, parties_inv auth pars mins p x y -> roomy (ps x) -> exists s1 s2 t' msg salt,
     Clone (ps x) = Some s1 /\ Send (s1, t) = ((s2, t'), Ok (msg, salt)) /\ msg <> []) as Hgo; [|split; eauto].
  clear - HL Hpars Hmins Hauth Ht. intros p x y (H & sx & sy & Hj & Hx & _) Hro. exists (state_reset (ps x)).
  destruct (Send_inv auth pars mins Hpars Hmins Hauth H p (reset_side sx) sy (state_reset (ps x)) t (joint_reset _ _ _ _ _ Hj))
    as [(s2 & t' & msg & salt & E & H2 & sd2 & m & idx & _ & (_ & -> & _) & _)|[Hf _]].
  - apply state_inv_reset, Hx.
  - by apply roomy_reset.
  - do 4 eexists. split; [eapply Clone_ok; eauto using jt_a, pi_state|]. split; [exact E|].
    unfold v1Message_serialize. by destruct (hasChunk (kind (payload m))), (pl_chunk (payload m)).
  - lia.
Qed.

Lemma spqr_send_total_witness :
  let P := Toy.primitives in let M := ToyMlkem.mlkem in
  exists s1 s2 t' msg salt, Clone (demo_state DirectionB2A) = Some s1 /\
    Send (s1, replicate 64 Byte.x05) = ((s2, t'), Ok (msg, salt)) /\ msg <> [].
Proof.
  intros P M. pose proof (demo_roomy DirectionB2A) as Hro.
  apply (proj2 (spqr_send_total P M demo_auth (fun _ => mkParams 0 0) (fun _ => 0) (demo_state DirectionA2B)
    (demo_state DirectionB2A) demo_party_A (mkParty (demo_state DirectionB2A) []) (replicate 64 Byte.x05) ToyMlkem.laws demo_settings
    eq_refl eq_refl (rtc_once _ _ demo_parties_step) ltac:(rewrite length_replicate; lia)) Hro).
Defined.

(** The bytes of a peer that does not take part: no message, or version 0. *)
Definition no_ratchet (msg : bytes) : Prop := msg = [] \/ exists rest, msg = Byte.x00 :: rest.

(** C38: negotiation of the version. A message of an unknown version is ignored.
    Until the first message of the peer, a peer that does not take part turns
    the ratchet off for good (nothing is sent, nothing is stored) when the
    minimum version allows it, and is refused with [ErrMinimumVersion] when it
    does not. Once a message of version 1 has been received there is no way back:
    such a peer is refused with [ErrVersionMismatch]. A state that was turned off
    and not reloaded refuses every further message with
    [ErrChainNotAvailable]. *)
Theorem spqr_negotiation (P : Primitives) (M : MLKEM) s v vn (t : tape) b rest none msg s2 salt :
  version s = VersionV1 -> v1 s = Some v -> no_ratchet none ->
  let off := mkState VersionDisabled None None None in
  (2 <= b2z b -> Receive (b :: rest) s = (s, Ok [])) /\
  (negotiation s = Some vn -> minVersion vn = VersionDisabled -> Receive none s = (off, Ok [])) /\
  (negotiation s = Some vn -> minVersion vn = VersionV1 -> Receive none s = (s, Err SpqrErrMinimumVersion)) /\
  (Receive (Byte.x01 :: rest) s = (s2, Ok salt) ->
     negotiation s2 = None /\ Receive none s2 = (s2, Err SpqrErrVersionMismatch)) /\
  Send (off, t) = ((off, t), Ok ([], [])) /\ Serialize (Some off) = [] /\
  Receive msg off = (off, Err SpqrErrChainNotAvailable).
Proof.
  intros Hv H1 Hno off.
  assert (msgVersion none = Some VersionDisabled) as Hm by (destruct Hno as [->|[r ->]]; done).
  split_and!.
  - intros Hb. unfold Receive. rewrite (st_bind_run _ _ _ s s) by done. rewrite H1. unfold msgVersion.
    rewrite (proj2 (Z.eqb_neq _ _)), (proj2 (Z.eqb_neq _ _)) by (unfold VersionDisabled, VersionV1; lia). done.
  - intros Hn Hmin. unfold Receive. rewrite (st_bind_run _ _ _ s s) by done. rewrite H1, Hm, Hv, Hn. cbn. by rewrite Hmin.
  - intros Hn Hmin. unfold Receive. rewrite (st_bind_run _ _ _ s s) by done. rewrite H1, Hm, Hv, Hn. cbn. by rewrite Hmin.
  - intros E. assert (version s2 = VersionV1 /\ (exists v2, v1 s2 = Some v2) /\ negotiation s2 = None) as (Hv2 & [v2 H2] & Hn2).
    { rewrite (Receive_machine s v (Byte.x01 :: rest) Hv H1 eq_refl) in E. unfold receive_message in E. destruct (deserializeV1Message _) as [[[m i] n]| |]; [|done|done].
      destruct (v1_recv m v) as [old [rv| |]]; [|done|done]. destruct (_ =? 0); [done|].
      destruct (chainForRecv _) as [c| |]; [|done|done]. match type of E with (let '(_, _) := ?x in _) = _ => destruct x as [c' [k| |]] end; [|done|done].
      injection E as <- _. cbn [set_v1 chain]. split; [by destruct (chain s)|]. split; [by eexists|done]. }
    split; [done|]. unfold Receive. rewrite (st_bind_run _ _ _ s2 s2) by done. by rewrite H2, Hm, Hv2, Hn2.
  - done.
  - done.
  - done.
Qed.

Lemma spqr_negotiation_witness :
  let P := Toy.primitives in let M := ToyMlkem.mlkem in
  Receive [] (demo_state DirectionB2A) = (mkState VersionDisabled None None None, Ok []).
Proof.
  intros P M. pose (vn := mkNegotiation demo_auth DirectionB2A 0 (mkParams 0 0)).
  destruct (v1 (demo_state DirectionB2A)) as [v|] eqn:Ev; [|exfalso; by vm_compute in Ev].
  destruct (spqr_negotiation P M (demo_state DirectionB2A) v vn [] Byte.x02 [] [] [] (demo_state DirectionB2A) [] eq_refl Ev
    (or_introl eq_refl)) as (_ & H & _). exact (H eq_refl eq_refl).
Defined.

(** Persistence of the ratchet. A well-formed state, with or without a
    chain or a pending negotiation, of the current or of the older format,
    comes back from its bytes as it was, except that the encoders have
    forgotten the polynomials they had computed. No data makes
    [DeserializeState] panic. *)
Theorem spqr_state_roundtrip s data :
  state_wf s -> DeserializeState (Serialize (Some s)) = Ok (Some (state_reset s)) /\
  Serialize (Some (state_reset s)) = Serialize (Some s) /\ DeserializeState data <> Panic.
Proof.
  intros Hs. split; [by apply SpqrState_roundtrip|]. split; [|apply SpqrState_no_panic].
  destruct s as [ver [v|] c n]; [|done]. unfold Serialize, state_reset, state_flags. cbn [version v1 chain negotiation fmap option_fmap option_map].
  by destruct v.
Qed.

Lemma spqr_state_roundtrip_witness :
  let s := mkState VersionV1
    (Some (KeysUnsampled (mkKeysUnsampled (mkUKeysUnsampled 3 (mkAuth (replicate 32 Byte.x01) (replicate 32 Byte.x02))))))
    (Some (mkChain DirectionB2A 2 1 [] zero32 (mkParams 7 0)))
    (Some (mkNegotiation demo_auth DirectionB2A 1 (mkParams 7 0))) in
  DeserializeState (Serialize (Some s)) = Ok (Some s).
Proof.
  intros s. assert (state_wf s) as Hs.
  { split; cbn; [done|split; [by split|done]| |].
    - intros c [= <-]. split; [|done]. split; try done. by intros l ?%not_elem_of_nil.
    - intros vn [= <-]. by split_and!. }
  exact (proj1 (spqr_state_roundtrip s [] Hs)).
Defined.
