(* ===== verification/SpqrOrder.v ===== *)
(** * The post-quantum ratchet in a conversation

    When every message is handed over as soon as it is sent, nothing is ever
    refused: whoever sends, the peer gets the same salt, and the two states are
    in the same relation again. *)

From Stdlib Require Import ZArith Lia.
From Stdlib Require Import Strings.Byte.
From stdpp Require Import base gmap list list_numbers vector.
From S2P Require Import Prelude Crypto SpqrUtil SpqrChain SpqrChainProofs SpqrCounters SpqrMessage SpqrMlkem SpqrV1 SpqrV1Codec SpqrV1Proofs SpqrState SpqrStateProofs.
Import Crypto Util SpqrChain SpqrMessage SpqrMlkem SpqrV1 SpqrState.

Section order.
Context {HP : Primitives} {HM : MLKEM} {HL : MLKEMLaws HM}.
Context (auth : bytes) (pars : bool -> ChainParams) (mins : bool -> Z).
Context (Hset : settings auth pars mins).

#[local] Abbreviation joint := (joint auth).
#[local] Abbreviation state_inv := (state_inv auth pars mins).

(** A message of the peer's current epoch is never of an epoch whose secret is
    still missing. *)
Lemma emitted_enough H p sd sd' e : joint H p sd sd' -> e <= v1_epoch (st sd') -> e - 1 <= len (keys sd).
Proof.
  intros Hj He. destruct (side_keys auth H p sd (jt_a _ _ _ _ _ Hj)) as [-> _]. destruct (jt_ba _ _ _ _ _ Hj) as [C1 C2 _].
  destruct (st sd); cbn [emitted v1_epoch is_ct2] in *; try lia; destruct (decide (v1_epoch (st sd') <= uc2_epoch (cs2_uc st))); lia.
Qed.

#[local] Abbreviation Hpars := (proj1 (proj2 Hset)).
#[local] Abbreviation Hmins := (proj2 (proj2 Hset)).
#[local] Abbreviation Hauth := (proj1 Hset).

(** What receiving the next number of an epoch does to the counters. *)
Record chain_received (c c' : Chain) (e idx : Z) : Prop := {
  cr_idx : rctr c' e = if (e =? 0) && (idx =? 0) then rctr c e else idx;
  cr_other e' : e' <> e -> rctr c' e' = rctr c e';
  cr_send e' : sctr c' e' = sctr c e';
  cr_low : low c' = low c /\ sendEpoch c' = sendEpoch c
}.

Lemma maxJump_pos p : wf_params p -> 1 <= maxJump p.
Proof. intros [Hj _]. unfold maxJump, chainDefaultMaxJump, is_u32 in *. destruct (Z.eqb_spec (MaxJump p) 0); lia. Qed.

Lemma chain_recv_next p ss got c k e idx :
  let ss' := ss ++ (secret <$> to_list k) in
  chain_inv auth (dir_of p) (pars p) ss got c -> len ss + 1 < 2 ^ 63 -> (forall k', k = Some k' -> sec_epoch k' = len ss + 1) ->
  low c <= e - 1 <= len ss' -> 1 <= e < 2 ^ 64 -> idx < 2 ^ 31 ->
  (e = 1 /\ idx = 0) \/ (0 <= idx /\ idx = rctr c (e - 1) + 1) ->
  exists c' salt got', (_ ← add_secret k;
      if negb (u64 (e - 1) =? 0) || negb (idx =? 0) then RecvKey (u64 (e - 1)) idx else mret []) c = (c', Ok salt) /\
    chain_inv auth (dir_of p) (pars p) ss' got' c' /\ chain_received c c' (e - 1) idx.
Proof.
  intros ss' Hi Hb Hk Hlow He Hx Hidx. destruct (Hpars p) as [Hp Hooo].
  destruct (add_secret_ok auth (dir_of p) (pars p) ss got c k Hp Hi Hb Hk) as (c1 & E1 & Hi1 & _). fold ss' in Hi1.
  destruct (add_secret_counters auth _ _ _ _ _ _ _ Hi Hb E1) as (Hlow1 & Hse1 & Hsame).
  rewrite (st_bind_run _ _ _ _ _ E1), u64_id by (unfold is_u64; lia).
  assert (forall e', sctr c1 e' = sctr c e') as Hs1 by (intros e'; by destruct (Hsame e' e' (Z.le_refl _))).
  assert (forall e', rctr c1 e' = rctr c e') as Hr1 by (intros e'; by destruct (Hsame e' e' (Z.le_refl _))).
  destruct ((e - 1 =? 0) && (idx =? 0)) eqn:E0.
  - apply andb_true_iff in E0 as [E2 E3]. rewrite E2, E3. cbn [negb orb]. exists c1, [], got.
    split; [done|]. split; [done|]. split; [by rewrite E2, E3, Hr1|done|done|done].
  - assert (negb (e - 1 =? 0) || negb (idx =? 0) = true) as -> by (by rewrite <- negb_andb, E0).
    assert (idx = rctr c1 (e - 1) + 1 /\ 0 <= idx) as [Hn H0].
    { rewrite Hr1. destruct Hidx as [[-> ->]|[? ?]]; [done|done]. }
    pose proof (maxJump_pos _ Hp).
    destruct (RecvKey_counters auth _ _ _ _ _ (e - 1) idx Hp Hi1) as (c' & salt & Er & R1 & R2 & R3 & R4 & R5); [lia|lia|lia|lia|].
    destruct (RecvKey_ok auth _ _ _ _ _ (e - 1) idx Hp Hi1) as (l & c2 & _ & Er' & _ & Hi'); [lia|unfold kept; pose proof (chain_low _ _ _ _ _ _ Hi1); lia|lia|lia|].
    cbv zeta in Er'. rewrite Er in Er'. injection Er' as <- _. do 3 eexists. split; [exact Er|]. split; [exact Hi'|]. split.
    + by rewrite E0.
    + intros e' Hne. by destruct (R3 e' Hne) as [_ ->].
    + intros e'. destruct (decide (e' = e - 1)) as [->|Hne]; [by rewrite R2|by destruct (R3 e' Hne) as [-> _]].
    + by rewrite R5, R4.
Qed.

(** [x] has sent, in every epoch it will still send in, as far as [y] has
    received. *)
Definition ordered (x y : State) : Prop :=
  forall v e, v1 x = Some v -> v1_epoch v - 1 <= e -> sent_to x e = received_to y e.

Definition in_order (p : bool) (a b : State) : Prop :=
  exists H sa sb, joint H p sa sb /\ state_inv p sa a /\ state_inv (negb p) sb b /\
    low_ok a /\ low_ok b /\ ordered a b /\ ordered b a.

Lemma in_order_sym p a b : in_order p a b -> in_order (negb p) b a.
Proof.
  intros (H & sa & sb & Hj & Ha & Hb & ?). exists H, sb, sa. rewrite negb_involutive. split; [by apply joint_sym|]. tauto.
Qed.

(** The clone of a state is the state after [state_reset], which keeps the
    chain and the epoch. *)
Lemma in_order_reset p a b : in_order p a b -> in_order p (state_reset a) b.
Proof.
  intros (H & sa & sb & Hj & Ha & Hb & La & Lb & Oab & Oba). exists H, (reset_side sa), sb.
  split; [by apply joint_reset|]. split; [by apply state_inv_reset|]. split_and!; try done.
  intros v e Hv He. pose proof (sti_v1 _ _ _ _ _ _ Ha) as H1. cbn in Hv. rewrite H1 in Hv. injection Hv as <-.
  destruct (v1_reset_same (st sa)) as (E1 & _). rewrite E1 in He. by apply (Oab (st sa)).
Qed.

Lemma in_order_clone p a b : in_order p a b -> roomy a -> Clone a = Some (state_reset a).
Proof.
  intros (H & sa & sb & Hj & Ha & _) Hr. eapply (Clone_ok auth pars mins Hpars H p sa); [apply Hj|done|done].
Qed.

(** The peer takes the message that was just sent. *)
Lemma Receive_next H p sd sd' s m idx msg salt :
  joint H p sd sd' -> state_inv p sd s -> roomy s -> wire_at auth (negb p) sd' m idx msg salt -> low_ok s ->
  msg_epoch m = v1_epoch (st sd') -> idx = 0 \/ idx = received_to s (msg_epoch m - 1) + 1 ->
  exists s2 sd2, Receive msg s = (s2, Ok salt) /\ joint H p sd2 sd' /\ state_inv p sd2 s2 /\ low_ok s2 /\
    v1_epoch (st sd) <= v1_epoch (st sd2) /\ (forall e, sent_to s2 e = sent_to s e) /\
    (forall e, e <> msg_epoch m - 1 -> received_to s2 e = received_to s e) /\
    received_to s2 (msg_epoch m - 1) = if idx =? 0 then received_to s (msg_epoch m - 1) else idx.
Proof.
  intros Hj Hst Hr Hw Hlo Hme Hidx.
  destruct (Receive_chain auth pars mins Hpars H p sd sd' s m idx msg salt Hj Hst Hr Hw)
    as (old & rv & c & got & E & Hj2 & Hrep & Hi & Hse & Hmono & Hlen & Hb & Hm1 & Hi0 & _ & Hctr & Hlow). specialize (Hlow Hlo).
  destruct (Receive_inv auth pars mins Hpars H p sd sd' s msg salt Hj Hst Hr (ex_intro _ m (ex_intro _ idx Hw))) as (s2 & r & Er & Hres).
  pose proof (emitted_enough H p _ sd' (msg_epoch m) Hj2 ltac:(lia)) as Hem. cbn [keys] in Hem.
  pose proof (cp_epoch _ _ (jt_ab _ _ _ _ _ Hj)) as Hcp.
  assert ((msg_epoch m = 1 /\ idx = 0) \/ (0 <= idx /\ idx = rctr c (msg_epoch m - 1) + 1)) as Hidx'.
  { destruct Hw as (_ & _ & _ & _ & [(-> & -> & _)|[? _]]); [by left|right]. rewrite (proj2 (Hctr _)). lia. }
  destruct (chain_recv_next p (secret <$> keys sd) got c (recv_key rv) (msg_epoch m) idx) as (c' & salt' & got' & Ec & Hi' & [Cidx Cother Csend [Clow Cse]]);
    [done|lia|done|rewrite <- fmap_app, len_fmap; lia|lia|lia|done|].
  rewrite Ec in E. rewrite E in Er. injection Er as <- <-. destruct Hres as [-> _].
  eexists _, _. split; [exact E|]. rewrite <- fmap_app in Hi'.
  destruct (Receive_stepped auth pars mins H p sd sd' s rv old c' got' _ Hst Hj2 eq_refl Hi') as [_ Hs2 _ _]; [rewrite Cse; lia|].
  split; [exact Hj2|]. split; [exact Hs2|]. split_and!.
  - intros c0 [= <-]. rewrite Clow, Cse. done.
  - done.
  - intros e. unfold sent_to at 1. cbn. rewrite Csend. apply Hctr.
  - intros e He. unfold received_to at 1. cbn. rewrite Cother by done. apply Hctr.
  - unfold received_to at 1. cbn. rewrite Cidx, (proj2 (Hctr _)).
    destruct Hidx' as [[-> ->]|[? Hn]]; [done|]. destruct (Z.eqb_spec idx 0); [|by rewrite andb_false_r].
    rewrite andb_true_r. destruct (Z.eqb_spec (msg_epoch m - 1) 0); [done|]. destruct Hw as (_ & _ & _ & _ & [(_ & ? & _)|[? _]]); lia.
Qed.

(** After [n] messages no epoch and no counter has got further than [n]. *)
Definition spent (n : Z) (s : State) : Prop :=
  (forall v, v1 s = Some v -> v1_epoch v <= n + 1) /\ forall e, sent_to s e <= n.

Lemma spent_reset n s : spent n s -> spent n (state_reset s).
Proof.
  intros [H1 H2]. split; [|done]. cbn. intros v Hv. apply fmap_Some in Hv as (v0 & Hv0 & ->).
  destruct (v1_reset_same v0) as (-> & _). by apply H1.
Qed.

Lemma spent_roomy n s : n < 2 ^ 31 - 1 -> spent n s -> roomy s.
Proof.
  intros Hn [H1 H2]. split; [intros v Hv; specialize (H1 v Hv); lia|]. intros c l Hc [i Hi]%list_elem_of_lookup.
  specialize (H2 (low c + Z.of_nat i)). unfold sent_to, sctr in H2. rewrite Hc in H2. cbn [from_option] in H2.
  rewrite (link_of_index c _ l) in H2; [cbn in H2; lia|lia|]. rewrite <- Hi. f_equal. lia.
Qed.

Lemma order_step p a b a1 t a2 t' msg salt :
  in_order p a b -> roomy a -> roomy b -> Clone a = Some a1 -> Send (a1, t) = ((a2, t'), Ok (msg, salt)) ->
  exists b1 b2, Clone b = Some b1 /\ Receive msg b1 = (b2, Ok salt) /\ in_order p a2 b2 /\
    forall n, 0 <= n -> spent n a -> spent n b -> spent (n + 1) a2 /\ spent (n + 1) b2.
Proof.
  intros Ho Hra Hrb Ec Es. rewrite (in_order_clone p a b Ho Hra) in Ec. injection Ec as <-.
  pose proof (in_order_sym _ _ _ (in_order_reset _ _ _ Ho)) as Ho2. pose proof (in_order_clone _ _ _ Ho2 Hrb) as Ecb.
  apply in_order_reset, in_order_sym in Ho2. rewrite negb_involutive in Ho2. exists (state_reset b).
  assert (forall n, spent n a -> spent n b -> spent n (state_reset a) /\ spent n (state_reset b)) as Hsp by (split; by apply spent_reset).
  apply roomy_reset in Hra, Hrb. revert Hra Hrb Es Ho2 Ecb Hsp. generalize (state_reset a) (state_reset b).
  intros a' b1 Hra Hrb Es Ho' Ecb Hsp. enough (exists b2, Receive msg b1 = (b2, Ok salt) /\ in_order p a2 b2 /\
    forall n, 0 <= n -> spent n a' -> spent n b1 -> spent (n + 1) a2 /\ spent (n + 1) b2) as (b2 & Er & Hio & Hsp').
  { exists b2. split_and!; [done|done|done|]. intros n Hn Sa Sb. destruct (Hsp n Sa Sb). by apply Hsp'. }
  clear a Ho Hsp Ecb. rename a' into a, Ho' into Ho.
  destruct Ho as (H & sa & sb & Hj & Ha & Hb & La & Lb & Oab & Oba).
  destruct (Send_inv auth pars mins Hpars Hmins Hauth H p sa sb a t Hj Ha Hra)
    as [(s3 & t3 & m3 & x3 & E3 & H2 & sd2 & m & idx & [Hj2 Hs2 _ _] & Hw & Hme & Hve & Hcnt)|[_ Hf]]; [|by rewrite Es in Hf].
  rewrite Es in E3. injection E3 as <- <- <- <-. destruct (Hcnt La) as [Cidx Clater Crecv Cmax Clow].
  pose proof (sti_v1 _ _ _ _ _ _ Ha) as Hva. pose proof (sti_v1 _ _ _ _ _ _ Hb) as Hvb.
  apply joint_sym in Hj2. rewrite <- (negb_involutive p) in Hw.
  assert (idx = 0 \/ idx = received_to b1 (msg_epoch m - 1) + 1) as Hidx.
  { destruct Cidx as [[-> _]|(_ & -> & _)]; [by left|right]. rewrite (Oab (st sa)); [done|done|lia]. }
  destruct (Receive_next H2 (negb p) sb sd2 b1 m idx msg salt Hj2 Hb Hrb Hw Lb) as (b2 & sdb & Er & Hj3 & Hsb & Lb2 & Hmono & Rs & Ro & Re); [lia|done|].
  exists b2. split; [done|]. apply joint_sym in Hj3. rewrite negb_involutive in Hj3.
  pose proof (sti_v1 _ _ _ _ _ _ Hs2) as Hva2. pose proof (sti_v1 _ _ _ _ _ _ Hsb) as Hvb2.
  split; [exists H2, sd2, sdb; split_and!; [done|done|done|done|done| |]|].
  - intros v e Hv He. rewrite (sti_v1 _ _ _ _ _ _ Hs2) in Hv. injection Hv as <-. rewrite Hve in He.
    destruct (decide (e = msg_epoch m - 1)) as [->|Hne].
    + rewrite Re. destruct Cidx as [[-> ->]|(Hpos & Hi & ->)]; [cbn; apply (Oab (st sa)); [done|lia]|].
      destruct (Z.eqb_spec idx 0) as [Hz|]; [lia|done].
    + rewrite Clater, Ro by lia. apply (Oab (st sa)); [done|lia].
  - intros v e Hv He. rewrite (sti_v1 _ _ _ _ _ _ Hsb) in Hv. injection Hv as <-. rewrite Rs, (Oba (st sb)); [|done|lia].
    symmetry. pose proof (cp_epoch _ _ (jt_ab _ _ _ _ _ Hj3)). pose proof (si_st _ _ _ _ (jt_b _ _ _ _ _ Hj3)) as (Hge & _).
    apply Crecv; lia.
  - intros n Hn [Sa1 Sa2] [Sb1 Sb2]. specialize (Sa1 _ Hva). pose proof (cp_epoch _ _ (jt_ba _ _ _ _ _ Hj3)) as Hcp. split; split.
    + intros v Hv. rewrite Hva2 in Hv. injection Hv as <-. lia.
    + by apply Cmax.
    + intros v Hv. rewrite Hvb2 in Hv. injection Hv as <-. lia.
    + intros e. rewrite Rs. specialize (Sb2 e). lia.
Qed.

Lemma new_spent d pr mn s : NewStateWithMinVersion auth d pr mn = Ok s -> chain s = None /\ spent 0 s.
Proof.
  intros E. unfold NewStateWithMinVersion in E. apply res_bind_ok in E as (? & _ & E). apply res_bind_ok in E as (? & _ & E).
  apply res_bind_ok in E as (v & Ev & E). apply Ok_inj in E as <-. split; [done|]. split; [|done]. cbn. intros v' [= <-].
  assert (SpqrV1.initV1StateA auth = Ok v \/ SpqrV1.initV1StateB auth = Ok v) as Hv by (destruct d; [by left|by right|by left]).
  by destruct (init_quiet auth v Hv) as [_ ->].
Qed.

Lemma order_init a b :
  NewStateWithMinVersion auth DirectionA2B (pars true) (mins true) = Ok a ->
  NewStateWithMinVersion auth DirectionB2A (pars false) (mins false) = Ok b -> in_order true a b /\ spent 0 a /\ spent 0 b.
Proof.
  intros Ea Eb. destruct (parties_init auth pars mins a b Ea Eb) as (H & sa & sb & Hj & [Ha _] & [Hb _]).
  apply new_spent in Ea as [Ea Sa], Eb as [Eb Sb]. split; [|done].
  exists H, sa, sb. unfold low_ok, ordered, sent_to, received_to. rewrite Ea, Eb. split_and!; done.
Qed.

(** A conversation: in every turn one party, with its randomness, sends a
    message that the other party takes; both work on clones of their states,
    and get the same salt. *)
Definition exchange (x y : State) (t : tape) : option (State * State) :=
  x1 ← Clone x;
  match Send (x1, t) with
  | ((x2, _), Ok (msg, salt)) =>
      y1 ← Clone y;
      match Receive msg y1 with
      | (y2, Ok salt') => if decide (salt' = salt) then Some (x2, y2) else None
      | _ => None
      end
  | _ => None
  end.

Fixpoint converse (turns : list (bool * tape)) (a b : State) : option (State * State) :=
  match turns with
  | [] => Some (a, b)
  | (true, t) :: turns => '(a, b) ← exchange a b t; converse turns a b
  | (false, t) :: turns => '(b, a) ← exchange b a t; converse turns a b
  end.

Lemma exchange_turn p a b n t :
  in_order p a b -> 0 <= n < 2 ^ 31 - 1 -> spent n a -> spent n b -> (64 <= length t)%nat ->
  exists a' b', exchange a b t = Some (a', b') /\ in_order p a' b' /\ spent (n + 1) a' /\ spent (n + 1) b'.
Proof.
  intros Ho Hn Sa Sb Ht. pose proof (spent_roomy n a ltac:(lia) Sa) as Ra. pose proof (spent_roomy n b ltac:(lia) Sb) as Rb.
  pose proof (in_order_clone p a b Ho Ra) as Ec. unfold exchange. rewrite Ec. cbn [mbind option_bind].
  destruct (in_order_reset p a b Ho) as (H & sa & sb & Hj & Ha & _).
  destruct (Send_inv auth pars mins Hpars Hmins Hauth H p sa sb (state_reset a) t Hj Ha (roomy_reset _ Ra))
    as [(a2 & t' & msg & salt & Es & _)|[Hf _]]; [|lia]. rewrite Es.
  destruct (order_step p a b _ t a2 t' msg salt Ho Ra Rb Ec Es) as (b1 & b2 & -> & Er & Ho' & Hsp). cbn [mbind option_bind].
  rewrite Er, decide_True by done. destruct (Hsp n) as [? ?]; [lia|done|done|]. eauto 10.
Qed.

Lemma converse_ok turns a b n :
  in_order true a b -> 0 <= n -> n + len turns <= 2 ^ 31 - 1 -> spent n a -> spent n b ->
  Forall (fun u => (64 <= length u.2)%nat) turns -> is_Some (converse turns a b).
Proof.
  intros Ho Hn Hl Sa Sb Ht. revert a b n Ho Hn Hl Sa Sb. induction Ht as [|[[] t] turns Ht _ IH]; intros a b n Ho Hn Hl Sa Sb; [done|..];
    rewrite len_cons in Hl; pose proof (len_nonneg turns); cbn [converse].
  - destruct (exchange_turn true a b n t Ho ltac:(lia) Sa Sb Ht) as (a' & b' & -> & Ho' & Sa' & Sb'). cbn. apply (IH _ _ (n + 1)); [done|lia|lia|done|done].
  - destruct (exchange_turn false b a n t (in_order_sym _ _ _ Ho) ltac:(lia) Sb Sa Ht) as (b' & a' & -> & Ho' & Sb' & Sa'). cbn.
    apply (IH _ _ (n + 1)); [by apply in_order_sym in Ho'|lia|lia|done|done].
Qed.
End order.

(** C2: the post-quantum ratchet never gets stuck between two parties whose
    messages arrive in order. Start two states of the two directions with one
    authentication key and any settings; let the parties speak in any pattern,
    each message being delivered before the next is sent. For as long as fewer
    than 2^31 messages are exchanged and the sender has 64 bytes of randomness
    for each, every clone, every [Send] and every [Receive] succeeds and the
    receiver gets the salt the sender got. *)
Theorem spqr_conversation `{Primitives} `{HM : MLKEM} `{!MLKEMLaws HM} auth pars mins a b turns :
  settings auth pars mins ->
  NewStateWithMinVersion auth DirectionA2B (pars true) (mins true) = Ok a ->
  NewStateWithMinVersion auth DirectionB2A (pars false) (mins false) = Ok b ->
  Forall (fun u => (64 <= length u.2)%nat) turns -> len turns < 2 ^ 31 ->
  is_Some (converse turns a b).
Proof.
  intros Hs Ea Eb Ht Hl. destruct (order_init auth pars mins a b Ea Eb) as (Ho & Sa & Sb).
  apply (converse_ok auth pars mins Hs turns a b 0); [done|done|lia|done|done|done].
Qed.

Lemma spqr_conversation_witness :
  let t := replicate 64 Byte.x01 in let turns := [(true, t); (true, t); (false, t); (true, t); (false, t)] in
  is_Some (@converse Toy.primitives ToyMlkem.mlkem turns (demo_state DirectionA2B) (demo_state DirectionB2A)).
Proof.
  apply (@spqr_conversation Toy.primitives ToyMlkem.mlkem ToyMlkem.laws demo_auth (fun _ => mkParams 0 0) (fun _ => VersionDisabled)).
  - split; [vm_compute; done|]. split; [intros _; vm_compute; done|]. by intros _.
  - vm_compute. reflexivity.
  - vm_compute. reflexivity.
  - repeat (apply Forall_cons_2; [cbn; lia|]). done.
  - vm_compute. done.
Defined.
