(* ===== verification/Protowire.v ===== *)
(** * Protocol-buffer fields

    The wire formats are built and read with google.golang.org/protobuf/
    encoding/protowire, which is a parameter here: its functions, and the laws
    its documentation gives them. The loop that all the readers of the
    repository share (consume a tag, switch on the field number, consume the
    value) is [decode_fields]; each message has its own switch.

    [AppendX] stands for the bytes it appends; [ConsumeX] returns [None] for a
    negative length. *)

From Stdlib Require Import ZArith Lia.
From Stdlib Require Import Strings.Byte.
From stdpp Require Import base strings list list_numbers.
From S2P Require Import Prelude.

(** The wire types that the code distinguishes. *)
Inductive wire_type : Type := VarintType | Fixed64Type | BytesType | OtherType (t : Z).

Definition known_type (t : wire_type) : bool := match t with OtherType _ => false | _ => true end.

#[export] Instance wire_type_eq_dec : EqDecision wire_type.
Proof. solve_decision. Defined.

Class Protowire : Type := {
  AppendTag : Z -> wire_type -> bytes;
  AppendVarint : Z -> bytes;
  AppendFixed64 : Z -> bytes;
  AppendBytes : bytes -> bytes;
  AppendString : string -> bytes;
  ConsumeTag : bytes -> option (Z * wire_type * Z);
  ConsumeVarint : bytes -> option (Z * Z);
  ConsumeFixed64 : bytes -> option (Z * Z);
  ConsumeBytes : bytes -> option (bytes * Z);
  ConsumeFieldValue : Z -> wire_type -> bytes -> option Z
}.

(** What is appended is consumed again; a string is appended as its bytes; an
    appended byte string contains its bytes; at least one byte of a tag is consumed,
    and never more than there is. *)
Class ProtowireLaws (W : Protowire) : Prop := {
  consume_tag num typ rest :
    1 <= num < 2 ^ 29 -> known_type typ = true ->
    ConsumeTag (AppendTag num typ ++ rest) = Some (num, typ, len (AppendTag num typ));
  consume_varint v rest : is_u64 v -> ConsumeVarint (AppendVarint v ++ rest) = Some (v, len (AppendVarint v));
  consume_fixed64 v rest : is_u64 v -> ConsumeFixed64 (AppendFixed64 v ++ rest) = Some (v, len (AppendFixed64 v));
  append_string s : AppendString s = AppendBytes (str s);
  consume_bytes b rest : ConsumeBytes (AppendBytes b ++ rest) = Some (b, len (AppendBytes b));
  append_bytes_len b : len b <= len (AppendBytes b);
  consume_tag_len b num typ n : ConsumeTag b = Some (num, typ, n) -> 1 <= n <= len b;
  consume_varint_len b v n : ConsumeVarint b = Some (v, n) -> 0 <= n <= len b;
  consume_fixed64_len b v n : ConsumeFixed64 b = Some (v, n) -> 0 <= n <= len b;
  consume_bytes_len b v n : ConsumeBytes b = Some (v, n) -> 0 <= n <= len b;
  consume_value_len num typ b n : ConsumeFieldValue num typ b = Some n -> 0 <= n <= len b
}.

(** A concrete instance: fixed-size tags, numbers and lengths. *)
Module ToyWire.

Definition type_byte (t : wire_type) : byte :=
  match t with VarintType => Byte.x00 | Fixed64Type => Byte.x01 | BytesType => Byte.x02 | OtherType _ => Byte.x03 end.
Definition byte_type (b : byte) : wire_type :=
  match b with Byte.x00 => VarintType | Byte.x01 => Fixed64Type | Byte.x02 => BytesType | _ => OtherType (b2z b) end.

Definition consume_fixed (b : bytes) : option (Z * Z) :=
  if decide (8 <= len b) then Some (be_value (take 8 b), 8) else None.

(** A byte string: each byte after a 1, then a 0. *)
Fixpoint put_bytes (b : bytes) : bytes :=
  match b with [] => [Byte.x00] | x :: b => Byte.x01 :: x :: put_bytes b end.
Fixpoint get_bytes (b : bytes) : option (bytes * Z) :=
  match b with
  | Byte.x00 :: _ => Some ([], 1)
  | Byte.x01 :: x :: b => match get_bytes b with Some (l, n) => Some (x :: l, 2 + n) | None => None end
  | _ => None
  end.

#[export] Instance wire : Protowire := {|
  AppendTag num t := be_bytes 4 num ++ [type_byte t];
  AppendVarint v := be_bytes 8 v;
  AppendFixed64 v := be_bytes 8 v;
  AppendBytes := put_bytes;
  AppendString s := put_bytes (str s);
  ConsumeTag b := if decide (5 <= len b) then
    Some (be_value (take 4 b), byte_type (default Byte.x00 (b !! 4%nat)), 5) else None;
  ConsumeVarint := consume_fixed;
  ConsumeFixed64 := consume_fixed;
  ConsumeBytes := get_bytes;
  ConsumeFieldValue _ t b :=
    match t with OtherType _ => None | VarintType | Fixed64Type => snd <$> consume_fixed b | BytesType => snd <$> get_bytes b end
|}.

Lemma take_be n z (rest : bytes) : take n (be_bytes n z ++ rest) = be_bytes n z.
Proof. apply take_app_length'. symmetry. apply be_bytes_length. Qed.

Lemma get_put b rest : get_bytes (put_bytes b ++ rest) = Some (b, len (put_bytes b)).
Proof. induction b as [|x b IH]; [done|]. cbn [put_bytes app get_bytes]. rewrite IH, !len_cons. f_equal. f_equal. lia. Qed.

Lemma get_bytes_len b v n : get_bytes b = Some (v, n) -> 0 <= n <= len b.
Proof.
  assert (forall k b v n, (length b <= k)%nat -> get_bytes b = Some (v, n) -> 0 <= n <= len b) as Hk; [|by apply (Hk (length b))].
  clear. induction k as [|k IH]; intros [|x b] v n Hl E; cbn [length] in Hl; try done; try lia.
  destruct x; try done; cbn [get_bytes] in E.
  - injection E as <- <-. rewrite len_cons. pose proof (len_nonneg b). lia.
  - destruct b as [|y b]; [done|]. destruct (get_bytes b) as [[l m]|] eqn:Eb; [|done]. injection E as <- <-.
    cbn [length] in Hl. apply IH in Eb; [|lia]. rewrite !len_cons. lia.
Qed.

Lemma consume_fixed_len b v n : consume_fixed b = Some (v, n) -> 0 <= n <= len b.
Proof. unfold consume_fixed. case_decide; [|done]. intros [= <- <-]. lia. Qed.

Lemma consume_fixed_be v rest : is_u64 v -> consume_fixed (be_bytes 8 v ++ rest) = Some (v, len (be_bytes 8 v)).
Proof.
  intros Hv. unfold consume_fixed. rewrite decide_True by (rewrite len_app, be_bytes_len; pose proof (len_nonneg rest); lia).
  rewrite take_be, be_value_bytes, Z.mod_small, be_bytes_len; [done|exact Hv].
Qed.

#[export] Instance laws : ProtowireLaws wire.
Proof.
  split; cbn [wire AppendTag AppendVarint AppendFixed64 AppendBytes AppendString ConsumeTag ConsumeVarint ConsumeFixed64 ConsumeBytes ConsumeFieldValue].
  - intros num typ rest Hn Ht. rewrite <- app_assoc.
    rewrite decide_True by (rewrite !len_app, be_bytes_len; pose proof (len_nonneg rest); unfold len; cbn; lia).
    rewrite take_be, be_value_bytes, Z.mod_small by (cbn; lia).
    rewrite lookup_app_r by (rewrite be_bytes_length; lia). rewrite be_bytes_length, len_app, be_bytes_len.
    by destruct typ.
  - apply consume_fixed_be.
  - apply consume_fixed_be.
  - done.
  - apply get_put.
  - intros b. induction b as [|x b IH]; cbn [put_bytes]; rewrite ?len_cons, ?len_nil; lia.
  - intros b num typ n. case_decide; [|done]. intros [= <- <- <-]. lia.
  - apply consume_fixed_len.
  - apply consume_fixed_len.
  - apply get_bytes_len.
  - intros _ typ b n E. destruct typ; [| | |done].
    1-2: destruct (consume_fixed b) as [[v m]|] eqn:Eb; [|done]; injection E as <-; by eapply consume_fixed_len.
    destruct (get_bytes b) as [[v m]|] eqn:Eb; [|done]. injection E as <-. by eapply get_bytes_len.
Qed.

End ToyWire.

(** ** Reading a message *)

Section decode.
Context `{Protowire}.

(** [val, n := ConsumeX(data)] with the type check and the error of a negative
    length; the rest of the data. *)
Definition take_varint (typ : wire_type) (body : bytes) : res (Z * bytes) :=
  _ ← check (negb (bool_decide (typ = VarintType))) ErrInvalidMessage;
  match ConsumeVarint body with
  | None => Err ErrInvalidMessage
  | Some (v, n) => rest ← slice body n (len body); mret (v, rest)
  end.

Definition take_fixed64 (typ : wire_type) (body : bytes) : res (Z * bytes) :=
  _ ← check (negb (bool_decide (typ = Fixed64Type))) ErrInvalidMessage;
  match ConsumeFixed64 body with
  | None => Err ErrInvalidMessage
  | Some (v, n) => rest ← slice body n (len body); mret (v, rest)
  end.

Definition take_bytes (typ : wire_type) (body : bytes) : res (bytes * bytes) :=
  _ ← check (negb (bool_decide (typ = BytesType))) ErrInvalidMessage;
  match ConsumeBytes body with
  | None => Err ErrInvalidMessage
  | Some (v, n) => rest ← slice body n (len body); mret (v, rest)
  end.

Definition skip_value (num : Z) (typ : wire_type) (body : bytes) : res bytes :=
  match ConsumeFieldValue num typ body with
  | None => Err ErrInvalidMessage
  | Some n => slice body n (len body)
  end.

(** [for len(body) > 0 { num, typ, n := ConsumeTag(body); ...; switch num {...} }]:
    [field] is the switch. Every iteration consumes at least one byte, so the
    length of the data is enough fuel. *)
Fixpoint decode_fields {A} (field : Z -> wire_type -> bytes -> A -> res (A * bytes)) (fuel : nat)
    (body : bytes) (acc : A) : res A :=
  if len body =? 0 then Ok acc
  else
    match fuel with
    | O => Err (ErrText "out of fuel")
    | S fuel =>
        match ConsumeTag body with
        | None => Err ErrInvalidMessage
        | Some (num, typ, n) =>
            body ← slice body n (len body);
            '(acc, body) ← field num typ body acc;
            decode_fields field fuel body acc
        end
    end.

Definition decode {A} (field : Z -> wire_type -> bytes -> A -> res (A * bytes)) (body : bytes) (acc : A) : res A :=
  decode_fields field (length body) body acc.

(** *** Reading back what was written *)

Context `{!ProtowireLaws _}.

(** The loop ends with the result [r]. *)
Definition decodes {A} (field : Z -> wire_type -> bytes -> A -> res (A * bytes)) (body : bytes) (acc : A) (r : res A) : Prop :=
  forall fuel, (length body <= fuel)%nat -> decode_fields field fuel body acc = r.

Lemma decodes_run {A} (field : Z -> wire_type -> bytes -> A -> res (A * bytes)) body acc r :
  decodes field body acc r -> decode field body acc = r.
Proof. intros Hd. by apply Hd. Qed.

Lemma decodes_nil {A} (field : Z -> wire_type -> bytes -> A -> res (A * bytes)) acc : decodes field [] acc (Ok acc).
Proof. by intros [|fuel] _. Qed.

Lemma slice_rest {A} (l1 l2 : list A) : slice (l1 ++ l2) (len l1) (len (l1 ++ l2)) = Ok l2.
Proof. apply slice_suffix. Qed.

(** One iteration on a field that was appended. *)
Lemma decode_fields_tag {A} (field : Z -> wire_type -> bytes -> A -> res (A * bytes)) num typ rest acc fuel :
  1 <= num < 2 ^ 29 -> known_type typ = true -> (length (AppendTag num typ ++ rest) <= fuel)%nat ->
  exists fuel', (length rest <= fuel')%nat /\
    decode_fields field fuel (AppendTag num typ ++ rest) acc =
      ('(acc, body) ← field num typ rest acc; decode_fields field fuel' body acc).
Proof.
  intros Hn Ht Hfuel. pose proof (consume_tag num typ rest Hn Ht) as Hc.
  pose proof (consume_tag_len _ _ _ _ Hc) as Hl. rewrite !length_app in Hfuel.
  assert (1 <= length (AppendTag num typ))%nat as H1 by (unfold len in Hl; lia).
  destruct fuel as [|fuel]; [lia|]. exists fuel. split; [lia|]. cbn [decode_fields].
  rewrite (proj2 (Z.eqb_neq _ _)) by (pose proof (len_nonneg (AppendTag num typ ++ rest)); lia).
  by rewrite Hc, slice_rest.
Qed.

Lemma decodes_field {A} (field : Z -> wire_type -> bytes -> A -> res (A * bytes)) num typ enc rest acc acc1 r :
  1 <= num < 2 ^ 29 -> known_type typ = true ->
  field num typ (enc ++ rest) acc = Ok (acc1, rest) -> decodes field rest acc1 r ->
  decodes field (AppendTag num typ ++ enc ++ rest) acc r.
Proof.
  intros Hn Ht Hf Hr fuel Hfuel. destruct (decode_fields_tag field num typ (enc ++ rest) acc fuel Hn Ht Hfuel) as (f' & Hf' & ->).
  rewrite Hf. cbn [mbind res_bind]. apply Hr. rewrite length_app in Hf'. lia.
Qed.

Lemma decodes_error {A} (field : Z -> wire_type -> bytes -> A -> res (A * bytes)) num typ rest acc e :
  1 <= num < 2 ^ 29 -> known_type typ = true -> field num typ rest acc = Err e ->
  decodes field (AppendTag num typ ++ rest) acc (Err e).
Proof.
  intros Hn Ht Hf fuel Hfuel. destruct (decode_fields_tag field num typ rest acc fuel Hn Ht Hfuel) as (f' & Hf' & ->). by rewrite Hf.
Qed.

Lemma take_varint_append v rest : is_u64 v -> take_varint VarintType (AppendVarint v ++ rest) = Ok (v, rest).
Proof. intros Hv. unfold take_varint. rewrite bool_decide_true by done. cbn. by rewrite consume_varint, slice_rest. Qed.

Lemma take_fixed64_append v rest : is_u64 v -> take_fixed64 Fixed64Type (AppendFixed64 v ++ rest) = Ok (v, rest).
Proof. intros Hv. unfold take_fixed64. rewrite bool_decide_true by done. cbn. by rewrite consume_fixed64, slice_rest. Qed.

Lemma take_bytes_append b rest : take_bytes BytesType (AppendBytes b ++ rest) = Ok (b, rest).
Proof. unfold take_bytes. rewrite bool_decide_true by done. cbn. by rewrite consume_bytes, slice_rest. Qed.

(** An invariant of the variables of the loop. *)
Lemma decode_invariant {A} (I : A -> Prop) (field : Z -> wire_type -> bytes -> A -> res (A * bytes)) body acc acc' :
  (forall num typ body acc acc' rest, I acc -> field num typ body acc = Ok (acc', rest) -> I acc') ->
  I acc -> decode field body acc = Ok acc' -> I acc'.
Proof.
  intros Hf. unfold decode. generalize (length body) as fuel. intros fuel. revert body acc.
  induction fuel as [|fuel IH]; intros body acc Hi; cbn [decode_fields]; destruct (len body =? 0); try done; try (by intros [= <-]).
  destruct (ConsumeTag body) as [[[num typ] n]|]; [|done]. intros E. inv_steps. destruct v0 as [acc1 rest].
  eapply IH; [|exact E]. by eapply Hf.
Qed.

(** *** Termination and absence of panics *)

(** The switch leaves no more data than it is given, and does not panic. *)
Definition field_ok {A} (field : Z -> wire_type -> bytes -> A -> res (A * bytes)) : Prop :=
  forall num typ body acc, match field num typ body acc with
    | Ok (_, rest) => (length rest <= length body)%nat
    | Err e => e <> ErrText "out of fuel"
    | Panic => False
    end.

Lemma slice_from {A} (l : list A) n : 0 <= n <= len l -> exists r, slice l n (len l) = Ok r /\ len r = len l - n.
Proof.
  intros Hn. rewrite slice_drop by done. eexists. split; [done|]. unfold len in *. rewrite length_drop. lia.
Qed.

Lemma decode_fields_ok {A} (field : Z -> wire_type -> bytes -> A -> res (A * bytes)) fuel body acc :
  field_ok field -> (length body <= fuel)%nat ->
  decode_fields field fuel body acc <> Panic /\ decode_fields field fuel body acc <> Err (ErrText "out of fuel").
Proof.
  intros Hf. revert body acc. induction fuel as [|fuel IH]; intros body acc Hl; cbn [decode_fields];
    destruct (Z.eqb_spec (len body) 0) as [|Hne]; try done.
  { unfold len in Hne. lia. }
  destruct (ConsumeTag body) as [[[num typ] n]|] eqn:Ec; [|done].
  pose proof (consume_tag_len _ _ _ _ Ec) as Hn. destruct (slice_from body n) as (r & Hr & Hlr); [lia|]. rewrite Hr.
  cbn [mbind res_bind]. pose proof (Hf num typ r acc) as Hfr.
  destruct (field num typ r acc) as [[acc' rest]|e|]; [|split; [done|by intros [= ->]]|done].
  cbn [mbind res_bind]. apply IH. unfold len in *. lia.
Qed.

Lemma take_varint_ok typ body :
  match take_varint typ body with Ok (_, rest) => (length rest <= length body)%nat | Err e => e = ErrInvalidMessage | Panic => False end.
Proof.
  unfold take_varint. case_bool_decide; [|done]. cbn. destruct (ConsumeVarint body) as [[v n]|] eqn:E; [|done].
  destruct (slice_from body n) as (r & -> & Hr); [by eapply consume_varint_len|]. cbn.
  apply consume_varint_len in E. unfold len in *. lia.
Qed.

Lemma take_fixed64_ok typ body :
  match take_fixed64 typ body with Ok (_, rest) => (length rest <= length body)%nat | Err e => e = ErrInvalidMessage | Panic => False end.
Proof.
  unfold take_fixed64. case_bool_decide; [|done]. cbn. destruct (ConsumeFixed64 body) as [[v n]|] eqn:E; [|done].
  destruct (slice_from body n) as (r & -> & Hr); [by eapply consume_fixed64_len|]. cbn.
  apply consume_fixed64_len in E. unfold len in *. lia.
Qed.

Lemma take_bytes_ok typ body :
  match take_bytes typ body with Ok (_, rest) => (length rest <= length body)%nat | Err e => e = ErrInvalidMessage | Panic => False end.
Proof.
  unfold take_bytes. case_bool_decide; [|done]. cbn. destruct (ConsumeBytes body) as [[v n]|] eqn:E; [|done].
  destruct (slice_from body n) as (r & -> & Hr); [by eapply consume_bytes_len|]. cbn.
  apply consume_bytes_len in E. unfold len in *. lia.
Qed.

Lemma skip_value_ok num typ body :
  match skip_value num typ body with Ok rest => (length rest <= length body)%nat | Err e => e = ErrInvalidMessage | Panic => False end.
Proof.
  unfold skip_value. destruct (ConsumeFieldValue num typ body) as [n|] eqn:E; [|done].
  destruct (slice_from body n) as (r & -> & Hr); [by eapply consume_value_len|].
  apply consume_value_len in E. unfold len in *. lia.
Qed.

Lemma decode_ok {A} (field : Z -> wire_type -> bytes -> A -> res (A * bytes)) body acc :
  field_ok field -> decode field body acc <> Panic /\ decode field body acc <> Err (ErrText "out of fuel").
Proof. intros Hf. by apply decode_fields_ok. Qed.

End decode.

(** The branches of a switch: a value is taken and stored. *)
Ltac field_take :=
  match goal with
  | |- context [take_varint ?t ?b] => pose proof (take_varint_ok t b); destruct (take_varint t b) as [[? ?]| |]
  | |- context [take_fixed64 ?t ?b] => pose proof (take_fixed64_ok t b); destruct (take_fixed64 t b) as [[? ?]| |]
  | |- context [take_bytes ?t ?b] => pose proof (take_bytes_ok t b); destruct (take_bytes t b) as [[? ?]| |]
  | |- context [skip_value ?n ?t ?b] => pose proof (skip_value_ok n t b); destruct (skip_value n t b)
  end; cbn [mbind res_bind mret res_ret]; subst; try done; try congruence.

(** ** A version byte in front, a tag behind *)

Lemma index_head (b : byte) l : index (b :: l) 0 = Ok b.
Proof. done. Qed.

Lemma slice_cons (b : byte) l : slice (b :: l) 1 (len (b :: l)) = Ok l.
Proof. exact (slice_suffix [b] l). Qed.

Lemma slice_mid (x y : bytes) b : slice (b :: x ++ y) 1 (len (b :: x ++ y) - len y) = Ok x.
Proof.
  pose proof (slice_app [b] x y) as E. cbn [app] in E. rewrite <- E. f_equal. rewrite len_cons, len_app, len_cons, len_nil. lia.
Qed.

Lemma slice_head (x y : bytes) : slice (x ++ y) 0 (len (x ++ y) - len y) = Ok x.
Proof. rewrite len_app, Z.add_simpl_r. apply slice_prefix. Qed.

Lemma slice_tail (x y : bytes) : slice (x ++ y) (len (x ++ y) - len y) (len (x ++ y)) = Ok y.
Proof. rewrite (len_app x y) at 1. rewrite Z.add_simpl_r. apply slice_suffix. Qed.
