(* ===== verification/Wire.v ===== *)
(** * The wire formats: protocol/wire/

    [SignalMessage] (protobuf body, version byte in front, 8-byte MAC behind)
    and [PreKeySignalMessage] (protobuf body with the handshake fields and an
    embedded [SignalMessage]). Messages are non-nil; an optional field that was
    seen is [Some], which stands for the [got...] flag and the variable of the
    code. *)

From Stdlib Require Import ZArith Lia.
From Stdlib Require Import Strings.Byte.
From stdpp Require Import base strings list list_numbers vector.
From S2P Require Import Prelude Crypto Keys Protowire.
Import Crypto Keys.

Module Wire.

(** *** wire.go *)

Definition CiphertextMessageCurrentVersion : Z := 4.
Definition CiphertextMessagePreKyberVersion : Z := 3.
Definition SignalMessageMACLength : Z := 8.

Definition versionByte (messageVersion currentVersion : Z) : byte :=
  z2b (Z.lor (u8 (Z.shiftl (Z.land messageVersion 15) 4)) (Z.land currentVersion 15)).

Definition parseMessageVersion (b : byte) : Z := Z.shiftr (b2z b) 4.

(** *** signal_message.go *)

Record SignalMessage : Type := mkSignalMessage {
  sm_messageVersion : Z;
  sm_senderRatchet : key32;
  sm_counter : Z;
  sm_previousCounter : Z;
  sm_ciphertext : bytes;
  sm_pqRatchet : bytes;
  sm_serialized : bytes
}.

(** The variables of [decodeSignalMessageBody]. *)
Record signal_fields : Type := mkSignalFields {
  f_ratchet : option key32; f_counter : option Z; f_previous : Z; f_ciphertext : option bytes; f_pq : bytes }.

Section wire.
Context `{Primitives} `{Protowire}.

Definition computeSignalMAC (macKey : bytes) (senderIdentity receiverIdentity : IdentityKey) (message : bytes) : res bytes :=
  _ ← check (negb (len macKey =? 32)) ErrInvalidKey;
  let sum := vec_to_list (hmac_sha256 macKey
    (SerializeWirePublicKey (ik_PublicKey senderIdentity) ++ SerializeWirePublicKey (ik_PublicKey receiverIdentity) ++ message)) in
  slice sum 0 SignalMessageMACLength.

Definition encodeSignalMessageBody (senderRatchet : key32) (counter previousCounter : Z) (ciphertext pqRatchet : bytes) : bytes :=
  AppendTag 1 BytesType ++ AppendBytes (SerializeWirePublicKey senderRatchet) ++
  AppendTag 2 VarintType ++ AppendVarint counter ++
  AppendTag 3 VarintType ++ AppendVarint previousCounter ++
  AppendTag 4 BytesType ++ AppendBytes ciphertext ++
  (if 0 <? len pqRatchet then AppendTag 5 BytesType ++ AppendBytes pqRatchet else []).

Definition signal_field (num : Z) (typ : wire_type) (body : bytes) (f : signal_fields) : res (signal_fields * bytes) :=
  if num =? 1 then
    '(val, body) ← take_bytes typ body;
    key ← DeserializeWirePublicKey val;
    mret (mkSignalFields (Some key) (f_counter f) (f_previous f) (f_ciphertext f) (f_pq f), body)
  else if num =? 2 then
    '(val, body) ← take_varint typ body;
    mret (mkSignalFields (f_ratchet f) (Some (u32 val)) (f_previous f) (f_ciphertext f) (f_pq f), body)
  else if num =? 3 then
    '(val, body) ← take_varint typ body;
    mret (mkSignalFields (f_ratchet f) (f_counter f) (u32 val) (f_ciphertext f) (f_pq f), body)
  else if num =? 4 then
    '(val, body) ← take_bytes typ body;
    mret (mkSignalFields (f_ratchet f) (f_counter f) (f_previous f) (Some val) (f_pq f), body)
  else if num =? 5 then
    '(val, body) ← take_bytes typ body;
    mret (mkSignalFields (f_ratchet f) (f_counter f) (f_previous f) (f_ciphertext f) val, body)
  else
    body ← skip_value num typ body;
    mret (f, body).

Definition decodeSignalMessageBody (body : bytes) : res (key32 * Z * Z * bytes * bytes) :=
  f ← decode signal_field body (mkSignalFields None None 0 None []);
  match f_ratchet f, f_counter f, f_ciphertext f with
  | Some senderRatchet, Some counter, Some ciphertext => mret (senderRatchet, counter, f_previous f, ciphertext, f_pq f)
  | _, _, _ => Err ErrInvalidMessage
  end.

Definition NewSignalMessage (messageVersion : Z) (macKey : bytes) (senderRatchet : key32) (counter previousCounter : Z)
    (ciphertext : bytes) (senderIdentity receiverIdentity : IdentityKey) (pqRatchet : bytes) : res SignalMessage :=
  _ ← check ((messageVersion <? CiphertextMessagePreKyberVersion) || (messageVersion >? CiphertextMessageCurrentVersion))
        ErrInvalidMessage;
  let body := encodeSignalMessageBody senderRatchet counter previousCounter ciphertext pqRatchet in
  let serialized := [versionByte messageVersion CiphertextMessageCurrentVersion] ++ body in
  mac ← computeSignalMAC macKey senderIdentity receiverIdentity serialized;
  mret (mkSignalMessage messageVersion senderRatchet counter previousCounter ciphertext pqRatchet (serialized ++ mac)).

Definition ParseSignalMessage (data : bytes) : res SignalMessage :=
  _ ← check (len data <? 1 + SignalMessageMACLength) ErrInvalidMessage;
  b ← index data 0;
  let messageVersion := parseMessageVersion b in
  _ ← check (messageVersion <? CiphertextMessagePreKyberVersion) ErrInvalidMessage;
  _ ← check (messageVersion >? CiphertextMessageCurrentVersion) ErrInvalidMessage;
  body ← slice data 1 (len data - SignalMessageMACLength);
  '(senderRatchet, counter, previousCounter, ciphertext, pqRatchet) ← decodeSignalMessageBody body;
  mret (mkSignalMessage messageVersion senderRatchet counter previousCounter ciphertext pqRatchet data).

Definition VerifyMAC (m : SignalMessage) (senderIdentity receiverIdentity : IdentityKey) (macKey : bytes) : res bool :=
  _ ← check (len (sm_serialized m) <? SignalMessageMACLength) ErrInvalidMessage;
  signed ← slice (sm_serialized m) 0 (len (sm_serialized m) - SignalMessageMACLength);
  mac ← computeSignalMAC macKey senderIdentity receiverIdentity signed;
  remoteMac ← slice (sm_serialized m) (len (sm_serialized m) - SignalMessageMACLength) (len (sm_serialized m));
  mret (bool_decide (remoteMac = mac)).

(** *** prekey_signal_message.go *)

Record PreKeySignalMessage : Type := mkPreKeySignalMessage {
  pm_messageVersion : Z;
  pm_registrationID : Z;
  pm_preKeyID : option Z;
  pm_signedPreKeyID : Z;
  pm_kyberPreKeyID : option Z;
  pm_kyberCiphertext : bytes;
  pm_baseKey : key32;
  pm_identityKey : IdentityKey;
  pm_message : SignalMessage;
  pm_serialized : bytes
}.

(** The variables of [decodePreKeySignalMessageBody]. *)
Record prekey_fields : Type := mkPreKeyFields {
  g_registrationID : Z; g_preKeyID : option Z; g_signedPreKeyID : option Z; g_kyberPreKeyID : option Z;
  g_kyberCiphertext : bytes; g_baseKey : option key32; g_identityKey : option IdentityKey; g_message : option SignalMessage }.

Definition append_optional (num : Z) (v : option Z) : bytes :=
  match v with Some v => AppendTag num VarintType ++ AppendVarint v | None => [] end.

Definition encodePreKeySignalMessageBody (registrationID : Z) (preKeyID : option Z) (signedPreKeyID : Z)
    (kyberPreKeyID : option Z) (kyberCiphertext : bytes) (baseKey : key32) (identityKey : IdentityKey)
    (message : SignalMessage) : bytes :=
  AppendTag 5 VarintType ++ AppendVarint registrationID ++
  append_optional 1 preKeyID ++
  AppendTag 6 VarintType ++ AppendVarint signedPreKeyID ++
  (match kyberPreKeyID with
   | Some id => if 0 <? len kyberCiphertext then
       AppendTag 7 VarintType ++ AppendVarint id ++ AppendTag 8 BytesType ++ AppendBytes kyberCiphertext else []
   | None => []
   end) ++
  AppendTag 2 BytesType ++ AppendBytes (SerializeWirePublicKey baseKey) ++
  AppendTag 3 BytesType ++ AppendBytes (SerializeWirePublicKey (ik_PublicKey identityKey)) ++
  AppendTag 4 BytesType ++ AppendBytes (sm_serialized message).

Definition prekey_field (num : Z) (typ : wire_type) (data : bytes) (f : prekey_fields) : res (prekey_fields * bytes) :=
  let '(mkPreKeyFields reg pre signed kid kct base ident msg) := f in
  if num =? 5 then
    '(val, data) ← take_varint typ data;
    mret (mkPreKeyFields (u32 val) pre signed kid kct base ident msg, data)
  else if num =? 1 then
    '(val, data) ← take_varint typ data;
    mret (mkPreKeyFields reg (Some (u32 val)) signed kid kct base ident msg, data)
  else if num =? 6 then
    '(val, data) ← take_varint typ data;
    mret (mkPreKeyFields reg pre (Some (u32 val)) kid kct base ident msg, data)
  else if num =? 7 then
    '(val, data) ← take_varint typ data;
    mret (mkPreKeyFields reg pre signed (Some (u32 val)) kct base ident msg, data)
  else if num =? 8 then
    '(val, data) ← take_bytes typ data;
    mret (mkPreKeyFields reg pre signed kid val base ident msg, data)
  else if num =? 2 then
    '(val, data) ← take_bytes typ data;
    key ← DeserializeWirePublicKey val;
    mret (mkPreKeyFields reg pre signed kid kct (Some key) ident msg, data)
  else if num =? 3 then
    '(val, data) ← take_bytes typ data;
    key ← DeserializeWirePublicKey val;
    mret (mkPreKeyFields reg pre signed kid kct base (Some (mkIdentityKey key zero32)) msg, data)
  else if num =? 4 then
    '(val, data) ← take_bytes typ data;
    m ← ParseSignalMessage val;
    mret (mkPreKeyFields reg pre signed kid kct base ident (Some m), data)
  else
    data ← skip_value num typ data;
    mret (f, data).

Definition kyber_mismatch (kyberPreKeyID : option Z) (kyberCiphertext : bytes) : bool :=
  negb (Bool.eqb (is_nil kyberPreKeyID) (len kyberCiphertext =? 0)).

Definition decodePreKeySignalMessageBody (data : bytes) :
    res (Z * option Z * Z * option Z * bytes * key32 * IdentityKey * SignalMessage) :=
  f ← decode prekey_field data (mkPreKeyFields 0 None None None [] None None None);
  match g_baseKey f, g_identityKey f, g_message f, g_signedPreKeyID f with
  | Some baseKey, Some identityKey, Some message, Some signedPreKeyID =>
      _ ← check (kyber_mismatch (g_kyberPreKeyID f) (g_kyberCiphertext f)) ErrInvalidMessage;
      mret (g_registrationID f, g_preKeyID f, signedPreKeyID, g_kyberPreKeyID f, g_kyberCiphertext f, baseKey, identityKey, message)
  | _, _, _, _ => Err ErrInvalidMessage
  end.

(** [kyberPreKeyID == nil || len(kyberCiphertext) == 0] *)
Definition kyber_missing (kyberPreKeyID : option Z) (kyberCiphertext : bytes) : bool :=
  is_nil kyberPreKeyID || (len kyberCiphertext =? 0).

Definition NewPreKeySignalMessage (messageVersion registrationID : Z) (preKeyID : option Z) (signedPreKeyID : Z)
    (kyberPreKeyID : option Z) (kyberCiphertext : bytes) (baseKey : key32) (identityKey : IdentityKey)
    (message : SignalMessage) : res PreKeySignalMessage :=
  _ ← check ((messageVersion <? CiphertextMessagePreKyberVersion) || (messageVersion >? CiphertextMessageCurrentVersion))
        ErrInvalidMessage;
  _ ← check ((messageVersion >? CiphertextMessagePreKyberVersion) && kyber_missing kyberPreKeyID kyberCiphertext) ErrInvalidMessage;
  _ ← check (kyber_mismatch kyberPreKeyID kyberCiphertext) ErrInvalidMessage;
  let body := encodePreKeySignalMessageBody registrationID preKeyID signedPreKeyID kyberPreKeyID kyberCiphertext baseKey
                identityKey message in
  let serialized := [versionByte messageVersion CiphertextMessageCurrentVersion] ++ body in
  mret (mkPreKeySignalMessage messageVersion registrationID preKeyID signedPreKeyID kyberPreKeyID kyberCiphertext baseKey
          identityKey message serialized).

Definition ParsePreKeySignalMessage (data : bytes) : res PreKeySignalMessage :=
  _ ← check (len data <? 1) ErrInvalidMessage;
  b ← index data 0;
  let messageVersion := parseMessageVersion b in
  _ ← check (messageVersion <? CiphertextMessagePreKyberVersion) ErrInvalidMessage;
  _ ← check (messageVersion >? CiphertextMessageCurrentVersion) ErrInvalidMessage;
  rest ← slice data 1 (len data);
  '(regID, preKeyID, signedPreKeyID, kyberPreKeyID, kyberCiphertext, baseKey, identityKey, message) ←
    decodePreKeySignalMessageBody rest;
  _ ← check ((messageVersion >? CiphertextMessagePreKyberVersion) && kyber_missing kyberPreKeyID kyberCiphertext) ErrInvalidMessage;
  mret (mkPreKeySignalMessage messageVersion regID preKeyID signedPreKeyID kyberPreKeyID kyberCiphertext baseKey
          identityKey message data).

End wire.
End Wire.
Import Wire.

Section lemmas.
Context `{Primitives} `{Protowire} `{!ProtowireLaws _}.

Lemma versionByte_parse v : CiphertextMessagePreKyberVersion <= v <= CiphertextMessageCurrentVersion ->
  parseMessageVersion (versionByte v CiphertextMessageCurrentVersion) = v.
Proof.
  unfold CiphertextMessagePreKyberVersion, CiphertextMessageCurrentVersion. intros Hv.
  assert (v = 3 \/ v = 4) as [-> | ->] by lia; reflexivity.
Qed.

(** The fields of a message, one after the other. *)
Ltac wire_side := solve [assumption | unfold is_u32, is_u64 in *; lia].
Ltac wire_field :=
  rewrite <- ?app_assoc; eapply decodes_field; [lia|done|
    cbn [signal_field prekey_field Z.eqb Pos.eqb];
    rewrite ?take_bytes_append, ?take_varint_append by wire_side; cbn [mbind res_bind];
    rewrite ?DeserializeWirePublicKey_serialize, ?u32_id by wire_side; cbn [mbind res_bind]; reflexivity|].

Lemma decodeSignalMessageBody_encode r c p ct pq :
  IsValidPublicKey r = true -> is_u32 c -> is_u32 p ->
  decodeSignalMessageBody (encodeSignalMessageBody r c p ct pq) = Ok (r, c, p, ct, pq).
Proof.
  intros Hr Hc Hp. unfold decodeSignalMessageBody.
  erewrite (decodes_run _ _ _ (Ok (mkSignalFields (Some r) (Some c) p (Some ct) pq))); [done|].
  unfold encodeSignalMessageBody. do 4 wire_field. cbn [f_ratchet f_counter f_previous f_ciphertext f_pq].
  destruct (Z.ltb_spec 0 (len pq)) as [Hq|Hq].
  - rewrite <- (app_nil_r (AppendTag 5 BytesType ++ _)). wire_field. apply decodes_nil.
  - rewrite (len_0_inv pq) by (pose proof (len_nonneg pq); lia). apply decodes_nil.
Qed.

Lemma computeSignalMAC_len mk si ri m mac : computeSignalMAC mk si ri m = Ok mac -> len mac = 8.
Proof. unfold computeSignalMAC. intros E. inv_steps. apply slice_length in E. unfold SignalMessageMACLength in E. lia. Qed.

(** A message that [NewSignalMessage] made. *)
Lemma NewSignalMessage_shape v mk r c p ct si ri pq m :
  NewSignalMessage v mk r c p ct si ri pq = Ok m ->
  exists mac, CiphertextMessagePreKyberVersion <= v <= CiphertextMessageCurrentVersion /\
    computeSignalMAC mk si ri (versionByte v CiphertextMessageCurrentVersion :: encodeSignalMessageBody r c p ct pq) = Ok mac /\
    m = mkSignalMessage v r c p ct pq ((versionByte v CiphertextMessageCurrentVersion :: encodeSignalMessageBody r c p ct pq) ++ mac).
Proof.
  unfold NewSignalMessage. intros E. inv_steps. subst m. apply orb_false_iff in Hok as [Hlo Hhi].
  eexists. split_and!; [lia|rewrite Z.gtb_ltb in Hhi; lia|exact Hok0|done].
Qed.

Lemma ParseSignalMessage_new v mk r c p ct si ri pq m :
  NewSignalMessage v mk r c p ct si ri pq = Ok m -> IsValidPublicKey r = true -> is_u32 c -> is_u32 p ->
  ParseSignalMessage (sm_serialized m) = Ok m.
Proof.
  intros (mac & Hv & Hmac & ->)%NewSignalMessage_shape Hr Hc Hp. cbn [sm_serialized app].
  pose proof (computeSignalMAC_len _ _ _ _ _ Hmac) as Hl. unfold ParseSignalMessage.
  rewrite (proj2 (Z.ltb_ge _ _)) by (unfold SignalMessageMACLength; lens).
  unfold SignalMessageMACLength. rewrite <- Hl, slice_mid. cbn [check mbind res_bind].
  rewrite index_head. cbn [mbind res_bind].
  rewrite versionByte_parse by done.
  rewrite (proj2 (Z.ltb_ge _ _)), Z.gtb_ltb, (proj2 (Z.ltb_ge _ _)) by lia. cbn [check mbind res_bind].
  rewrite decodeSignalMessageBody_encode by done. done.
Qed.

Lemma VerifyMAC_new v mk r c p ct si ri pq m :
  NewSignalMessage v mk r c p ct si ri pq = Ok m -> VerifyMAC m si ri mk = Ok true.
Proof.
  intros (mac & Hv & Hmac & ->)%NewSignalMessage_shape. unfold VerifyMAC. cbn [sm_serialized].
  pose proof (computeSignalMAC_len _ _ _ _ _ Hmac) as Hl. unfold SignalMessageMACLength.
  rewrite (proj2 (Z.ltb_ge _ _)) by lens. rewrite <- Hl, slice_head, slice_tail. cbn [check mbind res_bind].
  rewrite Hmac. cbn [mbind res_bind]. by rewrite bool_decide_true.
Qed.

(** *** The pre-key message *)

Definition wire_ids_ok (reg : Z) (pre : option Z) (signed : Z) (kid : option Z) : Prop :=
  is_u32 reg /\ is_u32 signed /\ (forall id, pre = Some id -> is_u32 id) /\ (forall id, kid = Some id -> is_u32 id).

(** What the pre-key message keeps of an identity key. *)
Definition wire_identity (k : IdentityKey) : IdentityKey := mkIdentityKey (ik_PublicKey k) zero32.

Lemma decodePreKeySignalMessageBody_encode reg pre signed kid kct base ik m :
  wire_ids_ok reg pre signed kid -> kyber_mismatch kid kct = false ->
  IsValidPublicKey base = true -> IsValidPublicKey (ik_PublicKey ik) = true ->
  ParseSignalMessage (sm_serialized m) = Ok m ->
  decodePreKeySignalMessageBody (encodePreKeySignalMessageBody reg pre signed kid kct base ik m) =
    Ok (reg, pre, signed, kid, kct, base, wire_identity ik, m).
Proof.
  intros (Hreg & Hsigned & Hpre & Hkid) Hk Hbase Hik Hm. unfold decodePreKeySignalMessageBody.
  erewrite (decodes_run _ _ _
    (Ok (mkPreKeyFields reg pre (Some signed) kid kct (Some base) (Some (wire_identity ik)) (Some m)))).
  { cbn. by rewrite Hk. }
  unfold encodePreKeySignalMessageBody. wire_field.
  assert (forall p kid' kct', decodes prekey_field
    (AppendTag 2 BytesType ++ AppendBytes (SerializeWirePublicKey base) ++
     AppendTag 3 BytesType ++ AppendBytes (SerializeWirePublicKey (ik_PublicKey ik)) ++
     AppendTag 4 BytesType ++ AppendBytes (sm_serialized m))
    (mkPreKeyFields reg p (Some signed) kid' kct' None None None)
    (Ok (mkPreKeyFields reg p (Some signed) kid' kct' (Some base) (Some (wire_identity ik)) (Some m)))) as Htail.
  { intros p kid' kct'. do 2 wire_field. rewrite <- (app_nil_r (AppendTag 4 BytesType ++ _)), <- app_assoc.
    eapply decodes_field; [lia|done|cbn [prekey_field Z.eqb Pos.eqb]; rewrite take_bytes_append; cbn [mbind res_bind];
      rewrite Hm; reflexivity|apply decodes_nil]. }
  assert (forall p, decodes prekey_field
    (AppendTag 6 VarintType ++ AppendVarint signed ++
     (match kid with
      | Some id => if 0 <? len kct then
          AppendTag 7 VarintType ++ AppendVarint id ++ AppendTag 8 BytesType ++ AppendBytes kct else []
      | None => [] end) ++
     AppendTag 2 BytesType ++ AppendBytes (SerializeWirePublicKey base) ++
     AppendTag 3 BytesType ++ AppendBytes (SerializeWirePublicKey (ik_PublicKey ik)) ++
     AppendTag 4 BytesType ++ AppendBytes (sm_serialized m))
    (mkPreKeyFields reg p None None [] None None None)
    (Ok (mkPreKeyFields reg p (Some signed) kid kct (Some base) (Some (wire_identity ik)) (Some m)))) as Hmid.
  { intros p. wire_field. unfold kyber_mismatch in Hk. apply negb_false_iff, eqb_prop in Hk.
    destruct kid as [id|]; cbn [is_nil] in Hk; symmetry in Hk.
    - apply Z.eqb_neq in Hk. pose proof (len_nonneg kct). rewrite (proj2 (Z.ltb_lt _ _)) by lia.
      pose proof (Hkid id eq_refl). do 2 wire_field. apply Htail.
    - apply Z.eqb_eq, len_0_inv in Hk. subst kct. apply Htail. }
  destruct pre as [p|]; [|apply Hmid]. cbn [append_optional]. pose proof (Hpre p eq_refl). wire_field. apply Hmid.
Qed.

Lemma NewPreKeySignalMessage_shape v reg pre signed kid kct base ik m pm :
  NewPreKeySignalMessage v reg pre signed kid kct base ik m = Ok pm ->
  CiphertextMessagePreKyberVersion <= v <= CiphertextMessageCurrentVersion /\
  ((v >? CiphertextMessagePreKyberVersion) && kyber_missing kid kct) = false /\ kyber_mismatch kid kct = false /\
  pm = mkPreKeySignalMessage v reg pre signed kid kct base ik m
    (versionByte v CiphertextMessageCurrentVersion :: encodePreKeySignalMessageBody reg pre signed kid kct base ik m).
Proof.
  unfold NewPreKeySignalMessage. intros E. inv_steps. subst pm. apply orb_false_iff in Hok as [Hlo Hhi].
  rewrite Z.gtb_ltb in Hhi. split_and!; (done || lia).
Qed.

(** *** One format is not the other *)

Lemma signal_not_prekey v r c p ct pq mac :
  ParsePreKeySignalMessage ((versionByte v CiphertextMessageCurrentVersion :: encodeSignalMessageBody r c p ct pq) ++ mac) =
  Err ErrInvalidMessage.
Proof.
  unfold ParsePreKeySignalMessage. cbn [app]. rewrite (proj2 (Z.ltb_ge _ _)) by lens. rewrite index_head. cbn [check mbind res_bind].
  destruct (parseMessageVersion _ <? _); [done|]. destruct (parseMessageVersion _ >? CiphertextMessageCurrentVersion); [done|]. cbn [check mbind res_bind].
  rewrite slice_cons. cbn [mbind res_bind].
  unfold decodePreKeySignalMessageBody, encodeSignalMessageBody. rewrite <- !app_assoc.
  rewrite (decodes_run _ _ _ (Err ErrInvalidMessage)); [done|]. apply decodes_error; [lia|done|done].
Qed.

Lemma prekey_not_signal v reg pre signed kid kct base ik m :
  ParseSignalMessage (versionByte v CiphertextMessageCurrentVersion ::
    encodePreKeySignalMessageBody reg pre signed kid kct base ik m) = Err ErrInvalidMessage.
Proof.
  unfold ParseSignalMessage. destruct (Z.ltb_spec (len (versionByte v CiphertextMessageCurrentVersion ::
    encodePreKeySignalMessageBody reg pre signed kid kct base ik m)) (1 + SignalMessageMACLength)) as [|Hl]; [done|].
  rewrite index_head. cbn [check mbind res_bind].
  destruct (parseMessageVersion _ <? _); [done|]. destruct (parseMessageVersion _ >? CiphertextMessageCurrentVersion); [done|]. cbn [check mbind res_bind].
  unfold encodePreKeySignalMessageBody.
  match goal with |- context [AppendTag 5 VarintType ++ ?r] => set (rest := r) end.
  assert (8 <= len rest) as Hrest.
  { subst rest. pose proof (append_bytes_len (SerializeWirePublicKey base)) as Hb.
    unfold SerializeWirePublicKey in Hb at 1. rewrite len_cons, vec_list_len in Hb. lens. }
  rewrite <- (take_drop (Z.to_nat (len rest - 8)) rest).
  set (x := take _ rest). set (y := drop _ rest).
  assert (len y = SignalMessageMACLength) as Hy by (subst y; unfold len, SignalMessageMACLength in *; rewrite length_drop; lia).
  rewrite <- Hy, app_assoc, slice_mid. cbn [mbind res_bind]. unfold decodeSignalMessageBody.
  rewrite (decodes_run _ _ _ (Err ErrInvalidMessage)); [done|]. apply decodes_error; [lia|done|done].
Qed.

(** *** The parsers return *)

Lemma DeserializeWirePublicKey_no_panic data :
  DeserializeWirePublicKey data <> Panic /\ DeserializeWirePublicKey data <> Err (ErrText "out of fuel").
Proof.
  unfold DeserializeWirePublicKey. destruct (Z.eqb_spec (len data) (1 + 32)) as [Hl|]; [|done]. cbn [negb check mbind res_bind].
  destruct data as [|b l]; [done|]. rewrite index_head, slice_cons. cbn [mbind res_bind].
  destruct (negb _); [done|]. cbn [check mbind res_bind]. by destruct (ValidatePublicKey _).
Qed.

(** A key is parsed. *)
Ltac field_case :=
  field_take ||
  (match goal with
   | |- context [DeserializeWirePublicKey ?d] =>
      destruct (DeserializeWirePublicKey_no_panic d); destruct (DeserializeWirePublicKey d)
   end; cbn [mbind res_bind mret res_ret]; subst; try done; try congruence).

Lemma signal_field_ok : field_ok signal_field.
Proof.
  intros num typ body acc. unfold signal_field.
  repeat match goal with |- context [if num =? ?n then _ else _] => destruct (num =? n) end; repeat field_case.
Qed.

Lemma ParseSignalMessage_no_panic data :
  ParseSignalMessage data <> Panic /\ ParseSignalMessage data <> Err (ErrText "out of fuel").
Proof.
  unfold ParseSignalMessage, SignalMessageMACLength. destruct (Z.ltb_spec (len data) (1 + 8)); [done|].
  destruct data as [|b l]; [done|]. rewrite index_head. cbn [check mbind res_bind].
  destruct (parseMessageVersion b <? _); [done|]. destruct (parseMessageVersion b >? _); [done|]. cbn [check mbind res_bind].
  unfold slice. rewrite !(proj2 (Z.leb_le _ _)) by lia. cbn [andb mbind res_bind]. unfold decodeSignalMessageBody, decode.
  match goal with |- context [decode_fields signal_field (length ?x) ?x ?acc] =>
    destruct (decode_fields_ok signal_field (length x) x acc signal_field_ok (le_n _)) as [Hp Hf];
    destruct (decode_fields signal_field (length x) x acc) as [f|e|] end; [|by split; [|intros [= ->]]|done].
  cbn [mbind res_bind]. by destruct (f_ratchet f), (f_counter f), (f_ciphertext f).
Qed.

Lemma prekey_field_ok : field_ok prekey_field.
Proof.
  intros num typ body []. unfold prekey_field.
  repeat match goal with |- context [if num =? ?n then _ else _] => destruct (num =? n) end; repeat field_case.
  all: match goal with |- context [ParseSignalMessage ?d] =>
    destruct (ParseSignalMessage_no_panic d); destruct (ParseSignalMessage d) end; cbn [mbind res_bind mret res_ret]; congruence || done.
Qed.

Lemma ParsePreKeySignalMessage_no_panic data :
  ParsePreKeySignalMessage data <> Panic /\ ParsePreKeySignalMessage data <> Err (ErrText "out of fuel").
Proof.
  unfold ParsePreKeySignalMessage. destruct data as [|b l]; [done|].
  rewrite (proj2 (Z.ltb_ge _ _)) by lens. rewrite index_head. cbn [check mbind res_bind].
  destruct (parseMessageVersion b <? _); [done|]. destruct (parseMessageVersion b >? CiphertextMessageCurrentVersion); [done|].
  rewrite slice_cons. cbn [check mbind res_bind]. unfold decodePreKeySignalMessageBody, decode.
  match goal with |- context [decode_fields prekey_field (length ?x) ?x ?acc] =>
    destruct (decode_fields_ok prekey_field (length x) x acc prekey_field_ok (le_n _)) as [Hp Hf];
    destruct (decode_fields prekey_field (length x) x acc) as [f|e|] end; [|by split; [|intros [= ->]]|done].
  cbn [mbind res_bind]. destruct (g_baseKey f), (g_identityKey f), (g_message f), (g_signedPreKeyID f); try done.
  destruct (kyber_mismatch _ _); [done|]. cbn [check mbind res_bind mret res_ret]. by destruct (_ && _).
Qed.

Lemma ParsePreKeySignalMessage_new v reg pre signed kid kct base ik m pm :
  NewPreKeySignalMessage v reg pre signed kid kct base ik m = Ok pm -> ParseSignalMessage (sm_serialized m) = Ok m ->
  wire_ids_ok reg pre signed kid -> IsValidPublicKey base = true -> IsValidPublicKey (ik_PublicKey ik) = true ->
  ParsePreKeySignalMessage (pm_serialized pm) =
    Ok (mkPreKeySignalMessage v reg pre signed kid kct base (wire_identity ik) m (pm_serialized pm)).
Proof.
  intros (Hv & Hneed & Hk & ->)%NewPreKeySignalMessage_shape Hparse Hids Hbase Hik. cbn [pm_serialized]. unfold ParsePreKeySignalMessage.
  rewrite (proj2 (Z.ltb_ge (len _) 1)) by lens. rewrite index_head, slice_cons. cbn [check mbind res_bind].
  rewrite versionByte_parse by done.
  rewrite (proj2 (Z.ltb_ge _ _)), (Z.gtb_ltb v CiphertextMessageCurrentVersion), (proj2 (Z.ltb_ge _ v)) by lia.
  cbn [check mbind res_bind]. rewrite decodePreKeySignalMessageBody_encode by done. cbn [mbind res_bind]. by rewrite Hneed.
Qed.

(** *** What the parsers accept *)

(** The range of every field of a message. *)
Definition signal_typed (m : SignalMessage) : Prop :=
  CiphertextMessagePreKyberVersion <= sm_messageVersion m <= CiphertextMessageCurrentVersion /\
  IsValidPublicKey (sm_senderRatchet m) = true /\ is_u32 (sm_counter m) /\ is_u32 (sm_previousCounter m).

Definition prekey_typed (m : PreKeySignalMessage) : Prop :=
  CiphertextMessagePreKyberVersion <= pm_messageVersion m <= CiphertextMessageCurrentVersion /\
  wire_ids_ok (pm_registrationID m) (pm_preKeyID m) (pm_signedPreKeyID m) (pm_kyberPreKeyID m) /\
  IsValidPublicKey (pm_baseKey m) = true /\ IsValidPublicKey (ik_PublicKey (pm_identityKey m)) = true /\
  wire_identity (pm_identityKey m) = pm_identityKey m /\
  kyber_mismatch (pm_kyberPreKeyID m) (pm_kyberCiphertext m) = false /\
  ((pm_messageVersion m >? CiphertextMessagePreKyberVersion) && kyber_missing (pm_kyberPreKeyID m) (pm_kyberCiphertext m)) = false.

Lemma DeserializeWirePublicKey_valid data k : DeserializeWirePublicKey data = Ok k -> IsValidPublicKey k = true.
Proof.
  unfold DeserializeWirePublicKey. intros E. inv_steps. unfold ValidatePublicKey in E.
  destruct (IsValidPublicKey (to_arr 32 v2)) eqn:Ev; [|done]. by injection E as <-.
Qed.

Definition signal_fields_typed (f : signal_fields) : Prop :=
  (forall k, f_ratchet f = Some k -> IsValidPublicKey k = true) /\ (forall c, f_counter f = Some c -> is_u32 c) /\ is_u32 (f_previous f).

Lemma signal_field_typed num typ body f f' rest :
  signal_fields_typed f -> signal_field num typ body f = Ok (f', rest) -> signal_fields_typed f'.
Proof.
  intros (H1 & H2 & H3) E. unfold signal_field in E.
  repeat match type of E with context [if num =? ?n then _ else _] => destruct (num =? n) end; inv_ok E;
    repeat match goal with x : _ * _ |- _ => destruct x end; inv_steps; injection E as <- <-; split_and!; cbn; try done;
    try apply u32_range; intros ? [= <-]; try apply u32_range; by eapply DeserializeWirePublicKey_valid.
Qed.

Lemma ParseSignalMessage_typed data m : ParseSignalMessage data = Ok m -> signal_typed m /\ sm_serialized m = data.
Proof.
  intros E. unfold ParseSignalMessage, decodeSignalMessageBody in E. inv_steps.
  match goal with x : key32 * Z * Z * bytes * bytes |- _ => destruct x as [[[[r c] pc] ct] pq] end. inv_steps. subst m.
  match goal with D : decode _ _ _ = Ok ?f |- _ => assert (signal_fields_typed f) as (H1 & H2 & H3) end.
  { eapply decode_invariant; [exact signal_field_typed| |done]. by split_and!. }
  repeat case_match; inv_steps; simplify_eq. split; [|done]. split_and!; cbn; auto; lia.
Qed.

Definition prekey_fields_typed (f : prekey_fields) : Prop :=
  is_u32 (g_registrationID f) /\ (forall i, g_preKeyID f = Some i -> is_u32 i) /\ (forall i, g_signedPreKeyID f = Some i -> is_u32 i) /\
  (forall i, g_kyberPreKeyID f = Some i -> is_u32 i) /\ (forall k, g_baseKey f = Some k -> IsValidPublicKey k = true) /\
  (forall k, g_identityKey f = Some k -> IsValidPublicKey (ik_PublicKey k) = true /\ wire_identity k = k) /\
  (forall m, g_message f = Some m -> ParseSignalMessage (sm_serialized m) = Ok m).

Lemma prekey_field_typed num typ body f f' rest :
  prekey_fields_typed f -> prekey_field num typ body f = Ok (f', rest) -> prekey_fields_typed f'.
Proof.
  destruct f as [reg pre signed kid kct base ident msg]. intros (H1 & H2 & H3 & H4 & H5 & H6 & H7) E. unfold prekey_field in E. cbn in *.
  repeat match type of E with context [if num =? ?n then _ else _] => destruct (num =? n) end; inv_ok E;
    repeat match goal with x : _ * _ |- _ => destruct x end; inv_steps; injection E as <- <-; split_and!; cbn; try done;
    try apply u32_range; intros ? [= <-]; try apply u32_range; try (by eapply DeserializeWirePublicKey_valid).
  - split; [by eapply DeserializeWirePublicKey_valid|done].
  - match goal with Hp : ParseSignalMessage _ = Ok _ |- _ => pose proof Hp as Hq; apply ParseSignalMessage_typed in Hq as [_ ->]; exact Hp end.
Qed.

Lemma ParsePreKeySignalMessage_typed data m :
  ParsePreKeySignalMessage data = Ok m ->
  prekey_typed m /\ pm_serialized m = data /\ ParseSignalMessage (sm_serialized (pm_message m)) = Ok (pm_message m).
Proof.
  intros E. unfold ParsePreKeySignalMessage, decodePreKeySignalMessageBody in E. inv_steps.
  match goal with x : Z * option Z * Z * option Z * bytes * key32 * IdentityKey * SignalMessage |- _ =>
    destruct x as [[[[[[[reg pre] sid] kid] kct] base] ik] msg] end. inv_steps. subst m.
  match goal with D : decode _ _ _ = Ok ?f |- _ => assert (prekey_fields_typed f) as (H1 & H2 & H3 & H4 & H5 & H6 & H7) end.
  { eapply decode_invariant; [exact prekey_field_typed| |done]. by split_and!. }
  repeat case_match; inv_steps; simplify_eq. destruct (H6 _ eq_refl) as [Hval Hwire].
  split; [|by split; [|apply H7]]. split_and!; cbn; auto; try lia. split_and!; auto.
Qed.

End lemmas.

(** ** Properties *)

(** C34: the wire messages. A [SignalMessage] built from a usable ratchet key and
    32-bit counters, and a [PreKeySignalMessage] built around it from 32-bit
    ids and usable keys, are parsed back from their bytes field by field (of
    the identity key only the Curve25519 half travels), and the MAC of the
    parsed message verifies under the key and the two identities that it was
    made with. *)
Theorem wire_messages_roundtrip (P : Primitives) (W : Protowire)
    v mk r c p ct si ri pq m v' reg pre signed kid kct base ik pm :
  ProtowireLaws W ->
  NewSignalMessage v mk r c p ct si ri pq = Ok m -> IsValidPublicKey r = true -> is_u32 c -> is_u32 p ->
  NewPreKeySignalMessage v' reg pre signed kid kct base ik m = Ok pm ->
  wire_ids_ok reg pre signed kid -> IsValidPublicKey base = true -> IsValidPublicKey (ik_PublicKey ik) = true ->
  ParseSignalMessage (sm_serialized m) = Ok m /\ VerifyMAC m si ri mk = Ok true /\
  ParsePreKeySignalMessage (pm_serialized pm) =
    Ok (mkPreKeySignalMessage v' reg pre signed kid kct base (wire_identity ik) m (pm_serialized pm)).
Proof.
  intros HW Hm Hr Hc Hp Hpm Hids Hbase Hik. pose proof (ParseSignalMessage_new _ _ _ _ _ _ _ _ _ _ Hm Hr Hc Hp) as Hparse.
  split_and!; [done|by eapply VerifyMAC_new|by eapply ParsePreKeySignalMessage_new].
Qed.

(** A key that the toy primitives take for valid. *)
Definition toy_key : key32 := to_arr 32 [Byte.x07].
Definition toy_identity : IdentityKey := mkIdentityKey toy_key toy_key.

Definition toy_signal : SignalMessage :=
  let P := Toy.primitives in let W := ToyWire.wire in
  get_ok (mkSignalMessage 0 zero32 0 0 [] [] [])
    (NewSignalMessage 4 (vec_to_list toy_key) toy_key 5 2 (str "ciphertext") toy_identity toy_identity (str "pq")).

Definition toy_prekey : PreKeySignalMessage :=
  let P := Toy.primitives in let W := ToyWire.wire in
  get_ok (mkPreKeySignalMessage 0 0 None 0 None [] zero32 toy_identity toy_signal [])
    (NewPreKeySignalMessage 4 11 (Some 3) 9 (Some 2) (str "kyber") toy_key toy_identity toy_signal).

Lemma wire_messages_roundtrip_witness :
  let P := Toy.primitives in let W := ToyWire.wire in
  ParseSignalMessage (sm_serialized toy_signal) = Ok toy_signal /\
  VerifyMAC toy_signal toy_identity toy_identity (vec_to_list toy_key) = Ok true /\
  ParsePreKeySignalMessage (pm_serialized toy_prekey) =
    Ok (mkPreKeySignalMessage 4 11 (Some 3) 9 (Some 2) (str "kyber") toy_key (wire_identity toy_identity) toy_signal
          (pm_serialized toy_prekey)).
Proof.
  intros P W. apply (wire_messages_roundtrip P W 4 (vec_to_list toy_key) toy_key 5 2 (str "ciphertext") toy_identity toy_identity
    (str "pq") toy_signal 4 11 (Some 3) 9 (Some 2) (str "kyber") toy_key toy_identity toy_prekey); try apply ToyWire.laws.
  - vm_compute. reflexivity.
  - vm_compute. reflexivity.
  - unfold is_u32. lia.
  - unfold is_u32. lia.
  - vm_compute. reflexivity.
  - unfold wire_ids_ok, is_u32. split_and!; (lia || (intros id [= <-]; lia)).
  - vm_compute. reflexivity.
  - vm_compute. reflexivity.
Defined.

(** The two formats are disjoint. The bytes of a [SignalMessage] are never
    accepted by [ParsePreKeySignalMessage], nor those of a
    [PreKeySignalMessage] by [ParseSignalMessage]: both carry the same version
    byte, but the first field has another wire type under the other reading. *)
Theorem wire_formats_disjoint (P : Primitives) (W : Protowire)
    v mk r c p ct si ri pq m v' reg pre signed kid kct base ik pm :
  ProtowireLaws W ->
  NewSignalMessage v mk r c p ct si ri pq = Ok m ->
  NewPreKeySignalMessage v' reg pre signed kid kct base ik m = Ok pm ->
  ParsePreKeySignalMessage (sm_serialized m) = Err ErrInvalidMessage /\
  ParseSignalMessage (pm_serialized pm) = Err ErrInvalidMessage.
Proof.
  intros HW (mac & _ & _ & ->)%NewSignalMessage_shape (_ & _ & _ & ->)%NewPreKeySignalMessage_shape.
  split; [apply signal_not_prekey|apply prekey_not_signal].
Qed.

Lemma wire_formats_disjoint_witness :
  let P := Toy.primitives in let W := ToyWire.wire in
  ParsePreKeySignalMessage (sm_serialized toy_signal) = Err ErrInvalidMessage /\
  ParseSignalMessage (pm_serialized toy_prekey) = Err ErrInvalidMessage.
Proof.
  intros P W. apply (wire_formats_disjoint P W 4 (vec_to_list toy_key) toy_key 5 2 (str "ciphertext") toy_identity toy_identity
    (str "pq") toy_signal 4 11 (Some 3) 9 (Some 2) (str "kyber") toy_key toy_identity toy_prekey); try apply ToyWire.laws;
    vm_compute; reflexivity.
Defined.

(** The wire parsers are total. Whatever bytes they are given, the two
    parsers return a message or an error: no slice expression is out of range,
    and the loop over the fields ends, since every iteration consumes at least
    the byte of a tag. *)
Theorem wire_parsers_total (P : Primitives) (W : Protowire) data :
  ProtowireLaws W ->
  ((exists m, ParseSignalMessage data = Ok m) \/
   exists e, ParseSignalMessage data = Err e /\ e <> ErrText "out of fuel") /\
  ((exists m, ParsePreKeySignalMessage data = Ok m) \/
   exists e, ParsePreKeySignalMessage data = Err e /\ e <> ErrText "out of fuel").
Proof.
  intros HW. destruct (ParseSignalMessage_no_panic data), (ParsePreKeySignalMessage_no_panic data).
  split; [destruct (ParseSignalMessage data)|destruct (ParsePreKeySignalMessage data)]; naive_solver.
Qed.

Lemma wire_parsers_total_witness :
  let P := Toy.primitives in let W := ToyWire.wire in
  (exists m, ParseSignalMessage (str "3junk and more junk") = Ok m) \/
  exists e, ParseSignalMessage (str "3junk and more junk") = Err e /\ e <> ErrText "out of fuel".
Proof. intros P W. exact (proj1 (wire_parsers_total P W (str "3junk and more junk") ToyWire.laws)). Defined.

(** C33: the fields of an accepted message are in range. Whatever bytes a parser
    accepts, the version is one of the two supported ones, counters and ids fit 32
    bits, every key is a usable Curve25519 point, and a Kyber id is there exactly
    with a Kyber ciphertext, and always in version 4. So an accepted
    [PreKeySignalMessage] can be relayed: building it again from its fields
    succeeds, and parses to the same fields. *)
Theorem wire_messages_typed (P : Primitives) (W : Protowire) data :
  ProtowireLaws W ->
  (forall m, ParseSignalMessage data = Ok m -> signal_typed m /\ sm_serialized m = data) /\
  (forall m, ParsePreKeySignalMessage data = Ok m ->
   prekey_typed m /\ pm_serialized m = data /\ signal_typed (pm_message m) /\
   exists m', NewPreKeySignalMessage (pm_messageVersion m) (pm_registrationID m) (pm_preKeyID m) (pm_signedPreKeyID m)
       (pm_kyberPreKeyID m) (pm_kyberCiphertext m) (pm_baseKey m) (pm_identityKey m) (pm_message m) = Ok m' /\
     ParsePreKeySignalMessage (pm_serialized m') = Ok m').
Proof.
  intros HW. split; [intros m; apply ParseSignalMessage_typed|].
  intros m (Ht & Hs & Hm)%ParsePreKeySignalMessage_typed. split; [done|]. split; [done|].
  split; [by apply ParseSignalMessage_typed in Hm as [? _]|].
  destruct Ht as (Hv & Hids & Hb & Hi & Hw & Hk & Hn).
  assert (exists m', NewPreKeySignalMessage (pm_messageVersion m) (pm_registrationID m) (pm_preKeyID m) (pm_signedPreKeyID m)
    (pm_kyberPreKeyID m) (pm_kyberCiphertext m) (pm_baseKey m) (pm_identityKey m) (pm_message m) = Ok m') as [m' E].
  { unfold NewPreKeySignalMessage. rewrite Hn, Hk, (proj2 (Z.ltb_ge _ _)), Z.gtb_ltb, (proj2 (Z.ltb_ge _ _)) by lia.
    cbn [orb check mbind res_bind]. by eexists. }
  exists m'. split; [done|]. rewrite (ParsePreKeySignalMessage_new _ _ _ _ _ _ _ _ _ _ E Hm Hids Hb Hi), Hw. f_equal.
  apply NewPreKeySignalMessage_shape in E as (_ & _ & _ & ->). done.
Qed.

Lemma wire_messages_typed_witness :
  let P := Toy.primitives in let W := ToyWire.wire in
  signal_typed toy_signal /\ exists m, ParsePreKeySignalMessage (pm_serialized toy_prekey) = Ok m /\ prekey_typed m.
Proof.
  intros P W. split.
  - apply (wire_messages_typed P W (sm_serialized toy_signal) ToyWire.laws). vm_compute. reflexivity.
  - assert (ParsePreKeySignalMessage (pm_serialized toy_prekey) =
      Ok (mkPreKeySignalMessage 4 11 (Some 3) 9 (Some 2) (str "kyber") toy_key (wire_identity toy_identity) toy_signal
          (pm_serialized toy_prekey))) as E by (vm_compute; reflexivity).
    eexists. split; [exact E|]. exact (proj1 (proj2 (wire_messages_typed P W (pm_serialized toy_prekey) ToyWire.laws) _ E)).
Defined.
