(* ===== verification/Certificates.v ===== *)
(** * Sealed sender certificates: sealedsender/certificates.go

    A [ServerCertificate] is a key of the service signed by a trust root; a
    [SenderCertificate] names a device of a user and its identity key, is signed
    by a server key, and embeds the server's certificate or refers to it by
    number. The records have the fields of the structs; a pointer that may be nil
    is an [option]; the empty slice is the nil slice (a copy
    [append([]byte(nil), val...)] of no bytes is nil). Signatures are those of the
    interface [XEdDSA]. *)

From Stdlib Require Import ZArith Lia.
From Stdlib Require Import Strings.Byte.
From stdpp Require Import base gmap strings list list_numbers vector.
From S2P Require Import Prelude Crypto Keys Protowire Wire.
Import Crypto Keys.

Module Certificates.

Definition revokedServerCertificateID : Z := 0xDEADC357.

Record ServerCertificate : Type := mkServerCertificate {
  srv_serialized : bytes;
  srv_certificate : bytes;
  srv_signature : bytes;
  srv_keyID : Z;
  srv_publicKey : key32
}.

(** [ServerCertificateResolver]: the certificate and [ok]. *)
Definition ServerCertificateResolver : Type := Z -> option ServerCertificate * bool.

Definition ServerCertificateMap : Type := gmap Z (option ServerCertificate).

Definition LookupServerCertificate (m : ServerCertificateMap) : ServerCertificateResolver := fun id =>
  match m !! id with Some cert => (cert, true) | None => (None, false) end.

Record SenderCertificateParams : Type := mkSenderCertificateParams {
  p_SenderUUID : string;
  p_SenderUUIDBytes : bytes;
  p_SenderE164 : string;
  p_SenderDevice : Z;
  p_ExpiresAt : Z;
  p_IdentityKey : key32;
  p_Signer : option ServerCertificate;
  p_SignerID : option Z;
  p_SignerPrivate : key32
}.

Record senderCertificateBody : Type := mkSenderCertificateBody {
  b_signer : option ServerCertificate;
  b_signerID : option Z;
  b_senderUUID : string;
  b_senderUUIDBytes : bytes;
  b_senderUUIDIsBytes : bool;
  b_senderE164 : string;
  b_hasSenderE164 : bool;
  b_senderDevice : Z;
  b_expiresMillis : Z;
  b_identityKey : key32;
  b_identityKeyBytes : bytes
}.

(** [SenderCertificate]: the three encodings, and the fields that the parser
    copies out of the body. *)
Record SenderCertificate : Type := mkSenderCertificate {
  snd_serialized : bytes;
  snd_certificate : bytes;
  snd_signature : bytes;
  snd_body : senderCertificateBody
}.

Record senderCertificateBodyParams : Type := mkBodyParams {
  q_senderUUID : string;
  q_senderUUIDBytes : bytes;
  q_senderUUIDIsBytes : bool;
  q_senderE164 : string;
  q_hasSenderE164 : bool;
  q_senderDevice : Z;
  q_expiresMillis : Z;
  q_identityKeyBytes : bytes;
  q_signer : option ServerCertificate;
  q_signerID : option Z
}.

(** [time.Time.UnixMilli] of an instant in nanoseconds since the zero time *)
Definition UnixMilli (t : Z) : Z := i64 (t / 10 ^ 6 - unixToInternal * 10 ^ 3).

(** [hex.Encode] *)
Definition hexDigit (n : Z) : byte := default Byte.x00 (str "0123456789abcdef" !! Z.to_nat n).
Definition hex_Encode (src : bytes) : bytes :=
  mjoin ((fun b => [hexDigit (Z.shiftr (b2z b) 4); hexDigit (Z.land (b2z b) 15)]) <$> src).

Definition uuidBytesToString (raw : bytes) : res string :=
  _ ← check (negb (len raw =? 16)) ErrInvalidMessage;
  a ← slice raw 0 4;
  b ← slice raw 4 6;
  c ← slice raw 6 8;
  d ← slice raw 8 10;
  e ← slice raw 10 16;
  mret (string_of (hex_Encode a ++ str "-" ++ hex_Encode b ++ str "-" ++ hex_Encode c ++ str "-" ++
                   hex_Encode d ++ str "-" ++ hex_Encode e)).

Definition compareIdentityKeyBytes (a : bytes) (b : key32) : bool :=
  let wire := SerializeWirePublicKey b in
  if negb (len a =? len wire) then false else bool_decide (a = wire).

(** *** The methods without parameters, on a pointer that may be nil *)

Definition ServerCertificate_Serialize (c : option ServerCertificate) : bytes :=
  match c with None => [] | Some c => srv_serialized c end.
Definition ServerCertificate_KeyID (c : option ServerCertificate) : Z :=
  match c with None => 0 | Some c => srv_keyID c end.
Definition ServerCertificate_PublicKey (c : option ServerCertificate) : key32 :=
  match c with None => zero32 | Some c => srv_publicKey c end.

Definition SenderCertificate_Serialize (c : option SenderCertificate) : bytes :=
  match c with None => [] | Some c => snd_serialized c end.
Definition SenderUUID (c : option SenderCertificate) : string :=
  match c with None => "" | Some c => b_senderUUID (snd_body c) end.
Definition SenderE164 (c : option SenderCertificate) : string * bool :=
  match c with
  | None => (""%string, false)
  | Some c => if b_hasSenderE164 (snd_body c) then (b_senderE164 (snd_body c), true) else (""%string, false)
  end.
Definition SenderDevice (c : option SenderCertificate) : Z :=
  match c with None => 0 | Some c => b_senderDevice (snd_body c) end.
(** [time.UnixMilli(int64(ms))]: nanoseconds since the zero time *)
Definition ExpiresAt (c : option SenderCertificate) : Z :=
  let ms := match c with None => 0 | Some c => i64 (b_expiresMillis (snd_body c)) end in
  (ms + unixToInternal * 10 ^ 3) * 10 ^ 6.
Definition ExpiresMillis (c : option SenderCertificate) : Z :=
  match c with None => 0 | Some c => b_expiresMillis (snd_body c) end.
Definition IdentityKey (c : option SenderCertificate) : key32 :=
  match c with None => zero32 | Some c => b_identityKey (snd_body c) end.
Definition IdentityKeyBytes (c : option SenderCertificate) : bytes :=
  match c with None => [] | Some c => b_identityKeyBytes (snd_body c) end.
Definition Signer (c : option SenderCertificate) : option ServerCertificate * bool :=
  match c with
  | None => (None, false)
  | Some c => match b_signer (snd_body c) with None => (None, false) | Some s => (Some s, true) end
  end.
Definition SignerID (c : option SenderCertificate) : Z * bool :=
  match c with
  | None => (0, false)
  | Some c => match b_signerID (snd_body c) with None => (0, false) | Some id => (id, true) end
  end.

(** *** Encoding and decoding *)

Section codec.
Context `{Primitives} `{Protowire}.

Definition encodeServerCertificate (certificate signature : bytes) : bytes :=
  AppendTag 1 BytesType ++ AppendBytes certificate ++
  AppendTag 2 BytesType ++ AppendBytes signature.

(** The switch over the two fields, and the variables [certificate] and
    [signature]. *)
Definition server_field (num : Z) (typ : wire_type) (data : bytes) (f : bytes * bytes) : res (bytes * bytes * bytes) :=
  let '(certificate, signature) := f in
  if num =? 1 then
    '(val, data) ← take_bytes typ data;
    mret (val, signature, data)
  else if num =? 2 then
    '(val, data) ← take_bytes typ data;
    mret (certificate, val, data)
  else
    data ← skip_value num typ data;
    mret (certificate, signature, data).

Definition decodeServerCertificate (data : bytes) : res (bytes * bytes) :=
  _ ← check (len data =? 0) ErrInvalidMessage;
  '(certificate, signature) ← decode server_field data ([], []);
  _ ← check ((len certificate =? 0) || (len signature =? 0)) ErrInvalidMessage;
  mret (certificate, signature).

Definition encodeServerCertificateBody (keyID : Z) (publicKey : key32) : bytes :=
  AppendTag 1 VarintType ++ AppendVarint keyID ++
  AppendTag 2 BytesType ++ AppendBytes (SerializeWirePublicKey publicKey).

(** [val, n := ConsumeVarint(data); if n < 0 || val > math.MaxUint32] *)
Definition take_uint32 (typ : wire_type) (data : bytes) : res (Z * bytes) :=
  '(val, data) ← take_varint typ data;
  _ ← check (val >? MaxUint32) ErrInvalidMessage;
  mret (val, data).

(** The variables [keyID] and [keyBytes], with their [got] flags. *)
Definition server_body_field (num : Z) (typ : wire_type) (data : bytes) (f : option Z * option bytes) :
    res (option Z * option bytes * bytes) :=
  let '(keyID, keyBytes) := f in
  if num =? 1 then
    '(val, data) ← take_uint32 typ data;
    mret (Some val, keyBytes, data)
  else if num =? 2 then
    '(val, data) ← take_bytes typ data;
    mret (keyID, Some val, data)
  else
    data ← skip_value num typ data;
    mret (keyID, keyBytes, data).

Definition decodeServerCertificateBody (data : bytes) : res (Z * key32) :=
  f ← decode server_body_field data (None, None);
  match f with
  | (Some keyID, Some keyBytes) => key ← DeserializeWirePublicKey keyBytes; mret (keyID, key)
  | _ => Err ErrInvalidMessage
  end.

Definition ParseServerCertificate (data : bytes) : res ServerCertificate :=
  '(certificate, signature) ← decodeServerCertificate data;
  '(keyID, publicKey) ← decodeServerCertificateBody certificate;
  mret (mkServerCertificate data certificate signature keyID publicKey).

Definition encodeSenderCertificate (certificate signature : bytes) : bytes :=
  AppendTag 1 BytesType ++ AppendBytes certificate ++
  AppendTag 2 BytesType ++ AppendBytes signature.

Definition sender_field (num : Z) (typ : wire_type) (data : bytes) (f : bytes * bytes) : res (bytes * bytes * bytes) :=
  let '(certificate, signature) := f in
  if num =? 1 then
    '(val, data) ← take_bytes typ data;
    mret (val, signature, data)
  else if num =? 2 then
    '(val, data) ← take_bytes typ data;
    mret (certificate, val, data)
  else
    data ← skip_value num typ data;
    mret (certificate, signature, data).

Definition decodeSenderCertificate (data : bytes) : res (bytes * bytes) :=
  _ ← check (len data =? 0) ErrInvalidMessage;
  '(certificate, signature) ← decode sender_field data ([], []);
  _ ← check ((len certificate =? 0) || (len signature =? 0)) ErrInvalidMessage;
  mret (certificate, signature).

Definition encodeSenderCertificateBody (params : senderCertificateBodyParams) : bytes :=
  (if q_hasSenderE164 params then AppendTag 1 BytesType ++ AppendString (q_senderE164 params) else []) ++
  (if q_senderUUIDIsBytes params then AppendTag 7 BytesType ++ AppendBytes (q_senderUUIDBytes params)
   else AppendTag 6 BytesType ++ AppendString (q_senderUUID params)) ++
  AppendTag 2 VarintType ++ AppendVarint (q_senderDevice params) ++
  AppendTag 3 Fixed64Type ++ AppendFixed64 (q_expiresMillis params) ++
  AppendTag 4 BytesType ++ AppendBytes (q_identityKeyBytes params) ++
  (match q_signer params, q_signerID params with
   | Some signer, _ => AppendTag 5 BytesType ++ AppendBytes (ServerCertificate_Serialize (Some signer))
   | None, Some id => AppendTag 8 VarintType ++ AppendVarint id
   | None, None => []
   end).

(** The variables of [decodeSenderCertificateBody]; a value with a [got] flag of
    its own is an [option]. *)
Record sender_body_vars : Type := mkBodyVars {
  v_senderUUID : string;
  v_senderUUIDBytes : bytes;
  v_senderUUIDIsBytes : bool;
  v_gotUUID : bool;
  v_senderE164 : option string;
  v_senderDevice : option Z;
  v_expiresMillis : option Z;
  v_identityKeyBytes : option bytes;
  v_signer : option ServerCertificate;
  v_signerID : option Z;
  v_gotSigner : bool
}.

Definition sender_body_field (num : Z) (typ : wire_type) (data : bytes) (f : sender_body_vars) : res (sender_body_vars * bytes) :=
  let '(mkBodyVars uuid uuidBytes isBytes gotUUID e164 device expires identity signer signerID gotSigner) := f in
  if num =? 1 then
    '(val, data) ← take_bytes typ data;
    mret (mkBodyVars uuid uuidBytes isBytes gotUUID (Some (string_of val)) device expires identity signer signerID gotSigner, data)
  else if num =? 6 then
    '(val, data) ← take_bytes typ data;
    _ ← check gotUUID ErrInvalidMessage;
    mret (mkBodyVars (string_of val) uuidBytes false true e164 device expires identity signer signerID gotSigner, data)
  else if num =? 7 then
    '(val, data) ← take_bytes typ data;
    _ ← check gotUUID ErrInvalidMessage;
    _ ← check (negb (len val =? 16)) ErrInvalidMessage;
    parsedUUID ← uuidBytesToString val;
    mret (mkBodyVars parsedUUID val true true e164 device expires identity signer signerID gotSigner, data)
  else if num =? 2 then
    '(val, data) ← take_uint32 typ data;
    mret (mkBodyVars uuid uuidBytes isBytes gotUUID e164 (Some val) expires identity signer signerID gotSigner, data)
  else if num =? 3 then
    '(val, data) ← take_fixed64 typ data;
    mret (mkBodyVars uuid uuidBytes isBytes gotUUID e164 device (Some val) identity signer signerID gotSigner, data)
  else if num =? 4 then
    '(val, data) ← take_bytes typ data;
    mret (mkBodyVars uuid uuidBytes isBytes gotUUID e164 device expires (Some val) signer signerID gotSigner, data)
  else if num =? 5 then
    '(val, data) ← take_bytes typ data;
    _ ← check gotSigner ErrInvalidMessage;
    parsedSigner ← ParseServerCertificate val;
    mret (mkBodyVars uuid uuidBytes isBytes gotUUID e164 device expires identity (Some parsedSigner) signerID true, data)
  else if num =? 8 then
    '(val, data) ← take_uint32 typ data;
    _ ← check gotSigner ErrInvalidMessage;
    mret (mkBodyVars uuid uuidBytes isBytes gotUUID e164 device expires identity signer (Some val) true, data)
  else
    data ← skip_value num typ data;
    mret (f, data).

Definition decodeSenderCertificateBody (data : bytes) : res senderCertificateBody :=
  f ← decode sender_body_field data (mkBodyVars "" [] false false None None None None None None false);
  match v_senderDevice f, v_expiresMillis f, v_identityKeyBytes f, v_gotUUID f, v_gotSigner f with
  | Some device, Some expires, Some identityKeyBytes, true, true =>
      identityKey ← DeserializeWirePublicKey identityKeyBytes;
      mret (mkSenderCertificateBody (v_signer f) (v_signerID f) (v_senderUUID f) (v_senderUUIDBytes f) (v_senderUUIDIsBytes f)
              (default "" (v_senderE164 f)) (negb (is_nil (v_senderE164 f))) device expires identityKey identityKeyBytes)
  | _, _, _, _, _ => Err ErrInvalidMessage
  end.

Definition ParseSenderCertificate (data : bytes) : res SenderCertificate :=
  '(certificate, signature) ← decodeSenderCertificate data;
  parsed ← decodeSenderCertificateBody certificate;
  mret (mkSenderCertificate data certificate signature parsed).

(** *** Issuing *)

Context `{XEdDSA}.

(** [if err != nil { return nil, ErrInvalidKey }] *)
Definition valid_or_invalid_key (publicKey : key32) : res unit :=
  match ValidatePublicKey publicKey with Ok u => Ok u | Err _ => Err ErrInvalidKey | Panic => Panic end.

Definition NewServerCertificate (keyID : Z) (publicKey trustRootPrivate : key32) : ST tape ServerCertificate :=
  _ ← st_lift (valid_or_invalid_key publicKey);
  let certificate := encodeServerCertificateBody keyID publicKey in
  signature ← XEdDSASign trustRootPrivate certificate;
  let serialized := encodeServerCertificate certificate signature in
  mret (mkServerCertificate serialized certificate signature keyID publicKey).

Definition NewSenderCertificate (params : SenderCertificateParams) : ST tape SenderCertificate :=
  let uuid := p_SenderUUID params in
  let uuidBytes := p_SenderUUIDBytes params in
  _ ← st_check (bool_decide (uuid = "") && (len uuidBytes =? 0)) ErrInvalidMessage;
  _ ← st_check (negb (bool_decide (uuid = "")) && negb (len uuidBytes =? 0)) ErrInvalidMessage;
  _ ← st_check (is_nil (p_Signer params) && is_nil (p_SignerID params)) ErrInvalidMessage;
  _ ← st_check (negb (is_nil (p_Signer params)) && negb (is_nil (p_SignerID params))) ErrInvalidMessage;
  _ ← st_check (p_ExpiresAt params =? 0) ErrInvalidMessage;
  _ ← st_lift (valid_or_invalid_key (p_IdentityKey params));
  _ ← st_check ((0 <? len uuidBytes) && negb (len uuidBytes =? 16)) ErrInvalidMessage;
  let expiresMillis := u64 (UnixMilli (p_ExpiresAt params)) in
  let identityKeyBytes := SerializeWirePublicKey (p_IdentityKey params) in
  let certificate := encodeSenderCertificateBody (mkBodyParams uuid uuidBytes (0 <? len uuidBytes) (p_SenderE164 params)
        (negb (bool_decide (p_SenderE164 params = ""))) (p_SenderDevice params) expiresMillis identityKeyBytes
        (p_Signer params) (p_SignerID params)) in
  signature ← XEdDSASign (p_SignerPrivate params) certificate;
  let serialized := encodeSenderCertificate certificate signature in
  senderUUID ← st_lift (if bool_decide (uuid = "") then uuidBytesToString uuidBytes else Ok uuid);
  mret (mkSenderCertificate serialized certificate signature
          (mkSenderCertificateBody (p_Signer params) (p_SignerID params) senderUUID uuidBytes (0 <? len uuidBytes)
             (p_SenderE164 params) (negb (bool_decide (p_SenderE164 params = ""))) (p_SenderDevice params) expiresMillis
             (p_IdentityKey params) identityKeyBytes)).

(** *** Validation *)

Definition ServerCertificate_Validate (c : option ServerCertificate) (trustRoot : key32) : bool :=
  match c with
  | None => false
  | Some c =>
      if srv_keyID c =? revokedServerCertificateID then false
      else XEdDSAVerify trustRoot (srv_signature c) (srv_certificate c)
  end.

Definition resolveSigner (c : SenderCertificate) (resolver : option ServerCertificateResolver) : res ServerCertificate :=
  match b_signer (snd_body c) with
  | Some signer => Ok signer
  | None =>
      match b_signerID (snd_body c) with
      | None => Err ErrInvalidMessage
      | Some id =>
          match resolver with
          | None => Err ErrInvalidMessage
          | Some lookup =>
              match lookup id with
              | (Some cert, true) => Ok cert
              | _ => Err ErrInvalidMessage
              end
          end
      end
  end.

(** [for _, root := range trustRoots { if signer.Validate(root) {...; break} }] *)
Fixpoint any_root (signer : ServerCertificate) (trustRoots : list key32) : bool :=
  match trustRoots with
  | [] => false
  | root :: trustRoots => if ServerCertificate_Validate (Some signer) root then true else any_root signer trustRoots
  end.

Definition SenderCertificate_Validate (c : option SenderCertificate) (trustRoots : list key32) (validationTime : Z)
    (resolver : option ServerCertificateResolver) : res bool :=
  match c with
  | None => Err ErrInvalidMessage
  | Some c =>
      _ ← check (len trustRoots =? 0) ErrInvalidKey;
      signer ← resolveSigner c resolver;
      if negb (any_root signer trustRoots) then Ok false
      else if negb (XEdDSAVerify (srv_publicKey signer) (snd_signature c) (snd_certificate c)) then Ok false
      else if UnixMilli validationTime >? i64 (b_expiresMillis (snd_body c)) then Ok false
      else Ok true
  end.

End codec.
End Certificates.
Import Certificates.

Section lemmas.
Context `{Primitives} `{Protowire} `{!ProtowireLaws _} `{XEdDSA}.

Lemma take_uint32_append v rest : is_u32 v -> take_uint32 VarintType (AppendVarint v ++ rest) = Ok (v, rest).
Proof.
  intros Hv. unfold take_uint32. rewrite take_varint_append by (unfold is_u32, is_u64 in *; lia). cbn [mbind res_bind].
  rewrite Z.gtb_ltb, (proj2 (Z.ltb_ge _ _)); [done|]. unfold is_u32, MaxUint32 in *. lia.
Qed.

(** *** Reading back what was written *)

Ltac cert_side := solve [assumption | unfold is_u32, is_u64 in *; lia].
Ltac cert_field :=
  rewrite <- ?app_assoc; eapply decodes_field; [lia|done|
    cbn [server_field server_body_field sender_field sender_body_field Z.eqb Pos.eqb];
    rewrite ?append_string, ?take_bytes_append, ?take_uint32_append, ?take_fixed64_append by cert_side; cbn [mbind res_bind];
    reflexivity|].
(** The same for the last field. *)
Ltac last_field :=
  match goal with |- decodes _ ?enc _ _ => rewrite <- (app_nil_r enc) end; cert_field; apply decodes_nil.

Lemma decodeServerCertificate_encode c s :
  c <> [] -> s <> [] -> decodeServerCertificate (encodeServerCertificate c s) = Ok (c, s).
Proof.
  intros Hc Hs. unfold decodeServerCertificate. rewrite (proj2 (Z.eqb_neq _ _)).
  2: { unfold encodeServerCertificate. pose proof (append_bytes_len c). destruct c as [|x c]; [done|]. rewrite !len_app. rewrite len_cons in *. len_facts. pose proof (len_nonneg c). lia. }
  cbn [check mbind res_bind]. erewrite (decodes_run _ _ _ (Ok (c, s))).
  - destruct c, s; done.
  - unfold encodeServerCertificate. cert_field. last_field.
Qed.

Lemma decodeSenderCertificate_encode c s :
  c <> [] -> s <> [] -> decodeSenderCertificate (encodeSenderCertificate c s) = Ok (c, s).
Proof. exact (decodeServerCertificate_encode c s). Qed.

Lemma decodeServerCertificateBody_encode id key :
  is_u32 id -> IsValidPublicKey key = true -> decodeServerCertificateBody (encodeServerCertificateBody id key) = Ok (id, key).
Proof.
  intros Hid Hk. unfold decodeServerCertificateBody.
  erewrite (decodes_run _ _ _ (Ok (Some id, Some (SerializeWirePublicKey key)))).
  - cbn. by rewrite DeserializeWirePublicKey_serialize.
  - unfold encodeServerCertificateBody. cert_field. last_field.
Qed.

(** The shape of an issued server certificate. *)
Lemma NewServerCertificate_shape id key root t t' c :
  NewServerCertificate id key root t = (t', Ok c) ->
  exists sig, let body := encodeServerCertificateBody id key in
    IsValidPublicKey key = true /\ XEdDSASign root body t = (t', Ok sig) /\
    c = mkServerCertificate (encodeServerCertificate body sig) body sig id key.
Proof.
  unfold NewServerCertificate. intros E. inv_ok E. unfold st_lift, valid_or_invalid_key, ValidatePublicKey in Hok.
  destruct (IsValidPublicKey key); [|done]. injection Hok as -> _. injection E as <- <-. eexists. split_and!; [done|exact Hok0|done].
Qed.

Lemma append_bytes_not_nil b : b <> [] -> AppendBytes b <> [].
Proof. intros Hb E. pose proof (append_bytes_len b). rewrite E in *. by destruct b. Qed.

Lemma server_body_not_nil id key : encodeServerCertificateBody id key <> [].
Proof.
  unfold encodeServerCertificateBody. intros E. do 3 apply app_eq_nil in E as [_ E].
  by apply append_bytes_not_nil in E.
Qed.

Context `{!XEdDSALaws _ _}.

Lemma ParseServerCertificate_new id key root t t' c :
  NewServerCertificate id key root t = (t', Ok c) -> is_u32 id -> ParseServerCertificate (srv_serialized c) = Ok c.
Proof.
  intros (sig & Hk & Hs & ->)%NewServerCertificate_shape Hid. cbn [srv_serialized]. unfold ParseServerCertificate.
  rewrite decodeServerCertificate_encode.
  - cbn [mbind res_bind]. by rewrite decodeServerCertificateBody_encode.
  - apply server_body_not_nil.
  - apply xeddsa_length in Hs. by destruct sig.
Qed.

(** *** The body of a sender certificate *)

(** What an encoded body says: its parameters, with the string of the bytes of
    the UUID, are the fields of the parsed body. *)
Definition body_ok (q : senderCertificateBodyParams) (key : key32) (uuid : string) : Prop :=
  is_u32 (q_senderDevice q) /\ is_u64 (q_expiresMillis q) /\
  q_identityKeyBytes q = SerializeWirePublicKey key /\ IsValidPublicKey key = true /\
  (q_hasSenderE164 q = false -> q_senderE164 q = ""%string) /\
  (if q_senderUUIDIsBytes q then len (q_senderUUIDBytes q) = 16 /\ uuidBytesToString (q_senderUUIDBytes q) = Ok uuid
   else q_senderUUIDBytes q = [] /\ q_senderUUID q = uuid) /\
  match q_signer q, q_signerID q with
  | Some s, None => ParseServerCertificate (srv_serialized s) = Ok s
  | None, Some id => is_u32 id
  | _, _ => False
  end.

Definition body_of (q : senderCertificateBodyParams) (key : key32) (uuid : string) : senderCertificateBody :=
  mkSenderCertificateBody (q_signer q) (q_signerID q) uuid (q_senderUUIDBytes q) (q_senderUUIDIsBytes q) (q_senderE164 q)
    (q_hasSenderE164 q) (q_senderDevice q) (q_expiresMillis q) key (q_identityKeyBytes q).

Definition body_vars (q : senderCertificateBodyParams) (uuid : string) : sender_body_vars :=
  mkBodyVars uuid (q_senderUUIDBytes q) (q_senderUUIDIsBytes q) true (if q_hasSenderE164 q then Some (q_senderE164 q) else None)
    (Some (q_senderDevice q)) (Some (q_expiresMillis q)) (Some (q_identityKeyBytes q)) (q_signer q) (q_signerID q) true.

Lemma sender_body_decodes q key uuid :
  body_ok q key uuid -> decodes sender_body_field (encodeSenderCertificateBody q)
    (mkBodyVars "" [] false false None None None None None None false) (Ok (body_vars q uuid)).
Proof.
  destruct q as [u ub isb e164 has dev exp idk signer signerID].
  unfold body_ok, body_vars, encodeSenderCertificateBody. cbn [q_senderUUID q_senderUUIDBytes q_senderUUIDIsBytes q_senderE164
    q_hasSenderE164 q_senderDevice q_expiresMillis q_identityKeyBytes q_signer q_signerID].
  intros (Hd & He & -> & Hk & H164 & Hu & Hsig).
  assert (forall e u0 ub0 isb0, decodes sender_body_field
    (AppendTag 2 VarintType ++ AppendVarint dev ++ AppendTag 3 Fixed64Type ++ AppendFixed64 exp ++
     AppendTag 4 BytesType ++ AppendBytes (SerializeWirePublicKey key) ++
     (match signer, signerID with
      | Some signer, _ => AppendTag 5 BytesType ++ AppendBytes (ServerCertificate_Serialize (Some signer))
      | None, Some id => AppendTag 8 VarintType ++ AppendVarint id
      | None, None => []
      end))
    (mkBodyVars u0 ub0 isb0 true e None None None None None false)
    (Ok (mkBodyVars u0 ub0 isb0 true e (Some dev) (Some exp) (Some (SerializeWirePublicKey key)) signer signerID true))) as Htail.
  { intros e u0 ub0 isb0. do 3 cert_field. destruct signer as [s|], signerID as [id|]; [done| | |done]; [|last_field].
    rewrite <- (app_nil_r (AppendTag 5 BytesType ++ _)), <- app_assoc. eapply decodes_field; [lia|done| |apply decodes_nil].
    cbn [sender_body_field Z.eqb Pos.eqb ServerCertificate_Serialize]. rewrite take_bytes_append. cbn [mbind res_bind check].
    by rewrite Hsig. }
  assert (forall e, decodes sender_body_field
    ((if isb then AppendTag 7 BytesType ++ AppendBytes ub else AppendTag 6 BytesType ++ AppendString u) ++
     AppendTag 2 VarintType ++ AppendVarint dev ++ AppendTag 3 Fixed64Type ++ AppendFixed64 exp ++
     AppendTag 4 BytesType ++ AppendBytes (SerializeWirePublicKey key) ++
     (match signer, signerID with
      | Some signer, _ => AppendTag 5 BytesType ++ AppendBytes (ServerCertificate_Serialize (Some signer))
      | None, Some id => AppendTag 8 VarintType ++ AppendVarint id
      | None, None => []
      end))
    (mkBodyVars "" [] false false e None None None None None false)
    (Ok (mkBodyVars uuid ub isb true e (Some dev) (Some exp) (Some (SerializeWirePublicKey key)) signer signerID true))) as Hmid.
  { intros e. destruct isb; destruct Hu as [Hl Hu].
    - rewrite <- app_assoc. eapply decodes_field; [lia|done| |apply Htail].
      cbn [sender_body_field Z.eqb Pos.eqb]. rewrite take_bytes_append. cbn [mbind res_bind check]. rewrite Hl, Hu. done.
    - subst ub uuid. rewrite <- app_assoc. eapply decodes_field; [lia|done| |apply Htail].
      cbn [sender_body_field Z.eqb Pos.eqb]. rewrite append_string, take_bytes_append. cbn [mbind res_bind check].
      by rewrite string_of_str. }
  destruct has; [|apply Hmid]. rewrite <- app_assoc. eapply decodes_field; [lia|done| |apply Hmid].
  cbn [sender_body_field Z.eqb Pos.eqb]. rewrite append_string, take_bytes_append. cbn [mbind res_bind]. by rewrite string_of_str.
Qed.

Lemma decodeSenderCertificateBody_encode q key uuid :
  body_ok q key uuid -> decodeSenderCertificateBody (encodeSenderCertificateBody q) = Ok (body_of q key uuid).
Proof.
  intros Hq. unfold decodeSenderCertificateBody. rewrite (decodes_run _ _ _ _ (sender_body_decodes q key uuid Hq)).
  destruct Hq as (_ & _ & Hi & Hk & H164 & _). unfold body_vars, body_of. cbn. rewrite Hi, DeserializeWirePublicKey_serialize by done.
  cbn. destruct (q_hasSenderE164 q); [done|]. by rewrite H164.
Qed.

(** The parameters of the body that [NewSenderCertificate] signs. *)
Definition body_params (p : SenderCertificateParams) : senderCertificateBodyParams :=
  mkBodyParams (p_SenderUUID p) (p_SenderUUIDBytes p) (0 <? len (p_SenderUUIDBytes p)) (p_SenderE164 p)
    (negb (bool_decide (p_SenderE164 p = ""))) (p_SenderDevice p) (u64 (UnixMilli (p_ExpiresAt p)))
    (SerializeWirePublicKey (p_IdentityKey p)) (p_Signer p) (p_SignerID p).

(** Parameters at their widths; an embedded signer that can be parsed. *)
Definition params_ok (p : SenderCertificateParams) : Prop :=
  is_u32 (p_SenderDevice p) /\
  (forall id, p_SignerID p = Some id -> is_u32 id) /\
  (forall s, p_Signer p = Some s -> ParseServerCertificate (srv_serialized s) = Ok s).

Lemma valid_or_invalid_key_ok key u : valid_or_invalid_key key = Ok u -> IsValidPublicKey key = true.
Proof. unfold valid_or_invalid_key, ValidatePublicKey. by destruct (IsValidPublicKey key). Qed.

Lemma NewSenderCertificate_shape p t t' c :
  NewSenderCertificate p t = (t', Ok c) ->
  exists sig uuid, let body := encodeSenderCertificateBody (body_params p) in
    XEdDSASign (p_SignerPrivate p) body t = (t', Ok sig) /\
    (params_ok p -> body_ok (body_params p) (p_IdentityKey p) uuid) /\
    c = mkSenderCertificate (encodeSenderCertificate body sig) body sig (body_of (body_params p) (p_IdentityKey p) uuid).
Proof.
  unfold NewSenderCertificate. intros E. inv_steps. apply valid_or_invalid_key_ok in Hok4.
  exists v6, v7. split_and!; [exact Hok6| |exact E]. intros (Hd & Hid & Hsig).
  unfold body_ok, body_params. cbn [q_senderUUID q_senderUUIDBytes q_senderUUIDIsBytes q_senderE164
    q_hasSenderE164 q_senderDevice q_expiresMillis q_identityKeyBytes q_signer q_signerID].
  split_and!; [done|apply u64_range|done|done| | |].
  - by rewrite negb_false_iff, bool_decide_eq_true.
  - destruct (bool_decide (p_SenderUUID p = "")); cbn [negb andb] in *.
    + apply Z.eqb_neq in Hok. pose proof (len_nonneg (p_SenderUUIDBytes p)).
      rewrite (proj2 (Z.ltb_lt 0 _)) in * by lia. split; [|done].
      destruct (Z.eqb_spec (len (p_SenderUUIDBytes p)) 16); done.
    + apply negb_false_iff, Z.eqb_eq in Hok0. rewrite Hok0. apply Ok_inj in Hok7. split; [by apply len_0_inv|done].
  - destruct (p_Signer p) as [s|], (p_SignerID p) as [id|]; try done; [by apply Hsig|by apply Hid].
Qed.

Lemma sender_body_not_nil q key : q_identityKeyBytes q = SerializeWirePublicKey key -> encodeSenderCertificateBody q <> [].
Proof.
  intros Hk E. unfold encodeSenderCertificateBody in E. rewrite Hk in E.
  do 7 apply app_eq_nil in E as [_ E]. apply app_eq_nil in E as [E _]. by apply append_bytes_not_nil in E.
Qed.

(** Exactly one of the signer and its number is given. *)
Lemma NewSenderCertificate_signer p t t' c :
  NewSenderCertificate p t = (t', Ok c) ->
  (exists s, p_Signer p = Some s /\ p_SignerID p = None) \/ (exists id, p_SignerID p = Some id /\ p_Signer p = None).
Proof. intros Hc. unfold NewSenderCertificate in Hc. inv_steps. destruct (p_Signer p), (p_SignerID p); naive_solver. Qed.

Lemma ParseSenderCertificate_new p t t' c :
  NewSenderCertificate p t = (t', Ok c) -> params_ok p -> ParseSenderCertificate (snd_serialized c) = Ok c.
Proof.
  intros (sig & uuid & Hs & Hb & ->)%NewSenderCertificate_shape Hp. cbn [snd_serialized]. unfold ParseSenderCertificate.
  rewrite decodeSenderCertificate_encode.
  - cbn [mbind res_bind]. by rewrite (decodeSenderCertificateBody_encode _ _ _ (Hb Hp)).
  - by eapply sender_body_not_nil.
  - apply xeddsa_length in Hs. by destruct sig.
Qed.

(** *** Validation *)

Lemma any_root_elem signer roots :
  any_root signer roots = true <-> exists root, root ∈ roots /\ ServerCertificate_Validate (Some signer) root = true.
Proof.
  induction roots as [|r roots IH]; cbn [any_root].
  - split; [done|]. intros (r & Hr & _). by apply not_elem_of_nil in Hr.
  - destruct (ServerCertificate_Validate (Some signer) r) eqn:E.
    + split; [|done]. intros _. exists r. split; [by left|done].
    + rewrite IH. split; intros (r' & Hr & Hv); exists r'; (split; [|done]); [by right|].
      apply elem_of_cons in Hr as [-> |]; [congruence|done].
Qed.

Lemma UnixMilli_expires t : i64 (u64 (UnixMilli t)) = UnixMilli t.
Proof. apply i64_u64. unfold UnixMilli. apply i64_range. Qed.

(** *** The parsers return *)

Lemma uuidBytesToString_ok raw : len raw = 16 -> exists s, uuidBytesToString raw = Ok s.
Proof.
  intros Hl. unfold uuidBytesToString. rewrite Hl. cbn [Z.eqb Pos.eqb negb check mbind res_bind].
  do 5 (match goal with |- context [slice raw ?a ?b] =>
    destruct (slice_no_panic raw a b ltac:(lia) ltac:(lia)) as [? ->]; cbn [mbind res_bind] end).
  eauto.
Qed.

Ltac cert_case :=
  field_take || (progress unfold take_uint32; cbn [mbind res_bind]) ||
  match goal with
  | |- context [check ?c ?e] => destruct c eqn:?; cbn [check mbind res_bind mret res_ret]; try done; try congruence
  end.

Ltac switch_cases num :=
  repeat match goal with |- context [if num =? ?n then _ else _] => destruct (num =? n) end.

Lemma server_field_ok : field_ok server_field.
Proof. intros num typ data [c s]. unfold server_field. switch_cases num; repeat cert_case. Qed.

Lemma sender_field_ok : field_ok sender_field.
Proof. exact server_field_ok. Qed.

Lemma server_body_field_ok : field_ok server_body_field.
Proof. intros num typ data [i k]. unfold server_body_field. switch_cases num; repeat cert_case. Qed.

Lemma ParseServerCertificate_returns data :
  ParseServerCertificate data <> Panic /\ ParseServerCertificate data <> Err (ErrText "out of fuel").
Proof.
  unfold ParseServerCertificate, decodeServerCertificate. destruct (len data =? 0); [done|]. cbn [check mbind res_bind].
  destruct (decode_ok server_field data ([], []) server_field_ok).
  destruct (decode server_field data ([], [])) as [[c s]| |]; cbn [mbind res_bind]; [|split; congruence..].
  destruct (_ || _); [done|]. cbn [check mbind res_bind mret res_ret]. unfold decodeServerCertificateBody.
  destruct (decode_ok server_body_field c (None, None) server_body_field_ok).
  destruct (decode server_body_field c (None, None)) as [[[i|] [k|]]| |]; cbn [mbind res_bind]; [|done|done|done|split; congruence..].
  destruct (DeserializeWirePublicKey_no_panic k). destruct (DeserializeWirePublicKey k); cbn [mbind res_bind]; (done || split; congruence).
Qed.

Lemma sender_body_field_ok : field_ok sender_body_field.
Proof.
  intros num typ data []. unfold sender_body_field. switch_cases num; repeat cert_case.
  - match goal with |- context [uuidBytesToString ?b] => destruct (uuidBytesToString_ok b) as [? ->] end; [|done].
    match goal with H : negb _ = false |- _ => by apply negb_false_iff, Z.eqb_eq in H end.
  - match goal with |- context [ParseServerCertificate ?b] =>
      destruct (ParseServerCertificate_returns b); destruct (ParseServerCertificate b) end; cbn; congruence.
Qed.

Lemma ParseSenderCertificate_returns data :
  ParseSenderCertificate data <> Panic /\ ParseSenderCertificate data <> Err (ErrText "out of fuel").
Proof.
  unfold ParseSenderCertificate, decodeSenderCertificate. destruct (len data =? 0); [done|]. cbn [check mbind res_bind].
  destruct (decode_ok sender_field data ([], []) sender_field_ok).
  destruct (decode sender_field data ([], [])) as [[c s]| |]; cbn [mbind res_bind]; [|split; congruence..].
  destruct (_ || _); [done|]. cbn [check mbind res_bind mret res_ret]. unfold decodeSenderCertificateBody.
  match goal with |- context [decode sender_body_field c ?v] =>
    destruct (decode_ok sender_body_field c v sender_body_field_ok); destruct (decode sender_body_field c v) as [f| |] end;
    cbn [mbind res_bind]; [|split; congruence..].
  destruct (v_senderDevice f), (v_expiresMillis f), (v_identityKeyBytes f) as [k|], (v_gotUUID f), (v_gotSigner f); try done.
  destruct (DeserializeWirePublicKey_no_panic k). destruct (DeserializeWirePublicKey k); cbn [mbind res_bind]; (done || split; congruence).
Qed.

End lemmas.

(** ** The theorems *)

(** Issuing and parsing. A server certificate that [NewServerCertificate]
    issues, and a sender certificate that [NewSenderCertificate] issues with it
    embedded or with a number in its place, are parsed from their bytes as they
    were issued, with the identity, the device, the expiry and the phone number
    of the parameters; a UUID given as bytes is there as its string. *)
Theorem certificate_roundtrip (P : Primitives) (Wr : Protowire) (X : XEdDSA)
    keyID serverPub rootPriv t1 t1' server params t2 t2' c :
  ProtowireLaws Wr -> XEdDSALaws P X -> is_u32 keyID -> is_u32 (p_SenderDevice params) ->
  (forall id, p_SignerID params = Some id -> is_u32 id) ->
  (forall s, p_Signer params = Some s -> s = server) ->
  NewServerCertificate keyID serverPub rootPriv t1 = (t1', Ok server) ->
  NewSenderCertificate params t2 = (t2', Ok c) ->
  ParseServerCertificate (ServerCertificate_Serialize (Some server)) = Ok server /\
  ParseSenderCertificate (SenderCertificate_Serialize (Some c)) = Ok c /\
  ServerCertificate_KeyID (Some server) = keyID /\ ServerCertificate_PublicKey (Some server) = serverPub /\
  (p_SenderUUID params <> ""%string -> SenderUUID (Some c) = p_SenderUUID params) /\
  (p_SenderUUIDBytes params <> [] -> uuidBytesToString (p_SenderUUIDBytes params) = Ok (SenderUUID (Some c))) /\
  SenderE164 (Some c) = (p_SenderE164 params, negb (bool_decide (p_SenderE164 params = ""%string))) /\
  SenderDevice (Some c) = p_SenderDevice params /\
  ExpiresMillis (Some c) = u64 (UnixMilli (p_ExpiresAt params)) /\
  IdentityKey (Some c) = p_IdentityKey params /\
  Signer (Some c) = (p_Signer params, negb (is_nil (p_Signer params))) /\
  SignerID (Some c) = (default 0 (p_SignerID params), negb (is_nil (p_SignerID params))).
Proof.
  intros HW HX Hid Hd Hsid Hsig Hs Hc. pose proof (ParseServerCertificate_new _ _ _ _ _ _ Hs Hid) as Hps.
  assert (params_ok params) as Hp by (split_and!; [done..|]; intros s ->%Hsig; done).
  split_and!; [done|by eapply ParseSenderCertificate_new|..].
  1-2: destruct (NewServerCertificate_shape _ _ _ _ _ _ Hs) as (? & _ & _ & ->); done.
  all: destruct (NewSenderCertificate_shape _ _ _ _ Hc) as (sig & uuid & _ & Hb & ->); specialize (Hb Hp);
    destruct Hb as (_ & _ & _ & _ & _ & Hu & _); unfold body_params in *; cbn in *.
  - intros Hne. destruct (0 <? len (p_SenderUUIDBytes params)) eqn:El; [|by destruct Hu].
    exfalso. unfold NewSenderCertificate in Hc. inv_steps. rewrite bool_decide_false in Hok0 by done.
    apply negb_false_iff, Z.eqb_eq in Hok0. lia.
  - intros Hne. destruct (0 <? len (p_SenderUUIDBytes params)); by destruct Hu.
  - by case_bool_decide as E; [rewrite E|].
  - done.
  - done.
  - done.
  - by destruct (p_Signer params).
  - by destruct (p_SignerID params).
Qed.

(** C14: what validation means. [SenderCertificate.Validate] answers yes exactly
    when the signer, embedded or found by its number, is not revoked and signed
    by one of the trust roots, the certificate is signed by the signer's key,
    and the time of validation, in milliseconds, is not after the expiry; and it
    fails with an error exactly when there are no trust roots or the signer
    cannot be resolved. *)
Theorem certificate_validation (P : Primitives) (X : XEdDSA) (c : SenderCertificate) roots now resolver :
  (SenderCertificate_Validate (Some c) roots now resolver = Ok true <->
   exists signer root, resolveSigner c resolver = Ok signer /\ root ∈ roots /\
     srv_keyID signer <> revokedServerCertificateID /\
     XEdDSAVerify root (srv_signature signer) (srv_certificate signer) = true /\
     XEdDSAVerify (srv_publicKey signer) (snd_signature c) (snd_certificate c) = true /\
     UnixMilli now <= i64 (b_expiresMillis (snd_body c))) /\
  ((exists e, SenderCertificate_Validate (Some c) roots now resolver = Err e) <->
   roots = [] \/ resolveSigner c resolver = Err ErrInvalidMessage) /\
  SenderCertificate_Validate (Some c) roots now resolver <> Panic.
Proof.
  assert (forall r, resolveSigner c resolver = r -> r = Err ErrInvalidMessage \/ exists s, r = Ok s) as Hr.
  { intros r <-. unfold resolveSigner. destruct (b_signer _); [eauto|]. destruct (b_signerID _); [|eauto].
    destruct resolver as [l|]; [|eauto]. destruct (l z) as [[|] []]; eauto. }
  unfold SenderCertificate_Validate. destruct roots as [|r0 roots'] eqn:Eroots.
  { split_and!; [split|split; eauto|done]; [done|]. intros (s & r & _ & Hr' & _). by apply not_elem_of_nil in Hr'. }
  rewrite <- Eroots. replace (len roots =? 0) with false by (rewrite Eroots; symmetry; apply Z.eqb_neq; lens).
  cbn [check mbind res_bind]. destruct (Hr _ eq_refl) as [E|(signer & E)]; rewrite E; cbn [mbind res_bind].
  { split_and!; [split|split; eauto|done]; [done|]. by intros (s & r & ? & _). }
  destruct (any_root signer roots) eqn:Ea; cbn [negb].
  - apply any_root_elem in Ea as (root & Hin & Hv). cbn [ServerCertificate_Validate] in Hv.
    destruct (Z.eqb_spec (srv_keyID signer) revokedServerCertificateID); [done|].
    destruct (XEdDSAVerify (srv_publicKey signer) _ _) eqn:Ev; cbn [negb].
    + rewrite Z.gtb_ltb. destruct (Z.ltb_spec (i64 (b_expiresMillis (snd_body c))) (UnixMilli now)) as [Ht|Ht].
      * split_and!; [split|split|done]; [done| |by intros [? ?]|intros [->|?]; done].
        intros (? & ? & _ & _ & _ & _ & _ & ?). lia.
      * split_and!; [split|split|done]; [|done|by intros [? ?]|intros [->|?]; done]. intros _. by exists signer, root.
    + split_and!; [split|split|done]; [done| |by intros [? ?]|intros [->|?]; done].
      intros (s & ? & Es & _ & _ & _ & Hs & _). apply Ok_inj in Es as ->. congruence.
  - split_and!; [split|split|done]; [done| |by intros [? ?]|intros [->|?]; done].
    intros (s & root & Es & Hin & Hne & Hv & _). apply Ok_inj in Es as <-.
    assert (any_root signer roots = true); [|congruence]. apply any_root_elem. exists root. split; [done|].
    cbn [ServerCertificate_Validate]. by destruct (Z.eqb_spec (srv_keyID signer) revokedServerCertificateID).
Qed.

(** An issued certificate validates: the signatures of the honest chain verify. *)
Lemma issued_validates (P : Primitives) (Wr : Protowire) (X : XEdDSA)
    keyID serverPriv serverPub rootPriv rootPub t1 t1' server params t2 t2' c roots now m :
  XEdDSALaws P X -> key_pair_ok rootPriv rootPub -> key_pair_ok serverPriv serverPub ->
  NewServerCertificate keyID serverPub rootPriv t1 = (t1', Ok server) ->
  p_SignerPrivate params = serverPriv ->
  p_Signer params = Some server \/ (p_SignerID params = Some keyID /\ m !! keyID = Some (Some server)) ->
  NewSenderCertificate params t2 = (t2', Ok c) -> rootPub ∈ roots ->
  SenderCertificate_Validate (Some c) roots now (Some (LookupServerCertificate m)) =
    Ok (negb (keyID =? revokedServerCertificateID) && (UnixMilli now <=? UnixMilli (p_ExpiresAt params))).
Proof.
  intros HX Hroot Hserver (ssig & _ & Hss & Es)%NewServerCertificate_shape Hpriv Hsigner Hc Hin.
  pose proof Hc as (sig & uuid & Hs & _ & Ec)%NewSenderCertificate_shape. subst serverPriv.
  pose proof (xeddsa_correct _ _ _ _ _ _ Hroot Hss) as Hv1. pose proof (xeddsa_correct _ _ _ _ _ _ Hserver Hs) as Hv2.
  assert (resolveSigner c (Some (LookupServerCertificate m)) = Ok server) as Hres.
  { rewrite Ec. unfold resolveSigner, body_of, body_params. cbn. destruct Hsigner as [-> |[Hid Hm]]; [done|].
    unfold NewSenderCertificate in Hc. inv_steps. rewrite Hid in *. cbn [is_nil negb] in *.
    destruct (p_Signer params); [done|]. unfold LookupServerCertificate. by rewrite Hm. }
  unfold SenderCertificate_Validate. destruct roots as [|r0 roots']; [by apply not_elem_of_nil in Hin|].
  set (roots := r0 :: roots') in *. replace (len roots =? 0) with false by (symmetry; apply Z.eqb_neq; subst roots; lens).
  cbn [check mbind res_bind]. rewrite Hres. cbn [mbind res_bind]. rewrite Es in *. rewrite Ec.
  cbn [snd_signature snd_certificate snd_body body_of body_params b_expiresMillis q_expiresMillis srv_publicKey].
  rewrite Hv2, UnixMilli_expires, Z.gtb_ltb, Z.ltb_antisym. cbn [negb].
  assert (forall root, ServerCertificate_Validate (Some server) root =
    negb (keyID =? revokedServerCertificateID) && XEdDSAVerify root ssig (encodeServerCertificateBody keyID serverPub)) as Hval.
  { intros root. rewrite Es. cbn [ServerCertificate_Validate srv_keyID srv_signature srv_certificate]. by destruct (_ =? _). }
  rewrite <- Es. destruct (any_root server roots) eqn:Ea; destruct (keyID =? revokedServerCertificateID); cbn [negb andb] in *.
  - apply any_root_elem in Ea as (root & _ & Hr). by rewrite Hval in Hr.
  - by destruct (_ <=? _).
  - done.
  - assert (any_root server roots = true); [|congruence]. apply any_root_elem. exists rootPub. split; [done|]. by rewrite Hval.
Qed.

(** C13: a certificate of an honest chain. A root key signs a server key, the
    server key signs a sender certificate; under trust roots among which is the
    root's public key, whether the server's certificate is embedded or looked up
    in a map, validation gives an answer, and it is yes exactly if the server's
    number is not the revoked one and the expiry has not passed. The same holds
    at the other end: when the numbers fit their 32-bit fields, the server's
    certificate is parsed from its bytes as it was issued, and parsing the bytes
    of the sender's certificate and validating what was parsed gives the same
    answer. *)
Theorem issued_certificate_validates (P : Primitives) (Wr : Protowire) (X : XEdDSA)
    keyID serverPriv serverPub rootPriv rootPub t1 t1' server params t2 t2' c roots now m :
  XEdDSALaws P X -> key_pair_ok rootPriv rootPub -> key_pair_ok serverPriv serverPub ->
  NewServerCertificate keyID serverPub rootPriv t1 = (t1', Ok server) ->
  p_SignerPrivate params = serverPriv ->
  p_Signer params = Some server \/ (p_SignerID params = Some keyID /\ m !! keyID = Some (Some server)) ->
  NewSenderCertificate params t2 = (t2', Ok c) -> rootPub ∈ roots ->
  let answer := Ok (negb (keyID =? revokedServerCertificateID) && (UnixMilli now <=? UnixMilli (p_ExpiresAt params))) in
  let validate c' := SenderCertificate_Validate (Some c') roots now (Some (LookupServerCertificate m)) in
  validate c = answer /\
  (ProtowireLaws Wr -> is_u32 keyID -> is_u32 (p_SenderDevice params) ->
   ParseServerCertificate (ServerCertificate_Serialize (Some server)) = Ok server /\
   (c' ← ParseSenderCertificate (SenderCertificate_Serialize (Some c)); validate c') = answer).
Proof.
  intros HX Hroot Hserver Hs Hpriv Hsigner Hc Hin answer validate.
  assert (validate c = answer) as Hv by exact (issued_validates _ _ _ _ _ _ _ _ _ _ _ _ _ _ _ _ _ _ HX Hroot Hserver Hs Hpriv Hsigner Hc Hin).
  split; [done|]. intros HW Hid Hdev.
  pose proof (ParseServerCertificate_new _ _ _ _ _ _ Hs Hid) as Hps. split; [exact Hps|].
  cbn [SenderCertificate_Serialize]. rewrite (ParseSenderCertificate_new _ _ _ _ Hc); [exact Hv|].
  pose proof (NewSenderCertificate_signer _ _ _ _ Hc) as Hone.
  unfold params_ok. split_and!; [done| |]; intros x Hx; rewrite Hx in *; naive_solver.
Qed.

(** ** A concrete chain of certificates *)

Module CertDemo.
Definition root : KeyPair := toy_pair 3.
Definition server_pair : KeyPair := toy_pair 5.
Definition sender_pair : KeyPair := toy_pair 7.
Definition tape0 : tape := replicate 200 Byte.x2a.
#[local] Existing Instance Toy.primitives.
#[local] Existing Instance Toy.xeddsa.
#[local] Existing Instance ToyWire.wire.

Definition run_server : tape * res ServerCertificate := NewServerCertificate 7 (PublicKey server_pair) (PrivateKey root) tape0.
Definition server : ServerCertificate := get_ok (mkServerCertificate [] [] [] 0 zero32) (snd run_server).

(** 2024-01-01, and the moment after the expiry. *)
Definition expires : Z := (1704067200 + unixToInternal) * 10 ^ 9.
Definition params : SenderCertificateParams :=
  mkSenderCertificateParams "" (take 16 (vec_to_list (PublicKey sender_pair))) "+15550100" 42 expires (PublicKey sender_pair)
    (Some server) None (PrivateKey server_pair).
Definition run_sender : tape * res SenderCertificate := NewSenderCertificate params (fst run_server).
Definition sender : SenderCertificate :=
  get_ok (mkSenderCertificate [] [] [] (mkSenderCertificateBody None None "" [] false "" false 0 0 zero32 [])) (snd run_sender).

Lemma run_server_ok : run_server = (fst run_server, Ok server).
Proof. vm_compute. reflexivity. Qed.
Lemma run_sender_ok : run_sender = (fst run_sender, Ok sender).
Proof. vm_compute. reflexivity. Qed.
End CertDemo.

Lemma certificate_roundtrip_witness :
  let P := Toy.primitives in let W := ToyWire.wire in let X := Toy.xeddsa in
  ParseServerCertificate (ServerCertificate_Serialize (Some CertDemo.server)) = Ok CertDemo.server /\
  ParseSenderCertificate (SenderCertificate_Serialize (Some CertDemo.sender)) = Ok CertDemo.sender.
Proof.
  intros P W X. destruct (certificate_roundtrip P ToyWire.wire Toy.xeddsa 7 (PublicKey CertDemo.server_pair) (PrivateKey CertDemo.root)
    CertDemo.tape0 (fst CertDemo.run_server) CertDemo.server CertDemo.params (fst CertDemo.run_server) (fst CertDemo.run_sender)
    CertDemo.sender) as (H1 & H2 & _); [apply ToyWire.laws|apply Toy.xeddsa_laws| | |done| |exact CertDemo.run_server_ok|
    exact CertDemo.run_sender_ok|by split].
  - unfold is_u32. lia.
  - cbn. unfold is_u32. lia.
  - by intros s [= ->].
Defined.

Lemma issued_certificate_validates_witness :
  let P := Toy.primitives in let W := ToyWire.wire in let X := Toy.xeddsa in
  let validate c now := SenderCertificate_Validate (Some c) [PublicKey CertDemo.root] now (Some (LookupServerCertificate ∅)) in
  let parsed := ParseSenderCertificate (SenderCertificate_Serialize (Some CertDemo.sender)) in
  validate CertDemo.sender CertDemo.expires = Ok true /\
  validate CertDemo.sender (CertDemo.expires + 10 ^ 6) = Ok false /\
  (c' ← parsed; validate c' CertDemo.expires) = Ok true /\
  (c' ← parsed; validate c' (CertDemo.expires + 10 ^ 6)) = Ok false.
Proof.
  intros P W X validate parsed.
  assert (forall now, let answer := Ok (negb (7 =? revokedServerCertificateID) && (UnixMilli now <=? UnixMilli (p_ExpiresAt CertDemo.params))) in
    validate CertDemo.sender now = answer /\ (c' ← parsed; validate c' now) = answer) as Hv.
  { intros now. destruct (issued_certificate_validates P ToyWire.wire Toy.xeddsa 7 (PrivateKey CertDemo.server_pair)
      (PublicKey CertDemo.server_pair) (PrivateKey CertDemo.root) (PublicKey CertDemo.root) CertDemo.tape0 (fst CertDemo.run_server)
      CertDemo.server CertDemo.params (fst CertDemo.run_server) (fst CertDemo.run_sender) CertDemo.sender [PublicKey CertDemo.root] now ∅)
      as [H1 H2].
    - apply Toy.xeddsa_laws.
    - apply toy_pair_ok.
    - apply toy_pair_ok.
    - exact CertDemo.run_server_ok.
    - done.
    - by left.
    - exact CertDemo.run_sender_ok.
    - by left.
    - split; [exact H1|]. destruct H2 as [_ H2]; [apply ToyWire.laws|unfold is_u32; lia|cbn; unfold is_u32; lia|exact H2]. }
  destruct (Hv CertDemo.expires) as [H1 H2], (Hv (CertDemo.expires + 10 ^ 6)) as [H3 H4].
  split_and!; [rewrite H1|rewrite H3|rewrite H2|rewrite H4]; vm_compute; reflexivity.
Defined.
