(* ===== verification/SealedSender.v ===== *)
(** * Sealed sender: sealedsender/content.go, sealed_sender.go, types.go

    The content of a sealed message (a message of another kind with the sender's
    certificate) and its two encryptions: version 1, with the sender's static key
    encrypted under an ephemeral key, and version 2, with a message key from which
    the ephemeral key is derived. Keys, pads and tags come from [HKDF] and [DH] of
    [Crypto]; the certificate from [Certificates]. Pointers that may be nil are
    [option]s. *)

From Stdlib Require Import ZArith Lia.
From Stdlib Require Import Strings.Byte.
From stdpp Require Import base gmap strings list list_numbers vector.
From S2P Require Import Prelude Crypto Keys Protowire Wire Certificates.
Import Crypto Keys Certificates.

Module SealedSender.

(** *** types.go *)

(** [MessageType] and [ContentHint] are [uint32]s with named values. *)
Definition MessageTypePreKey : Z := 1.
Definition MessageTypeSignal : Z := 2.
Definition MessageTypeSenderKey : Z := 7.
Definition MessageTypePlaintext : Z := 8.

Definition parseMessageType (raw : Z) : res Z :=
  if bool_decide (u32 raw ∈ [MessageTypePreKey; MessageTypeSignal; MessageTypeSenderKey; MessageTypePlaintext])
  then Ok (u32 raw) else Err ErrInvalidMessage.

Definition ContentHintDefault : Z := 0.
Definition ContentHintResendable : Z := 1.
Definition ContentHintImplicit : Z := 2.

Definition parseContentHint (raw : Z) : Z :=
  if bool_decide (u32 raw ∈ [ContentHintDefault; ContentHintResendable; ContentHintImplicit]) then u32 raw else u32 raw.

(** *** content.go *)

Record UnidentifiedSenderMessageContent : Type := mkUSMC {
  c_serialized : bytes;
  c_sender : option SenderCertificate;
  c_msgType : Z;
  c_content : bytes;
  c_contentHint : Z;
  c_groupID : bytes;
  c_groupIDValid : bool
}.

(** The methods without parameters, on a pointer that may be nil. *)
Definition USMC_Serialize (c : option UnidentifiedSenderMessageContent) : bytes :=
  match c with None => [] | Some c => c_serialized c end.
Definition USMC_Sender (c : option UnidentifiedSenderMessageContent) : option SenderCertificate :=
  match c with None => None | Some c => c_sender c end.
Definition USMC_MessageType (c : option UnidentifiedSenderMessageContent) : Z :=
  match c with None => 0 | Some c => c_msgType c end.
Definition USMC_Content (c : option UnidentifiedSenderMessageContent) : bytes :=
  match c with None => [] | Some c => c_content c end.
Definition USMC_ContentHint (c : option UnidentifiedSenderMessageContent) : Z :=
  match c with None => ContentHintDefault | Some c => c_contentHint c end.
Definition USMC_GroupID (c : option UnidentifiedSenderMessageContent) : bytes * bool :=
  match c with
  | None => ([], false)
  | Some c => if c_groupIDValid c then (c_groupID c, true) else ([], false)
  end.

(** The variables of the parser; a value with a [got] or [Seen] flag is an [option]. *)
Record content_vars : Type := mkContentVars {
  x_msgType : option Z; x_sender : option SenderCertificate; x_content : option bytes; x_hint : Z; x_groupID : option bytes }.

Section content.
Context `{Primitives} `{Protowire}.

Definition content_field (num : Z) (typ : wire_type) (data : bytes) (f : content_vars) : res (content_vars * bytes) :=
  let '(mkContentVars msgType sender content hint groupID) := f in
  if num =? 1 then
    '(val, data) ← take_varint typ data;
    parsed ← parseMessageType val;
    mret (mkContentVars (Some parsed) sender content hint groupID, data)
  else if num =? 2 then
    '(val, data) ← take_bytes typ data;
    cert ← ParseSenderCertificate val;
    mret (mkContentVars msgType (Some cert) content hint groupID, data)
  else if num =? 3 then
    '(val, data) ← take_bytes typ data;
    mret (mkContentVars msgType sender (Some val) hint groupID, data)
  else if num =? 4 then
    '(val, data) ← take_varint typ data;
    mret (mkContentVars msgType sender content (parseContentHint val) groupID, data)
  else if num =? 5 then
    '(val, data) ← take_bytes typ data;
    mret (mkContentVars msgType sender content hint (Some val), data)
  else
    data ← skip_value num typ data;
    mret (f, data).

Definition ParseUnidentifiedSenderMessageContent (data : bytes) : res UnidentifiedSenderMessageContent :=
  _ ← check (len data =? 0) ErrInvalidMessage;
  f ← decode content_field data (mkContentVars None None None ContentHintDefault None);
  match x_msgType f, x_sender f, x_content f with
  | Some msgType, Some sender, Some content =>
      mret (mkUSMC data (Some sender) msgType content (x_hint f) (default [] (x_groupID f)) (negb (is_nil (x_groupID f))))
  | _, _, _ => Err ErrInvalidMessage
  end.

Definition NewUnidentifiedSenderMessageContent (msgType : Z) (sender : option SenderCertificate) (content : bytes) (hint : Z)
    (groupID : bytes) : res UnidentifiedSenderMessageContent :=
  _ ← check (is_nil sender) ErrInvalidMessage;
  _ ← parseMessageType msgType;
  let serialized :=
    AppendTag 1 VarintType ++ AppendVarint msgType ++
    AppendTag 2 BytesType ++ AppendBytes (SenderCertificate_Serialize sender) ++
    AppendTag 3 BytesType ++ AppendBytes content ++
    (if negb (hint =? ContentHintDefault) then AppendTag 4 VarintType ++ AppendVarint hint else []) ++
    (if 0 <? len groupID then AppendTag 5 BytesType ++ AppendBytes groupID else []) in
  mret (mkUSMC serialized sender msgType content hint groupID (0 <? len groupID)).

End content.

(** *** sealed_sender.go *)

Definition sealedSenderV1MajorVersion : Z := 1.
Definition sealedSenderV1FullVersion : byte := Byte.x11.
Definition sealedSenderV2MajorVersion : Z := 2.
Definition sealedSenderV2UUIDFullVersion : byte := Byte.x22.
Definition sealedSenderV2MessageKeyLen : Z := 32.
Definition sealedSenderV2AuthTagLen : Z := 16.
Definition sealedSenderV2PublicKeyLen : Z := 32.
Definition sealedSenderSaltPrefix : bytes := str "UnidentifiedDelivery".
Definition sealedSenderV2LabelR : bytes := str "Sealed Sender v2: r (2023-08)".
Definition sealedSenderV2LabelK : bytes := str "Sealed Sender v2: K".
Definition sealedSenderV2LabelDH : bytes := str "Sealed Sender v2: DH".
Definition sealedSenderV2LabelDHS : bytes := str "Sealed Sender v2: DH-sender".

Inductive direction : Type := directionSending | directionReceiving.

Record ephemeralKeys : Type := mkEphemeralKeys { eph_chainKey : key32; eph_cipherKey : key32; eph_macKey : key32 }.
Record staticKeys : Type := mkStaticKeys { st_cipherKey : key32; st_macKey : key32 }.

Record sealedSenderV1Message : Type := mkV1Message {
  m1_ephemeralPublic : bytes; m1_encryptedStatic : bytes; m1_encryptedMessage : bytes }.

Section sealed.
Context `{Primitives} `{Protowire} `{GcmSiv}.

Definition deriveEphemeralKeys (ourPublic ourPrivate theirPublic : key32) (dir : direction) : res ephemeralKeys :=
  let ourWire := SerializeWirePublicKey ourPublic in
  let theirWire := SerializeWirePublicKey theirPublic in
  let salt := match dir with
              | directionSending => sealedSenderSaltPrefix ++ theirWire ++ ourWire
              | directionReceiving => sealedSenderSaltPrefix ++ ourWire ++ theirWire
              end in
  shared ← DH ourPrivate theirPublic;
  okm ← HKDF (vec_to_list shared) salt [] 96;
  chainKey ← slice okm 0 32;
  cipherKey ← slice okm 32 64;
  macKey ← slice okm 64 96;
  mret (mkEphemeralKeys (to_arr 32 chainKey) (to_arr 32 cipherKey) (to_arr 32 macKey)).

Definition deriveStaticKeys (ourPrivate theirPublic chainKey : key32) (encryptedStatic : bytes) : res staticKeys :=
  let salt := vec_to_list chainKey ++ encryptedStatic in
  shared ← DH ourPrivate theirPublic;
  okm ← HKDF (vec_to_list shared) salt [] 96;
  cipherKey ← slice okm 32 64;
  macKey ← slice okm 64 96;
  mret (mkStaticKeys (to_arr 32 cipherKey) (to_arr 32 macKey)).

Definition encodeSealedSenderV1Message (ephemeralPublic encryptedStatic encryptedMessage : bytes) : bytes :=
  AppendTag 1 BytesType ++ AppendBytes ephemeralPublic ++
  AppendTag 2 BytesType ++ AppendBytes encryptedStatic ++
  AppendTag 3 BytesType ++ AppendBytes encryptedMessage.

(** The three variables with their [got] flags. *)
Definition v1_field (num : Z) (typ : wire_type) (data : bytes) (f : option bytes * option bytes * option bytes) :
    res (option bytes * option bytes * option bytes * bytes) :=
  let '(eph, static, message) := f in
  if num =? 1 then '(val, data) ← take_bytes typ data; mret (Some val, static, message, data)
  else if num =? 2 then '(val, data) ← take_bytes typ data; mret (eph, Some val, message, data)
  else if num =? 3 then '(val, data) ← take_bytes typ data; mret (eph, static, Some val, data)
  else data ← skip_value num typ data; mret (f, data).

Definition decodeSealedSenderV1Message (data : bytes) : res sealedSenderV1Message :=
  f ← decode v1_field data (None, None, None);
  match f with
  | (Some ephemeralPublic, Some encryptedStatic, Some encryptedMessage) =>
      mret (mkV1Message ephemeralPublic encryptedStatic encryptedMessage)
  | _ => Err ErrInvalidMessage
  end.

Definition applyAgreementXOR (ourPrivate ourPublic theirPublic : key32) (dir : direction) (input : key32) : res key32 :=
  shared ← DH ourPrivate theirPublic;
  let buf := vec_to_list shared ++
    match dir with
    | directionSending => SerializeWirePublicKey ourPublic ++ SerializeWirePublicKey theirPublic
    | directionReceiving => SerializeWirePublicKey theirPublic ++ SerializeWirePublicKey ourPublic
    end in
  mask ← HKDF buf [] sealedSenderV2LabelDH sealedSenderV2MessageKeyLen;
  mret (xor_arr (to_arr 32 mask) input).

Definition computeAuthenticationTag (ourPrivate ourPublic theirPublic : key32) (dir : direction)
    (ephemeralPublic encryptedMessageKey : key32) : res (arr 16) :=
  shared ← DH ourPrivate theirPublic;
  let buf := vec_to_list shared ++ SerializeWirePublicKey ephemeralPublic ++ vec_to_list encryptedMessageKey ++
    match dir with
    | directionSending => SerializeWirePublicKey ourPublic ++ SerializeWirePublicKey theirPublic
    | directionReceiving => SerializeWirePublicKey theirPublic ++ SerializeWirePublicKey ourPublic
    end in
  okm ← HKDF buf [] sealedSenderV2LabelDHS sealedSenderV2AuthTagLen;
  mret (to_arr 16 okm).

(** The guards that both encryptions start with: the sender's identity, its
    certificate and the content. *)
Definition encrypt_guards (senderIdentity : option IdentityKeyPair) (usmc : option UnidentifiedSenderMessageContent) :
    res (IdentityKeyPair * UnidentifiedSenderMessageContent) :=
  match senderIdentity with
  | None => Err ErrInvalidKey
  | Some senderIdentity =>
      match usmc with
      | None => Err ErrInvalidMessage
      | Some usmc =>
          match c_sender usmc with
          | None => Err ErrInvalidMessage
          | Some sender =>
              _ ← check (negb (compareIdentityKeyBytes (b_identityKeyBytes (snd_body sender))
                                (ik_PublicKey (ikp_PublicKey senderIdentity)))) ErrInvalidKey;
              mret (senderIdentity, usmc)
          end
      end
  end.

Definition EncryptV1 (recipientIdentity : key32) (senderIdentity : option IdentityKeyPair)
    (usmc : option UnidentifiedSenderMessageContent) : ST tape bytes :=
  '(senderIdentity, usmc) ← st_lift (encrypt_guards senderIdentity usmc);
  ephemeral ← GenerateKeyPair;
  ephKeys ← st_lift (deriveEphemeralKeys (PublicKey ephemeral) (PrivateKey ephemeral) recipientIdentity directionSending);
  encryptedStatic ← st_lift (AES256CTRHMACSHA256Encrypt (SerializeWirePublicKey (ik_PublicKey (ikp_PublicKey senderIdentity)))
                               (vec_to_list (eph_cipherKey ephKeys)) (vec_to_list (eph_macKey ephKeys)));
  staticKeys ← st_lift (deriveStaticKeys (ikp_PrivateKey senderIdentity) recipientIdentity (eph_chainKey ephKeys) encryptedStatic);
  encryptedMessage ← st_lift (AES256CTRHMACSHA256Encrypt (USMC_Serialize (Some usmc))
                                (vec_to_list (st_cipherKey staticKeys)) (vec_to_list (st_macKey staticKeys)));
  let msg := encodeSealedSenderV1Message (SerializeWirePublicKey (PublicKey ephemeral)) encryptedStatic encryptedMessage in
  mret ([sealedSenderV1FullVersion] ++ msg).

Definition EncryptV2Received (recipientIdentity : key32) (senderIdentity : option IdentityKeyPair)
    (usmc : option UnidentifiedSenderMessageContent) : ST tape bytes :=
  '(senderIdentity, usmc) ← st_lift (encrypt_guards senderIdentity usmc);
  mBytes ← RandomBytes sealedSenderV2MessageKeyLen;
  let m := to_arr 32 mBytes in
  rBytes ← st_lift (HKDF mBytes [] sealedSenderV2LabelR sealedSenderV2MessageKeyLen);
  kBytes ← st_lift (HKDF mBytes [] sealedSenderV2LabelK sealedSenderV2MessageKeyLen);
  let r := to_arr 32 rBytes in
  ephemeral ← st_lift (KeyPairFromPrivate r);
  c ← st_lift (applyAgreementXOR (PrivateKey ephemeral) (PublicKey ephemeral) recipientIdentity directionSending m);
  at' ← st_lift (computeAuthenticationTag (ikp_PrivateKey senderIdentity) (ik_PublicKey (ikp_PublicKey senderIdentity))
                   recipientIdentity directionSending (PublicKey ephemeral) c);
  let zeroNonce := replicate 12 Byte.x00 in
  ciphertext ← st_lift (AESGCMSIVEncrypt kBytes zeroNonce (USMC_Serialize (Some usmc)) []);
  mret ([sealedSenderV2UUIDFullVersion] ++ vec_to_list c ++ vec_to_list at' ++ vec_to_list (PublicKey ephemeral) ++ ciphertext).

(** [if err != nil { return nil, ErrInvalidMAC }] *)
Definition or_invalid_mac {A} (r : res A) : res A :=
  match r with Err _ => Err ErrInvalidMAC | _ => r end.

Definition decryptV1 (payload : bytes) (recipientIdentity : IdentityKeyPair) : res UnidentifiedSenderMessageContent :=
  msg ← decodeSealedSenderV1Message payload;
  _ ← check (len (m1_ephemeralPublic msg) =? 0) ErrInvalidMessage;
  _ ← check ((len (m1_encryptedStatic msg) =? 0) || (len (m1_encryptedMessage msg) =? 0)) ErrInvalidMessage;
  ephemeralPub ← DeserializeWirePublicKey (m1_ephemeralPublic msg);
  ephKeys ← deriveEphemeralKeys (ik_PublicKey (ikp_PublicKey recipientIdentity)) (ikp_PrivateKey recipientIdentity)
              ephemeralPub directionReceiving;
  messageKeyBytes ← or_invalid_mac (AES256CTRHMACSHA256Decrypt (m1_encryptedStatic msg) (vec_to_list (eph_cipherKey ephKeys))
                                      (vec_to_list (eph_macKey ephKeys)));
  staticKey ← DeserializeWirePublicKey messageKeyBytes;
  staticKeys ← deriveStaticKeys (ikp_PrivateKey recipientIdentity) staticKey (eph_chainKey ephKeys) (m1_encryptedStatic msg);
  messageBytes ← or_invalid_mac (AES256CTRHMACSHA256Decrypt (m1_encryptedMessage msg) (vec_to_list (st_cipherKey staticKeys))
                                   (vec_to_list (st_macKey staticKeys)));
  usmc ← ParseUnidentifiedSenderMessageContent messageBytes;
  match c_sender usmc with
  | None => Err ErrInvalidMessage
  | Some sender =>
      _ ← check (negb (bool_decide (messageKeyBytes = b_identityKeyBytes (snd_body sender)))) ErrInvalidMessage;
      mret usmc
  end.

Definition decryptV2 (payload : bytes) (recipientIdentity : IdentityKeyPair) : res UnidentifiedSenderMessageContent :=
  let minSize := sealedSenderV2MessageKeyLen + sealedSenderV2AuthTagLen + sealedSenderV2PublicKeyLen + sealedSenderV2AuthTagLen in
  _ ← check (len payload <? minSize) ErrInvalidMessage;
  c ← slice payload 0 32;
  at' ← slice payload 32 48;
  epub ← slice payload 48 80;
  encrypted ← slice payload 80 (len payload);
  let c := to_arr 32 c in
  let at' := to_arr 16 at' in
  let epub := to_arr 32 epub in
  let ourPrivate := ikp_PrivateKey recipientIdentity in
  let ourPublic := ik_PublicKey (ikp_PublicKey recipientIdentity) in
  m ← applyAgreementXOR ourPrivate ourPublic epub directionReceiving c;
  rBytes ← HKDF (vec_to_list m) [] sealedSenderV2LabelR sealedSenderV2MessageKeyLen;
  kBytes ← HKDF (vec_to_list m) [] sealedSenderV2LabelK sealedSenderV2MessageKeyLen;
  let r := to_arr 32 rBytes in
  ephemeral ← KeyPairFromPrivate r;
  _ ← check (negb (bool_decide (PublicKey ephemeral = epub))) ErrInvalidMessage;
  let zeroNonce := replicate 12 Byte.x00 in
  messageBytes ← or_invalid_mac (AESGCMSIVDecrypt kBytes zeroNonce encrypted []);
  usmc ← ParseUnidentifiedSenderMessageContent messageBytes;
  match c_sender usmc with
  | None => Err ErrInvalidMessage
  | Some sender =>
      atCalc ← computeAuthenticationTag ourPrivate ourPublic (b_identityKey (snd_body sender)) directionReceiving epub c;
      _ ← check (negb (bool_decide (at' = atCalc))) ErrInvalidMessage;
      mret usmc
  end.

Definition DecryptToUSMC (ciphertext : bytes) (recipientIdentity : option IdentityKeyPair) :
    res UnidentifiedSenderMessageContent :=
  match recipientIdentity with
  | None => Err ErrInvalidKey
  | Some recipientIdentity =>
      _ ← check (len ciphertext =? 0) ErrInvalidMessage;
      b ← index ciphertext 0;
      let version := Z.shiftr (b2z b) 4 in
      rest ← slice ciphertext 1 (len ciphertext);
      if (version =? 0) || (version =? sealedSenderV1MajorVersion) then decryptV1 rest recipientIdentity
      else if version =? sealedSenderV2MajorVersion then decryptV2 rest recipientIdentity
      else Err ErrInvalidMessage
  end.

End sealed.
End SealedSender.
Import SealedSender.

(** ** The content *)

Section content_lemmas.
Context `{Primitives} `{Protowire} `{!ProtowireLaws _}.

Lemma parseMessageType_ok t v : is_u32 t -> parseMessageType t = Ok v -> v = t.
Proof. intros Ht. unfold parseMessageType. rewrite u32_id by done. case_bool_decide; [|done]. by intros [= <-]. Qed.

Lemma parseContentHint_id h : is_u32 h -> parseContentHint h = h.
Proof. intros Hh. unfold parseContentHint. rewrite u32_id by done. by case_bool_decide. Qed.

(** A parsed certificate holds a valid key and its bytes. *)
Lemma ParseSenderCertificate_key data c : ParseSenderCertificate data = Ok c ->
  DeserializeWirePublicKey (b_identityKeyBytes (snd_body c)) = Ok (b_identityKey (snd_body c)) /\ snd_serialized c = data.
Proof.
  unfold ParseSenderCertificate. intros E. inv_steps. destruct v as [cert sig]. inv_steps. subst c. cbn [snd_body snd_serialized].
  split; [|done]. unfold decodeSenderCertificateBody in Hok0. inv_steps.
  destruct (v_senderDevice v0), (v_expiresMillis v0), (v_identityKeyBytes v0), (v_gotUUID v0), (v_gotSigner v0); try done.
  inv_steps. by subst v.
Qed.

Ltac content_field_step :=
  rewrite <- ?app_assoc; eapply decodes_field; [lia|done|
    cbn [content_field Z.eqb Pos.eqb];
    rewrite ?take_bytes_append, ?take_varint_append by (unfold is_u32, is_u64 in *; lia); cbn [mbind res_bind];
    rewrite ?parseContentHint_id by done; reflexivity|].

(** A content that was built is parsed as it was built. *)
Lemma ParseContent_new msgType cert content hint groupID c :
  NewUnidentifiedSenderMessageContent msgType (Some cert) content hint groupID = Ok c ->
  is_u32 msgType -> is_u32 hint -> ParseSenderCertificate (snd_serialized cert) = Ok cert ->
  ParseUnidentifiedSenderMessageContent (c_serialized c) = Ok c.
Proof.
  unfold NewUnidentifiedSenderMessageContent. intros E Hm Hh Hc. inv_steps. subst c. cbn [c_serialized SenderCertificate_Serialize].
  pose proof (parseMessageType_ok _ _ Hm Hok0) as ->. unfold ParseUnidentifiedSenderMessageContent.
  match goal with |- context [len ?d =? 0] => replace (len d =? 0) with false end.
  2: { symmetry. apply Z.eqb_neq. pose proof (consume_tag_len (AppendTag 1 VarintType ++ []) 1 VarintType _
         (consume_tag 1 VarintType [] ltac:(lia) eq_refl)). lens. }
  cbn [check mbind res_bind].
  rewrite (decodes_run _ _ _ (Ok (mkContentVars (Some msgType) (Some cert) (Some content) hint
    (if 0 <? len groupID then Some groupID else None)))).
  { cbn. destruct (Z.ltb_spec 0 (len groupID)); [done|].
    rewrite (len_0_inv groupID) by (pose proof (len_nonneg groupID); lia). done. }
  eapply decodes_field; [lia|done| |].
  { cbn [content_field Z.eqb Pos.eqb]. rewrite take_varint_append by (unfold is_u32, is_u64 in *; lia).
    cbn [mbind res_bind]. rewrite Hok0. reflexivity. }
  eapply decodes_field; [lia|done| |].
  { cbn [content_field Z.eqb Pos.eqb]. rewrite take_bytes_append. cbn [mbind res_bind]. rewrite Hc. reflexivity. }
  content_field_step.
  assert (forall h, decodes content_field (if 0 <? len groupID then AppendTag 5 BytesType ++ AppendBytes groupID else [])
    (mkContentVars (Some msgType) (Some cert) (Some content) h None)
    (Ok (mkContentVars (Some msgType) (Some cert) (Some content) h (if 0 <? len groupID then Some groupID else None)))) as Htail.
  { intros h. destruct (0 <? len groupID); [|apply decodes_nil]. rewrite <- (app_nil_r (AppendTag 5 BytesType ++ _)).
    content_field_step. apply decodes_nil. }
  destruct (Z.eqb_spec hint ContentHintDefault) as [->|Hne]; cbn [negb]; [apply Htail|]. content_field_step. apply Htail.
Qed.

End content_lemmas.

(** ** Both sides derive the same keys *)

Section agreement.
Context `{Primitives} `{!PrimitiveLaws _}.

Lemma deriveEphemeralKeys_agree a pa b pb :
  key_pair_ok a pa -> key_pair_ok b pb ->
  deriveEphemeralKeys pa a pb directionSending = deriveEphemeralKeys pb b pa directionReceiving.
Proof. intros Ha Hb. unfold deriveEphemeralKeys. by rewrite (DH_comm a b pa pb). Qed.

Lemma deriveStaticKeys_agree a pa b pb chain enc :
  key_pair_ok a pa -> key_pair_ok b pb -> deriveStaticKeys a pb chain enc = deriveStaticKeys b pa chain enc.
Proof. intros Ha Hb. unfold deriveStaticKeys. by rewrite (DH_comm a b pa pb). Qed.

Lemma computeAuthenticationTag_agree a pa b pb eph c :
  key_pair_ok a pa -> key_pair_ok b pb ->
  computeAuthenticationTag a pa pb directionSending eph c = computeAuthenticationTag b pb pa directionReceiving eph c.
Proof. intros Ha Hb. unfold computeAuthenticationTag. by rewrite (DH_comm a b pa pb). Qed.

Lemma applyAgreementXOR_agree a pa b pb m c :
  key_pair_ok a pa -> key_pair_ok b pb ->
  applyAgreementXOR a pa pb directionSending m = Ok c -> applyAgreementXOR b pb pa directionReceiving c = Ok m.
Proof.
  intros Ha Hb. unfold applyAgreementXOR. rewrite (DH_comm a b pa pb) by done. intros E. inv_steps. subst c.
  rewrite Hok. cbn [mbind res_bind]. rewrite Hok0. cbn [mbind res_bind]. f_equal. apply xor_arr_involutive.
Qed.

(** *** The derivations return when the secret exists *)

Ltac hkdf_step okm Hl :=
  match goal with |- context [HKDF ?i ?s ?f ?n] =>
    destruct (HKDF_ok i s f n) as (okm & -> & Hl); [unfold hkdfMaxLength; lia|] end; cbn [mbind res_bind].
Ltac slice_step okm :=
  match goal with |- context [slice okm ?a ?b] =>
    destruct (slice_no_panic okm a b ltac:(lia) ltac:(lia)) as [? ->] end; cbn [mbind res_bind].

Lemma deriveEphemeralKeys_ok ourPub ourPriv theirPub dir z :
  DH ourPriv theirPub = Ok z -> exists k, deriveEphemeralKeys ourPub ourPriv theirPub dir = Ok k.
Proof.
  intros Hd. unfold deriveEphemeralKeys. rewrite Hd. cbn [mbind res_bind].
  hkdf_step okm Hl.
  do 3 slice_step okm. eauto.
Qed.

Lemma deriveStaticKeys_ok ourPriv theirPub chain enc z :
  DH ourPriv theirPub = Ok z -> exists k, deriveStaticKeys ourPriv theirPub chain enc = Ok k.
Proof.
  intros Hd. unfold deriveStaticKeys. rewrite Hd. cbn [mbind res_bind].
  hkdf_step okm Hl.
  do 2 slice_step okm. eauto.
Qed.

Lemma applyAgreementXOR_ok ourPriv ourPub theirPub dir m z :
  DH ourPriv theirPub = Ok z -> exists c, applyAgreementXOR ourPriv ourPub theirPub dir m = Ok c.
Proof.
  intros Hd. unfold applyAgreementXOR, sealedSenderV2MessageKeyLen. rewrite Hd. cbn [mbind res_bind].
  hkdf_step okm Hl. eauto.
Qed.

Lemma computeAuthenticationTag_ok ourPriv ourPub theirPub dir eph c z :
  DH ourPriv theirPub = Ok z -> exists tag, computeAuthenticationTag ourPriv ourPub theirPub dir eph c = Ok tag.
Proof.
  intros Hd. unfold computeAuthenticationTag, sealedSenderV2AuthTagLen. rewrite Hd. cbn [mbind res_bind].
  hkdf_step okm Hl. eauto.
Qed.

Lemma CTRHMAC_encrypt_ok p (ck : key32) mk :
  exists c, AES256CTRHMACSHA256Encrypt p (vec_to_list ck) mk = Ok c /\ len c = len p + 10.
Proof.
  unfold AES256CTRHMACSHA256Encrypt, aes_NewCipher, aesCTRHMACSize. rewrite vec_list_len.
  change (negb _) with false. cbn [check mbind res_bind].
  destruct (slice_no_panic (HMAC256 mk (XORKeyStream ck p)) 0 10) as [s Hs]; [lia|unfold HMAC256; rewrite vec_list_len; lia|].
  rewrite Hs. cbn [mbind res_bind]. eexists. split; [done|]. apply slice_length in Hs as [Hl _].
  unfold len in *. rewrite length_app, XORKeyStream_length. lia.
Qed.

End agreement.

(** ** The messages *)

Section messages.
Context `{Primitives} `{!PrimitiveLaws _} `{Protowire} `{!ProtowireLaws _} `{GcmSiv} `{!GcmSivLaws _}.

Lemma decodeV1_encode a b c :
  decodeSealedSenderV1Message (encodeSealedSenderV1Message a b c) = Ok (mkV1Message a b c).
Proof.
  unfold decodeSealedSenderV1Message. rewrite (decodes_run _ _ _ (Ok (Some a, Some b, Some c))); [done|].
  unfold encodeSealedSenderV1Message. rewrite <- (app_nil_r (AppendBytes c)).
  do 3 (eapply decodes_field; [lia|done|cbn [v1_field Z.eqb Pos.eqb]; rewrite take_bytes_append; reflexivity|]).
  apply decodes_nil.
Qed.

Lemma encrypt_guards_ok s c cert :
  c_sender c = Some cert -> b_identityKeyBytes (snd_body cert) = SerializeWirePublicKey (ik_PublicKey (ikp_PublicKey s)) ->
  encrypt_guards (Some s) (Some c) = Ok (s, c).
Proof.
  intros Hc Hk. unfold encrypt_guards, compareIdentityKeyBytes. rewrite Hc, Hk, Z.eqb_refl. cbn [negb].
  by rewrite bool_decide_true.
Qed.

(** A party's identity key pair. *)
Definition identity_ok (k : IdentityKeyPair) : Prop := key_pair_ok (ikp_PrivateKey k) (ik_PublicKey (ikp_PublicKey k)).

(** A content that its bytes give back, with the certificate of an identity. *)
Definition content_of (s : IdentityKeyPair) (c : UnidentifiedSenderMessageContent) : Prop :=
  ParseUnidentifiedSenderMessageContent (c_serialized c) = Ok c /\
  exists cert, c_sender c = Some cert /\
    b_identityKey (snd_body cert) = ik_PublicKey (ikp_PublicKey s) /\
    b_identityKeyBytes (snd_body cert) = SerializeWirePublicKey (ik_PublicKey (ikp_PublicKey s)) /\
    IsValidPublicKey (ik_PublicKey (ikp_PublicKey s)) = true.

Lemma DecryptToUSMC_v1 payload r : DecryptToUSMC (sealedSenderV1FullVersion :: payload) (Some r) = decryptV1 payload r.
Proof.
  unfold DecryptToUSMC. rewrite (proj2 (Z.eqb_neq _ _)) by lens. rewrite slice_cons, index_head. cbn [check mbind res_bind]. done.
Qed.

Lemma DecryptToUSMC_v2 payload r : DecryptToUSMC (sealedSenderV2UUIDFullVersion :: payload) (Some r) = decryptV2 payload r.
Proof.
  unfold DecryptToUSMC. rewrite (proj2 (Z.eqb_neq _ _)) by lens. rewrite slice_cons, index_head. cbn [check mbind res_bind]. done.
Qed.

Lemma sealed_v1 s r c t t' kp z1 z2 :
  identity_ok s -> identity_ok r -> content_of s c ->
  GenerateKeyPair t = (t', Ok kp) -> IsValidPublicKey (PublicKey kp) = true ->
  DH (PrivateKey kp) (ik_PublicKey (ikp_PublicKey r)) = Ok z1 -> DH (ikp_PrivateKey s) (ik_PublicKey (ikp_PublicKey r)) = Ok z2 ->
  exists data, EncryptV1 (ik_PublicKey (ikp_PublicKey r)) (Some s) (Some c) t = (t', Ok data) /\
    DecryptToUSMC data (Some r) = Ok c.
Proof.
  intros Hs Hr (Hparse & cert & Hcert & Hkey & Hkb & Hvalid) Hkp Hvk Hz1 Hz2. unfold EncryptV1.
  rewrite (encrypt_guards_ok s c cert) by done. set (rp := ik_PublicKey (ikp_PublicKey r)) in *.
  destruct (deriveEphemeralKeys_ok (PublicKey kp) (PrivateKey kp) rp directionSending z1 Hz1) as [ek Hek].
  set (sp := ik_PublicKey (ikp_PublicKey s)) in *.
  destruct (CTRHMAC_encrypt_ok (SerializeWirePublicKey sp) (eph_cipherKey ek) (vec_to_list (eph_macKey ek))) as (es & Hes & Hles).
  destruct (deriveStaticKeys_ok (ikp_PrivateKey s) rp (eph_chainKey ek) es z2 Hz2) as [sk Hsk].
  destruct (CTRHMAC_encrypt_ok (c_serialized c) (st_cipherKey sk) (vec_to_list (st_macKey sk))) as (em & Hem & Hlem).
  eexists. split.
  { rewrite (st_bind_lift _ _ _ _ eq_refl), (st_bind_run _ _ _ _ _ Hkp), (st_bind_lift _ _ _ _ Hek), (st_bind_lift _ _ _ _ Hes),
      (st_bind_lift _ _ _ _ Hsk), (st_bind_lift _ _ _ _ Hem). reflexivity. }
  cbn [app]. rewrite DecryptToUSMC_v1. unfold decryptV1. rewrite decodeV1_encode.
  cbn [mbind res_bind m1_ephemeralPublic m1_encryptedStatic m1_encryptedMessage].
  rewrite !(proj2 (Z.eqb_neq _ 0)) by (rewrite ?Hles, ?Hlem; unfold SerializeWirePublicKey; lens). cbn [orb check mbind res_bind].
  rewrite DeserializeWirePublicKey_serialize by done. cbn [mbind res_bind]. fold rp.
  rewrite <- (deriveEphemeralKeys_agree (PrivateKey kp) (PublicKey kp)), Hek by (done || by eapply GenerateKeyPair_ok).
  cbn [mbind res_bind]. rewrite (AESCTRHMAC_roundtrip _ _ _ _ Hes). cbn [or_invalid_mac mbind res_bind].
  rewrite DeserializeWirePublicKey_serialize by done. cbn [mbind res_bind].
  rewrite <- (deriveStaticKeys_agree (ikp_PrivateKey s) sp _ rp), Hsk by done. cbn [mbind res_bind].
  rewrite (AESCTRHMAC_roundtrip _ _ _ _ Hem). cbn [or_invalid_mac mbind res_bind]. rewrite Hparse. cbn [mbind res_bind].
  rewrite Hcert, Hkb, bool_decide_true by done. done.
Qed.

Lemma v2_slices (c : key32) (tag : arr 16) (e : key32) (ct : bytes) :
  let payload := vec_to_list c ++ vec_to_list tag ++ vec_to_list e ++ ct in
  slice payload 0 32 = Ok (vec_to_list c) /\ slice payload 32 48 = Ok (vec_to_list tag) /\
  slice payload 48 80 = Ok (vec_to_list e) /\ slice payload 80 (len payload) = Ok ct.
Proof.
  intros payload.
  pose proof (slice_app [] (vec_to_list c) (vec_to_list tag ++ vec_to_list e ++ ct)) as E1.
  pose proof (slice_app (vec_to_list c) (vec_to_list tag) (vec_to_list e ++ ct)) as E2.
  pose proof (slice_app (vec_to_list c ++ vec_to_list tag) (vec_to_list e) ct) as E3.
  pose proof (slice_suffix (vec_to_list c ++ vec_to_list tag ++ vec_to_list e) ct) as E4.
  autorewrite with len in E1, E2, E3, E4. rewrite <- !app_assoc in E3. rewrite <- !app_assoc in E4.
  subst payload. split_and!; [exact E1|exact E2|exact E3|].
  autorewrite with len. rewrite <- E4. f_equal; lia.
Qed.

Lemma sealed_v2 s r c t t' m kp z1 z2 :
  identity_ok s -> identity_ok r -> content_of s c ->
  RandomBytes 32 t = (t', Ok m) ->
  (forall rb, HKDF m [] sealedSenderV2LabelR 32 = Ok rb -> KeyPairFromPrivate (to_arr 32 rb) = Ok kp) ->
  DH (PrivateKey kp) (ik_PublicKey (ikp_PublicKey r)) = Ok z1 -> DH (ikp_PrivateKey s) (ik_PublicKey (ikp_PublicKey r)) = Ok z2 ->
  exists data, EncryptV2Received (ik_PublicKey (ikp_PublicKey r)) (Some s) (Some c) t = (t', Ok data) /\
    DecryptToUSMC data (Some r) = Ok c.
Proof.
  intros Hs Hr (Hparse & cert & Hcert & Hkey & Hkb & Hvalid) Hm Hkp Hz1 Hz2. unfold EncryptV2Received.
  rewrite (encrypt_guards_ok s c cert) by done. set (rp := ik_PublicKey (ikp_PublicKey r)) in *.
  unfold sealedSenderV2MessageKeyLen.
  destruct (HKDF_ok m [] sealedSenderV2LabelR 32) as (rb & Hrb & Hlr); [unfold hkdfMaxLength; lia|].
  destruct (HKDF_ok m [] sealedSenderV2LabelK 32) as (kb & Hkb' & Hlk); [unfold hkdfMaxLength; lia|].
  specialize (Hkp rb Hrb).
  destruct (applyAgreementXOR_ok (PrivateKey kp) (PublicKey kp) rp directionSending (to_arr 32 m) z1 Hz1) as [cc Hcc].
  set (sp := ik_PublicKey (ikp_PublicKey s)) in *.
  destruct (computeAuthenticationTag_ok (ikp_PrivateKey s) sp rp directionSending (PublicKey kp) cc z2 Hz2) as [tag Htag].
  destruct (AESGCMSIVEncrypt_ok kb (replicate 12 Byte.x00) (c_serialized c) []) as [ct Hct]; [done|unfold len in Hlk; lia|].
  pose proof (AESGCMSIV_roundtrip _ _ _ _ _ Hct) as [Hdec Hlct].
  apply io_ReadFull_ok in Hm as Hlm. destruct Hlm as [Hlm _].
  assert (key_pair_ok (PrivateKey kp) (PublicKey kp)) as Hkpok by by eapply KeyPairFromPrivate_ok.
  eexists. split.
  { rewrite (st_bind_lift _ _ _ _ eq_refl), (st_bind_run _ _ _ _ _ Hm), (st_bind_lift _ _ _ _ Hrb), (st_bind_lift _ _ _ _ Hkb'),
      (st_bind_lift _ _ _ _ Hkp), (st_bind_lift _ _ _ _ Hcc), (st_bind_lift _ _ _ _ Htag), (st_bind_lift _ _ _ _ Hct). reflexivity. }
  cbn [app]. rewrite DecryptToUSMC_v2. unfold decryptV2.
  match goal with |- context [slice ?p 0 32] => destruct (v2_slices cc tag (PublicKey kp) ct) as (E1 & E2 & E3 & E4);
    replace (len p <? _) with false by (symmetry; apply Z.ltb_ge;
      unfold sealedSenderV2MessageKeyLen, sealedSenderV2AuthTagLen, sealedSenderV2PublicKeyLen; rewrite !len_app, !vec_list_len, Hlct; len_facts; pose proof (len_nonneg (c_serialized c)); lia) end.
  cbn [check mbind res_bind]. rewrite E1, E2, E3, E4. cbn [mbind res_bind]. rewrite !to_arr_vec_list. fold rp.
  rewrite (applyAgreementXOR_agree (PrivateKey kp) (PublicKey kp) _ rp _ _ Hkpok Hr Hcc). cbn [mbind res_bind].
  rewrite vec_list_to_arr by done. unfold sealedSenderV2MessageKeyLen. rewrite Hrb. cbn [mbind res_bind].
  rewrite Hkb'. cbn [mbind res_bind]. rewrite Hkp. cbn [mbind res_bind]. rewrite bool_decide_true by done. cbn [negb check mbind res_bind].
  rewrite Hdec. cbn [or_invalid_mac mbind res_bind]. rewrite Hparse. cbn [mbind res_bind]. rewrite Hcert, Hkey.
  rewrite <- (computeAuthenticationTag_agree (ikp_PrivateKey s) sp _ rp), Htag by done. cbn [mbind res_bind].
  by rewrite bool_decide_true by done.
Qed.

End messages.

(** ** Reading whatever comes *)

Section total.
Context `{Primitives} `{!PrimitiveLaws _} `{Protowire} `{!ProtowireLaws _} `{GcmSiv} `{!GcmSivLaws _}.

Lemma returns_DH a p : returns (DH a p).
Proof. unfold DH. destruct (x25519 a p); [|done]. by case_bool_decide. Qed.
Lemma returns_HKDF ikm salt info n : 0 <= n <= hkdfMaxLength -> returns (HKDF ikm salt info n).
Proof. intros Hn. destruct (HKDF_ok ikm salt info n Hn) as (? & -> & _). done. Qed.

Lemma HKDF_len ikm salt info n okm : 0 <= n <= hkdfMaxLength -> HKDF ikm salt info n = Ok okm -> len okm = n.
Proof. intros Hn E. destruct (HKDF_ok ikm salt info n Hn) as (? & E' & Hl). congruence. Qed.

Lemma returns_parse_type v : returns (parseMessageType v).
Proof. unfold parseMessageType. by case_bool_decide. Qed.

Lemma returns_mac {A} (r : res A) : r <> Panic -> returns (or_invalid_mac r).
Proof. by destruct r. Qed.

Lemma returns_ctr c ck mk : AES256CTRHMACSHA256Decrypt c ck mk <> Panic.
Proof.
  unfold AES256CTRHMACSHA256Decrypt, aesCTRHMACSize. destruct (Z.ltb_spec (len c) 10) as [|Hl]; [done|].
  unfold aes_NewCipher. destruct (negb _); [done|]. cbn [check mbind res_bind].
  destruct (slice_no_panic c 0 (len c - 10)) as [m ->]; [lia|lia|]. destruct (slice_no_panic c (len c - 10) (len c)) as [x ->]; [lia|lia|].
  cbn [mbind res_bind]. destruct (slice_no_panic (HMAC256 mk m) 0 10) as [y ->]; [lia|unfold HMAC256; rewrite vec_list_len; lia|].
  cbn [mbind res_bind]. by destruct (negb _).
Qed.

Lemma returns_siv k n c a : AESGCMSIVDecrypt k n c a <> Panic.
Proof. unfold AESGCMSIVDecrypt. destruct (negb _); [done|]. cbn. destruct (siv_NewGCM k); [done|]. by destruct (siv_open _ _ _ _). Qed.

(** One step of a function: a call of one of the functions above, a check, a
    slice within its bounds. *)
Ltac returns_step :=
  first
  [ apply returns_ok
  | match goal with |- returns (HKDF _ _ _ _ ≫= _) =>
      apply returns_bind; [apply returns_HKDF; unfold hkdfMaxLength; lia|];
      let okm := fresh "okm" in let E := fresh "E" in intros okm E; apply HKDF_len in E; [|unfold hkdfMaxLength; lia] end
  | match goal with |- returns (check ?c _ ≫= _) => destruct c eqn:?; [done|]; cbn [check mbind res_bind] end
  | apply returns_bind; [first [apply returns_DH | apply DeserializeWirePublicKey_no_panic | apply ParseSenderCertificate_returns
      | apply returns_parse_type | apply returns_slice; lia | apply returns_mac, returns_ctr | apply returns_mac, returns_siv]|intros ? ?] ].

Lemma returns_ephemeral a b c d : returns (deriveEphemeralKeys a b c d).
Proof. unfold deriveEphemeralKeys. repeat returns_step. Qed.
Lemma returns_static a b c d : returns (deriveStaticKeys a b c d).
Proof. unfold deriveStaticKeys. repeat returns_step. Qed.
Lemma returns_agreement a b c d e : returns (applyAgreementXOR a b c d e).
Proof. unfold applyAgreementXOR, sealedSenderV2MessageKeyLen. repeat returns_step. Qed.
Lemma returns_tag a b c d e f : returns (computeAuthenticationTag a b c d e f).
Proof. unfold computeAuthenticationTag, sealedSenderV2AuthTagLen. repeat returns_step. Qed.
Lemma returns_pair r : returns (KeyPairFromPrivate r).
Proof. unfold KeyPairFromPrivate, scalarBaseMult. by destruct (x25519 _ _). Qed.

Lemma content_field_ok : field_ok content_field.
Proof.
  intros num typ data []. unfold content_field.
  repeat match goal with |- context [if num =? ?n then _ else _] => destruct (num =? n) end; repeat field_take.
  - match goal with |- context [parseMessageType ?v] => destruct (returns_parse_type v); destruct (parseMessageType v) end; cbn; congruence.
  - match goal with |- context [ParseSenderCertificate ?v] =>
      destruct (ParseSenderCertificate_returns v); destruct (ParseSenderCertificate v) end; cbn; congruence.
Qed.

Lemma returns_content data : returns (ParseUnidentifiedSenderMessageContent data).
Proof.
  unfold ParseUnidentifiedSenderMessageContent. returns_step. apply returns_bind; [apply decode_ok, content_field_ok|].
  intros f _. by destruct (x_msgType f), (x_sender f), (x_content f).
Qed.

Lemma v1_field_ok : field_ok v1_field.
Proof.
  intros num typ data [[a b] c]. unfold v1_field.
  repeat match goal with |- context [if num =? ?n then _ else _] => destruct (num =? n) end; repeat field_take.
Qed.

Lemma returns_v1 payload r : returns (decryptV1 payload r).
Proof.
  unfold decryptV1, decodeSealedSenderV1Message. apply returns_bind.
  { apply returns_bind; [apply decode_ok, v1_field_ok|]. by intros [[[a|] [b|]] [c|]] _. }
  intros msg _. repeat returns_step. apply returns_bind; [apply returns_ephemeral|intros ek _]. repeat returns_step.
  apply returns_bind; [apply returns_static|intros sk _]. returns_step. apply returns_bind; [apply returns_content|intros c _].
  destruct (c_sender c); [|done]. repeat returns_step.
Qed.

Lemma returns_v2 payload r : returns (decryptV2 payload r).
Proof.
  unfold decryptV2, sealedSenderV2MessageKeyLen, sealedSenderV2AuthTagLen, sealedSenderV2PublicKeyLen.
  returns_step. rewrite Z.ltb_ge in *. repeat returns_step. apply returns_bind; [apply returns_agreement|intros m _]. repeat returns_step.
  apply returns_bind; [apply returns_pair|intros kp _]. repeat returns_step. apply returns_bind; [apply returns_content|intros c _].
  destruct (c_sender c); [|done]. apply returns_bind; [apply returns_tag|intros tag _]. repeat returns_step.
Qed.

Lemma returns_decrypt data r : returns (DecryptToUSMC data r).
Proof.
  unfold DecryptToUSMC. destruct r as [r|]; [|done]. destruct data as [|b data]; [done|].
  rewrite (proj2 (Z.eqb_neq _ _)) by lens. rewrite index_head, slice_cons. cbn [check mbind res_bind].
  destruct (_ || _); [apply returns_v1|]. destruct (_ =? _); [apply returns_v2|done].
Qed.

End total.

Section identities.
Context `{Primitives}.

Lemma DeserializeWirePublicKey_inv data key :
  DeserializeWirePublicKey data = Ok key -> data = SerializeWirePublicKey key /\ IsValidPublicKey key = true.
Proof.
  unfold DeserializeWirePublicKey. intros E. inv_steps. apply negb_false_iff, Z.eqb_eq in Hok.
  destruct data as [|b l]; [done|]. rewrite index_head in Hok0. rewrite slice_cons in Hok2. apply Ok_inj in Hok0 as <-, Hok2 as <-.
  apply negb_false_iff, bool_decide_eq_true in Hok1 as ->. unfold ValidatePublicKey in E.
  destruct (IsValidPublicKey (to_arr 32 l)) eqn:Ev; [|done]. apply Ok_inj in E as <-. split; [|done].
  unfold SerializeWirePublicKey. rewrite vec_list_to_arr; [done|]. rewrite len_cons in Hok. unfold len in Hok. lia.
Qed.

(** The certificate of a parsed content holds the key that its bytes are. *)
Lemma ParseContent_key `{Protowire} data c cert :
  ParseUnidentifiedSenderMessageContent data = Ok c -> c_sender c = Some cert ->
  DeserializeWirePublicKey (b_identityKeyBytes (snd_body cert)) = Ok (b_identityKey (snd_body cert)).
Proof.
  unfold ParseUnidentifiedSenderMessageContent. intros E Hc. inv_steps.
  unshelve epose proof (decode_invariant (fun f => forall cert, x_sender f = Some cert ->
    DeserializeWirePublicKey (b_identityKeyBytes (snd_body cert)) = Ok (b_identityKey (snd_body cert))) _ _ _ _ _ _ Hok0) as Hi; [|done|].
  { intros num typ body [] acc' rest Hi Ef. unfold content_field in Ef.
    repeat match type of Ef with context [if num =? ?n then _ else _] => destruct (num =? n) end; inv_steps;
      repeat match goal with v : _ * bytes |- _ => destruct v end; inv_steps; injection Ef as <- <-; try exact Hi.
    intros cert' [= <-]. by eapply proj1, ParseSenderCertificate_key. }
  apply Hi. destruct (x_msgType v0), (x_sender v0) as [s|], (x_content v0); try done. inv_steps. by subst c.
Qed.

Lemma or_invalid_mac_ok {A} (r : res A) a : or_invalid_mac r = Ok a -> r = Ok a.
Proof. by destruct r. Qed.

Lemma content_of_new `{Protowire} `{!ProtowireLaws _} s cert msgType content hint groupID c :
  ParseSenderCertificate (SenderCertificate_Serialize (Some cert)) = Ok cert ->
  IdentityKey (Some cert) = ik_PublicKey (ikp_PublicKey s) ->
  NewUnidentifiedSenderMessageContent msgType (Some cert) content hint groupID = Ok c ->
  is_u32 msgType -> is_u32 hint -> content_of s c.
Proof.
  intros Hp Hk Hn Hm Hh. split; [by eapply ParseContent_new|]. exists cert. cbn [IdentityKey] in Hk.
  pose proof Hp as [Hd _]%ParseSenderCertificate_key. apply DeserializeWirePublicKey_inv in Hd as [Hd Hv]. rewrite Hk in *.
  split_and!; [|done..]. unfold NewUnidentifiedSenderMessageContent in Hn. inv_steps. by subst c.
Qed.

Lemma decryptV1_bound `{Protowire} payload r usmc :
  decryptV1 payload r = Ok usmc ->
  exists cert, c_sender usmc = Some cert /\
    exists msg chain keys plain, decodeSealedSenderV1Message payload = Ok msg /\
      b_identityKeyBytes (snd_body cert) = SerializeWirePublicKey (b_identityKey (snd_body cert)) /\
      deriveStaticKeys (ikp_PrivateKey r) (b_identityKey (snd_body cert)) chain (m1_encryptedStatic msg) = Ok keys /\
      AES256CTRHMACSHA256Decrypt (m1_encryptedMessage msg) (vec_to_list (st_cipherKey keys)) (vec_to_list (st_macKey keys)) = Ok plain /\
      ParseUnidentifiedSenderMessageContent plain = Ok usmc.
Proof.
  unfold decryptV1. intros E. inv_steps. destruct (c_sender v8) as [cert|] eqn:Ec; [|done]. inv_steps. subst v8.
  apply negb_false_iff, bool_decide_eq_true in Hok9 as ->. apply or_invalid_mac_ok in Hok7.
  exists cert. split; [done|]. exists v, (eph_chainKey v3), v6, v7.
  rewrite (ParseContent_key _ _ _ Hok8 Ec) in Hok5. apply Ok_inj in Hok5 as <-.
  split_and!; [done|by apply DeserializeWirePublicKey_inv, (ParseContent_key _ _ _ Hok8)|done..].
Qed.

Lemma decryptV2_bound `{Protowire} `{GcmSiv} payload r usmc :
  decryptV2 payload r = Ok usmc ->
  exists cert, c_sender usmc = Some cert /\
    exists c tag m ephemeral encrypted rb kb plain,
      payload = vec_to_list c ++ vec_to_list tag ++ vec_to_list (PublicKey ephemeral) ++ encrypted /\
      applyAgreementXOR (ikp_PrivateKey r) (ik_PublicKey (ikp_PublicKey r)) (PublicKey ephemeral) directionReceiving c = Ok m /\
      HKDF (vec_to_list m) [] sealedSenderV2LabelR 32 = Ok rb /\ KeyPairFromPrivate (to_arr 32 rb) = Ok ephemeral /\
      HKDF (vec_to_list m) [] sealedSenderV2LabelK 32 = Ok kb /\
      AESGCMSIVDecrypt kb (replicate 12 Byte.x00) encrypted [] = Ok plain /\
      ParseUnidentifiedSenderMessageContent plain = Ok usmc /\
      computeAuthenticationTag (ikp_PrivateKey r) (ik_PublicKey (ikp_PublicKey r)) (b_identityKey (snd_body cert)) directionReceiving
        (PublicKey ephemeral) c = Ok tag.
Proof.
  unfold decryptV2. intros E. inv_steps. destruct (c_sender v10) as [cert|] eqn:Ec; [|done]. inv_steps. subst v10.
  apply negb_false_iff, bool_decide_eq_true in Hok8. apply negb_false_iff, bool_decide_eq_true in Hok12.
  apply or_invalid_mac_ok in Hok9. exists cert. split; [done|]. exists (to_arr 32 v0), (to_arr 16 v1), v4, v7, v3, v5, v6, v9.
  rewrite Hok8, Hok12. split_and!; try done.
  pose proof (slice_length _ _ _ _ Hok0) as [Hl0 _]. pose proof (slice_length _ _ _ _ Hok1) as [Hl1 _].
  pose proof (slice_length _ _ _ _ Hok2) as [Hl2 _]. rewrite <- Hok12. unfold len in *. rewrite !vec_list_to_arr by lia.
  symmetry. by apply slice_all, (slice_glue _ _ _ _ 32), (slice_glue _ _ _ _ 48), (slice_glue _ _ _ _ 80).
Qed.

End identities.

(** ** The theorems *)

(** C10: sealed sender, version 1. For a content built with a certificate that
    names the sender's identity key, and key pairs whose Diffie-Hellman secrets
    exist (the ephemeral one is generated from the tape), encryption for the
    recipient returns a message, and decrypting that message with the recipient's
    identity returns the content: its type, its bytes, its hint and its group. *)
Theorem sealed_v1_delivers (P : Primitives) (Wr : Protowire) (G : GcmSiv)
    s r cert msgType content hint groupID usmc t t' ephemeral z1 z2 :
  PrimitiveLaws P -> ProtowireLaws Wr -> identity_ok s -> identity_ok r ->
  ParseSenderCertificate (SenderCertificate_Serialize (Some cert)) = Ok cert ->
  IdentityKey (Some cert) = ik_PublicKey (ikp_PublicKey s) ->
  is_u32 msgType -> is_u32 hint ->
  NewUnidentifiedSenderMessageContent msgType (Some cert) content hint groupID = Ok usmc ->
  GenerateKeyPair t = (t', Ok ephemeral) -> IsValidPublicKey (PublicKey ephemeral) = true ->
  DH (PrivateKey ephemeral) (ik_PublicKey (ikp_PublicKey r)) = Ok z1 ->
  DH (ikp_PrivateKey s) (ik_PublicKey (ikp_PublicKey r)) = Ok z2 ->
  exists data received,
    EncryptV1 (ik_PublicKey (ikp_PublicKey r)) (Some s) (Some usmc) t = (t', Ok data) /\
    DecryptToUSMC data (Some r) = Ok received /\
    USMC_Sender (Some received) = Some cert /\ USMC_MessageType (Some received) = msgType /\
    USMC_Content (Some received) = content /\ USMC_ContentHint (Some received) = hint /\
    USMC_GroupID (Some received) = (groupID, 0 <? len groupID).
Proof.
  intros HP HW Hs Hr Hc Hk Hm Hh Hn Hkp Hv Hz1 Hz2.
  destruct (sealed_v1 s r usmc t t' ephemeral z1 z2 Hs Hr (content_of_new _ _ _ _ _ _ _ Hc Hk Hn Hm Hh) Hkp Hv Hz1 Hz2)
    as (data & He & Hd).
  exists data, usmc. unfold NewUnidentifiedSenderMessageContent in Hn. inv_steps. subst usmc. split_and!; try done.
  cbn. destruct (Z.ltb_spec 0 (len groupID)); [done|]. rewrite (len_0_inv groupID); [done|]. pose proof (len_nonneg groupID). lia.
Qed.

(** C9: sealed sender, version 2. The same for the format in which the ephemeral
    key is derived from a random message key, the message key is masked with the
    Diffie-Hellman secret, and an authentication tag binds the sender. *)
Theorem sealed_v2_delivers (P : Primitives) (Wr : Protowire) (G : GcmSiv)
    s r cert msgType content hint groupID usmc t t' m ephemeral z1 z2 :
  PrimitiveLaws P -> ProtowireLaws Wr -> GcmSivLaws G -> identity_ok s -> identity_ok r ->
  ParseSenderCertificate (SenderCertificate_Serialize (Some cert)) = Ok cert ->
  IdentityKey (Some cert) = ik_PublicKey (ikp_PublicKey s) ->
  is_u32 msgType -> is_u32 hint ->
  NewUnidentifiedSenderMessageContent msgType (Some cert) content hint groupID = Ok usmc ->
  RandomBytes 32 t = (t', Ok m) ->
  (forall rb, HKDF m [] sealedSenderV2LabelR 32 = Ok rb -> KeyPairFromPrivate (to_arr 32 rb) = Ok ephemeral) ->
  DH (PrivateKey ephemeral) (ik_PublicKey (ikp_PublicKey r)) = Ok z1 ->
  DH (ikp_PrivateKey s) (ik_PublicKey (ikp_PublicKey r)) = Ok z2 ->
  exists data received,
    EncryptV2Received (ik_PublicKey (ikp_PublicKey r)) (Some s) (Some usmc) t = (t', Ok data) /\
    DecryptToUSMC data (Some r) = Ok received /\
    USMC_Sender (Some received) = Some cert /\ USMC_MessageType (Some received) = msgType /\
    USMC_Content (Some received) = content /\ USMC_ContentHint (Some received) = hint /\
    USMC_GroupID (Some received) = (groupID, 0 <? len groupID).
Proof.
  intros HP HW HG Hs Hr Hc Hk Hm Hh Hn Hrand Hkp Hz1 Hz2.
  destruct (sealed_v2 s r usmc t t' m ephemeral z1 z2 Hs Hr (content_of_new _ _ _ _ _ _ _ Hc Hk Hn Hm Hh) Hrand Hkp Hz1 Hz2)
    as (data & He & Hd).
  exists data, usmc. unfold NewUnidentifiedSenderMessageContent in Hn. inv_steps. subst usmc. split_and!; try done.
  cbn. destruct (Z.ltb_spec 0 (len groupID)); [done|]. rewrite (len_0_inv groupID); [done|]. pose proof (len_nonneg groupID). lia.
Qed.

(** C11: what an accepted sealed message proves. Whatever bytes arrive, a content
    that [DecryptToUSMC] returns carries a certificate, and the message is bound
    to the identity key in it: in version 1 the content was authenticated under
    keys derived from the secret between that identity key and the recipient; in
    version 2 the tag of the message is the one that the two of them compute over
    the ephemeral key and the masked message key, and the ephemeral key is the one
    that the message key gives. *)
Theorem sealed_sender_bound (P : Primitives) (Wr : Protowire) (G : GcmSiv) data r usmc :
  DecryptToUSMC data (Some r) = Ok usmc ->
  exists version payload cert, data = version :: payload /\ USMC_Sender (Some usmc) = Some cert /\
    ((Z.shiftr (b2z version) 4 <= 1 /\
      exists msg chain keys plain, decodeSealedSenderV1Message payload = Ok msg /\
        b_identityKeyBytes (snd_body cert) = SerializeWirePublicKey (IdentityKey (Some cert)) /\
        deriveStaticKeys (ikp_PrivateKey r) (IdentityKey (Some cert)) chain (m1_encryptedStatic msg) = Ok keys /\
        AES256CTRHMACSHA256Decrypt (m1_encryptedMessage msg) (vec_to_list (st_cipherKey keys)) (vec_to_list (st_macKey keys)) = Ok plain /\
        ParseUnidentifiedSenderMessageContent plain = Ok usmc) \/
     (Z.shiftr (b2z version) 4 = 2 /\
      exists c tag m ephemeral encrypted rb kb plain,
        payload = vec_to_list c ++ vec_to_list tag ++ vec_to_list (PublicKey ephemeral) ++ encrypted /\
        applyAgreementXOR (ikp_PrivateKey r) (ik_PublicKey (ikp_PublicKey r)) (PublicKey ephemeral) directionReceiving c = Ok m /\
        HKDF (vec_to_list m) [] sealedSenderV2LabelR 32 = Ok rb /\ KeyPairFromPrivate (to_arr 32 rb) = Ok ephemeral /\
        HKDF (vec_to_list m) [] sealedSenderV2LabelK 32 = Ok kb /\
        AESGCMSIVDecrypt kb (replicate 12 Byte.x00) encrypted [] = Ok plain /\
        ParseUnidentifiedSenderMessageContent plain = Ok usmc /\
        computeAuthenticationTag (ikp_PrivateKey r) (ik_PublicKey (ikp_PublicKey r)) (IdentityKey (Some cert)) directionReceiving
          (PublicKey ephemeral) c = Ok tag)).
Proof.
  unfold DecryptToUSMC. destruct data as [|version payload]; [done|]. rewrite (proj2 (Z.eqb_neq _ _)) by lens.
  rewrite index_head, slice_cons. cbn [check mbind res_bind]. intros E. exists version, payload.
  assert (0 <= Z.shiftr (b2z version) 4) by (apply Z.shiftr_nonneg; pose proof (b2z_range version); lia).
  destruct (orb _ _) eqn:Ev.
  - apply decryptV1_bound in E as (cert & Hc & Hb). exists cert. split_and!; [done..|]. left. split; [|done].
    apply orb_true_iff in Ev as [Ev|Ev]; apply Z.eqb_eq in Ev; unfold sealedSenderV1MajorVersion in Ev; lia.
  - unfold sealedSenderV2MajorVersion in E. destruct (Z.eqb_spec (Z.shiftr (b2z version) 4) 2); [|done].
    apply decryptV2_bound in E as (cert & Hc & Hb). exists cert. split_and!; [done..|]. by right.
Qed.

(** C32: reading a sealed message ends. Whatever bytes [DecryptToUSMC] is given, it
    returns a content or an error: no slice expression is out of range, and the
    loops over the fields of the message, the content and the certificates end. *)
Theorem sealed_decrypt_total (P : Primitives) (Wr : Protowire) (G : GcmSiv) data r :
  ProtowireLaws Wr ->
  (exists usmc, DecryptToUSMC data r = Ok usmc) \/
  (exists e, DecryptToUSMC data r = Err e /\ e <> ErrText "out of fuel").
Proof.
  intros HW. destruct (returns_decrypt data r) as [Hp Hf]. destruct (DecryptToUSMC data r) as [c|e|]; [eauto| |done].
  right. exists e. split; [done|congruence].
Qed.

(** The message type is truncated to 32 bits before it is compared: a number
    that is not one of the four types is accepted as one of them. *)
Lemma message_type_truncated raw : u32 raw = MessageTypePreKey -> parseMessageType raw = Ok MessageTypePreKey.
Proof. intros E. unfold parseMessageType. rewrite E. done. Qed.

(** ** A concrete message *)

Module SealedDemo.
#[local] Existing Instance Toy.primitives.
#[local] Existing Instance Toy.xeddsa.
#[local] Existing Instance Toy.gcm_siv.
#[local] Existing Instance ToyWire.wire.

Definition identity (kp : KeyPair) : IdentityKeyPair := mkIdentityKeyPair (mkIdentityKey (PublicKey kp) zero32) (PrivateKey kp).
Definition sender : IdentityKeyPair := identity CertDemo.sender_pair.
Definition recipient : IdentityKeyPair := identity (toy_pair 21).
Definition content : UnidentifiedSenderMessageContent :=
  get_ok (mkUSMC [] None 0 [] 0 [] false)
    (NewUnidentifiedSenderMessageContent MessageTypeSignal (Some CertDemo.sender) (str "ciphertext") ContentHintResendable (str "group")).
Definition tape0 : tape := str "0123456789abcdefghijklmnopqrstuv and the rest".
Definition ephemeral : KeyPair := get_ok (toy_pair 0) (snd (GenerateKeyPair tape0)).
Definition message_key : bytes := get_ok [] (snd (RandomBytes 32 tape0)).
Definition ephemeral2 : KeyPair :=
  get_ok (toy_pair 0) (rb ← HKDF message_key [] sealedSenderV2LabelR 32; KeyPairFromPrivate (to_arr 32 rb)).
Definition secret (k : key32) : key32 := get_ok zero32 (DH k (ik_PublicKey (ikp_PublicKey recipient))).
Definition sealed1 : bytes :=
  get_ok [] (snd (EncryptV1 (ik_PublicKey (ikp_PublicKey recipient)) (Some sender) (Some content) tape0)).
Definition sealed2 : bytes :=
  get_ok [] (snd (EncryptV2Received (ik_PublicKey (ikp_PublicKey recipient)) (Some sender) (Some content) tape0)).
End SealedDemo.

Lemma sealed_v1_delivers_witness :
  let P := Toy.primitives in let W := ToyWire.wire in let G := Toy.gcm_siv in
  exists data received,
    snd (EncryptV1 (ik_PublicKey (ikp_PublicKey SealedDemo.recipient)) (Some SealedDemo.sender) (Some SealedDemo.content) SealedDemo.tape0) = Ok data /\
    DecryptToUSMC data (Some SealedDemo.recipient) = Ok received /\ USMC_Content (Some received) = str "ciphertext".
Proof.
  intros P W G.
  destruct (sealed_v1_delivers P W G SealedDemo.sender SealedDemo.recipient CertDemo.sender MessageTypeSignal (str "ciphertext")
    ContentHintResendable (str "group") SealedDemo.content SealedDemo.tape0 (drop 32 SealedDemo.tape0) SealedDemo.ephemeral
    (SealedDemo.secret (PrivateKey SealedDemo.ephemeral)) (SealedDemo.secret (ikp_PrivateKey SealedDemo.sender)))
    as (data & received & E & Hd & _ & _ & Hc & _).
  - apply Toy.laws.
  - apply ToyWire.laws.
  - apply toy_pair_ok.
  - apply toy_pair_ok.
  - vm_compute. reflexivity.
  - vm_compute. reflexivity.
  - unfold is_u32, MessageTypeSignal. lia.
  - unfold is_u32, ContentHintResendable. lia.
  - vm_compute. reflexivity.
  - vm_compute. reflexivity.
  - vm_compute. reflexivity.
  - vm_compute. reflexivity.
  - vm_compute. reflexivity.
  - exists data, received. exact (conj (f_equal snd E) (conj Hd Hc)).
Defined.

Lemma sealed_v2_delivers_witness :
  let P := Toy.primitives in let W := ToyWire.wire in let G := Toy.gcm_siv in
  exists data received,
    snd (EncryptV2Received (ik_PublicKey (ikp_PublicKey SealedDemo.recipient)) (Some SealedDemo.sender) (Some SealedDemo.content)
      SealedDemo.tape0) = Ok data /\
    DecryptToUSMC data (Some SealedDemo.recipient) = Ok received /\ USMC_Content (Some received) = str "ciphertext".
Proof.
  intros P W G.
  destruct (sealed_v2_delivers P W G SealedDemo.sender SealedDemo.recipient CertDemo.sender MessageTypeSignal (str "ciphertext")
    ContentHintResendable (str "group") SealedDemo.content SealedDemo.tape0 (drop 32 SealedDemo.tape0) SealedDemo.message_key
    SealedDemo.ephemeral2 (SealedDemo.secret (PrivateKey SealedDemo.ephemeral2)) (SealedDemo.secret (ikp_PrivateKey SealedDemo.sender)))
    as (data & received & E & Hd & _ & _ & Hc & _).
  - apply Toy.laws.
  - apply ToyWire.laws.
  - apply Toy.gcm_siv_laws.
  - apply toy_pair_ok.
  - apply toy_pair_ok.
  - vm_compute. reflexivity.
  - vm_compute. reflexivity.
  - unfold is_u32, MessageTypeSignal. lia.
  - unfold is_u32, ContentHintResendable. lia.
  - vm_compute. reflexivity.
  - vm_compute. reflexivity.
  - intros rb Hrb. unfold SealedDemo.ephemeral2. change P with Toy.primitives in Hrb. rewrite Hrb. vm_compute. reflexivity.
  - vm_compute. reflexivity.
  - vm_compute. reflexivity.
  - exists data, received. exact (conj (f_equal snd E) (conj Hd Hc)).
Defined.

Lemma sealed_sender_bound_witness :
  let P := Toy.primitives in let W := ToyWire.wire in let G := Toy.gcm_siv in
  (exists cert, USMC_Sender (Some SealedDemo.content) = Some cert) /\
  DecryptToUSMC SealedDemo.sealed1 (Some SealedDemo.recipient) = Ok SealedDemo.content /\
  DecryptToUSMC SealedDemo.sealed2 (Some SealedDemo.recipient) = Ok SealedDemo.content.
Proof.
  intros P W G. assert (DecryptToUSMC SealedDemo.sealed1 (Some SealedDemo.recipient) = Ok SealedDemo.content) as E1
    by (vm_compute; reflexivity).
  assert (DecryptToUSMC SealedDemo.sealed2 (Some SealedDemo.recipient) = Ok SealedDemo.content) as E2 by (vm_compute; reflexivity).
  refine (conj _ (conj E1 E2)). destruct (sealed_sender_bound P W G _ _ _ E2) as (version & payload & cert & _ & Hc & _).
  exact (ex_intro _ cert Hc).
Defined.

Lemma sealed_decrypt_total_witness :
  let P := Toy.primitives in let W := ToyWire.wire in let G := Toy.gcm_siv in
  (exists usmc, DecryptToUSMC (str "junk") (Some SealedDemo.recipient) = Ok usmc) \/
  (exists e, DecryptToUSMC (str "junk") (Some SealedDemo.recipient) = Err e /\ e <> ErrText "out of fuel").
Proof. intros P W G. exact (sealed_decrypt_total P W G (str "junk") (Some SealedDemo.recipient) ToyWire.laws). Defined.
