(* ===== verification/Store.v ===== *)
(** * The storage interfaces: store/

    What an application provides to the library. A Go interface is a class over
    the type [W] of the world that the store lives in; every operation may
    fail. A record pointer that may be nil is an [option], and a record is its
    [Data].

    The laws say what a store that works does, through a view of its contents:
    reading returns the view and changes nothing, writing changes one entry. The
    clients of the stores are verified against these classes; MemoryStore.v
    discharges them. *)

From Stdlib Require Import ZArith Lia.
From Stdlib Require Import Strings.Byte.
From stdpp Require Import base gmap strings list list_numbers vector.
From S2P Require Import Prelude Crypto Keys.
Import Crypto Keys.

(** *** address.go, direction.go *)

Record Address : Type := mkAddress { addr_Name : string; addr_Device : Z }.

#[export] Instance Address_eq_dec : EqDecision Address.
Proof. solve_decision. Defined.

#[export] Instance Address_countable : Countable Address :=
  inj_countable' (fun a => (addr_Name a, addr_Device a)) (fun p => mkAddress (fst p) (snd p)) ltac:(by intros []).

Inductive Direction : Type := DirectionSending | DirectionReceiving.

(** *** interfaces.go *)

Record SenderKeyName : Type := mkSenderKeyName { skn_Group : string; skn_Sender : Address }.

#[export] Instance SenderKeyName_eq_dec : EqDecision SenderKeyName.
Proof. solve_decision. Defined.

#[export] Instance SenderKeyName_countable : Countable SenderKeyName :=
  inj_countable' (fun n => (skn_Group n, skn_Sender n)) (fun p => mkSenderKeyName (fst p) (snd p)) ltac:(by intros []).

Class IdentityKeyStore (W : Type) : Type := {
  GetIdentityKeyPair : ST W (option IdentityKeyPair);
  GetLocalRegistrationID : ST W Z;
  SaveIdentity : Address -> option IdentityKey -> ST W unit;
  IsTrustedIdentity : Address -> option IdentityKey -> Direction -> W -> bool;
  GetIdentity : Address -> ST W (option IdentityKey)
}.

Class PreKeyStore (W : Type) : Type := {
  LoadPreKey : Z -> ST W (option PreKey);
  StorePreKey : Z -> option PreKey -> ST W unit;
  ContainsPreKey : Z -> W -> bool;
  RemovePreKey : Z -> ST W unit
}.

(** [time.Time.Sub], which saturates at the largest and smallest [Duration]. *)
Definition time_Sub (t u : Z) : Z := Z.max (- 2 ^ 63) (Z.min (2 ^ 63 - 1) (t - u)).

(** An instant is a number of nanoseconds since the zero time. *)
Class SignedPreKeyStore (W : Type) : Type := {
  LoadSignedPreKey : Z -> ST W (option SignedPreKey);
  StoreSignedPreKey : Z -> option SignedPreKey -> ST W unit;
  ContainsSignedPreKey : Z -> W -> bool;
  RemoveSignedPreKey : Z -> ST W unit;
  SignedPreKeyExpired : option SignedPreKey -> Z -> W -> bool
}.

Class KyberPreKeyStore (W : Type) : Type := {
  LoadKyberPreKey : Z -> ST W (option KyberPreKey);
  StoreKyberPreKey : Z -> option KyberPreKey -> ST W unit;
  ContainsKyberPreKey : Z -> W -> bool;
  RemoveKyberPreKey : Z -> ST W unit
}.

Class SessionStore (W : Type) : Type := {
  LoadSession : Address -> ST W (option bytes);
  StoreSession : Address -> option bytes -> ST W unit;
  ContainsSession : Address -> W -> bool;
  DeleteSession : Address -> ST W unit;
  DeleteAllSessions : string -> ST W unit;
  EnforceSessionLimit : Address -> ST W unit
}.

Class SenderKeyStore (W : Type) : Type := {
  LoadSenderKey : SenderKeyName -> ST W (option bytes);
  StoreSenderKey : SenderKeyName -> option bytes -> ST W unit;
  ContainsSenderKey : SenderKeyName -> W -> bool;
  DeleteSenderKey : SenderKeyName -> ST W unit;
  DeleteAllSenderKeys : string -> ST W unit
}.

Class SesameStore (W : Type) : Type := {
  LoadSesameState : ST W (option bytes);
  StoreSesameState : option bytes -> ST W unit;
  DeleteSesameState : ST W unit
}.

(** ** What a working store promises *)

Class SenderKeyStoreLaws {W} (S : SenderKeyStore W) : Type := {
  sk_view : W -> SenderKeyName -> option bytes;
  sk_load n w : LoadSenderKey n w = (w, Ok (sk_view w n));
  sk_store n d w : exists w', StoreSenderKey n (Some d) w = (w', Ok tt) /\
    forall n', sk_view w' n' = if decide (n' = n) then Some d else sk_view w n'
}.

Class SessionStoreLaws {W} (S : SessionStore W) : Type := {
  sess_view : W -> Address -> option bytes;
  sess_load a w : LoadSession a w = (w, Ok (sess_view w a));
  sess_contains a w : ContainsSession a w = bool_decide (is_Some (sess_view w a));
  sess_store a d w : exists w', StoreSession a (Some d) w = (w', Ok tt) /\
    forall a', sess_view w' a' = if decide (a' = a) then Some d else sess_view w a';
  (** The limit is enforced by removing sessions other than the given one. *)
  sess_enforce a w : exists w', EnforceSessionLimit a w = (w', Ok tt) /\ sess_view w' a = sess_view w a /\
    forall a', sess_view w' a' = sess_view w a' \/ sess_view w' a' = None
}.

(** The operations of the other stores do not touch the sessions. *)
Class ProtocolStoreLaws {W} (I : IdentityKeyStore W) (P : PreKeyStore W) (SP : SignedPreKeyStore W) (K : KyberPreKeyStore W)
    {S : SessionStore W} (L : SessionStoreLaws S) : Prop := {
  frame_identity w a : sess_view (fst (GetIdentityKeyPair w)) a = sess_view w a;
  frame_registration w a : sess_view (fst (GetLocalRegistrationID w)) a = sess_view w a;
  frame_save addr k w a : sess_view (fst (SaveIdentity addr k w)) a = sess_view w a;
  frame_prekey id w a : sess_view (fst (LoadPreKey id w)) a = sess_view w a;
  frame_remove id w a : sess_view (fst (RemovePreKey id w)) a = sess_view w a;
  frame_signed id w a : sess_view (fst (LoadSignedPreKey id w)) a = sess_view w a;
  frame_kyber id w a : sess_view (fst (LoadKyberPreKey id w)) a = sess_view w a
}.

Class SesameStoreLaws {W} (S : SesameStore W) : Type := {
  ses_view : W -> option bytes;
  ses_load w : LoadSesameState w = (w, Ok (ses_view w));
  ses_store d w : exists w', StoreSesameState (Some d) w = (w', Ok tt) /\ ses_view w' = Some d
}.

(** What the roster's manager relies on: the identities have a view of their own,
    and each operation changes only what it names. *)
Class RosterStoreLaws {W} {I : IdentityKeyStore W} {S : SessionStore W} {R : SesameStore W}
    (L : SessionStoreLaws S) (LR : SesameStoreLaws R) : Type := {
  id_view : W -> Address -> option IdentityKey;
  id_load a w : GetIdentity a w = (w, Ok (id_view w a));
  id_forget a w : exists w', SaveIdentity a None w = (w', Ok tt) /\ ses_view w' = ses_view w /\
    (forall a', sess_view w' a' = sess_view w a') /\ forall a', id_view w' a' = if decide (a' = a) then None else id_view w a';
  sess_delete a w : exists w', DeleteSession a w = (w', Ok tt) /\ ses_view w' = ses_view w /\
    (forall a', id_view w' a' = id_view w a') /\ forall a', sess_view w' a' = if decide (a' = a) then None else sess_view w a';
  sess_delete_all n w : exists w', DeleteAllSessions n w = (w', Ok tt) /\ ses_view w' = ses_view w /\
    (forall a', id_view w' a' = id_view w a') /\
    forall a', sess_view w' a' = if decide (addr_Name a' = n) then None else sess_view w a';
  frame_ses d w a : sess_view (fst (StoreSesameState d w)) a = sess_view w a /\ id_view (fst (StoreSesameState d w)) a = id_view w a
}.

(** What publishing a bundle relies on: the keys have views of their own, and
    storing a key changes only its entry. *)
Class KeyStoreLaws {W} (I : IdentityKeyStore W) (P : PreKeyStore W) (SP : SignedPreKeyStore W) (K : KyberPreKeyStore W) : Type := {
  ident_view : W -> option IdentityKeyPair;
  reg_view : W -> Z;
  pre_view : W -> Z -> option PreKey;
  signed_view : W -> Z -> option SignedPreKey;
  kyber_view : W -> Z -> option KyberPreKey;
  ident_load w : GetIdentityKeyPair w = (w, Ok (ident_view w));
  reg_load w : GetLocalRegistrationID w = (w, Ok (reg_view w));
  pre_load id w : LoadPreKey id w = (w, Ok (pre_view w id));
  signed_load id w : LoadSignedPreKey id w = (w, Ok (signed_view w id));
  kyber_load id w : LoadKyberPreKey id w = (w, Ok (kyber_view w id));
  pre_store id k w : exists w', StorePreKey id (Some k) w = (w', Ok tt) /\ ident_view w' = ident_view w /\ reg_view w' = reg_view w /\
    signed_view w' = signed_view w /\ kyber_view w' = kyber_view w /\
    forall i, pre_view w' i = if decide (i = id) then Some k else pre_view w i;
  signed_store id k w : exists w', StoreSignedPreKey id (Some k) w = (w', Ok tt) /\ ident_view w' = ident_view w /\
    reg_view w' = reg_view w /\ pre_view w' = pre_view w /\ kyber_view w' = kyber_view w /\
    forall i, signed_view w' i = if decide (i = id) then Some k else signed_view w i;
  kyber_store id k w : exists w', StoreKyberPreKey id (Some k) w = (w', Ok tt) /\ ident_view w' = ident_view w /\
    reg_view w' = reg_view w /\ pre_view w' = pre_view w /\ signed_view w' = signed_view w /\
    forall i, kyber_view w' i = if decide (i = id) then Some k else kyber_view w i;
  pre_remove id w : exists w', RemovePreKey id w = (w', Ok tt) /\ ident_view w' = ident_view w /\ signed_view w' = signed_view w /\
    kyber_view w' = kyber_view w /\ forall i, pre_view w' i = if decide (i = id) then None else pre_view w i
}.
