(* ===== verification/MemoryStore.v ===== *)
(** * The in-memory store: store/memory/memory_store.go

    Every method holds the store's lock for its whole body, so a run of
    concurrent callers is a sequence of these operations. A map value that may
    be a nil pointer is an [option]; the maps whose entries are written only by
    methods that refuse nil hold the value itself. The order in which Go ranges
    over a map is not specified: it is a parameter, a function that lists the
    keys of the map in some order, another one at every range statement. *)

From Stdlib Require Import ZArith Lia.
From Stdlib Require Import Strings.Byte.
From stdpp Require Import base gmap strings list list_numbers vector.
From S2P Require Import Prelude Crypto Keys Store.
Import Crypto Keys.

Module MemoryStore.

Record Store : Type := mkStore {
  identityKeyPair : option IdentityKeyPair;
  localRegistrationID : Z;
  signedPreKeyMaxAge : Z;
  maxSessionsPerName : Z;
  identities : gmap Address IdentityKey;
  preKeys : gmap Z (option PreKey);
  signedKeys : gmap Z (option SignedPreKey);
  kyberKeys : gmap Z (option KyberPreKey);
  sessions : gmap Address bytes;
  senderKeys : gmap SenderKeyName bytes;
  sesame : option bytes
}.

(** Durations and instants are nanoseconds. *)
Definition DefaultSignedPreKeyMaxAge : Z := 30 * 24 * 3600 * 10 ^ 9.
Definition DefaultMaxSessionsPerName : Z := 100.

Definition NewStore (identity : option IdentityKeyPair) (registrationID : Z) : Store :=
  mkStore identity registrationID DefaultSignedPreKeyMaxAge DefaultMaxSessionsPerName ∅ ∅ ∅ ∅ ∅ ∅ None.

Definition SetSignedPreKeyMaxAge (maxAge : Z) (m : Store) : Store :=
  mkStore (identityKeyPair m) (localRegistrationID m) maxAge (maxSessionsPerName m) (identities m) (preKeys m) (signedKeys m)
    (kyberKeys m) (sessions m) (senderKeys m) (sesame m).

Definition SetMaxSessionsPerName (maxSessions : Z) (m : Store) : Store :=
  mkStore (identityKeyPair m) (localRegistrationID m) (signedPreKeyMaxAge m) maxSessions (identities m) (preKeys m)
    (signedKeys m) (kyberKeys m) (sessions m) (senderKeys m) (sesame m).

Definition set_identities (i : gmap Address IdentityKey) (m : Store) : Store :=
  mkStore (identityKeyPair m) (localRegistrationID m) (signedPreKeyMaxAge m) (maxSessionsPerName m) i (preKeys m)
    (signedKeys m) (kyberKeys m) (sessions m) (senderKeys m) (sesame m).
Definition set_preKeys (k : gmap Z (option PreKey)) (m : Store) : Store :=
  mkStore (identityKeyPair m) (localRegistrationID m) (signedPreKeyMaxAge m) (maxSessionsPerName m) (identities m) k
    (signedKeys m) (kyberKeys m) (sessions m) (senderKeys m) (sesame m).
Definition set_signedKeys (k : gmap Z (option SignedPreKey)) (m : Store) : Store :=
  mkStore (identityKeyPair m) (localRegistrationID m) (signedPreKeyMaxAge m) (maxSessionsPerName m) (identities m) (preKeys m)
    k (kyberKeys m) (sessions m) (senderKeys m) (sesame m).
Definition set_kyberKeys (k : gmap Z (option KyberPreKey)) (m : Store) : Store :=
  mkStore (identityKeyPair m) (localRegistrationID m) (signedPreKeyMaxAge m) (maxSessionsPerName m) (identities m) (preKeys m)
    (signedKeys m) k (sessions m) (senderKeys m) (sesame m).
Definition set_sessions (s : gmap Address bytes) (m : Store) : Store :=
  mkStore (identityKeyPair m) (localRegistrationID m) (signedPreKeyMaxAge m) (maxSessionsPerName m) (identities m) (preKeys m)
    (signedKeys m) (kyberKeys m) s (senderKeys m) (sesame m).
Definition set_senderKeys (s : gmap SenderKeyName bytes) (m : Store) : Store :=
  mkStore (identityKeyPair m) (localRegistrationID m) (signedPreKeyMaxAge m) (maxSessionsPerName m) (identities m) (preKeys m)
    (signedKeys m) (kyberKeys m) (sessions m) s (sesame m).
Definition set_sesame (s : option bytes) (m : Store) : Store :=
  mkStore (identityKeyPair m) (localRegistrationID m) (signedPreKeyMaxAge m) (maxSessionsPerName m) (identities m) (preKeys m)
    (signedKeys m) (kyberKeys m) (sessions m) (senderKeys m) s.

(** *** Identities *)

Definition GetIdentityKeyPair : ST Store (option IdentityKeyPair) := fun m => (m, Ok (identityKeyPair m)).
Definition GetLocalRegistrationID : ST Store Z := fun m => (m, Ok (localRegistrationID m)).

Definition isZeroKey32 (key : key32) : bool := forallb (fun b => b2z b =? 0) (vec_to_list key).

Definition SaveIdentity (addr : Address) (identityKey : option IdentityKey) : ST Store unit := fun m =>
  match identityKey with
  | None => (set_identities (delete addr (identities m)) m, Ok tt)
  | Some clone =>
      let clone :=
        if isZeroKey32 (ik_SigningPublic clone) then
          match identities m !! addr with
          | Some existing =>
              if negb (isZeroKey32 (ik_SigningPublic existing))
              then mkIdentityKey (ik_PublicKey clone) (ik_SigningPublic existing) else clone
          | None => clone
          end
        else clone in
      (set_identities (<[addr := clone]> (identities m)) m, Ok tt)
  end.

Definition IsTrustedIdentity (addr : Address) (identityKey : option IdentityKey) (_ : Direction) (m : Store) : bool :=
  match identities m !! addr, identityKey with
  | None, _ => true
  | Some _, None => false
  | Some existing, Some identityKey =>
      let dhOK := bool_decide (ik_PublicKey existing = ik_PublicKey identityKey) in
      if isZeroKey32 (ik_SigningPublic existing) || isZeroKey32 (ik_SigningPublic identityKey) then dhOK
      else bool_decide (ik_SigningPublic existing = ik_SigningPublic identityKey) && dhOK
  end.

Definition GetIdentity (addr : Address) : ST Store (option IdentityKey) := fun m => (m, Ok (identities m !! addr)).

(** *** Pre-keys *)

Definition LoadPreKey (id : Z) : ST Store (option PreKey) := fun m => (m, Ok (mjoin (preKeys m !! id))).
Definition StorePreKey (id : Z) (preKey : option PreKey) : ST Store unit := fun m =>
  (set_preKeys (<[id := preKey]> (preKeys m)) m, Ok tt).
Definition ContainsPreKey (id : Z) (m : Store) : bool := bool_decide (is_Some (preKeys m !! id)).
Definition RemovePreKey (id : Z) : ST Store unit := fun m => (set_preKeys (delete id (preKeys m)) m, Ok tt).

Definition LoadSignedPreKey (id : Z) : ST Store (option SignedPreKey) := fun m => (m, Ok (mjoin (signedKeys m !! id))).
Definition StoreSignedPreKey (id : Z) (signedPreKey : option SignedPreKey) : ST Store unit := fun m =>
  (set_signedKeys (<[id := signedPreKey]> (signedKeys m)) m, Ok tt).
Definition ContainsSignedPreKey (id : Z) (m : Store) : bool := bool_decide (is_Some (signedKeys m !! id)).
Definition RemoveSignedPreKey (id : Z) : ST Store unit := fun m => (set_signedKeys (delete id (signedKeys m)) m, Ok tt).

Definition SignedPreKeyExpired (signedPreKey : option SignedPreKey) (now : Z) (m : Store) : bool :=
  match signedPreKey with
  | None => true
  | Some spk =>
      let maxAge := signedPreKeyMaxAge m in
      if maxAge <=? 0 then false
      else if spk_Timestamp spk =? 0 then true
      else
        let age := time_Sub now (spk_Timestamp spk) in
        if age <? 0 then false else age >? maxAge
  end.

Definition LoadKyberPreKey (id : Z) : ST Store (option KyberPreKey) := fun m => (m, Ok (mjoin (kyberKeys m !! id))).
Definition StoreKyberPreKey (id : Z) (kyberPreKey : option KyberPreKey) : ST Store unit := fun m =>
  (set_kyberKeys (<[id := kyberPreKey]> (kyberKeys m)) m, Ok tt).
Definition ContainsKyberPreKey (id : Z) (m : Store) : bool := bool_decide (is_Some (kyberKeys m !! id)).
Definition RemoveKyberPreKey (id : Z) : ST Store unit := fun m => (set_kyberKeys (delete id (kyberKeys m)) m, Ok tt).

(** *** Sessions *)

Definition LoadSession (addr : Address) : ST Store (option bytes) := fun m => (m, Ok (sessions m !! addr)).
Definition StoreSession (addr : Address) (record : option bytes) : ST Store unit := fun m =>
  match record with
  | None => (set_sessions (delete addr (sessions m)) m, Ok tt)
  | Some data => (set_sessions (<[addr := data]> (sessions m)) m, Ok tt)
  end.
Definition ContainsSession (addr : Address) (m : Store) : bool := bool_decide (is_Some (sessions m !! addr)).
Definition DeleteSession (addr : Address) : ST Store unit := fun m => (set_sessions (delete addr (sessions m)) m, Ok tt).

Section ranges.
(** The order of the [n]-th [range] over a map. *)
Variable range_sessions : nat -> gmap Address bytes -> list Address.
Variable range_senderKeys : gmap SenderKeyName bytes -> list SenderKeyName.

Definition DeleteAllSessions (name : string) : ST Store unit := fun m =>
  (set_sessions (foldl (fun s addr => if bool_decide (addr_Name addr = name) then delete addr s else s)
     (sessions m) (range_sessions 0 (sessions m))) m, Ok tt).

(** [count], the sessions of a name. *)
Definition count_sessions (name : string) (l : list Address) : Z :=
  foldl (fun count addr => if bool_decide (addr_Name addr = name) then count + 1 else count) 0 l.

(** The inner loop: the first session of the name in the order of the range,
    the one of [address] excepted. *)
Definition victim (address : Address) (l : list Address) : option Address :=
  find (fun addr => negb (negb (bool_decide (addr_Name addr = addr_Name address)) || bool_decide (addr = address))) l.

(** [for count > m.maxSessionsPerName]: every iteration removes a session, so
    their number is enough fuel. *)
Fixpoint enforce_loop (fuel : nat) (address : Address) (max count : Z) (s : gmap Address bytes) : gmap Address bytes :=
  match fuel with
  | O => s
  | S fuel =>
      if max <? count then
        match victim address (range_sessions (S fuel) s) with
        | None => s
        | Some addr => enforce_loop fuel address max (count - 1) (delete addr s)
        end
      else s
  end.

Definition EnforceSessionLimit (address : Address) : ST Store unit := fun m =>
  if maxSessionsPerName m <=? 0 then (m, Ok tt)
  else if bool_decide (addr_Name address = EmptyString) then (m, Ok tt)
  else
    let count := count_sessions (addr_Name address) (range_sessions 0 (sessions m)) in
    (set_sessions (enforce_loop (size (sessions m)) address (maxSessionsPerName m) count (sessions m)) m, Ok tt).

(** *** Sender keys and the Sesame state *)

Definition LoadSenderKey (name : SenderKeyName) : ST Store (option bytes) := fun m => (m, Ok (senderKeys m !! name)).
Definition StoreSenderKey (name : SenderKeyName) (record : option bytes) : ST Store unit := fun m =>
  match record with
  | None => (set_senderKeys (delete name (senderKeys m)) m, Ok tt)
  | Some data => (set_senderKeys (<[name := data]> (senderKeys m)) m, Ok tt)
  end.
Definition ContainsSenderKey (name : SenderKeyName) (m : Store) : bool := bool_decide (is_Some (senderKeys m !! name)).
Definition DeleteSenderKey (name : SenderKeyName) : ST Store unit := fun m =>
  (set_senderKeys (delete name (senderKeys m)) m, Ok tt).
Definition DeleteAllSenderKeys (group : string) : ST Store unit := fun m =>
  (set_senderKeys (foldl (fun s name => if bool_decide (skn_Group name = group) then delete name s else s)
     (senderKeys m) (range_senderKeys (senderKeys m))) m, Ok tt).

Definition LoadSesameState : ST Store (option bytes) := fun m => (m, Ok (sesame m)).
Definition StoreSesameState (record : option bytes) : ST Store unit := fun m => (set_sesame record m, Ok tt).
Definition DeleteSesameState : ST Store unit := fun m => (set_sesame None m, Ok tt).

(** ** The interfaces *)

#[export] Instance identityKeyStore : IdentityKeyStore Store := {|
  Store.GetIdentityKeyPair := GetIdentityKeyPair; Store.GetLocalRegistrationID := GetLocalRegistrationID;
  Store.SaveIdentity := SaveIdentity; Store.IsTrustedIdentity := IsTrustedIdentity; Store.GetIdentity := GetIdentity |}.

#[export] Instance preKeyStore : PreKeyStore Store := {|
  Store.LoadPreKey := LoadPreKey; Store.StorePreKey := StorePreKey;
  Store.ContainsPreKey := ContainsPreKey; Store.RemovePreKey := RemovePreKey |}.

#[export] Instance signedPreKeyStore : SignedPreKeyStore Store := {|
  Store.LoadSignedPreKey := LoadSignedPreKey; Store.StoreSignedPreKey := StoreSignedPreKey;
  Store.ContainsSignedPreKey := ContainsSignedPreKey; Store.RemoveSignedPreKey := RemoveSignedPreKey;
  Store.SignedPreKeyExpired := SignedPreKeyExpired |}.

#[export] Instance kyberPreKeyStore : KyberPreKeyStore Store := {|
  Store.LoadKyberPreKey := LoadKyberPreKey; Store.StoreKyberPreKey := StoreKyberPreKey;
  Store.ContainsKyberPreKey := ContainsKyberPreKey; Store.RemoveKyberPreKey := RemoveKyberPreKey |}.

#[export] Instance sessionStore : SessionStore Store := {|
  Store.LoadSession := LoadSession; Store.StoreSession := StoreSession; Store.ContainsSession := ContainsSession;
  Store.DeleteSession := DeleteSession; Store.DeleteAllSessions := DeleteAllSessions;
  Store.EnforceSessionLimit := EnforceSessionLimit |}.

#[export] Instance senderKeyStore : SenderKeyStore Store := {|
  Store.LoadSenderKey := LoadSenderKey; Store.StoreSenderKey := StoreSenderKey; Store.ContainsSenderKey := ContainsSenderKey;
  Store.DeleteSenderKey := DeleteSenderKey; Store.DeleteAllSenderKeys := DeleteAllSenderKeys |}.

#[export] Instance sesameStore : SesameStore Store := {|
  Store.LoadSesameState := LoadSesameState; Store.StoreSesameState := StoreSesameState;
  Store.DeleteSesameState := DeleteSesameState |}.

#[export] Instance senderKeyStore_laws : SenderKeyStoreLaws senderKeyStore.
Proof.
  refine {| sk_view m n := senderKeys m !! n |}; [done|].
  intros n d m. eexists. split; [done|]. intros n'. cbn. rewrite lookup_insert. by repeat case_decide.
Defined.

(** The session of [address] is never the victim. *)
Lemma enforce_loop_keeps fuel address max count s :
  enforce_loop fuel address max count s !! address = s !! address /\
  forall a, enforce_loop fuel address max count s !! a = s !! a \/ enforce_loop fuel address max count s !! a = None.
Proof.
  revert count s. induction fuel as [|fuel IH]; intros count s; cbn [enforce_loop]; [auto|].
  destruct (max <? count); [|auto]. destruct (victim address _) as [v|] eqn:Ev; [|auto].
  assert (v <> address) as Hv.
  { apply find_some in Ev as [_ Ev]. intros ->. by rewrite (bool_decide_true (address = address)), orb_true_r in Ev. }
  destruct (IH (count - 1) (delete v s)) as [H1 H2]. split; [by rewrite H1, lookup_delete_ne|]. intros a.
  destruct (H2 a) as [-> |?]; [|by right]. rewrite lookup_delete. case_decide; auto.
Qed.

#[export] Instance sessionStore_laws : SessionStoreLaws sessionStore.
Proof.
  refine {| sess_view m a := sessions m !! a |}; [done|done| |].
  - intros a d m. eexists. split; [done|]. intros a'. cbn. rewrite lookup_insert. by repeat case_decide.
  - intros a m. cbn. unfold EnforceSessionLimit. destruct (_ <=? 0); [by eauto|]. case_bool_decide; [by eauto|].
    eexists. split; [done|]. cbn [sessions set_sessions]. apply enforce_loop_keeps.
Defined.

#[export] Instance protocolStore_laws :
  ProtocolStoreLaws identityKeyStore preKeyStore signedPreKeyStore kyberPreKeyStore sessionStore_laws.
Proof.
  split; try done. intros addr k m a. cbn. unfold SaveIdentity. by repeat case_match.
Qed.

#[export] Instance keyStore_laws : KeyStoreLaws identityKeyStore preKeyStore signedPreKeyStore kyberPreKeyStore.
Proof.
  refine {| ident_view := identityKeyPair; reg_view := localRegistrationID; pre_view m i := mjoin (preKeys m !! i);
            signed_view m i := mjoin (signedKeys m !! i); kyber_view m i := mjoin (kyberKeys m !! i) |}; try done.
  all: intros; eexists; split_and!; [done..|]; intros i; cbn; rewrite ?lookup_insert, ?lookup_delete; by repeat case_decide.
Defined.

#[export] Instance sesameStore_laws : SesameStoreLaws sesameStore.
Proof. refine {| ses_view m := sesame m |}; [done|]. intros d m. by eexists. Defined.
End ranges.
End MemoryStore.
Import MemoryStore.

Section lemmas.

Lemma foldl_delete_lookup `{Countable K} {A} (p : K -> bool) (l : list K) (m : gmap K A) k :
  foldl (fun s x => if p x then delete x s else s) m l !! k = if p k && bool_decide (k ∈ l) then None else m !! k.
Proof.
  revert m. induction l as [|x l IH]; intros m; cbn [foldl].
  { rewrite bool_decide_false by apply not_elem_of_nil. by rewrite andb_false_r. }
  rewrite IH. destruct (p k) eqn:Ek; cbn [andb].
  - destruct (decide (k = x)) as [->|Hne].
    + rewrite Ek, lookup_delete_eq, (bool_decide_true (x ∈ x :: l)) by (by left). by destruct (bool_decide _).
    + rewrite (bool_decide_ext (k ∈ x :: l) (k ∈ l)) by set_solver. destruct (p x); [by rewrite lookup_delete_ne|done].
  - destruct (p x) eqn:Ex; [|done]. rewrite lookup_delete_ne; [done|]. intros ->. congruence.
Qed.

Lemma isZeroKey32_spec k : isZeroKey32 k = true <-> k = zero32.
Proof.
  unfold isZeroKey32. split.
  - intros Hf. apply (inj vec_to_list), list_eq_same_length with 32%nat; rewrite ?vec_list_length; [done..|].
    intros i x y _ Hx Hy. rewrite forallb_forall in Hf.
    assert (b2z x = 0) as H0 by (apply Z.eqb_eq, Hf, list_elem_of_In; by eapply list_elem_of_lookup_2).
    assert (forallb (fun b => b2z b =? 0) (vec_to_list zero32) = true) as Hz by reflexivity. rewrite forallb_forall in Hz.
    assert (b2z y = 0) as H1 by (apply Z.eqb_eq, Hz, list_elem_of_In; by eapply list_elem_of_lookup_2).
    apply (inj b2z). congruence.
  - intros ->. reflexivity.
Qed.

Context (rs : nat -> gmap Address bytes -> list Address) (rk : gmap SenderKeyName bytes -> list SenderKeyName).
Context (Hrs : forall n s, rs n s ≡ₚ (map_to_list s).*1).

Lemma elem_of_range n s a : a ∈ rs n s <-> is_Some (s !! a).
Proof.
  rewrite Hrs, list_elem_of_fmap. split.
  - intros ([a' d] & -> & Hin%elem_of_map_to_list). by exists d.
  - intros [d Hd]. exists (a, d). split; [done|]. by apply elem_of_map_to_list.
Qed.

(** The sessions of a name. *)
Definition of_name (name : string) (s : gmap Address bytes) : gmap Address bytes :=
  filter (fun e => addr_Name e.1 = name) s.

Lemma count_sessions_size n name s : count_sessions name (rs n s) = Z.of_nat (size (of_name name s)).
Proof.
  unfold count_sessions.
  assert (forall l c, foldl (fun count addr => if bool_decide (addr_Name addr = name) then count + 1 else count) c l =
    c + Z.of_nat (length (filter (fun a => addr_Name a = name) l))) as Hf.
  { induction l as [|a l IH]; intros c; cbn [foldl]; [cbn; lia|]. rewrite IH, filter_cons.
    case_bool_decide; [rewrite decide_True by done; cbn [length]; lia|by rewrite decide_False]. }
  rewrite Hf, Z.add_0_l. f_equal. rewrite (Hrs n s). unfold of_name. rewrite map_filter_alt, <- length_map_to_list.
  rewrite map_to_list_to_map.
  2:{ eapply sublist_NoDup; [apply (NoDup_fst_map_to_list s)|]. apply fmap_sublist, sublist_filter. }
  clear Hf. generalize (map_to_list s). induction l as [|[a d] l IH]; [done|].
  cbn [fmap list_fmap fst]. rewrite !filter_cons. cbn [fst]. case_decide; cbn [length]; by rewrite IH.
Qed.

Lemma victim_some address n s a : victim address (rs n s) = Some a ->
  is_Some (s !! a) /\ addr_Name a = addr_Name address /\ a <> address.
Proof.
  intros [Hin Hp]%find_some. apply list_elem_of_In, elem_of_range in Hin.
  apply negb_true_iff, orb_false_iff in Hp as [Hn Ha]. apply negb_false_iff, bool_decide_eq_true in Hn.
  by apply bool_decide_eq_false in Ha.
Qed.

Lemma victim_none address n s : victim address (rs n s) = None ->
  forall a, addr_Name a = addr_Name address -> is_Some (s !! a) -> a = address.
Proof.
  intros Hv a Hn Ha. destruct (decide (a = address)) as [|Hne]; [done|]. exfalso.
  apply (elem_of_range n), list_elem_of_In in Ha. apply (find_none _ _ Hv) in Ha.
  rewrite bool_decide_true, bool_decide_false in Ha by done. done.
Qed.

Lemma of_name_delete name s a : addr_Name a = name -> is_Some (s !! a) ->
  size (of_name name s) = S (size (of_name name (delete a s))).
Proof.
  intros Hn [d Hd]. unfold of_name. rewrite map_filter_delete, map_size_delete.
  rewrite (proj2 (map_lookup_filter_Some _ _ _ _)) by done.
  assert (size (filter (fun e => addr_Name e.1 = name) s) <> 0%nat); [|lia].
  intros H0. apply map_size_empty_inv in H0. assert (filter (fun e => addr_Name e.1 = name) s !! a = Some d) as E
    by (by apply map_lookup_filter_Some). by rewrite H0, lookup_empty in E.
Qed.

(** What is left: a sub-map with the session of [address] and those of the
    other names, of the wanted size. *)
Lemma enforce_loop_spec fuel address max s :
  1 <= max -> (size (of_name (addr_Name address) s) <= fuel)%nat ->
  let s' := enforce_loop rs fuel address max (Z.of_nat (size (of_name (addr_Name address) s))) s in
  s' ⊆ s /\ s' !! address = s !! address /\ (forall a, addr_Name a <> addr_Name address -> s' !! a = s !! a) /\
  Z.of_nat (size (of_name (addr_Name address) s')) = Z.min max (Z.of_nat (size (of_name (addr_Name address) s))).
Proof.
  intros Hmax. revert s. induction fuel as [|fuel IH]; intros s Hf; cbn [enforce_loop].
  { split_and!; [done..|]. lia. }
  destruct (Z.ltb_spec max (Z.of_nat (size (of_name (addr_Name address) s)))) as [Hlt|Hge].
  2:{ split_and!; [done..|]. lia. }
  destruct (victim address (rs (S fuel) s)) as [a|] eqn:Ev.
  - apply victim_some in Ev as (Ha & Hn & Hne). pose proof (of_name_delete _ _ _ Hn Ha) as Hsz.
    replace (Z.of_nat (size (of_name (addr_Name address) s)) - 1)
      with (Z.of_nat (size (of_name (addr_Name address) (delete a s)))) by lia.
    destruct (IH (delete a s)) as (Hsub & Hkeep & Hother & Hsize); [lia|]. split_and!.
    + etrans; [exact Hsub|apply delete_subseteq].
    + rewrite Hkeep. by apply lookup_delete_ne.
    + intros b Hb. rewrite Hother by done. apply lookup_delete_ne. congruence.
    + rewrite Hsize. lia.
  - exfalso. pose proof (victim_none _ _ _ Ev) as Hnone.
    assert (of_name (addr_Name address) s ⊆ (match s !! address with Some d => {[address := d]} | None => ∅ end)) as Hsub.
    { apply map_subseteq_spec. intros a d [Hd Hn]%map_lookup_filter_Some. cbn in Hn.
      assert (a = address) as -> by (by eapply Hnone). rewrite Hd. apply lookup_singleton_eq. }
    apply map_subseteq_size in Hsub. destruct (s !! address); [rewrite map_size_singleton in Hsub|rewrite map_size_empty in Hsub]; lia.
Qed.

#[export] Instance rosterStore_laws : RosterStoreLaws (I:=identityKeyStore) (sessionStore_laws rs) sesameStore_laws.
Proof using Hrs.
  refine {| id_view m a := identities m !! a |}.
  - done.
  - intros a m. eexists. split_and!; [done|done|done|]. intros a'. cbn. rewrite lookup_delete. by repeat case_decide.
  - intros a m. eexists. split_and!; [done|done|done|]. intros a'. cbn. rewrite lookup_delete. by repeat case_decide.
  - intros n m. eexists. split_and!; [done|done|done|]. intros a'. cbn [sess_view sessionStore_laws sessions set_sessions fst].
    rewrite (foldl_delete_lookup (fun addr => bool_decide (addr_Name addr = n))).
    case_bool_decide; [rewrite decide_True by done|by rewrite decide_False]. cbn [andb].
    case_bool_decide as Hin; [done|]. rewrite elem_of_range in Hin. by apply eq_None_not_Some.
  - done.
Defined.
End lemmas.

(** ** Properties *)

(** C30: the session limit. Whatever orders Go picks for its ranges over the map,
    [EnforceSessionLimit] with a positive limit and a non-empty name leaves of
    that name exactly the smaller of the limit and the number of its sessions;
    it keeps the session of the given address, leaves every other name alone
    and adds nothing. [DeleteAllSessions] removes the sessions of the name and
    no others. *)
Theorem session_limit rs m address :
  (forall n s, rs n s ≡ₚ (map_to_list s).*1) -> 0 < maxSessionsPerName m -> addr_Name address <> EmptyString ->
  (exists m', EnforceSessionLimit rs address m = (m', Ok tt) /\
    Z.of_nat (size (of_name (addr_Name address) (sessions m'))) =
      Z.min (maxSessionsPerName m) (Z.of_nat (size (of_name (addr_Name address) (sessions m)))) /\
    sessions m' !! address = sessions m !! address /\ sessions m' ⊆ sessions m /\
    (forall a, addr_Name a <> addr_Name address -> sessions m' !! a = sessions m !! a) /\
    m' = set_sessions (sessions m') m) /\
  exists m', DeleteAllSessions rs (addr_Name address) m = (m', Ok tt) /\
    forall a, sessions m' !! a = if decide (addr_Name a = addr_Name address) then None else sessions m !! a.
Proof.
  intros Hrs Hmax Hname. split.
  - eexists. unfold EnforceSessionLimit. rewrite (proj2 (Z.leb_gt _ _)) by lia. rewrite bool_decide_false by done.
    split; [reflexivity|]. cbn [sessions set_sessions]. rewrite count_sessions_size by done.
    assert (size (of_name (addr_Name address) (sessions m)) <= size (sessions m))%nat as Hfuel
      by (apply map_subseteq_size, map_filter_subseteq).
    pose proof (enforce_loop_spec rs Hrs (size (sessions m)) address (maxSessionsPerName m) (sessions m)) as Hl.
    destruct Hl as (Hsub & Hkeep & Hother & Hsize); [lia|done|]. by split_and!.
  - eexists. split; [reflexivity|]. intros a. cbn [sessions set_sessions]. rewrite foldl_delete_lookup.
    case_bool_decide as Hn; [rewrite decide_True by done|by rewrite decide_False]. cbn [andb].
    case_bool_decide as Hin; [done|]. rewrite (elem_of_range rs Hrs) in Hin. apply eq_None_not_Some. done.
Qed.

Definition demo_sessions : gmap Address bytes :=
  {[mkAddress "bob" 1 := [Byte.x01]; mkAddress "bob" 2 := [Byte.x02]; mkAddress "bob" 3 := [Byte.x03]; mkAddress "eve" 1 := []]}.

Lemma session_limit_witness :
  exists m', EnforceSessionLimit (fun _ s => (map_to_list s).*1) (mkAddress "bob" 2)
    (set_sessions demo_sessions (SetMaxSessionsPerName 2 (NewStore None 1))) = (m', Ok tt) /\
  Z.of_nat (size (of_name "bob" (sessions m'))) = Z.min 2 (Z.of_nat (size (of_name "bob" demo_sessions))).
Proof.
  destruct (session_limit (fun _ s => (map_to_list s).*1)
    (set_sessions demo_sessions (SetMaxSessionsPerName 2 (NewStore None 1))) (mkAddress "bob" 2)) as ((m' & E & Hs & _) & _);
    [reflexivity|reflexivity|discriminate|]. exists m'. exact (conj E Hs).
Defined.

(** C39: trust on first use. An address that was never saved trusts every
    identity. Once an identity was saved for it, that identity is trusted, an
    identity with another Curve25519 key never is, and the addresses other than
    it are judged as before. A signing key, once known, is not forgotten by
    saving an identity that came without one: it is attached to that identity
    whatever its Curve25519 key, and a full identity with another signing key is
    then refused. *)
Theorem identity_trust m addr k dir :
  (identities m !! addr = None -> forall k', IsTrustedIdentity addr k' dir m = true) /\
  exists m' stored, SaveIdentity addr (Some k) m = (m', Ok tt) /\ GetIdentity addr m' = (m', Ok (Some stored)) /\
    ik_PublicKey stored = ik_PublicKey k /\
    IsTrustedIdentity addr (Some k) dir m' = true /\
    (forall k', ik_PublicKey k' <> ik_PublicKey k -> IsTrustedIdentity addr (Some k') dir m' = false) /\
    (forall a k', a <> addr -> IsTrustedIdentity a k' dir m' = IsTrustedIdentity a k' dir m) /\
    (forall old, identities m !! addr = Some old -> ik_SigningPublic old <> zero32 -> ik_SigningPublic k = zero32 ->
      ik_SigningPublic stored = ik_SigningPublic old /\
      forall k', ik_SigningPublic k' <> zero32 -> ik_SigningPublic k' <> ik_SigningPublic old ->
        IsTrustedIdentity addr (Some k') dir m' = false).
Proof.
  assert (forall key, key <> zero32 -> isZeroKey32 key = false) as Hnz
    by (intros key Hne; apply not_true_is_false; by rewrite isZeroKey32_spec).
  split; [unfold IsTrustedIdentity; by intros ->|].
  do 2 eexists. split; [reflexivity|]. split; [unfold GetIdentity; cbn [identities set_identities]; by rewrite lookup_insert_eq|].
  match goal with |- ik_PublicKey ?s = _ /\ _ => set (stored := s) end.
  assert (ik_PublicKey stored = ik_PublicKey k) as Hpub
    by (subst stored; by repeat case_match).
  unfold IsTrustedIdentity. cbn [identities set_identities]. rewrite lookup_insert_eq. split_and!; [done|..].
  - rewrite Hpub, bool_decide_true by done. subst stored. destruct (isZeroKey32 (ik_SigningPublic k)) eqn:Ez.
    + by rewrite orb_true_r.
    + by rewrite Ez, bool_decide_true.
  - intros k' Hne. rewrite Hpub, (bool_decide_false (ik_PublicKey k = _)) by congruence. rewrite andb_false_r.
    by destruct (_ || _).
  - intros a k' Hne. by rewrite lookup_insert_ne.
  - intros old Hold Hs Hk. subst stored. rewrite Hold, (proj2 (isZeroKey32_spec (ik_SigningPublic k))), (Hnz (ik_SigningPublic old)) by done.
    cbn [negb ik_SigningPublic]. split; [done|]. intros k' H1 H2. rewrite (Hnz (ik_SigningPublic old)), (Hnz (ik_SigningPublic k')) by done.
    cbn [orb]. by rewrite bool_decide_false by congruence.
Qed.

Lemma identity_trust_witness :
  let k := mkIdentityKey (to_arr 32 [Byte.x01]) (to_arr 32 [Byte.x02]) in
  exists m', SaveIdentity (mkAddress "bob" 1) (Some k) (NewStore None 1) = (m', Ok tt) /\
    IsTrustedIdentity (mkAddress "bob" 1) (Some (mkIdentityKey zero32 zero32)) DirectionReceiving m' = false.
Proof.
  intros k. destruct (identity_trust (NewStore None 1) (mkAddress "bob" 1) k DirectionReceiving)
    as (_ & m' & stored & E & _ & _ & _ & Hother & _).
  exists m'. split; [exact E|]. apply Hother. discriminate.
Defined.
