(* ===== verification/SenderKeys.v ===== *)
(** * Sender keys: the senderkeys package

    Group messaging. A sender's chain of message keys is handed to the members
    in a distribution message ([Builder]); every group message is encrypted
    under the next key of the chain and signed ([Cipher]). The record that both
    keep per (group, sender) lives in a [SenderKeyStore] as bytes, so a
    reference to a state of the record that an operation mutates is a position
    in a list that is stored only when the operation succeeds. The states of a
    record are non-nil. The world of an operation is the store's and the random
    tape. Zeroing of dead buffers is not modelled. *)

From Stdlib Require Import ZArith Lia.
From Stdlib Require Import Strings.Byte.
From stdpp Require Import base strings list list_numbers vector.
From S2P Require Import Prelude Crypto Keys Protowire Store.
Import Crypto Keys.

Module SenderKeys.

(** *** ratchet.go *)

Record senderChainKey : Type := mkChainKey { ck_iteration : Z; ck_seed : key32 }.

Record senderMessageKey : Type := mkSenderMessageKey {
  smk_iteration : Z; smk_seed : key32; smk_iv : arr 16; smk_cipherKey : key32 }.

(** *** record.go *)

Definition DefaultMaxStates : Z := 5.
Definition maxMessageKeysPerState : Z := 2000.
Definition distributionIDSize : nat := 16.

Record messageKey : Type := mkMessageKey { mk_iteration : Z; mk_seed : key32 }.

Record state : Type := mkState {
  messageVersion : Z;
  distributionID : arr 16;
  keyID : Z;
  chainIteration : Z;
  chainSeed : key32;
  signingPublic : key32;
  signingPrivateSeed : key32;
  hasPrivate : bool;
  messageKeys : list messageKey
}.

Definition set_chain (iteration : Z) (seed : key32) (s : state) : state :=
  mkState (messageVersion s) (distributionID s) (keyID s) iteration seed (signingPublic s) (signingPrivateSeed s) (hasPrivate s)
    (messageKeys s).
Definition set_messageKeys (l : list messageKey) (s : state) : state :=
  mkState (messageVersion s) (distributionID s) (keyID s) (chainIteration s) (chainSeed s) (signingPublic s)
    (signingPrivateSeed s) (hasPrivate s) l.

Record Record_ : Type := mkRecord { states : list state; maxStates : Z }.

Definition NewRecord (max : Z) : Record_ := mkRecord [] (if max <=? 0 then DefaultMaxStates else max).

Definition isEmpty (r : Record_) : bool := len (states r) =? 0.

Definition current (r : Record_) : res state :=
  match states r with
  | [] => Err (ErrText "sender key record: missing state")
  | s :: _ => Ok s
  end.

(** [s.keyID == keyID && s.distributionID == distributionID] *)
Definition same_state (did : arr 16) (kid : Z) (s : state) : bool :=
  (keyID s =? kid) && bool_decide (distributionID s = did).

(** The position and the state that [Record.state] finds. *)
Fixpoint find_state (did : arr 16) (kid : Z) (l : list state) : option (nat * state) :=
  match l with
  | [] => None
  | s :: l =>
      if same_state did kid s then Some (0%nat, s)
      else match find_state did kid l with Some (i, s) => Some (S i, s) | None => None end
  end.

Definition Record_state (r : Record_) (did : arr 16) (kid : Z) : res (nat * state) :=
  match find_state did kid (states r) with
  | Some x => Ok x
  | None => Err (ErrText "sender key record: missing state")
  end.

Definition setState (r : Record_) (next : state) : Record_ :=
  let filtered := filter (fun s => same_state (distributionID next) (keyID next) s = false) (states r) in
  let all := next :: filtered in
  mkRecord (if len all >? maxStates r then take (Z.to_nat (maxStates r)) all else all) (maxStates r).

Definition addMessageKey (mk : messageKey) (s : state) : state :=
  let l := messageKeys s ++ [mk] in
  if len l >? maxMessageKeysPerState
  then set_messageKeys (drop (Z.to_nat (len l - maxMessageKeysPerState)) l) s
  else set_messageKeys l s.

(** The seed of the first entry of the iteration, and the other entries. *)
Fixpoint remove_key (iteration : Z) (l : list messageKey) : option (key32 * list messageKey) :=
  match l with
  | [] => None
  | mk :: l =>
      if negb (mk_iteration mk =? iteration) then
        match remove_key iteration l with Some (seed, l) => Some (seed, mk :: l) | None => None end
      else Some (mk_seed mk, l)
  end.

Definition removeMessageKey (iteration : Z) (s : state) : state * option key32 :=
  match remove_key iteration (messageKeys s) with
  | Some (seed, l) => (set_messageKeys l s, Some seed)
  | None => (s, None)
  end.

(** *** message.go: the data *)

Definition senderKeyMessageVersion : Z := 3.
Definition senderKeySignatureSize : Z := 64.

Record distributionMessage : Type := mkDistribution {
  dm_messageVersion : Z; dm_distributionID : arr 16; dm_keyID : Z; dm_iteration : Z; dm_chainKey : key32; dm_signingPublic : key32 }.

Record senderKeyMessage : Type := mkSenderKeyMessage {
  skm_messageVersion : Z; skm_distributionID : arr 16; skm_keyID : Z; skm_iteration : Z; skm_ciphertext : bytes;
  skm_signature : arr 64 }.

(** The variables of the two decoding loops; [Some] stands for the [got...] flag. *)
Record message_fields : Type := mkMessageFields {
  mf_distributionID : option (arr 16); mf_keyID : option Z; mf_iteration : option Z; mf_ciphertext : option bytes }.

Record distribution_fields : Type := mkDistributionFields {
  df_distributionID : option (arr 16); df_keyID : option Z; df_iteration : option Z; df_chainKey : option key32;
  df_signingPublic : option key32 }.

Section senderkeys.
Context `{Primitives} `{XEdDSA} `{Protowire}.

(** *** ratchet.go *)

Definition generateSenderKeyID : ST tape Z :=
  b ← RandomBytes 4;
  mret (Z.land (be_value b) 2147483647).

Definition generateSenderKeySeed : ST tape key32 := b ← RandomBytes 32; mret (to_arr 32 b).

Definition generateDistributionID : ST tape (arr 16) := b ← RandomBytes 16; mret (to_arr 16 b).

Definition generateSigningKey : ST tape (key32 * key32) :=
  kp ← GenerateKeyPair;
  mret (PublicKey kp, PrivateKey kp).

Definition derive (constant : byte) (k : senderChainKey) : key32 :=
  to_arr 32 (HMAC256 (vec_to_list (ck_seed k)) [constant]).

Definition newSenderMessageKey (iteration : Z) (seed : key32) : res senderMessageKey :=
  derivative ← HKDF (vec_to_list seed) [] (str "WhisperGroup") (16 + 32);
  iv ← slice derivative 0 16;
  cipherKey ← slice derivative 16 (len derivative);
  mret (mkSenderMessageKey iteration seed (to_arr 16 iv) (to_arr 32 cipherKey)).

Definition senderMessageKey_of (k : senderChainKey) : res senderMessageKey :=
  newSenderMessageKey (ck_iteration k) (derive Byte.x01 k).

Definition next (k : senderChainKey) : res senderChainKey :=
  _ ← check (ck_iteration k =? MaxUint32) ErrCounterOverflow;
  mret (mkChainKey (u32 (ck_iteration k + 1)) (derive Byte.x02 k)).

(** *** message.go *)

Definition senderKeyVersionByte (version : Z) : byte :=
  z2b (Z.lor (u8 (Z.shiftl (Z.land version 15) 4)) (Z.land senderKeyMessageVersion 15)).

Definition parseSenderKeyVersion (b : byte) : Z := Z.shiftr (b2z b) 4.

Definition encodeSenderKeyMessageBody (did : arr 16) (kid iteration : Z) (ciphertext : bytes) : bytes :=
  AppendTag 1 BytesType ++ AppendBytes (vec_to_list did) ++
  AppendTag 2 VarintType ++ AppendVarint kid ++
  AppendTag 3 VarintType ++ AppendVarint iteration ++
  AppendTag 4 BytesType ++ AppendBytes ciphertext.

Definition encodeSenderKeyDistributionBody (did : arr 16) (kid iteration : Z) (chainKey signingPub : key32) : bytes :=
  AppendTag 1 BytesType ++ AppendBytes (vec_to_list did) ++
  AppendTag 2 VarintType ++ AppendVarint kid ++
  AppendTag 3 VarintType ++ AppendVarint iteration ++
  AppendTag 4 BytesType ++ AppendBytes (vec_to_list chainKey) ++
  AppendTag 5 BytesType ++ AppendBytes (SerializeWirePublicKey signingPub).

(** [default:] a value is skipped as bytes or, whatever its type, as a varint. *)
Definition skip_unknown (typ : wire_type) (data : bytes) : res bytes :=
  match (if bool_decide (typ = BytesType) then snd <$> ConsumeBytes data else snd <$> ConsumeVarint data) with
  | None => Err ErrInvalidMessage
  | Some n => slice data n (len data)
  end.

(** A byte string that must fill an array. *)
Definition take_arr (n : nat) (typ : wire_type) (data : bytes) : res (arr n * bytes) :=
  '(val, data) ← take_bytes typ data;
  _ ← check (negb (len val =? Z.of_nat n)) ErrInvalidMessage;
  mret (to_arr n val, data).

Definition message_field (num : Z) (typ : wire_type) (data : bytes) (f : message_fields) : res (message_fields * bytes) :=
  let '(mkMessageFields did kid it ct) := f in
  if num =? 1 then
    '(val, data) ← take_arr 16 typ data;
    mret (mkMessageFields (Some val) kid it ct, data)
  else if num =? 2 then
    '(val, data) ← take_varint typ data;
    mret (mkMessageFields did (Some (u32 val)) it ct, data)
  else if num =? 3 then
    '(val, data) ← take_varint typ data;
    mret (mkMessageFields did kid (Some (u32 val)) ct, data)
  else if num =? 4 then
    '(val, data) ← take_bytes typ data;
    mret (mkMessageFields did kid it (Some val), data)
  else
    data ← skip_unknown typ data;
    mret (f, data).

Definition decodeSenderKeyMessageBody (data : bytes) : res (arr 16 * Z * Z * bytes) :=
  f ← decode message_field data (mkMessageFields None None None None);
  match mf_distributionID f, mf_keyID f, mf_iteration f, mf_ciphertext f with
  | Some did, Some kid, Some it, Some ct => mret (did, kid, it, ct)
  | _, _, _, _ => Err ErrInvalidMessage
  end.

(** The signing key: 32 raw bytes, or 33 with the type byte. *)
Definition parse_signing_key (val : bytes) : res key32 :=
  if len val =? 32 then
    match ValidatePublicKey (to_arr 32 val) with Ok _ => Ok (to_arr 32 val) | _ => Err ErrInvalidMessage end
  else if len val =? 33 then DeserializeWirePublicKey val
  else Err ErrInvalidMessage.

Definition distribution_field (num : Z) (typ : wire_type) (data : bytes) (f : distribution_fields) :
    res (distribution_fields * bytes) :=
  let '(mkDistributionFields did kid it ck sp) := f in
  if num =? 1 then
    '(val, data) ← take_arr 16 typ data;
    mret (mkDistributionFields (Some val) kid it ck sp, data)
  else if num =? 2 then
    '(val, data) ← take_varint typ data;
    mret (mkDistributionFields did (Some (u32 val)) it ck sp, data)
  else if num =? 3 then
    '(val, data) ← take_varint typ data;
    mret (mkDistributionFields did kid (Some (u32 val)) ck sp, data)
  else if num =? 4 then
    '(val, data) ← take_arr 32 typ data;
    mret (mkDistributionFields did kid it (Some val) sp, data)
  else if num =? 5 then
    '(val, data) ← take_bytes typ data;
    key ← parse_signing_key val;
    mret (mkDistributionFields did kid it ck (Some key), data)
  else
    data ← skip_unknown typ data;
    mret (f, data).

Definition decodeSenderKeyDistributionBody (data : bytes) : res (arr 16 * Z * Z * key32 * key32) :=
  f ← decode distribution_field data (mkDistributionFields None None None None None);
  match df_distributionID f, df_keyID f, df_iteration f, df_chainKey f, df_signingPublic f with
  | Some did, Some kid, Some it, Some ck, Some sp => mret (did, kid, it, ck, sp)
  | _, _, _, _, _ => Err ErrInvalidMessage
  end.

Definition distribution_serialize (m : distributionMessage) : bytes :=
  senderKeyVersionByte (dm_messageVersion m) ::
  encodeSenderKeyDistributionBody (dm_distributionID m) (dm_keyID m) (dm_iteration m) (dm_chainKey m) (dm_signingPublic m).

Definition parseDistributionMessage (data : bytes) : res distributionMessage :=
  _ ← check (len data <? 1) ErrInvalidMessage;
  b ← index data 0;
  let version := parseSenderKeyVersion b in
  _ ← check (version <? senderKeyMessageVersion) ErrInvalidMessage;
  _ ← check (version >? senderKeyMessageVersion) ErrInvalidMessage;
  rest ← slice data 1 (len data);
  '(did, kid, it, ck, sp) ← decodeSenderKeyDistributionBody rest;
  mret (mkDistribution version did kid it ck sp).

Definition signedBytes (m : senderKeyMessage) : bytes :=
  senderKeyVersionByte (skm_messageVersion m) ::
  encodeSenderKeyMessageBody (skm_distributionID m) (skm_keyID m) (skm_iteration m) (skm_ciphertext m).

Definition message_serialize (m : senderKeyMessage) : bytes := signedBytes m ++ vec_to_list (skm_signature m).

Definition parseSenderKeyMessage (data : bytes) : res (senderKeyMessage * bytes) :=
  _ ← check (len data <? 1 + senderKeySignatureSize) ErrInvalidMessage;
  b ← index data 0;
  let version := parseSenderKeyVersion b in
  _ ← check (version <? senderKeyMessageVersion) ErrInvalidMessage;
  _ ← check (version >? senderKeyMessageVersion) ErrInvalidMessage;
  body ← slice data 1 (len data - senderKeySignatureSize);
  '(did, kid, it, ct) ← decodeSenderKeyMessageBody body;
  sig ← slice data (len data - senderKeySignatureSize) (len data);
  signed ← slice data 0 (len data - senderKeySignatureSize);
  mret (mkSenderKeyMessage version did kid it ct (to_arr 64 sig), signed).

(** *** serialize.go *)

Definition recordSerializeMagic : bytes := str "SIGK".
Definition recordSerializeVersion : byte := Byte.x02.
Definition recordMinSize : Z := 4 + 1 + 2 + 2.

Definition messageKey_bytes (mk : messageKey) : bytes := AppendUint32 (mk_iteration mk) ++ vec_to_list (mk_seed mk).

Definition state_bytes (st : state) : bytes :=
  let msgKeys := if len (messageKeys st) >? maxMessageKeysPerState
                 then drop (Z.to_nat (len (messageKeys st) - maxMessageKeysPerState)) (messageKeys st) else messageKeys st in
  [z2b (messageVersion st)] ++ vec_to_list (distributionID st) ++ AppendUint32 (keyID st) ++ AppendUint32 (chainIteration st) ++
  vec_to_list (chainSeed st) ++ vec_to_list (signingPublic st) ++
  (if hasPrivate st then Byte.x01 :: vec_to_list (signingPrivateSeed st) else [Byte.x00]) ++
  AppendUint16 (u16 (len msgKeys)) ++ mjoin (messageKey_bytes <$> msgKeys).

Definition Serialize (r : Record_) : bytes :=
  let max := if maxStates r <=? 0 then DefaultMaxStates else maxStates r in
  let sts := if len (states r) >? max then take (Z.to_nat max) (states r) else states r in
  recordSerializeMagic ++ [recordSerializeVersion] ++ AppendUint16 (u16 max) ++ AppendUint16 (u16 (len sts)) ++
  mjoin (state_bytes <$> sts).

(** One iteration of the loop over the message keys. *)
Definition rd_messageKey (keys : list messageKey) : reader (list messageKey) :=
  _ ← rd_need (4 + 32) ErrInvalidMessage;
  iteration ← rd_u32;
  seed ← rd_arr 32;
  mret (keys ++ [mkMessageKey iteration seed]).

Definition rd_private : reader (bool * key32) :=
  flag ← rd_byte;
  if bool_decide (flag = Byte.x00) then mret (false, zero32)
  else if bool_decide (flag = Byte.x01) then
    _ ← rd_need 32 ErrInvalidMessage;
    seed ← rd_arr 32;
    mret (true, seed)
  else rd_err ErrInvalidMessage.

(** One iteration of the loop over the states; version 1 has no message version
    and no distribution id. *)
Definition rd_state (version : byte) (max : Z) (sts : list state) : reader (list state) :=
  let v2 := bool_decide (version = recordSerializeVersion) in
  _ ← rd_need (if v2 then 1 + 16 + 4 + 4 + 32 + 32 + 1 + 2 else 4 + 4 + 32 + 32 + 1 + 2) ErrInvalidMessage;
  '(version, did) ← (if v2 then b ← rd_byte; did ← rd_arr 16; mret (b2z b, did)
                     else mret (senderKeyMessageVersion, to_arr 16 []));
  kid ← rd_u32;
  iteration ← rd_u32;
  seed ← rd_arr 32;
  pub ← rd_arr 32;
  '(private, privateSeed) ← rd_private;
  _ ← rd_need 2 ErrInvalidMessage;
  count ← rd_u16;
  _ ← rd_check ((count <? 0) || (count >? maxMessageKeysPerState)) ErrInvalidMessage;
  keys ← rd_for (Z.to_nat count) rd_messageKey [];
  let st := mkState version did kid iteration seed pub privateSeed private keys in
  mret (if len sts <? max then sts ++ [st] else sts).

Definition DeserializeRecord (data : bytes) : res Record_ :=
  _ ← check (len data =? 0) ErrInvalidMessage;
  _ ← check (len data <? recordMinSize) ErrInvalidMessage;
  rd_run (
    magic ← rd_take 4;
    _ ← rd_check (negb (bool_decide (magic = recordSerializeMagic))) ErrInvalidMessage;
    version ← rd_byte;
    _ ← rd_check (negb (bool_decide (version = recordSerializeVersion)) && negb (bool_decide (version = Byte.x01))) ErrInvalidMessage;
    _ ← rd_need (2 + 2) ErrInvalidMessage;
    max ← rd_u16;
    let max := if max <=? 0 then DefaultMaxStates else max in
    count ← rd_u16;
    sts ← rd_for (Z.to_nat count) (rd_state version max) [];
    _ ← rd_eof ErrInvalidMessage;
    mret (mkRecord sts max)) data.

(** *** cipher.go: the message keys of a state *)

(** [for chainKey.iteration < iteration]: at most [iteration - chainKey.iteration]
    iterations. *)
Fixpoint skip_loop (fuel : nat) (chainKey : senderChainKey) (iteration : Z) : ST state senderChainKey :=
  match fuel with
  | O => mret chainKey
  | S fuel =>
      if ck_iteration chainKey <? iteration then
        mk ← st_lift (senderMessageKey_of chainKey);
        _ ← st_modify (addMessageKey (mkMessageKey (ck_iteration chainKey) (smk_seed mk)));
        chainKey ← st_lift (next chainKey);
        skip_loop fuel chainKey iteration
      else mret chainKey
  end.

Definition getSenderMessageKey (iteration : Z) : ST state senderMessageKey :=
  st ← st_get;
  let chainKey := mkChainKey (chainIteration st) (chainSeed st) in
  if ck_iteration chainKey >? iteration then
    let '(st, seed) := removeMessageKey iteration st in
    match seed with
    | None => st_err ErrDuplicateMessage
    | Some seed => _ ← st_put st; st_lift (newSenderMessageKey iteration seed)
    end
  else
    _ ← st_check (u32 (iteration - ck_iteration chainKey) >? maxMessageKeysPerState) ErrMaxSkipExceeded;
    chainKey ← skip_loop (Z.to_nat (iteration - ck_iteration chainKey)) chainKey iteration;
    nxt ← st_lift (next chainKey);
    _ ← st_modify (set_chain (ck_iteration nxt) (ck_seed nxt));
    st_lift (senderMessageKey_of chainKey).

(** *** builder.go, cipher.go *)

Context {W} {SK : SenderKeyStore W}.

Definition loadRecord (name : SenderKeyName) : ST (W * tape) Record_ :=
  rec ← st_fst (LoadSenderKey name);
  match rec with
  | None => mret (NewRecord 0)
  | Some data =>
      if len data =? 0 then mret (NewRecord 0)
      else
        record ← st_lift (match DeserializeRecord data with Err _ => Err ErrInvalidMessage | r => r end);
        mret (if maxStates record <=? 0 then mkRecord (states record) DefaultMaxStates else record)
  end.

Definition persistRecord (name : SenderKeyName) (record : Record_) : ST (W * tape) unit :=
  st_fst (StoreSenderKey name (Some (Serialize record))).

Definition newSendingState : ST tape state :=
  kid ← generateSenderKeyID;
  did ← generateDistributionID;
  seed ← generateSenderKeySeed;
  '(pub, priv) ← generateSigningKey;
  mret (mkState senderKeyMessageVersion did kid 0 seed pub priv true []).

Definition distribution_of (st : state) : distributionMessage :=
  mkDistribution (messageVersion st) (distributionID st) (keyID st) (chainIteration st) (chainSeed st) (signingPublic st).

(** [Builder.Create] *)
Definition Create (name : SenderKeyName) : ST (W * tape) bytes :=
  record ← loadRecord name;
  record ← (if isEmpty record then
              st ← st_snd newSendingState;
              let record := setState record st in
              _ ← persistRecord name record;
              mret record
            else mret record);
  cur ← st_lift (current record);
  _ ← st_check (negb (hasPrivate cur)) ErrInvalidMessage;
  mret (distribution_serialize (distribution_of cur)).

(** [Builder.Rotate] *)
Definition Rotate (name : SenderKeyName) : ST (W * tape) bytes :=
  record ← loadRecord name;
  st ← st_snd newSendingState;
  let record := setState record st in
  _ ← persistRecord name record;
  mret (distribution_serialize (distribution_of st)).

(** [Builder.Process] *)
Definition Process (name : SenderKeyName) (distribution : bytes) : ST (W * tape) unit :=
  msg ← st_lift (parseDistributionMessage distribution);
  record ← loadRecord name;
  let st := mkState (dm_messageVersion msg) (dm_distributionID msg) (dm_keyID msg) (dm_iteration msg) (dm_chainKey msg)
              (dm_signingPublic msg) zero32 false [] in
  persistRecord name (setState record st).

(** [Cipher.Encrypt] *)
Definition Encrypt (name : SenderKeyName) (plaintext : bytes) : ST (W * tape) bytes :=
  record ← loadRecord name;
  _ ← st_check (isEmpty record) ErrNoSenderKey;
  st ← st_lift (match current record with Err _ => Err ErrNoSenderKey | r => r end);
  _ ← st_check (negb (hasPrivate st)) ErrInvalidMessage;
  let chainKey := mkChainKey (chainIteration st) (chainSeed st) in
  mk ← st_lift (senderMessageKey_of chainKey);
  ciphertext ← st_lift (match AESCBCEncrypt (vec_to_list (smk_cipherKey mk)) (vec_to_list (smk_iv mk)) plaintext with
                        | Err _ => Err ErrInvalidMessage | r => r end);
  let msg := mkSenderKeyMessage (messageVersion st) (distributionID st) (keyID st) (smk_iteration mk) ciphertext (to_arr 64 []) in
  sig ← (fun '(w, t) => match XEdDSASign (signingPrivateSeed st) (signedBytes msg) t with
                        | (t', Err _) => ((w, t'), Err ErrInvalidMessage)
                        | (t', r) => ((w, t'), r)
                        end);
  _ ← st_check (negb (len sig =? senderKeySignatureSize)) ErrInvalidMessage;
  let msg := mkSenderKeyMessage (messageVersion st) (distributionID st) (keyID st) (smk_iteration mk) ciphertext (to_arr 64 sig) in
  nxt ← st_lift (next chainKey);
  let record := mkRecord (<[0%nat := set_chain (ck_iteration nxt) (ck_seed nxt) st]> (states record)) (maxStates record) in
  _ ← persistRecord name record;
  mret (message_serialize msg).

(** [Cipher.Decrypt] *)
Definition Decrypt (name : SenderKeyName) (ciphertext : bytes) : ST (W * tape) bytes :=
  '(msg, signed) ← st_lift (parseSenderKeyMessage ciphertext);
  record ← loadRecord name;
  _ ← st_check (isEmpty record) ErrNoSenderKey;
  '(i, st) ← st_lift (match Record_state record (skm_distributionID msg) (skm_keyID msg) with
                      | Err _ => Err ErrNoSenderKey | r => r end);
  _ ← st_check (negb (skm_messageVersion msg =? messageVersion st)) ErrInvalidMessage;
  _ ← st_check (negb (XEdDSAVerify (signingPublic st) (vec_to_list (skm_signature msg)) signed)) ErrInvalidSignature;
  let '(st, mk) := getSenderMessageKey (skm_iteration msg) st in
  mk ← st_lift mk;
  plaintext ← st_lift (match AESCBCDecrypt (vec_to_list (smk_cipherKey mk)) (vec_to_list (smk_iv mk)) (skm_ciphertext msg) with
                       | Err _ => Err ErrInvalidMessage | r => r end);
  let record := mkRecord (<[i := st]> (states record)) (maxStates record) in
  _ ← persistRecord name record;
  mret plaintext.

End senderkeys.
End SenderKeys.
Import SenderKeys.
