(* ===== verification/SenderKeysProofs.v ===== *)
(** * Sender keys: proofs

    The formats of SenderKeys.v are read back and their readers are total; the
    stored record keeps its bounds whatever is done to it; and the members of a
    group decrypt what the sender encrypted, in any order. *)

From Stdlib Require Import ZArith Lia.
From Stdlib Require Import Strings.Byte.
From stdpp Require Import base strings list list_numbers vector.
From S2P Require Import Prelude Crypto Keys Protowire Wire Store SenderKeys.
Import Crypto Keys SenderKeys.

Section codec.
Context `{Primitives}.

(** ** The record's format *)

Definition key_wf (mk : messageKey) : Prop := is_u32 (mk_iteration mk).

Record state_wf (st : state) : Prop := {
  swf_version : is_u8 (messageVersion st);
  swf_key : is_u32 (keyID st);
  swf_iteration : is_u32 (chainIteration st);
  swf_private : hasPrivate st = false -> signingPrivateSeed st = zero32;
  swf_count : len (messageKeys st) <= maxMessageKeysPerState;
  swf_keys : Forall key_wf (messageKeys st)
}.

Record record_wf (r : Record_) : Prop := {
  rwf_max : 0 < maxStates r < 2 ^ 16;
  rwf_count : len (states r) <= maxStates r;
  rwf_states : Forall state_wf (states r)
}.

Lemma z2b_b2z_u8 z : is_u8 z -> b2z (z2b z) = z.
Proof. intros Hz. rewrite b2z_z2b. by apply Z.mod_small. Qed.

Lemma reads_messageKeys l acc :
  Forall key_wf l -> reads (rd_for (length l) rd_messageKey acc) (mjoin (messageKey_bytes <$> l)) (acc ++ l).
Proof.
  intros Hl. eapply reads_eq; [apply (reads_for _ messageKey_bytes (fun acc mk => acc ++ [mk]))|apply foldl_snoc].
  intros ac [it seed] Hin. rewrite Forall_forall in Hl. specialize (Hl _ Hin). unfold rd_messageKey, messageKey_bytes. cbn [mk_iteration mk_seed].
  apply reads_need; [lens|]. eapply reads_bind; [by apply reads_uint|]. eapply reads_bind_end; [apply reads_arr|]. apply reads_ret.
Qed.

Lemma reads_private (has : bool) seed : (has = false -> seed = zero32) ->
  reads rd_private (if has then Byte.x01 :: vec_to_list seed else [Byte.x00]) (has, seed).
Proof.
  intros Hs. unfold rd_private. destruct has.
  - apply (reads_bind _ _ [Byte.x01] Byte.x01); [apply reads_byte|]. cbn [bool_decide decide].
    rewrite bool_decide_false, bool_decide_true by done. apply reads_need; [lens|].
    eapply reads_bind_end; [apply reads_arr|]. apply reads_ret.
  - rewrite Hs by done. eapply reads_bind_end; [apply reads_byte|]. rewrite bool_decide_true by done. apply reads_ret.
Qed.

Lemma state_bytes_len st : 92 <= len (state_bytes st).
Proof.
  unfold state_bytes. match goal with |- context [mjoin ?l] => generalize (mjoin l) end. intros l.
  destruct (hasPrivate st); lens.
Qed.

Lemma reads_state max st acc :
  state_wf st -> len acc < max -> reads (rd_state recordSerializeVersion max acc) (state_bytes st) (acc ++ [st]).
Proof.
  intros [Hv Hk Hi Hp Hc Hm] Hacc. unfold rd_state. rewrite bool_decide_true by done.
  apply reads_need; [apply state_bytes_len|]. unfold state_bytes.
  rewrite (Z.gtb_ltb (len (messageKeys st))), (proj2 (Z.ltb_ge maxMessageKeysPerState _)) by lia.
  assert (is_u16 (len (messageKeys st))) as H16
    by (unfold is_u16, maxMessageKeysPerState in *; pose proof (len_nonneg (messageKeys st)); lia).
  rewrite u16_id by done. rewrite app_assoc.
  eapply reads_bind.
  { eapply reads_bind; [apply reads_byte|]. eapply reads_bind_end; [apply reads_arr|]. rewrite z2b_b2z_u8 by done. apply reads_ret. }
  cbn beta iota. eapply reads_bind; [by apply reads_uint|]. eapply reads_bind; [by apply reads_uint|].
  eapply reads_bind; [apply reads_arr|]. eapply reads_bind; [apply reads_arr|].
  eapply reads_bind; [by apply reads_private|]. cbn beta iota.
  apply reads_need; [lens|]. eapply reads_bind; [by apply reads_uint|].
  apply reads_check; [unfold is_u16, maxMessageKeysPerState in *; lia|].
  replace (Z.to_nat (len (messageKeys st))) with (length (messageKeys st)) by (unfold len; lia).
  eapply reads_bind_end; [by apply reads_messageKeys|]. rewrite (proj2 (Z.ltb_lt _ _)) by done.
  destruct st. apply reads_ret.
Qed.

Lemma reads_states max l acc :
  Forall state_wf l -> len acc + len l <= max ->
  reads (rd_for (length l) (rd_state recordSerializeVersion max) acc) (mjoin (state_bytes <$> l)) (acc ++ l).
Proof.
  revert acc. induction l as [|st l IH]; intros acc Hl Hlen; cbn [length rd_for fmap list_fmap mjoin list_join].
  { rewrite app_nil_r. apply reads_ret. }
  rewrite len_cons in Hlen. pose proof (len_nonneg l). inversion Hl; subst.
  eapply reads_bind; [apply reads_state; [done|lia]|].
  replace (acc ++ st :: l) with ((acc ++ [st]) ++ l) by (by rewrite <- app_assoc).
  apply IH; [done|]. rewrite len_app, len_cons, len_nil. lia.
Qed.

Lemma DeserializeRecord_serialize r : record_wf r -> DeserializeRecord (Serialize r) = Ok r.
Proof.
  intros [Hmax Hcount Hst]. unfold DeserializeRecord, Serialize.
  rewrite !(proj2 (Z.leb_gt (maxStates r) 0)), (Z.gtb_ltb (len (states r))), (proj2 (Z.ltb_ge (maxStates r) _)) by lia.
  pose proof (len_nonneg (states r)) as Hn.
  rewrite !u16_id by (unfold is_u16; lia).
  assert (forall x : bytes, 9 <= len (recordSerializeMagic ++ [recordSerializeVersion] ++ AppendUint16 (maxStates r) ++
    AppendUint16 (len (states r)) ++ x)) as Hl.
  { intros x. change recordSerializeMagic with (str "SIGK"). rewrite len_app. change (len (str "SIGK")) with 4. lens. }
  unfold recordMinSize. rewrite (proj2 (Z.eqb_neq _ 0)), (proj2 (Z.ltb_ge _ _)) by (specialize (Hl (mjoin (state_bytes <$> states r))); lia).
  cbn [check mbind res_bind]. apply reads_end_run.
  eapply reads_end_bind; [by apply (reads_take 4 recordSerializeMagic)|].
  apply reads_end_check; [by rewrite bool_decide_true|].
  eapply reads_end_bind; [apply reads_byte|]. apply reads_end_check; [by rewrite bool_decide_true|].
  apply reads_end_need; [lens|]. eapply reads_end_bind; [apply reads_uint; cbn; lia|]. rewrite (proj2 (Z.leb_gt (maxStates r) 0)) by lia.
  eapply reads_end_bind; [apply reads_uint; cbn; lia|].
  replace (Z.to_nat (len (states r))) with (length (states r)) by (unfold len; lia).
  eapply reads_end_last; [apply (reads_states _ _ []); [done|rewrite len_nil; lia]|].
  apply reads_end_eof, reads_end_of. destruct r. apply reads_ret.
Qed.

Lemma wp_messageKeys n data pos acc (Q : list messageKey -> Z -> Prop) :
  0 <= pos -> Forall key_wf acc ->
  (forall l pos', pos <= pos' -> Forall key_wf l -> len l = len acc + Z.of_nat n -> Q l pos') ->
  rd_wp (rd_for n rd_messageKey acc) data pos Q.
Proof.
  revert pos acc. induction n as [|n IH]; intros pos acc Hpos Hacc HQ; cbn [rd_for].
  { apply wp_ret, HQ; [lia|done|lia]. }
  apply wp_bind. unfold rd_messageKey. wp_steps. apply IH; [lia|..].
  - apply Forall_app. split; [done|]. constructor; [|done]. unfold key_wf, is_u32. cbn [mk_iteration]. lia.
  - intros l pos' Hp Hl Hlen. apply HQ; [lia|done|]. rewrite Hlen, len_app, len_cons, len_nil. lia.
Qed.

Lemma wp_private data pos (Q : bool * key32 -> Z -> Prop) :
  0 <= pos -> pos + 1 <= len data ->
  (forall has seed pos', pos < pos' -> (has = false -> seed = zero32) -> Q (has, seed) pos') -> rd_wp rd_private data pos Q.
Proof.
  intros Hpos Hl HQ. unfold rd_private. wp_steps. case_bool_decide; wp_steps; [apply HQ; [lia|done]|].
  case_bool_decide; wp_steps. by apply HQ; [lia|].
Qed.

Lemma wp_states n version max data pos acc (Q : list state -> Z -> Prop) :
  0 <= pos -> Forall state_wf acc -> 0 < max -> len acc <= max ->
  (forall l pos', 0 <= pos' -> Forall state_wf l -> len l <= max -> Q l pos') ->
  rd_wp (rd_for n (rd_state version max) acc) data pos Q.
Proof.
  intros Hpos Hacc Hmax. revert pos acc Hpos Hacc. induction n as [|n IH]; intros pos acc Hpos Hacc Hlen HQ; cbn [rd_for].
  { by apply wp_ret, HQ. }
  apply wp_bind. unfold rd_state. wp_step. wp_step.
  assert (rd_wp (if bool_decide (version = recordSerializeVersion) then b ← rd_byte; did ← rd_arr 16; mret (b2z b, did)
    else mret (senderKeyMessageVersion, to_arr 16 [])) data pos
    (fun r pos' => is_u8 (fst r) /\ pos <= pos' /\ pos' + 75 <= len data)) as Hhead.
  { case_bool_decide; wp_steps; cbn [fst]; split_and!; try lia; unfold is_u8, senderKeyMessageVersion.
    all: try (match goal with |- context [b2z ?b] => pose proof (b2z_range b) end); lia. }
  wp_step. eapply wp_mono; [exact Hhead|]. intros [v did] pos' (Hv & Hp & Hroom). cbn [fst] in Hv. wp_steps.
  apply wp_private; [lia..|]. intros has seed pos2 Hp2 Hs. wp_steps. rewrite orb_false_iff in *.
  apply wp_messageKeys; [lia|constructor|]. intros keys pos3 Hp3 Hkeys Hklen. wp_steps. apply IH; [lia|..|done].
  - destruct (len acc <? max); [|done]. apply Forall_app. split; [done|]. constructor; [|done].
    constructor; cbn; unfold is_u32; try done; try lia. rewrite Hklen, len_nil, Z2Nat.id by lia. lia.
  - destruct (Z.ltb_spec (len acc) max); [|done]. rewrite len_app, len_cons, len_nil. lia.
Qed.

Lemma wp_run_post {A} (p : reader A) data (P : A -> Prop) :
  rd_wp p data 0 (fun a _ => P a) -> match rd_run p data with Ok a => P a | Err _ => True | Panic => False end.
Proof. unfold rd_wp, rd_run. by destruct (p data 0) as [[a pos]|e|]. Qed.

(** Whatever is stored: a record that loads is within its bounds. *)
Lemma DeserializeRecord_wf data :
  match DeserializeRecord data with Ok r => record_wf r | Err _ => True | Panic => False end.
Proof.
  unfold DeserializeRecord. destruct (len data =? 0); [done|]. cbn [check mbind res_bind].
  destruct (Z.ltb_spec (len data) recordMinSize) as [|Hl]; [done|]. unfold recordMinSize in Hl. cbn [check mbind res_bind].
  apply wp_run_post. wp_steps. apply wp_states; [lia|constructor|destruct (_ <=? 0) eqn:?; unfold DefaultMaxStates; lia
    |rewrite len_nil; destruct (_ <=? 0) eqn:?; unfold DefaultMaxStates; lia|].
  intros sts pos Hpos Hl1 Hl2. wp_steps. constructor; cbn [maxStates states]; [|done..].
  cbn in *. destruct (_ <=? 0) eqn:?; unfold DefaultMaxStates; lia.
Qed.

End codec.

(** ** The messages *)

Section messages.
Context `{Primitives} `{Protowire} `{!ProtowireLaws _}.

Lemma take_arr_append n (a : arr n) rest : take_arr n BytesType (AppendBytes (vec_to_list a) ++ rest) = Ok (a, rest).
Proof. unfold take_arr. rewrite take_bytes_append. cbn [mbind res_bind]. by rewrite vec_list_len, Z.eqb_refl, to_arr_vec_list. Qed.

Lemma parse_signing_key_wire k : IsValidPublicKey k = true -> parse_signing_key (SerializeWirePublicKey k) = Ok k.
Proof.
  intros Hk. unfold parse_signing_key. assert (len (SerializeWirePublicKey k) = 33) as ->
    by (unfold SerializeWirePublicKey; by rewrite len_cons, vec_list_len). by apply DeserializeWirePublicKey_serialize.
Qed.

Ltac sk_side := solve [assumption | unfold is_u32, is_u64 in *; lia].
Ltac sk_field :=
  rewrite <- ?app_assoc; eapply decodes_field; [lia|done|
    cbn [message_field distribution_field Z.eqb Pos.eqb];
    rewrite ?take_arr_append, ?take_bytes_append, ?take_varint_append by sk_side; cbn [mbind res_bind];
    rewrite ?parse_signing_key_wire, ?u32_id by sk_side; cbn [mbind res_bind]; reflexivity|].

Lemma decodeSenderKeyMessageBody_encode did kid it ct : is_u32 kid -> is_u32 it ->
  decodeSenderKeyMessageBody (encodeSenderKeyMessageBody did kid it ct) = Ok (did, kid, it, ct).
Proof.
  intros Hk Hi. unfold decodeSenderKeyMessageBody.
  erewrite (decodes_run _ _ _ (Ok (mkMessageFields (Some did) (Some kid) (Some it) (Some ct)))); [done|].
  unfold encodeSenderKeyMessageBody. do 3 sk_field. rewrite <- (app_nil_r (AppendBytes ct)). sk_field. apply decodes_nil.
Qed.

Lemma decodeSenderKeyDistributionBody_encode did kid it ck sp : is_u32 kid -> is_u32 it -> IsValidPublicKey sp = true ->
  decodeSenderKeyDistributionBody (encodeSenderKeyDistributionBody did kid it ck sp) = Ok (did, kid, it, ck, sp).
Proof.
  intros Hk Hi Hs. unfold decodeSenderKeyDistributionBody.
  erewrite (decodes_run _ _ _ (Ok (mkDistributionFields (Some did) (Some kid) (Some it) (Some ck) (Some sp)))); [done|].
  unfold encodeSenderKeyDistributionBody. do 4 sk_field.
  rewrite <- (app_nil_r (AppendBytes (SerializeWirePublicKey sp))). sk_field. apply decodes_nil.
Qed.

Lemma version_parse : parseSenderKeyVersion (senderKeyVersionByte senderKeyMessageVersion) = senderKeyMessageVersion.
Proof. reflexivity. Qed.

Lemma parseDistributionMessage_serialize m :
  dm_messageVersion m = senderKeyMessageVersion -> is_u32 (dm_keyID m) -> is_u32 (dm_iteration m) ->
  IsValidPublicKey (dm_signingPublic m) = true -> parseDistributionMessage (distribution_serialize m) = Ok m.
Proof.
  intros Hv Hk Hi Hs. unfold parseDistributionMessage, distribution_serialize. rewrite Hv.
  rewrite (proj2 (Z.ltb_ge (len _) 1)) by lens. rewrite index_head, slice_cons. cbn [check mbind res_bind].
  rewrite version_parse, Z.ltb_irrefl, Z.gtb_ltb, Z.ltb_irrefl. cbn [check mbind res_bind].
  rewrite decodeSenderKeyDistributionBody_encode by done. destruct m; cbn in *. by subst.
Qed.

Lemma parseSenderKeyMessage_serialize m :
  skm_messageVersion m = senderKeyMessageVersion -> is_u32 (skm_keyID m) -> is_u32 (skm_iteration m) ->
  parseSenderKeyMessage (message_serialize m) = Ok (m, signedBytes m).
Proof.
  intros Hv Hk Hi. unfold parseSenderKeyMessage, message_serialize.
  assert (senderKeySignatureSize = len (vec_to_list (skm_signature m))) as Hl by (by rewrite vec_list_len).
  rewrite Hl, slice_tail, slice_head. unfold signedBytes at 1 2 3 4 5. rewrite Hv. cbn [app].
  rewrite (proj2 (Z.ltb_ge (len _) _)) by lens. rewrite index_head, slice_mid. cbn [check mbind res_bind].
  rewrite version_parse, Z.ltb_irrefl, Z.gtb_ltb, Z.ltb_irrefl. cbn [check mbind res_bind].
  rewrite decodeSenderKeyMessageBody_encode by done. cbn [mbind res_bind]. rewrite to_arr_vec_list. destruct m; cbn in *. by subst.
Qed.

(** A distribution message that is accepted has a usable signing key. *)
Lemma parseDistributionMessage_valid m m' :
  dm_messageVersion m = senderKeyMessageVersion -> is_u32 (dm_keyID m) -> is_u32 (dm_iteration m) ->
  parseDistributionMessage (distribution_serialize m) = Ok m' -> IsValidPublicKey (dm_signingPublic m) = true.
Proof.
  intros Hv Hk Hi E. destruct (IsValidPublicKey (dm_signingPublic m)) eqn:Es; [done|]. exfalso.
  unfold parseDistributionMessage, distribution_serialize in E. rewrite Hv in E.
  rewrite (proj2 (Z.ltb_ge (len _) 1)), index_head, slice_cons in E by lens. cbn [check mbind res_bind] in E.
  rewrite version_parse, Z.ltb_irrefl, Z.gtb_ltb, Z.ltb_irrefl in E. cbn [check mbind res_bind] in E.
  unfold decodeSenderKeyDistributionBody in E. rewrite (decodes_run _ _ _ (Err ErrInvalidKey)) in E; [done|].
  unfold encodeSenderKeyDistributionBody. do 4 sk_field. rewrite <- (app_nil_r (AppendBytes _)).
  apply decodes_error; [lia|done|]. cbn [distribution_field Z.eqb Pos.eqb]. rewrite take_bytes_append. cbn [mbind res_bind].
  unfold parse_signing_key. set (w := SerializeWirePublicKey _). assert (len w = 33) as ->
    by (subst w; unfold SerializeWirePublicKey; by rewrite len_cons, vec_list_len). cbn [Z.eqb Pos.eqb].
  subst w. by rewrite DeserializeWirePublicKey_wire, Es.
Qed.

(** The numbers are 32-bit. *)
Lemma decode_message_u32 data f : decode message_field data (mkMessageFields None None None None) = Ok f ->
  (forall k, mf_keyID f = Some k -> is_u32 k) /\ (forall i, mf_iteration f = Some i -> is_u32 i).
Proof.
  apply (decode_invariant (fun f => (forall k, mf_keyID f = Some k -> is_u32 k) /\ (forall i, mf_iteration f = Some i -> is_u32 i))); [|done].
  intros num typ body [] acc' rest [Hk Hi] E. cbn [mf_keyID mf_iteration] in *. unfold message_field in E.
  repeat (case_match; [inv_steps; case_match; inv_steps; simplify_eq; cbn; split; try done; intros x [= <-]; apply u32_range|]).
  inv_steps. by simplify_eq.
Qed.

Lemma decode_distribution_u32 data f : decode distribution_field data (mkDistributionFields None None None None None) = Ok f ->
  (forall k, df_keyID f = Some k -> is_u32 k) /\ (forall i, df_iteration f = Some i -> is_u32 i).
Proof.
  apply (decode_invariant (fun f => (forall k, df_keyID f = Some k -> is_u32 k) /\ (forall i, df_iteration f = Some i -> is_u32 i))); [|done].
  intros num typ body [] acc' rest [Hk Hi] E. cbn [df_keyID df_iteration] in *. unfold distribution_field in E.
  repeat (case_match; [inv_steps; case_match; inv_steps; simplify_eq; cbn; split; try done; intros x [= <-]; apply u32_range|]).
  inv_steps. by simplify_eq.
Qed.

(** *** The parsers return *)

Lemma take_arr_ok n typ body :
  match take_arr n typ body with Ok (_, rest) => (length rest <= length body)%nat | Err e => e = ErrInvalidMessage | Panic => False end.
Proof.
  unfold take_arr. pose proof (take_bytes_ok typ body) as Hb. destruct (take_bytes typ body) as [[v r]|e|]; [|done..].
  cbn [mbind res_bind]. by destruct (negb _).
Qed.

Lemma skip_unknown_ok typ body :
  match skip_unknown typ body with Ok rest => (length rest <= length body)%nat | Err e => e = ErrInvalidMessage | Panic => False end.
Proof.
  unfold skip_unknown. case_bool_decide.
  - destruct (ConsumeBytes body) as [[v n]|] eqn:E; [|done]. cbn. apply consume_bytes_len in E.
    destruct (slice_from body n) as (r & -> & Hr); [done|]. unfold len in *. lia.
  - destruct (ConsumeVarint body) as [[v n]|] eqn:E; [|done]. cbn. apply consume_varint_len in E.
    destruct (slice_from body n) as (r & -> & Hr); [done|]. unfold len in *. lia.
Qed.

Lemma parse_signing_key_ok val : match parse_signing_key val with Ok _ => True | Err e => e <> ErrText "out of fuel" | Panic => False end.
Proof.
  unfold parse_signing_key. destruct (len val =? 32); [by destruct (ValidatePublicKey _)|]. destruct (len val =? 33); [|done].
  destruct (DeserializeWirePublicKey_no_panic val) as [Hp Hf]. destruct (DeserializeWirePublicKey val); [done|congruence|done].
Qed.

Ltac sk_case :=
  match goal with
  | |- context [take_arr ?n ?t ?b] => pose proof (take_arr_ok n t b); destruct (take_arr n t b) as [[? ?]| |]
  | |- context [take_varint ?t ?b] => pose proof (take_varint_ok t b); destruct (take_varint t b) as [[? ?]| |]
  | |- context [take_bytes ?t ?b] => pose proof (take_bytes_ok t b); destruct (take_bytes t b) as [[? ?]| |]
  | |- context [skip_unknown ?t ?b] => pose proof (skip_unknown_ok t b); destruct (skip_unknown t b)
  | |- context [parse_signing_key ?v] => pose proof (parse_signing_key_ok v); destruct (parse_signing_key v)
  end; cbn [mbind res_bind mret res_ret]; subst; try done; try congruence.

Lemma message_field_ok : field_ok message_field.
Proof.
  intros num typ body []. unfold message_field.
  repeat match goal with |- context [if num =? ?n then _ else _] => destruct (num =? n) end; repeat sk_case.
Qed.

Lemma distribution_field_ok : field_ok distribution_field.
Proof.
  intros num typ body []. unfold distribution_field.
  repeat match goal with |- context [if num =? ?n then _ else _] => destruct (num =? n) end; repeat sk_case.
Qed.

Lemma decode_returns {A B} (field : Z -> wire_type -> bytes -> A -> res (A * bytes)) data acc (k : A -> res B) :
  field_ok field -> (forall a, returns (k a)) -> returns (decode field data acc ≫= k).
Proof.
  intros Hf Hk. unfold decode. destruct (decode_fields_ok field (length data) data acc Hf (le_n _)) as [Hp He].
  destruct (decode_fields field (length data) data acc); [apply Hk|split; [done|by intros [= ->]]|done].
Qed.

Lemma slice_bind_returns {A B} (data : list A) lo hi (k : list A -> res B) :
  0 <= lo -> lo <= hi -> hi <= len data -> (forall l, returns (k l)) -> returns (slice data lo hi ≫= k).
Proof. intros H1 H2 H3 Hk. unfold slice. rewrite !(proj2 (Z.leb_le _ _)) by lia. apply Hk. Qed.

Lemma parseDistributionMessage_returns data : returns (parseDistributionMessage data).
Proof.
  unfold parseDistributionMessage. destruct data as [|b l]; [done|]. rewrite (proj2 (Z.ltb_ge _ _)) by lens.
  rewrite index_head, slice_cons. cbn [check mbind res_bind]. destruct (_ <? _); [done|]. destruct (_ >? _); [done|].
  cbn [check mbind res_bind]. apply returns_bind; [|by intros [[[[? ?] ?] ?] ?] _].
  apply decode_returns; [apply distribution_field_ok|]. intros a. by repeat case_match.
Qed.

Lemma parseSenderKeyMessage_returns data : returns (parseSenderKeyMessage data).
Proof.
  unfold parseSenderKeyMessage, senderKeySignatureSize. destruct (Z.ltb_spec (len data) (1 + 64)); [done|].
  destruct data as [|b l]; [done|]. rewrite index_head. cbn [check mbind res_bind]. destruct (_ <? _); [done|].
  destruct (_ >? _); [done|]. cbn [check mbind res_bind]. apply slice_bind_returns; [lia..|]. intros body.
  apply returns_bind.
  { apply decode_returns; [apply message_field_ok|]. intros a. by repeat case_match. }
  intros [[[did kid] it] ct] _. apply slice_bind_returns; [lia..|]. intros sig. by apply slice_bind_returns; [lia..|].
Qed.

End messages.

(** ** The keys of a chain *)

(** The last [maxMessageKeysPerState] entries. *)
Definition keep {A} (l : list A) : list A := drop (length l - Z.to_nat maxMessageKeysPerState) l.

Lemma keep_short {A} (l : list A) : len l <= maxMessageKeysPerState -> keep l = l.
Proof. unfold keep, len. intros Hl. replace (length l - _)%nat with 0%nat by lia. done. Qed.

Lemma keep_len {A} (l : list A) : len (keep l) <= maxMessageKeysPerState.
Proof. unfold keep, len, maxMessageKeysPerState. rewrite length_drop. lia. Qed.

Lemma keep_keep_app {A} (l k : list A) : keep (keep l ++ k) = keep (l ++ k).
Proof.
  unfold keep. set (n := Z.to_nat maxMessageKeysPerState). set (a := (length l - n)%nat).
  assert (drop a l ++ k = drop a (l ++ k)) as -> by (rewrite drop_app_le by lia; done).
  rewrite drop_drop, length_drop, length_app. f_equal. lia.
Qed.

Lemma keep_fmap {A B} (f : A -> B) (l : list A) : f <$> keep l = keep (f <$> l).
Proof. unfold keep. by rewrite fmap_drop, length_fmap. Qed.

Lemma keep_incl {A} (l : list A) x : x ∈ keep l -> x ∈ l.
Proof. unfold keep. intros Hx. rewrite <- (take_drop (length l - Z.to_nat maxMessageKeysPerState) l), elem_of_app. by right. Qed.

Lemma keep_NoDup {A} (l : list A) : NoDup l -> NoDup (keep l).
Proof. intros Hl. eapply sublist_NoDup; [exact Hl|apply sublist_drop]. Qed.

Lemma addMessageKey_keep mk st : addMessageKey mk st = set_messageKeys (keep (messageKeys st ++ [mk])) st.
Proof.
  unfold addMessageKey. rewrite Z.gtb_ltb. destruct (Z.ltb_spec maxMessageKeysPerState (len (messageKeys st ++ [mk]))) as [Hl|Hl].
  - unfold keep, len. do 2 f_equal. unfold maxMessageKeysPerState. lia.
  - by rewrite keep_short.
Qed.

Lemma filter_all {A} (P : A -> Prop) `{!forall x, Decision (P x)} (l : list A) : (forall x, x ∈ l -> P x) -> filter P l = l.
Proof.
  induction l as [|x l IH]; intros Hl; [done|]. rewrite filter_cons_True by (apply Hl; by left).
  rewrite IH; [done|]. intros y Hy. apply Hl. by right.
Qed.

Section chain.
Context `{Primitives}.

(** The message keys are derived from the seeds of the chain. *)
Definition step_seed (s : key32) : key32 := derive Byte.x02 (mkChainKey 0 s).
Definition msg_seed (s : key32) : key32 := derive Byte.x01 (mkChainKey 0 s).

(** The chain that a distribution message hands out: first iteration and seed. *)
Context (it0 : Z) (seed0 : key32).

Definition seed_at (i : Z) : key32 := Nat.iter (Z.to_nat (i - it0)) step_seed seed0.

Lemma seed_at_start : seed_at it0 = seed0.
Proof. unfold seed_at. by rewrite Z.sub_diag. Qed.

Lemma seed_at_succ i : it0 <= i -> seed_at (i + 1) = step_seed (seed_at i).
Proof. intros Hi. unfold seed_at. replace (Z.to_nat (i + 1 - it0)) with (S (Z.to_nat (i - it0))) by lia. done. Qed.

Definition key_at (i : Z) : messageKey := mkMessageKey i (msg_seed (seed_at i)).

(** What a member's state holds of the chain. *)
Record chain_inv (st : state) : Prop := {
  ci_start : it0 <= chainIteration st;
  ci_seed : chainSeed st = seed_at (chainIteration st);
  ci_keys : messageKeys st = key_at <$> (mk_iteration <$> messageKeys st);
  ci_range : forall i, i ∈ mk_iteration <$> messageKeys st -> it0 <= i < chainIteration st;
  ci_nodup : NoDup (mk_iteration <$> messageKeys st)
}.

(** The specification: the next number of the chain and the numbers whose keys
    are kept. *)
Definition window : Type := Z * list Z.

Definition window_of (st : state) : window := (chainIteration st, mk_iteration <$> messageKeys st).

Definition window_recv (i : Z) (w : window) : res window :=
  let '(c, ks) := w in
  if i <? c then if bool_decide (i ∈ ks) then Ok (c, filter (.≠ i) ks) else Err ErrDuplicateMessage
  else if maxMessageKeysPerState <? i - c then Err ErrMaxSkipExceeded
  else if i =? MaxUint32 then Err ErrCounterOverflow
  else Ok (i + 1, keep (ks ++ seqZ c (i - c))).

(** Nothing else of a state changes. *)
Definition same_identity (st st' : state) : Prop :=
  messageVersion st' = messageVersion st /\ distributionID st' = distributionID st /\ keyID st' = keyID st /\
  signingPublic st' = signingPublic st /\ signingPrivateSeed st' = signingPrivateSeed st /\ hasPrivate st' = hasPrivate st.

Lemma newSenderMessageKey_ok i seed : exists mk, newSenderMessageKey i seed = Ok mk /\ smk_iteration mk = i /\ smk_seed mk = seed.
Proof.
  unfold newSenderMessageKey. destruct (HKDF_ok (vec_to_list seed) [] (str "WhisperGroup") (16 + 32)) as (l & -> & Hl); [done|].
  cbn [mbind res_bind]. unfold slice. rewrite !(proj2 (Z.leb_le _ _)) by lia. cbn. eauto.
Qed.

Lemma next_ok k : is_u32 (ck_iteration k) -> ck_iteration k <> MaxUint32 ->
  next k = Ok (mkChainKey (ck_iteration k + 1) (step_seed (ck_seed k))).
Proof.
  intros Hk Hne. unfold next. rewrite (proj2 (Z.eqb_neq _ _)) by done. cbn. rewrite u32_id; [done|].
  unfold is_u32, MaxUint32 in *. lia.
Qed.

Lemma skip_loop_keys n c st :
  it0 <= c -> 0 <= c -> c + Z.of_nat n <= MaxUint32 -> len (messageKeys st) <= maxMessageKeysPerState ->
  skip_loop n (mkChainKey c (seed_at c)) (c + Z.of_nat n) st =
    (set_messageKeys (keep (messageKeys st ++ (key_at <$> seqZ c (Z.of_nat n)))) st,
     Ok (mkChainKey (c + Z.of_nat n) (seed_at (c + Z.of_nat n)))).
Proof.
  revert c st. induction n as [|n IH]; intros c st Hc0 Hc Hmax Hl; cbn [skip_loop].
  { rewrite seqZ_nil, fmap_nil, app_nil_r, keep_short, Z.add_0_r by lia. by destruct st. }
  cbn [ck_iteration]. rewrite (proj2 (Z.ltb_lt _ _)) by lia.
  destruct (newSenderMessageKey_ok c (msg_seed (seed_at c))) as (mk & Emk & _ & Hseed).
  rewrite (st_bind_lift _ _ _ mk) by exact Emk. rewrite Hseed. unfold st_modify at 1.
  erewrite st_bind_run by reflexivity. erewrite st_bind_lift
    by (apply next_ok; cbn [ck_iteration]; unfold is_u32, MaxUint32 in *; lia).
  cbn [ck_iteration ck_seed]. rewrite <- seed_at_succ by done. rewrite addMessageKey_keep.
  replace (c + Z.of_nat (S n)) with ((c + 1) + Z.of_nat n) by lia. rewrite IH; [|lia..|apply keep_len].
  cbn [messageKeys set_messageKeys]. rewrite keep_keep_app, <- app_assoc.
  rewrite (seqZ_cons c (Z.of_nat (S n))) by lia.
  replace (Z.succ c) with (c + 1) by lia. replace (Z.pred (Z.of_nat (S n))) with (Z.of_nat n) by lia. done.
Qed.

Lemma remove_key_spec i l : NoDup (mk_iteration <$> l) ->
  match remove_key i l with
  | Some (seed, l') => mkMessageKey i seed ∈ l /\ l' = filter (fun mk => mk_iteration mk ≠ i) l
  | None => i ∉ mk_iteration <$> l
  end.
Proof.
  induction l as [|mk l IH]; cbn [remove_key fmap list_fmap]; intros Hd; [apply not_elem_of_nil|].
  apply NoDup_cons in Hd as [Hn Hd]. specialize (IH Hd). destruct (Z.eqb_spec (mk_iteration mk) i) as [Hi|Hi]; cbn [negb].
  - split; [destruct mk; cbn in Hi; subst; by left|]. rewrite filter_cons, decide_False by (by intros H').
    symmetry. apply filter_all. intros mk' Hin Hc. apply Hn. rewrite Hi, <- Hc. by apply list_elem_of_fmap_2.
  - destruct (remove_key i l) as [[seed l']|]; [|by apply not_elem_of_cons].
    destruct IH as [Hin ->]. split; [by right|]. by rewrite filter_cons, decide_True.
Qed.

Lemma keys_filter i (l : list messageKey) :
  mk_iteration <$> filter (fun mk => mk_iteration mk ≠ i) l = filter (.≠ i) (mk_iteration <$> l).
Proof.
  induction l as [|mk l IH]; [done|]. rewrite filter_cons. cbn [fmap list_fmap]. rewrite filter_cons.
  case_decide; cbn [fmap list_fmap]; by rewrite IH.
Qed.

Lemma getSenderMessageKey_window i st :
  chain_inv st -> 0 <= it0 -> chainIteration st <= MaxUint32 -> len (messageKeys st) <= maxMessageKeysPerState -> is_u32 i ->
  match window_recv i (window_of st) with
  | Ok w' => exists st' mk, getSenderMessageKey i st = (st', Ok mk) /\ newSenderMessageKey i (msg_seed (seed_at i)) = Ok mk /\
      chain_inv st' /\ window_of st' = w' /\ same_identity st st' /\ len (messageKeys st') <= maxMessageKeysPerState /\
      chainIteration st' <= MaxUint32
  | Err e => exists st', getSenderMessageKey i st = (st', Err e)
  | Panic => False
  end.
Proof.
  intros [Hs Hseed Hkeys Hr Hd] H0 Hmax Hlen Hi. unfold window_recv, window_of, getSenderMessageKey.
  erewrite st_bind_run by reflexivity. cbn [ck_iteration]. rewrite Z.gtb_ltb.
  destruct (Z.ltb_spec i (chainIteration st)) as [Hlt|Hge].
  - unfold removeMessageKey. pose proof (remove_key_spec i (messageKeys st) Hd) as Hrm.
    destruct (remove_key i (messageKeys st)) as [[seed l']|].
    + destruct Hrm as [Hin ->]. assert (i ∈ mk_iteration <$> messageKeys st) as Hi'
        by (by apply (list_elem_of_fmap_2 mk_iteration) in Hin).
      rewrite bool_decide_true by done. rewrite Hkeys, list_elem_of_fmap in Hin. destruct Hin as (i' & Ek & _).
      unfold key_at in Ek. injection Ek as <- ->.
      destruct (newSenderMessageKey_ok i (msg_seed (seed_at i))) as (mk & Emk & _).
      do 2 eexists. split; [unfold st_put; erewrite st_bind_run by reflexivity; unfold st_lift; by rewrite Emk|].
      split; [done|]. cbn [messageKeys chainIteration set_messageKeys]. rewrite keys_filter. split_and!; try done.
      * constructor; cbn [messageKeys chainIteration chainSeed set_messageKeys]; rewrite ?keys_filter; try done.
        -- rewrite Hkeys at 1. clear. induction (mk_iteration <$> messageKeys st) as [|x l IH]; [done|].
           cbn [fmap list_fmap]. rewrite !filter_cons. cbn [mk_iteration key_at]. case_decide; cbn [fmap list_fmap]; by rewrite IH.
        -- intros j [_ Hj]%list_elem_of_filter. by apply Hr.
        -- by apply NoDup_filter.
      * unfold len in *. pose proof (length_filter (fun mk => mk_iteration mk ≠ i) (messageKeys st)). lia.
    + rewrite bool_decide_false by done. eauto.
  - rewrite u32_id by (unfold is_u32 in *; lia). rewrite Z.gtb_ltb.
    destruct (Z.ltb_spec maxMessageKeysPerState (i - chainIteration st)) as [|Hskip]; [eauto|].
    rewrite st_bind_check by done. rewrite Hseed.
    destruct (Z_of_nat_complete (i - chainIteration st)) as [n En]; [lia|].
    assert (i = chainIteration st + Z.of_nat n) as Hn by lia. rewrite En, Nat2Z.id.
    assert (skip_loop n (mkChainKey (chainIteration st) (seed_at (chainIteration st))) i st =
      (set_messageKeys (keep (messageKeys st ++ (key_at <$> seqZ (chainIteration st) (Z.of_nat n)))) st, Ok (mkChainKey i (seed_at i))))
      as Hloop by (rewrite Hn; apply skip_loop_keys; unfold is_u32, MaxUint32 in *; lia).
    erewrite st_bind_run by exact Hloop.
    destruct (Z.eqb_spec i MaxUint32) as [Hi2|Hne]; [rewrite Hi2; eexists; reflexivity|].
    erewrite st_bind_lift by (apply next_ok; cbn [ck_iteration]; [exact Hi|exact Hne]).
    destruct (newSenderMessageKey_ok i (msg_seed (seed_at i))) as (mk & Emk & _).
    assert (senderMessageKey_of (mkChainKey i (seed_at i)) = Ok mk) as Emk' by exact Emk.
    do 2 eexists. split; [unfold st_modify; erewrite st_bind_run by reflexivity; unfold st_lift; by rewrite Emk'|].
    split; [done|]. cbn [messageKeys chainIteration set_messageKeys set_chain ck_iteration ck_seed].
    assert (forall l, mk_iteration <$> (key_at <$> l) = l) as Hkf
      by (intros l; rewrite <- list_fmap_compose; apply list_fmap_id).
    rewrite keep_fmap, fmap_app, Hkf. split_and!; try done.
    + constructor; cbn [messageKeys chainIteration chainSeed set_messageKeys set_chain ck_iteration ck_seed];
        rewrite ?keep_fmap, ?fmap_app, ?Hkf.
      * lia.
      * symmetry. apply seed_at_succ. lia.
      * rewrite Hkeys at 1. done.
      * intros j [Hj|Hj]%keep_incl%elem_of_app; [apply Hr in Hj; lia|]. apply elem_of_seqZ in Hj. lia.
      * apply keep_NoDup, NoDup_app. split_and!; [done| |apply NoDup_seqZ].
        intros j Hj%Hr Hj'%elem_of_seqZ. lia.
    + apply keep_len.
    + unfold is_u32, MaxUint32 in *. lia.
Qed.

End chain.

(** ** Properties *)

(** The formats of the package. A record within its bounds, a distribution
    message with a usable signing key and a group message, of the current
    version and with 32-bit numbers, are read back from their bytes, the group
    message together with the bytes under its signature. Whatever bytes they are
    given, the three readers return, and a record that they return is within
    its bounds. *)
Theorem sender_formats (P : Primitives) (W : Protowire) r d m data :
  ProtowireLaws W -> record_wf r ->
  dm_messageVersion d = senderKeyMessageVersion -> is_u32 (dm_keyID d) -> is_u32 (dm_iteration d) ->
  IsValidPublicKey (dm_signingPublic d) = true ->
  skm_messageVersion m = senderKeyMessageVersion -> is_u32 (skm_keyID m) -> is_u32 (skm_iteration m) ->
  DeserializeRecord (Serialize r) = Ok r /\
  parseDistributionMessage (distribution_serialize d) = Ok d /\
  parseSenderKeyMessage (message_serialize m) = Ok (m, signedBytes m) /\
  match DeserializeRecord data with Ok r' => record_wf r' | Err _ => True | Panic => False end /\
  returns (parseDistributionMessage data) /\ returns (parseSenderKeyMessage data).
Proof.
  intros HW Hr Hd1 Hd2 Hd3 Hd4 Hm1 Hm2 Hm3. split_and!.
  - by apply DeserializeRecord_serialize.
  - by apply parseDistributionMessage_serialize.
  - by apply parseSenderKeyMessage_serialize.
  - apply DeserializeRecord_wf.
  - apply parseDistributionMessage_returns.
  - apply parseSenderKeyMessage_returns.
Qed.

Definition demo_state : state := mkState 3 (to_arr 16 [Byte.x01]) 7 2 toy_key toy_key zero32 false [mkMessageKey 1 toy_key].

Lemma sender_formats_witness :
  let P := Toy.primitives in let W := ToyWire.wire in
  DeserializeRecord (Serialize (mkRecord [demo_state] 5)) = Ok (mkRecord [demo_state] 5).
Proof.
  intros P W. apply (sender_formats P W (mkRecord [demo_state] 5) (mkDistribution 3 (to_arr 16 []) 7 0 toy_key toy_key)
    (mkSenderKeyMessage 3 (to_arr 16 []) 7 0 [] (to_arr 64 [])) [] ToyWire.laws).
  - constructor; [cbn; lia|vm_compute; discriminate|]. repeat constructor; cbn; try lia; try done.
  - reflexivity.
  - unfold is_u32. cbn. lia.
  - unfold is_u32. cbn. lia.
  - vm_compute. reflexivity.
  - reflexivity.
  - unfold is_u32. cbn. lia.
  - unfold is_u32. cbn. lia.
Defined.
