(* ===== verification/SenderKeysGroup.v ===== *)
(** * Sender keys: a group over its stores

    The operations of [Builder] and [Cipher] on a store that keeps its promises:
    what they load and leave, the bounds of the stored record, and the
    agreement of the members with the sender. *)

From Stdlib Require Import ZArith Lia.
From Stdlib Require Import Strings.Byte.
From stdpp Require Import base gmap strings list list_numbers vector relations.
From S2P Require Import Prelude Crypto Keys Protowire Wire Store MemoryStore SenderKeys SenderKeysProofs.
Import Crypto Keys SenderKeys.

Section store.
Context `{Primitives} `{XEdDSA} `{Protowire} {W} {SK : SenderKeyStore W} {L : SenderKeyStoreLaws SK}.

(** The record of a name. *)
Definition record_at (w : W) (name : SenderKeyName) : res Record_ :=
  match sk_view w name with
  | None => Ok (NewRecord 0)
  | Some data => if len data =? 0 then Ok (NewRecord 0)
                 else match DeserializeRecord data with Err _ => Err ErrInvalidMessage | r => r end
  end.

Lemma NewRecord_wf : record_wf (NewRecord 0).
Proof. constructor; cbn; [unfold DefaultMaxStates; lia|rewrite len_nil; done|constructor]. Qed.

Lemma record_at_wf w name : match record_at w name with Ok r => record_wf r | Err e => e = ErrInvalidMessage | Panic => False end.
Proof.
  unfold record_at. destruct (sk_view w name) as [data|]; [|apply NewRecord_wf]. destruct (len data =? 0); [apply NewRecord_wf|].
  pose proof (DeserializeRecord_wf data) as Hd. by destruct (DeserializeRecord data).
Qed.

Lemma loadRecord_eq w (t : tape) name : loadRecord name (w, t) = ((w, t), record_at w name).
Proof.
  unfold loadRecord, st_fst. pose proof (record_at_wf w name) as Hwf. unfold record_at in *.
  unfold mbind at 1, st_bind at 1. rewrite sk_load. destruct (sk_view w name) as [data|]; [|done]. destruct (len data =? 0); [done|].
  unfold mbind, st_bind, st_lift. destruct (DeserializeRecord data) as [r|e|]; [|done..].
  rewrite (proj2 (Z.leb_gt _ _)) by (by apply Hwf). by destruct r.
Qed.

Lemma Serialize_nonempty r : (len (Serialize r) =? 0) = false.
Proof.
  apply Z.eqb_neq. unfold Serialize. rewrite len_app. change (len recordSerializeMagic) with 4. len_facts. lia.
Qed.

(** Storing a record: it is what is loaded next, and the other names are as
    they were. *)
Definition stored (name : SenderKeyName) (r : Record_) (w w' : W) : Prop :=
  record_at w' name = Ok r /\ forall n, n <> name -> sk_view w' n = sk_view w n.

Lemma persistRecord_ok w (t : tape) name r : record_wf r ->
  exists w', persistRecord name r (w, t) = ((w', t), Ok tt) /\ stored name r w w'.
Proof.
  intros Hr. destruct (sk_store name (Serialize r) w) as (w' & E & Hv). exists w'. unfold persistRecord, st_fst. rewrite E.
  split; [done|]. split.
  - unfold record_at. rewrite Hv, decide_True by done. by rewrite Serialize_nonempty, DeserializeRecord_serialize.
  - intros n Hn. by rewrite Hv, decide_False.
Qed.

Lemma setState_wf r st : record_wf r -> state_wf st -> record_wf (setState r st).
Proof.
  intros [Hm Hc Hs] Hst. unfold setState.
  assert (Forall state_wf (st :: filter (fun s => same_state (distributionID st) (keyID st) s = false) (states r))) as Hall.
  { constructor; [done|]. apply Forall_forall. intros s [_ Hin]%list_elem_of_filter. rewrite Forall_forall in Hs. by apply Hs. }
  rewrite Z.gtb_ltb. destruct (Z.ltb_spec (maxStates r) (len (st :: filter (fun s => same_state (distributionID st) (keyID st) s = false) (states r))));
    constructor; cbn [states maxStates]; try done.
  - unfold len. rewrite length_take. lia.
  - by apply Forall_take.
Qed.

Lemma setState_head r st : record_wf r -> exists l, states (setState r st) = st :: l.
Proof.
  intros [Hm _ _]. unfold setState. cbn [states]. destruct (_ >? _); [|eauto].
  destruct (Z.to_nat (maxStates r)) as [|n] eqn:E; [lia|]. cbn [take]. eauto.
Qed.

Lemma update_wf r i st : record_wf r -> state_wf st -> record_wf (mkRecord (<[i := st]> (states r)) (maxStates r)).
Proof.
  intros [Hm Hc Hs] Hst. constructor; cbn [states maxStates]; [done| |].
  - unfold len in *. by rewrite length_insert.
  - by apply Forall_insert.
Qed.

(** *** New states *)

Lemma newSendingState_ok t t' st : newSendingState t = (t', Ok st) ->
  state_wf st /\ messageVersion st = senderKeyMessageVersion /\ hasPrivate st = true /\ chainIteration st = 0 /\ messageKeys st = [] /\
  x25519 (signingPrivateSeed st) x25519_Basepoint = Some (signingPublic st).
Proof.
  unfold newSendingState, generateSenderKeyID, generateSigningKey. intros E. inv_steps. subst. destruct v3 as [pub priv].
  inv_steps. subst. apply GenerateKeyPair_ok in Hok3. cbn [signingPublic signingPrivateSeed]. split_and!; try done.
  constructor; cbn; unfold is_u8, is_u32, senderKeyMessageVersion; try done; try lia.
  replace 2147483647 with (Z.ones 31) by reflexivity. rewrite Z.land_ones by lia. pose proof (Z.mod_pos_bound (be_value v4) (2 ^ 31)). lia.
Qed.

(** ** One operation *)

(** What a computation on the store leaves: it fails and the store is as before,
    or it succeeds with the store as before or with another record for the name. *)
Definition ids (r : Record_) : list (arr 16 * Z) := (fun s => (distributionID s, keyID s)) <$> states r.

Record better (r r' : Record_) : Prop := {
  bt_wf : record_wf r';
  bt_max : maxStates r' = maxStates r;
  bt_ids : NoDup (ids r) -> NoDup (ids r')
}.

Definition leaves {A} (name : SenderKeyName) (r : Record_) (w : W) (x : (W * tape) * res A) : Prop :=
  match x with
  | ((w', _), Ok _) => w' = w \/ exists r', better r r' /\ stored name r' w w'
  | ((w', _), _) => w' = w
  end.

(** A step that does not touch the store. *)
Definition quiet {A} (m : ST (W * tape) A) : Prop := forall w t, fst (fst (m (w, t))) = w.

Lemma quiet_lift {A} (x : res A) : quiet (st_lift x).
Proof. done. Qed.

Lemma quiet_check c e : quiet (st_check c e).
Proof. done. Qed.

Lemma quiet_snd {A} (m : ST tape A) : quiet (st_snd m).
Proof. intros w t. unfold st_snd. by destruct (m t). Qed.

Lemma leaves_quiet {A B} name r w (t : tape) (m : ST (W * tape) A) (k : A -> ST (W * tape) B) :
  quiet m -> (forall a t', snd (m (w, t)) = Ok a -> leaves name r w (k a (w, t'))) -> leaves name r w ((m ≫= k) (w, t)).
Proof.
  intros Hq Hk. unfold mbind, st_bind. specialize (Hq w t). destruct (m (w, t)) as [[w1 t1] [a|e|]]; cbn in Hq; subst w1; [|done..].
  by apply Hk.
Qed.

Lemma leaves_load {B} name r w (t : tape) (k : Record_ -> ST (W * tape) B) :
  record_at w name = Ok r -> leaves name r w (k r (w, t)) -> leaves name r w ((loadRecord name ≫= k) (w, t)).
Proof. intros Hr Hk. unfold mbind, st_bind. by rewrite loadRecord_eq, Hr. Qed.

Lemma leaves_persist {B} name r w (t : tape) r' (b : B) :
  better r r' -> leaves name r w ((_ ← persistRecord name r'; mret b) (w, t)).
Proof.
  intros Hb. destruct (persistRecord_ok w t name r' (bt_wf _ _ Hb)) as (w' & E & Hs).
  rewrite (st_bind_run _ _ _ _ _ E). right. eauto.
Qed.

Lemma filter_ids st (l : list state) : (distributionID st, keyID st) ∉ (fun s => (distributionID s, keyID s)) <$>
  filter (fun s => same_state (distributionID st) (keyID st) s = false) l.
Proof.
  rewrite list_elem_of_fmap. intros (s & [= Hd Hk] & [Hs _]%list_elem_of_filter). unfold same_state in Hs.
  rewrite <- Hd, <- Hk, Z.eqb_refl, bool_decide_true in Hs by done. done.
Qed.

Lemma better_setState r st : record_wf r -> state_wf st -> better r (setState r st).
Proof.
  intros Hr Hst. split; [by apply setState_wf|done|]. unfold ids. intros Hn. unfold setState. cbn [states].
  set (all := st :: filter _ _). assert (NoDup ((fun s => (distributionID s, keyID s)) <$> all)) as Hall.
  { subst all. cbn [fmap list_fmap]. apply NoDup_cons. split; [apply filter_ids|].
    eapply sublist_NoDup; [exact Hn|]. apply fmap_sublist, sublist_filter. }
  destruct (_ >? _); [|done]. rewrite fmap_take. eapply sublist_NoDup; [exact Hall|]. apply sublist_take.
Qed.

Lemma better_update r i st st' : record_wf r -> state_wf st' -> states r !! i = Some st -> same_identity st st' ->
  better r (mkRecord (<[i := st']> (states r)) (maxStates r)).
Proof.
  intros Hr Hst Hi (_ & Hd & Hk & _). split; [by apply update_wf|done|]. unfold ids. cbn [states]. intros Hn.
  rewrite list_fmap_insert. rewrite Hd, Hk. rewrite list_insert_id; [done|]. by rewrite list_lookup_fmap, Hi.
Qed.

Lemma find_state_some did kid l i st : find_state did kid l = Some (i, st) ->
  l !! i = Some st /\ distributionID st = did /\ keyID st = kid.
Proof.
  revert i. induction l as [|s l IH]; intros i; cbn [find_state]; [done|]. unfold same_state.
  destruct (Z.eqb_spec (keyID s) kid); [case_bool_decide|]; cbn [andb].
  - by intros [= <- <-].
  - destruct (find_state did kid l) as [[j s']|]; [|done]. intros [= <- <-]. by apply IH.
  - destruct (find_state did kid l) as [[j s']|]; [|done]. intros [= <- <-]. by apply IH.
Qed.

(** *** The state after a message key was taken, whatever the state was *)

Lemma skip_loop_wf n k i st st' r : is_u32 (ck_iteration k) -> state_wf st -> skip_loop n k i st = (st', r) ->
  state_wf st' /\ same_identity st st' /\ r <> Panic /\ forall k', r = Ok k' -> is_u32 (ck_iteration k').
Proof.
  revert k st. induction n as [|n IH]; intros k st Hk Hst E; cbn [skip_loop] in E.
  { injection E as <- <-. split_and!; try done. by intros k' [= <-]. }
  destruct (ck_iteration k <? i). 2:{ injection E as <- <-. split_and!; try done. by intros k' [= <-]. }
  destruct (newSenderMessageKey_ok (ck_iteration k) (derive Byte.x01 k)) as (mk & Emk & _).
  erewrite st_bind_lift in E by exact Emk. erewrite st_bind_run in E by reflexivity. rewrite addMessageKey_keep in E.
  set (st1 := set_messageKeys _ _) in E.
  assert (state_wf st1) as Hst1.
  { destruct Hst as [? ? ? ? Hc Hm]. constructor; try done; cbn [messageKeys st1 set_messageKeys]; [apply keep_len|].
    apply Forall_drop, Forall_app. split; [done|]. by constructor. }
  destruct (decide (ck_iteration k = MaxUint32)) as [Hmax|Hmax].
  { unfold mbind, st_bind, st_lift, next in E. rewrite Hmax in E. cbn in E. injection E as <- <-. by split_and!. }
  erewrite st_bind_lift in E by (by apply next_ok). apply IH in E; [|cbn [ck_iteration]; unfold is_u32, MaxUint32 in *; lia|done].
  done.
Qed.

Lemma remove_key_sublist i l seed l' : remove_key i l = Some (seed, l') -> sublist l' l.
Proof.
  revert seed l'. induction l as [|m l IH]; intros seed l'; cbn [remove_key]; [done|]. destruct (negb _).
  - destruct (remove_key i l) as [[s k]|]; [|done]. intros [= <- <-]. constructor. by eapply IH.
  - intros [= _ <-]. by constructor.
Qed.

Lemma getSenderMessageKey_wf i st st' r : is_u32 i -> state_wf st -> getSenderMessageKey i st = (st', r) ->
  r <> Panic /\ (forall mk, r = Ok mk -> state_wf st' /\ same_identity st st').
Proof.
  intros Hi Hst E. unfold getSenderMessageKey in E. erewrite st_bind_run in E by reflexivity. cbn [ck_iteration] in E.
  destruct (chainIteration st >? i).
  - unfold removeMessageKey in E. destruct (remove_key i (messageKeys st)) as [[seed l]|] eqn:Er; [|by injection E as <- <-].
    erewrite st_bind_run in E by reflexivity. destruct (newSenderMessageKey_ok i seed) as (mk & Emk & _).
    unfold st_lift in E. rewrite Emk in E. injection E as <- <-. split; [done|]. intros _ _. split; [|done].
    pose proof (remove_key_sublist _ _ _ _ Er) as Hsub.
    destruct Hst as [? ? ? ? Hc Hm]. constructor; try done; cbn [messageKeys set_messageKeys].
    + apply sublist_length in Hsub. unfold len in *. lia.
    + rewrite Forall_forall in *. intros m Hin. apply Hm. by eapply elem_of_sublist.
  - apply st_bind_inv in E as [(st0 & u & [-> _]%st_check_ok & E)|[(e & _ & ->)|[E _]]]; [|done|by destruct (_ >? _)].
    apply st_bind_inv in E as [(st1 & k & El & E)|[(e & _ & ->)|[El ->]]]; [|done|by apply skip_loop_wf in El as (_ & _ & ? & _); [|apply Hst|]].
    apply skip_loop_wf in El as (Hst1 & Hid1 & _ & Hu); [|apply Hst|done]. specialize (Hu k eq_refl).
    destruct (decide (ck_iteration k = MaxUint32)) as [Hmax|Hmax].
    { unfold mbind, st_bind, st_lift, next in E. rewrite Hmax in E. cbn in E. by injection E as <- <-. }
    erewrite st_bind_lift in E by (by apply next_ok). erewrite st_bind_run in E by reflexivity.
    destruct (newSenderMessageKey_ok (ck_iteration k) (derive Byte.x01 k)) as (mk & Emk & _).
    unfold st_lift, senderMessageKey_of in E. rewrite Emk in E. injection E as <- <-. split; [done|]. intros _ _. split; [|done].
    destruct Hst1. constructor; try done. cbn. unfold is_u32, MaxUint32 in *. lia.
Qed.

(** *** The operations *)

Inductive group_op : Type :=
| OpCreate | OpRotate | OpProcess (distribution : bytes) | OpEncrypt (plaintext : bytes) | OpDecrypt (ciphertext : bytes).

(** The result of an operation, without its value. *)
Definition run_op (name : SenderKeyName) (op : group_op) : ST (W * tape) unit :=
  match op with
  | OpCreate => _ ← Create name; mret tt
  | OpRotate => _ ← Rotate name; mret tt
  | OpProcess d => Process name d
  | OpEncrypt p => _ ← Encrypt name p; mret tt
  | OpDecrypt c => _ ← Decrypt name c; mret tt
  end.

Lemma leaves_forget {A} name r w x (m : ST (W * tape) A) : leaves name r w (m x) -> leaves name r w ((_ ← m; mret tt) x).
Proof. unfold leaves, mbind, st_bind. by destruct (m x) as [[w1 t1] [a|e|]]. Qed.

Lemma distribution_state_wf data msg : parseDistributionMessage data = Ok msg ->
  state_wf (mkState (dm_messageVersion msg) (dm_distributionID msg) (dm_keyID msg) (dm_iteration msg) (dm_chainKey msg)
              (dm_signingPublic msg) zero32 false []).
Proof.
  unfold parseDistributionMessage. intros E. apply res_bind_ok in E as (u & _ & E). apply res_bind_ok in E as (b & _ & E).
  cbn zeta in E. apply res_bind_ok in E as (u1 & _ & E). apply res_bind_ok in E as (u2 & Hv%check_ok & E).
  apply res_bind_ok in E as (rest & _ & E). apply res_bind_ok in E as ([[[[did kid] it] ck] sp] & Hd & E). apply Ok_inj in E. subst msg.
  unfold decodeSenderKeyDistributionBody in Hd. apply res_bind_ok in Hd as (f & [Hk Hi]%decode_distribution_u32 & Hd).
  destruct (df_distributionID f), (df_keyID f) as [k|], (df_iteration f) as [j|], (df_chainKey f), (df_signingPublic f); try discriminate Hd.
  apply Ok_inj in Hd. injection Hd as <- <- <- <- <-. rewrite Z.gtb_ltb in Hv.
  constructor; cbn; try done; [|by apply Hk|by apply Hi].
  unfold is_u8, senderKeyMessageVersion, parseSenderKeyVersion in *. pose proof (Z.shiftr_nonneg (b2z b) 4). pose proof (b2z_range b). lia.
Qed.

Lemma message_iteration_u32 data msg signed : parseSenderKeyMessage data = Ok (msg, signed) -> is_u32 (skm_iteration msg).
Proof.
  unfold parseSenderKeyMessage. intros E. apply res_bind_ok in E as (u & _ & E). apply res_bind_ok in E as (b & _ & E).
  cbn zeta in E. apply res_bind_ok in E as (u1 & _ & E). apply res_bind_ok in E as (u2 & _ & E).
  apply res_bind_ok in E as (body & _ & E). apply res_bind_ok in E as ([[[did kid] it] ct] & Hd & E).
  apply res_bind_ok in E as (sig & _ & E). apply res_bind_ok in E as (sg & _ & E). apply Ok_inj in E. injection E as <- <-.
  cbn [skm_iteration]. clear -Hd.
  unfold decodeSenderKeyMessageBody in Hd. apply res_bind_ok in Hd as (f & [_ Hi]%decode_message_u32 & Hd).
  destruct (mf_distributionID f), (mf_keyID f), (mf_iteration f) as [j|], (mf_ciphertext f); try discriminate Hd.
  apply Ok_inj in Hd. injection Hd as <- <- <- <-. by apply Hi.
Qed.

(** *** Every operation keeps the record *)

Ltac quietly := apply leaves_quiet; [done || apply quiet_lift || apply quiet_check || apply quiet_snd|intros ? ? ?]; cbn beta zeta.

Lemma better_refl r : record_wf r -> better r r.
Proof. by constructor. Qed.

Lemma leaves_failed {A} name r w (t : tape) (x : res A) : is_ok x = false -> leaves name r w ((w, t), x).
Proof. by destruct x. Qed.

(** Create's and Rotate's common part. *)
Lemma new_state_leaves {A} name r w (t : tape) (k : state -> Record_ -> ST (W * tape) A) :
  record_wf r ->
  (forall st w' t', better r (setState r st) -> stored name (setState r st) w w' -> hasPrivate st = true ->
     leaves name r w (k st (setState r st) (w', t'))) ->
  leaves name r w ((st ← st_snd newSendingState; _ ← persistRecord name (setState r st); k st (setState r st)) (w, t)).
Proof.
  intros Hwf Hk. destruct (newSendingState t) as [t1 x] eqn:En.
  assert (st_snd newSendingState (w, t) = ((w, t1), x)) as Es by (unfold st_snd; by rewrite En).
  destruct x as [st|e|].
  - erewrite st_bind_run by exact Es. apply newSendingState_ok in En as (Hst & _ & Hp & _).
    pose proof (better_setState r st Hwf Hst) as Hb. destruct (persistRecord_ok w t1 name _ (bt_wf _ _ Hb)) as (w' & E & Hs).
    erewrite st_bind_run by exact E. by apply Hk.
  - unfold mbind at 1, st_bind at 1. by rewrite Es.
  - unfold mbind at 1, st_bind at 1. by rewrite Es.
Qed.

Lemma st_bind_assoc_run {X A B C} (m : ST X A) (f : A -> ST X B) (g : B -> ST X C) x :
  ((m ≫= f) ≫= g) x = (m ≫= (fun a => f a ≫= g)) x.
Proof. unfold mbind, st_bind. by destruct (m x) as [x' [a|e|]]. Qed.

Lemma st_bind_cong {X A B} (m : ST X A) (f g : A -> ST X B) x : (forall a y, f a y = g a y) -> (m ≫= f) x = (m ≫= g) x.
Proof. intros Hfg. unfold mbind, st_bind. by destruct (m x) as [x' [a|e|]]. Qed.

Lemma Create_leaves name r w (t : tape) : record_at w name = Ok r -> leaves name r w (Create name (w, t)).
Proof.
  intros Hr. pose proof (record_at_wf w name) as Hwf. rewrite Hr in Hwf. unfold Create. apply leaves_load; [done|].
  destruct (isEmpty r).
  - rewrite st_bind_assoc_run.
    erewrite st_bind_cong by (intros st y; rewrite st_bind_assoc_run; reflexivity).
    apply (new_state_leaves name r w t (fun st rec => mret rec ≫= _)); [done|].
    intros st w' t' Hb Hs Hp. destruct (setState_head r st Hwf) as [l Hl]. erewrite st_bind_run by reflexivity.
    erewrite st_bind_lift by (unfold current; rewrite Hl; reflexivity). erewrite st_bind_check by (by rewrite Hp). right. eauto.
  - erewrite st_bind_run by reflexivity. quietly. quietly. by left.
Qed.

Lemma Rotate_leaves name r w (t : tape) : record_at w name = Ok r -> leaves name r w (Rotate name (w, t)).
Proof.
  intros Hr. pose proof (record_at_wf w name) as Hwf. rewrite Hr in Hwf. unfold Rotate. apply leaves_load; [done|].
  apply (new_state_leaves name r w t (fun st rec => mret (distribution_serialize (distribution_of st)))); [done|].
  intros st w' t' Hb Hs _. right. eauto.
Qed.

Lemma Process_leaves name r w (t : tape) d : record_at w name = Ok r -> leaves name r w (Process name d (w, t)).
Proof.
  intros Hr. pose proof (record_at_wf w name) as Hwf. rewrite Hr in Hwf. unfold Process.
  quietly. apply leaves_load; [done|]. apply distribution_state_wf in H2. pose proof (better_setState r _ Hwf H2) as Hb.
  cbn zeta. edestruct persistRecord_ok as (w' & E & Hs); [exact (bt_wf _ _ Hb)|]. rewrite E. right. eauto.
Qed.

Lemma Encrypt_leaves name r w (t : tape) p : record_at w name = Ok r -> leaves name r w (Encrypt name p (w, t)).
Proof.
  intros Hr. pose proof (record_at_wf w name) as Hwf. rewrite Hr in Hwf. unfold Encrypt. apply leaves_load; [done|].
  quietly. apply leaves_quiet; [apply quiet_lift|]. intros st t1 Hst. cbn in Hst. quietly. quietly. quietly.
  apply leaves_quiet; [intros w0 t0; by destruct (XEdDSASign _ _ t0) as [t2 [?|?|]]|]. intros sig t2 _. quietly.
  apply leaves_quiet; [apply quiet_lift|]. intros nxt t3 Hnxt. cbn in Hnxt. cbn zeta.
  assert (states r !! 0%nat = Some st) as Hh by (unfold current in Hst; destruct (states r); [done|by injection Hst as ->]).
  assert (state_wf st) as Hwst by (eapply Forall_lookup_1; [apply (rwf_states _ Hwf)|exact Hh]).
  apply leaves_persist, (better_update _ _ st); [done| |done|done].
  destruct Hwst. constructor; try done. cbn. unfold next in Hnxt. inv_steps. subst nxt. apply u32_range.
Qed.

Lemma Decrypt_leaves name r w (t : tape) c : record_at w name = Ok r -> leaves name r w (Decrypt name c (w, t)).
Proof.
  intros Hr. pose proof (record_at_wf w name) as Hwf. rewrite Hr in Hwf. unfold Decrypt.
  apply leaves_quiet; [apply quiet_lift|]. intros [msg signed] t1 Hm. cbn in Hm. apply leaves_load; [done|]. quietly.
  apply leaves_quiet; [apply quiet_lift|]. intros [i st] t2 Hst. cbn in Hst. quietly. quietly.
  destruct (getSenderMessageKey (skm_iteration msg) st) as [st' x] eqn:Eg.
  apply leaves_quiet; [apply quiet_lift|]. intros mk t3 Hx. cbn in Hx. subst x. quietly.
  assert (states r !! i = Some st) as Hh.
  { unfold Record_state in Hst. destruct (find_state _ _ (states r)) as [[j s]|] eqn:Ef; [|done]. injection Hst as -> ->.
    by apply find_state_some in Ef as [? _]. }
  apply getSenderMessageKey_wf in Eg as [_ Hg].
  - destruct (Hg mk eq_refl) as [Hw Hid]. by apply leaves_persist, (better_update _ _ st).
  - by eapply message_iteration_u32.
  - eapply Forall_lookup_1; [apply (rwf_states _ Hwf)|exact Hh].
Qed.

Lemma run_op_leaves name op r w (t : tape) : record_at w name = Ok r -> leaves name r w (run_op name op (w, t)).
Proof.
  intros Hr. destruct op; [apply leaves_forget, Create_leaves|apply leaves_forget, Rotate_leaves|apply Process_leaves
    |apply leaves_forget, Encrypt_leaves|apply leaves_forget, Decrypt_leaves]; exact Hr.
Qed.

Inductive group_step (name : SenderKeyName) : W -> W -> Prop :=
| do_op op w (t : tape) w' t' x : run_op name op (w, t) = ((w', t'), x) -> group_step name w w'.

Lemma group_step_inv name r w w' : record_at w name = Ok r -> NoDup (ids r) -> group_step name w w' ->
  exists r', record_at w' name = Ok r' /\ maxStates r' = maxStates r /\ NoDup (ids r') /\
    forall n, n <> name -> sk_view w' n = sk_view w n.
Proof.
  intros Hr Hn Hstep. destruct Hstep as [op w0 t w1 t' x E] in Hr |- *. pose proof (run_op_leaves name op r w0 t Hr) as Hl. rewrite E in Hl. cbn in Hl.
  destruct x; [|subst; eauto..]. destruct Hl as [-> | (r' & [Hw Hm Hi] & Hs & Ho)]; [eauto|]. exists r'. auto.
Qed.

(** ** Sender and member *)

Context `{!ProtowireLaws _} `{!XEdDSALaws _ _} `{!PrimitiveLaws _}.

(** A message of the chain of a distribution message. *)
Definition group_msg (did : arr 16) (kid : Z) (pub : key32) (it0 : Z) (seed0 : key32) (j : Z) (p c : bytes) : Prop :=
  exists mk ct sig, newSenderMessageKey j (msg_seed (seed_at it0 seed0 j)) = Ok mk /\
    AESCBCEncrypt (vec_to_list (smk_cipherKey mk)) (vec_to_list (smk_iv mk)) p = Ok ct /\
    c = message_serialize (mkSenderKeyMessage senderKeyMessageVersion did kid j ct sig) /\
    XEdDSAVerify pub (vec_to_list sig) (signedBytes (mkSenderKeyMessage senderKeyMessageVersion did kid j ct sig)) = true /\
    is_u32 j /\ is_u32 kid.

(** The sender's side of the chain. *)
Record sender_inv (name : SenderKeyName) (did : arr 16) (kid : Z) (pub : key32) (it0 : Z) (seed0 : key32) (j : Z) (w : W) : Prop := {
  si_state : exists r st l, record_at w name = Ok r /\ states r = st :: l /\ hasPrivate st = true /\
    messageVersion st = senderKeyMessageVersion /\ distributionID st = did /\ keyID st = kid /\ signingPublic st = pub /\
    x25519 (signingPrivateSeed st) x25519_Basepoint = Some pub /\ chainIteration st = j /\ chainSeed st = seed_at it0 seed0 j;
  si_start : it0 <= j
}.

Lemma Encrypt_group name did kid pub it0 seed0 j w (t : tape) p x c :
  sender_inv name did kid pub it0 seed0 j w -> Encrypt name p (w, t) = (x, Ok c) ->
  group_msg did kid pub it0 seed0 j p c /\ sender_inv name did kid pub it0 seed0 (j + 1) (fst x).
Proof.
  intros [(r & st & l & Hr & Hsts & Hp & Hv & Hdid & Hkid & Hpub & Hkey & Hit & Hseed) Hj] E.
  pose proof (record_at_wf w name) as Hwf. rewrite Hr in Hwf.
  assert (state_wf st) as Hst by (eapply Forall_lookup_1 with (i := 0%nat); [apply (rwf_states _ Hwf)|by rewrite Hsts]).
  unfold Encrypt in E. erewrite st_bind_run in E by (rewrite loadRecord_eq, Hr; reflexivity).
  rewrite st_bind_check in E by (unfold isEmpty; rewrite Hsts, len_cons; pose proof (len_nonneg l); lia).
  erewrite st_bind_lift in E by (unfold current; rewrite Hsts; reflexivity). rewrite st_bind_check in E by (by rewrite Hp).
  destruct (newSenderMessageKey_ok j (msg_seed (seed_at it0 seed0 j))) as (mk & Emk & Hmkit & _).
  erewrite st_bind_lift in E by (rewrite Hit, Hseed; exact Emk).
  apply st_bind_ok in E as (w1 & ct & [-> Ect]%st_lift_ok & E).
  destruct (AESCBCEncrypt _ _ p) as [ct'|e|] eqn:Eaes; [|discriminate Ect..]. apply Ok_inj in Ect. subst ct'.
  rewrite Hmkit, Hv, Hdid, Hkid in E. cbn zeta in E. apply st_bind_ok in E as ([w1 t1] & sig & Esig & E).
  destruct (XEdDSASign _ _ t) as [t2 [sg|e|]] eqn:Esign; [|discriminate Esig..]. injection Esig as <- <- <-.
  apply st_bind_ok in E as (x1 & u & [-> Hlen]%st_check_ok & E). apply negb_false_iff, Z.eqb_eq in Hlen.
  assert (is_u32 j) as Hju by (rewrite <- Hit; apply Hst). assert (is_u32 kid) as Hku by (rewrite <- Hkid; apply Hst).
  apply st_bind_ok in E as (x2 & nxt & [-> Hnxt]%st_lift_ok & E). rewrite Hit in Hnxt.
  destruct (decide (j = MaxUint32)) as [->|Hmax]; [discriminate Hnxt|]. rewrite next_ok in Hnxt by done.
  apply Ok_inj in Hnxt. subst nxt. cbn [ck_iteration ck_seed] in E. rewrite Hseed, <- seed_at_succ in E by done.
  assert (state_wf (set_chain (j + 1) (seed_at it0 seed0 (j + 1)) st)) as Hst'
    by (destruct Hst; constructor; try done; cbn; unfold is_u32, MaxUint32 in *; lia).
  edestruct persistRecord_ok as (w3 & E3 & Hs & _); [exact (update_wf r 0 _ Hwf Hst')|]. erewrite st_bind_run in E by exact E3.
  injection E as <- <-. split.
  - exists mk, ct, (to_arr 64 sg). split_and!; try done.
    rewrite vec_list_to_arr by (unfold len, senderKeySignatureSize in Hlen; lia). by eapply xeddsa_correct.
  - constructor; [|cbn; lia]. eexists _, _, l. split; [exact Hs|]. cbn [states]. rewrite Hsts. by split_and!.
Qed.

(** The member's side. *)
Definition member_inv (name : SenderKeyName) (did : arr 16) (kid : Z) (pub : key32) (it0 : Z) (seed0 : key32) (win : window) (w : W) : Prop :=
  exists r i st, record_at w name = Ok r /\ find_state did kid (states r) = Some (i, st) /\
    messageVersion st = senderKeyMessageVersion /\ signingPublic st = pub /\ chain_inv it0 seed0 st /\ window_of st = win.

Lemma find_state_insert did kid l i st st' :
  find_state did kid l = Some (i, st) -> distributionID st' = did -> keyID st' = kid -> find_state did kid (<[i := st']> l) = Some (i, st').
Proof.
  revert i. induction l as [|s l IH]; intros i; cbn [find_state]; [done|]. destruct (same_state did kid s) eqn:Es.
  - intros [= <- <-] Hd Hk. cbn. unfold same_state. by rewrite Hd, Hk, Z.eqb_refl, bool_decide_true.
  - destruct (find_state did kid l) as [[j s']|]; [|done]. intros [= <- <-] Hd Hk.
    change (<[S j := st']> (s :: l)) with (s :: <[j := st']> l). cbn [find_state]. by rewrite Es, (IH j).
Qed.

Lemma find_state_head did kid st l : distributionID st = did -> keyID st = kid -> find_state did kid (st :: l) = Some (0%nat, st).
Proof. intros Hd Hk. cbn. unfold same_state. by rewrite Hd, Hk, Z.eqb_refl, bool_decide_true. Qed.

Lemma Decrypt_group name did kid pub it0 seed0 win j p c w (t : tape) :
  0 <= it0 -> member_inv name did kid pub it0 seed0 win w -> group_msg did kid pub it0 seed0 j p c ->
  match window_recv j win with
  | Ok win' => exists w', Decrypt name c (w, t) = ((w', t), Ok p) /\ member_inv name did kid pub it0 seed0 win' w'
  | Err e => Decrypt name c (w, t) = ((w, t), Err e)
  | Panic => False
  end.
Proof.
  intros Hit0 (r & i & st & Hr & Hf & Hv & Hpub & Hci & <-) (mk & ct & sig & Emk & Eaes & -> & Hver & Hj & Hk).
  pose proof (record_at_wf w name) as Hwf. rewrite Hr in Hwf. pose proof (find_state_some _ _ _ _ _ Hf) as (Hi & Hdid & Hkid).
  assert (state_wf st) as Hst by (eapply Forall_lookup_1; [apply (rwf_states _ Hwf)|exact Hi]).
  pose proof (getSenderMessageKey_window it0 seed0 j st Hci Hit0) as Hg.
  specialize (Hg ltac:(pose proof (swf_iteration _ Hst); unfold is_u32, MaxUint32 in *; lia) (swf_count _ Hst) Hj).
  unfold Decrypt. erewrite st_bind_lift by (by apply parseSenderKeyMessage_serialize). cbn beta iota.
  erewrite st_bind_run by (rewrite loadRecord_eq, Hr; reflexivity).
  rewrite st_bind_check by (unfold isEmpty; destruct (states r); [done|]; rewrite len_cons; pose proof (len_nonneg l); lia).
  cbn [skm_distributionID skm_keyID skm_messageVersion skm_signature skm_iteration skm_ciphertext].
  erewrite st_bind_lift by (unfold Record_state; rewrite Hf; reflexivity). cbn beta iota.
  rewrite st_bind_check by (by rewrite Hv). rewrite st_bind_check by (by rewrite Hpub, Hver).
  destruct (window_recv j (window_of st)) as [win'|e|]; [|by destruct Hg as (st' & ->)|done].
  destruct Hg as (st' & mk' & Eg & Emk' & Hci' & Hw' & Hid & Hlen & Hmax). rewrite Emk in Emk'. apply Ok_inj in Emk'. subst mk'.
  rewrite Eg. cbn beta iota. erewrite st_bind_lift by reflexivity.
  erewrite st_bind_lift by (erewrite AESCBC_roundtrip by exact Eaes; reflexivity).
  assert (state_wf st') as Hst' by (by apply (proj2 (getSenderMessageKey_wf _ _ _ _ Hj Hst Eg) mk eq_refl)).
  edestruct persistRecord_ok as (w' & Ep & Hs & _); [exact (update_wf r i _ Hwf Hst')|].
  erewrite st_bind_run by exact Ep. exists w'. split; [done|].
  destruct Hid as (Iv & Id & Ik & Ip & _). eexists _, i, st'. split; [exact Hs|]. cbn [states].
  rewrite (find_state_insert did kid (states r) i st) by congruence. split_and!; congruence || done.
Qed.

(** The first message of a sender. *)
Lemma Create_first name w (t : tape) x dist : sk_view w name = None -> Create name (w, t) = (x, Ok dist) ->
  exists st, state_wf st /\ messageVersion st = senderKeyMessageVersion /\ dist = distribution_serialize (distribution_of st) /\
    chainIteration st = 0 /\
    sender_inv name (distributionID st) (keyID st) (signingPublic st) 0 (chainSeed st) 0 (fst x).
Proof.
  intros Hnone E. assert (record_at w name = Ok (NewRecord 0)) as Hr by (unfold record_at; by rewrite Hnone).
  unfold Create in E. erewrite st_bind_run in E by (rewrite loadRecord_eq, Hr; reflexivity). change (isEmpty (NewRecord 0)) with true in E.
  cbn beta iota in E. rewrite st_bind_assoc_run in E. apply st_bind_ok in E as ([w1 t1] & st & Es & E).
  unfold st_snd in Es. destruct (newSendingState t) as [t2 [st'|e|]] eqn:En; [|discriminate Es..]. injection Es as <- <- ->.
  apply newSendingState_ok in En as (Hst & Hv & Hp & Hit & _ & Hkey). rewrite st_bind_assoc_run in E.
  pose proof (better_setState (NewRecord 0) st NewRecord_wf Hst) as Hb.
  destruct (persistRecord_ok w t2 name _ (bt_wf _ _ Hb)) as (w' & Ep & Hs & _). erewrite st_bind_run in E by exact Ep.
  erewrite st_bind_run in E by reflexivity. destruct (setState_head (NewRecord 0) st NewRecord_wf) as [l Hl].
  erewrite st_bind_lift in E by (unfold current; rewrite Hl; reflexivity). rewrite st_bind_check in E by (by rewrite Hp).
  injection E as <- <-. exists st. split_and!; try done. constructor; [|done].
  eexists _, st, l. split; [exact Hs|]. rewrite seed_at_start. by split_and!.
Qed.

Lemma Process_member name w (t : tape) x st u : state_wf st -> messageVersion st = senderKeyMessageVersion ->
  Process name (distribution_serialize (distribution_of st)) (w, t) = (x, Ok u) ->
  member_inv name (distributionID st) (keyID st) (signingPublic st) (chainIteration st) (chainSeed st) (chainIteration st, []) (fst x).
Proof.
  intros Hst Hv E. unfold Process in E. apply st_bind_ok in E as (x1 & m & [-> Hm]%st_lift_ok & E).
  assert (IsValidPublicKey (signingPublic st) = true) as Hvalid
    by (eapply (parseDistributionMessage_valid (distribution_of st)); [done|apply Hst|apply Hst|exact Hm]).
  rewrite parseDistributionMessage_serialize in Hm by (done || apply Hst). apply Ok_inj in Hm. subst m.
  apply st_bind_ok in E as (x2 & r & Hl & E). rewrite loadRecord_eq in Hl. injection Hl as <- Hr.
  pose proof (record_at_wf w name) as Hwf. rewrite Hr in Hwf. cbn zeta in E.
  cbn [distribution_of dm_messageVersion dm_distributionID dm_keyID dm_iteration dm_chainKey dm_signingPublic] in E.
  set (st1 := mkState _ _ _ _ _ _ zero32 false []) in E.
  assert (state_wf st1) as Hst1 by (subst st1; destruct Hst; constructor; cbn; try done).
  destruct (persistRecord_ok w t name _ (setState_wf r st1 Hwf Hst1)) as (w' & Ep & Hs & _). rewrite Ep in E. injection E as <-.
  destruct (setState_head r st1 Hwf) as [l Hhd]. eexists _, 0%nat, st1. split; [exact Hs|]. rewrite Hhd.
  rewrite find_state_head by done. split_and!; try done. constructor; cbn; try done.
  - by rewrite seed_at_start.
  - intros i Hi. by apply not_elem_of_nil in Hi.
  - constructor.
Qed.

(** The sender encrypts one message after the other. *)
Fixpoint encrypt_all (name : SenderKeyName) (ps : list bytes) : ST (W * tape) (list bytes) :=
  match ps with
  | [] => mret []
  | p :: ps => c ← Encrypt name p; cs ← encrypt_all name ps; mret (c :: cs)
  end.

(** The member is handed ciphertexts: the results. *)
Fixpoint deliver (name : SenderKeyName) (cs : list bytes) (x : W * tape) : list (res bytes) :=
  match cs with
  | [] => []
  | c :: cs => let '(x, r) := Decrypt name c x in r :: deliver name cs x
  end.

(** What should come out when the messages arrive in this order. *)
Fixpoint expected (ps : list bytes) (seen : list nat) (order : list nat) : list (res bytes) :=
  match order with
  | [] => []
  | i :: order => (if bool_decide (i ∈ seen) then Err ErrDuplicateMessage else Ok (ps !!! i)) :: expected ps (i :: seen) order
  end.

Lemma encrypt_all_group name did kid pub it0 seed0 ps : forall j w (t : tape) x cs,
  sender_inv name did kid pub it0 seed0 j w -> encrypt_all name ps (w, t) = (x, Ok cs) ->
  length cs = length ps /\
  forall i, (i < length ps)%nat -> group_msg did kid pub it0 seed0 (j + Z.of_nat i) (ps !!! i) (cs !!! i).
Proof.
  induction ps as [|p ps IH]; intros j w t x cs Hs E; cbn [encrypt_all] in E.
  { injection E as <- <-. split; [done|]. cbn [length]. lia. }
  apply st_bind_ok in E as ([w1 t1] & c & Ec & E). apply st_bind_ok in E as (x2 & cs' & Ecs & E).
  injection E as <- <-. destruct (Encrypt_group _ _ _ _ _ _ _ _ _ _ _ _ Hs Ec) as [Hm Hs1].
  destruct (IH _ _ _ _ _ Hs1 Ecs) as [Hlen Hall]. split; [cbn; lia|]. intros [|i] Hi.
  - by rewrite Z.add_0_r.
  - cbn [length] in Hi. replace (j + Z.of_nat (S i)) with (j + 1 + Z.of_nat i) by lia. apply Hall. lia.
Qed.

(** The window after the messages [seen]: nothing was dropped. *)
Definition covers (seen : list nat) (win : window) : Prop :=
  let '(c, ks) := win in
  0 <= c <= maxMessageKeysPerState /\ NoDup ks /\ (forall k, k ∈ ks -> 0 <= k < c) /\
  (forall i, i ∈ seen -> Z.of_nat i < c) /\ forall i, Z.of_nat i < c -> (Z.of_nat i ∈ ks <-> i ∉ seen).

Lemma window_covers seen win i : covers seen win -> Z.of_nat i < maxMessageKeysPerState ->
  window_recv (Z.of_nat i) win = Err ErrDuplicateMessage /\ i ∈ seen \/
  i ∉ seen /\ exists win', window_recv (Z.of_nat i) win = Ok win' /\ covers (i :: seen) win'.
Proof.
  destruct win as [c ks]. intros (Hc & Hd & Hr & Hs & Hk) Hi. unfold window_recv.
  destruct (Z.ltb_spec (Z.of_nat i) c) as [Hlt|Hge].
  - case_bool_decide as Hin.
    + right. split; [by apply Hk|]. eexists. split; [done|]. split_and!; [lia|lia|by apply NoDup_filter|..].
      * intros k [_ Hk']%list_elem_of_filter. by apply Hr.
      * intros k [->|Hk']%elem_of_cons; [done|by apply Hs].
      * intros k Hkc. rewrite list_elem_of_filter, not_elem_of_cons, Hk by done. split; intros [? ?]; split; congruence || (intros ?; subst; lia) || done.
    + left. split; [done|]. destruct (decide (i ∈ seen)) as [|Hn]; [done|]. by apply Hk in Hn.
  - right. split; [intros Hin%Hs; lia|]. rewrite (proj2 (Z.ltb_ge _ _)) by lia.
    rewrite (proj2 (Z.eqb_neq _ _)) by (unfold maxMessageKeysPerState, MaxUint32 in *; lia). eexists. split; [done|].
    assert (len ks <= c) as Hlen.
    { assert (ks ⊆+ seqZ 0 c) as Hsub by (apply NoDup_submseteq; [done|]; intros k Hk'%Hr; apply elem_of_seqZ; lia).
      apply submseteq_length in Hsub. rewrite length_seqZ in Hsub. unfold len. lia. }
    rewrite keep_short by (rewrite len_app; unfold len at 2; rewrite length_seqZ; lia).
    split_and!; [lia|lia|..].
    + apply NoDup_app. split_and!; [done| |apply NoDup_seqZ]. intros k Hk'%Hr Hk2%elem_of_seqZ. lia.
    + intros k [Hk'%Hr|Hk'%elem_of_seqZ]%elem_of_app; lia.
    + intros k [->|Hk'%Hs]%elem_of_cons; lia.
    + intros k Hkc. rewrite elem_of_app, elem_of_seqZ, not_elem_of_cons. destruct (Z.ltb_spec (Z.of_nat k) c) as [Hk1|Hk1].
      * rewrite Hk by done. split; [intros [?|?]; [|lia]; split; [lia|done]|intros [_ ?]; by left].
      * split; [intros [Hx%Hr|?]; [lia|]; split; [lia|intros Hx%Hs; lia]|]. intros [Hne _]. right. lia.
Qed.

Lemma deliver_expected name did kid pub seed0 ps cs order : forall seen win w (t : tape),
  length cs = length ps -> len ps <= maxMessageKeysPerState ->
  (forall i, (i < length ps)%nat -> group_msg did kid pub 0 seed0 (Z.of_nat i) (ps !!! i) (cs !!! i)) ->
  Forall (fun i => (i < length ps)%nat) order ->
  member_inv name did kid pub 0 seed0 win w -> covers seen win ->
  deliver name ((fun i => cs !!! i) <$> order) (w, t) = expected ps seen order.
Proof.
  intros seen win w t Hlen Hps Hmsgs. revert seen win w t. induction order as [|i order IH]; intros seen win w t Hord Hm Hc; [done|].
  inversion Hord as [|? ? Hi Hord']; subst. cbn [fmap list_fmap deliver expected].
  pose proof (Decrypt_group name did kid pub 0 seed0 win (Z.of_nat i) _ _ w t ltac:(lia) Hm (Hmsgs i Hi)) as Hdec.
  destruct (window_covers seen win i Hc) as [[Hw Hin]|(Hnin & win' & Hw & Hc')]; [unfold len in Hps; lia|..]; rewrite Hw in Hdec.
  - rewrite Hdec, bool_decide_true by done. f_equal. apply IH with win; [done..|].
    destruct win as [c ks]. destruct Hc as (H1' & H2' & H3' & H4' & H5'). split_and!; try done; [lia..| |].
    + intros k [->|Hk]%elem_of_cons; by apply H4'.
    + intros k Hk. rewrite H5', not_elem_of_cons by done. split; [|by intros [_ ?]]. intros Hn. split; [|done]. intros ->. done.
  - destruct Hdec as (w' & -> & Hm'). rewrite bool_decide_false by done. f_equal. by apply IH with win'.
Qed.

End store.

(** ** Properties *)

(** C22: a group conversation. A sender without a sender key creates one, a member
    processes the distribution message, and the sender encrypts up to 2000
    messages. Whatever the order in which the member is handed those
    ciphertexts, however often and with whatever gaps, the first delivery of
    each yields its plaintext and every further one is refused with
    [ErrDuplicateMessage]. Sender and member keep their records in any store
    that works; only the bytes of the messages connect them. *)
Theorem group_any_order (P : Primitives) (X : XEdDSA) (Wr : Protowire) W (SK : SenderKeyStore W) (L : SenderKeyStoreLaws SK)
    name ws ts xs dist wm tm xm ps xe cs order :
  PrimitiveLaws P -> XEdDSALaws P X -> ProtowireLaws Wr ->
  sk_view ws name = None -> Create name (ws, ts) = (xs, Ok dist) ->
  Process name dist (wm, tm) = (xm, Ok tt) ->
  encrypt_all name ps xs = (xe, Ok cs) -> len ps <= maxMessageKeysPerState ->
  Forall (fun i => (i < length ps)%nat) order ->
  deliver name ((fun i => cs !!! i) <$> order) xm = expected ps [] order.
Proof.
  intros HP HX HW Hnone Hcreate Hproc Henc Hlen Hord.
  destruct (Create_first _ _ _ _ _ Hnone Hcreate) as (st & Hst & Hv & -> & Hit & Hs).
  pose proof (Process_member _ _ _ _ _ _ Hst Hv Hproc) as Hm. rewrite Hit in Hm.
  destruct xs as [ws1 ts1], xm as [wm1 tm1]. cbn [fst] in *.
  destruct (encrypt_all_group _ _ _ _ _ _ _ _ _ _ _ _ Hs Henc) as [Hcs Hmsgs].
  eapply deliver_expected; [done|done|exact Hmsgs|done|exact Hm|].
  split_and!; [lia|unfold maxMessageKeysPerState; lia|constructor|..]; intros i Hi; [by apply not_elem_of_nil in Hi..|lia].
Qed.

(** C29: the stored record. Start from a store in which the record of a name
    loads and names no key twice (an absent record does), and run any of the
    five operations on it, any number of times, with any randomness, distribution
    messages, plaintexts and ciphertexts, whether they succeed or fail. The
    record still loads; it holds at most as many states as at the beginning it
    was allowed (5 for a fresh one), no two for the same key, none with more
    than 2000 message keys; the records of the other names are untouched. And an
    operation that fails leaves the store exactly as it was. *)
Theorem sender_record_invariant (P : Primitives) (X : XEdDSA) (Wr : Protowire) W (SK : SenderKeyStore W) (L : SenderKeyStoreLaws SK)
    name w0 r0 w :
  record_at w0 name = Ok r0 -> NoDup (ids r0) -> rtc (group_step name) w0 w ->
  (exists r, record_at w name = Ok r /\ maxStates r = maxStates r0 /\ len (states r) <= maxStates r /\ NoDup (ids r) /\
     Forall (fun st => len (messageKeys st) <= maxMessageKeysPerState) (states r)) /\
  (forall n, n <> name -> sk_view w n = sk_view w0 n) /\
  forall op (t : tape) w' t' x, run_op name op (w, t) = ((w', t'), x) -> is_ok x = false -> w' = w.
Proof.
  intros Hr Hn Hsteps.
  assert (exists r, record_at w name = Ok r /\ maxStates r = maxStates r0 /\ NoDup (ids r) /\
    forall n, n <> name -> sk_view w n = sk_view w0 n) as (r & Hr' & Hmax & Hn' & Ho).
  { clear -Hr Hn Hsteps. revert r0 Hr Hn. induction Hsteps as [w|w w1 w2 Hs _ IH]; intros r0 Hr Hn; [eauto 10|].
    destruct (group_step_inv _ _ _ _ Hr Hn Hs) as (r1 & Hr1 & Hm1 & Hn1 & Ho1).
    destruct (IH r1 Hr1 Hn1) as (r & Hr2 & Hm2 & Hn2 & Ho2). exists r. split_and!; try done; [congruence|].
    intros n Hne. rewrite Ho2, Ho1; done. }
  pose proof (record_at_wf w name) as Hwf. rewrite Hr' in Hwf. split_and!; [|done|].
  - exists r. split_and!; try done; [apply Hwf|]. eapply Forall_impl; [apply Hwf|]. by intros st [].
  - intros op t w' t' x E Hx. pose proof (run_op_leaves name op r w t Hr') as Hl. rewrite E in Hl. cbn in Hl. by destruct x.
Qed.

Section demo.
#[local] Existing Instance Toy.primitives.
#[local] Existing Instance Toy.xeddsa.
#[local] Existing Instance ToyWire.wire.

#[local] Instance demo_store : SenderKeyStore MemoryStore.Store := MemoryStore.senderKeyStore (fun s => (map_to_list s).*1).
#[local] Instance demo_store_laws : SenderKeyStoreLaws demo_store := MemoryStore.senderKeyStore_laws _.

Definition demo_name : SenderKeyName := mkSenderKeyName "group" (mkAddress "alice" 1).
Definition demo_tape : tape := z2b <$> seqZ 20 400.

(** The sender creates its key and encrypts two messages; the member processes. *)
Definition demo_create : (MemoryStore.Store * tape) * res bytes :=
  Create demo_name (MemoryStore.NewStore None 1, demo_tape).
Definition demo_process : (MemoryStore.Store * tape) * res unit :=
  Process demo_name (get_ok [] (snd demo_create)) (MemoryStore.NewStore None 2, []).
Definition demo_encrypt : (MemoryStore.Store * tape) * res (list bytes) :=
  encrypt_all demo_name [str "first"; str "second"] (fst demo_create).

Lemma group_any_order_witness :
  deliver demo_name ((fun i => get_ok [] (snd demo_encrypt) !!! i) <$> [1; 0; 1]%nat) (fst demo_process) =
    [Ok (str "second"); Ok (str "first"); Err ErrDuplicateMessage].
Proof.
  apply (group_any_order Toy.primitives Toy.xeddsa ToyWire.wire _ demo_store demo_store_laws demo_name (MemoryStore.NewStore None 1) demo_tape
    (fst demo_create) (get_ok [] (snd demo_create)) (MemoryStore.NewStore None 2) [] (fst demo_process)
    [str "first"; str "second"] (fst demo_encrypt) (get_ok [] (snd demo_encrypt)) [1; 0; 1]%nat Toy.laws Toy.xeddsa_laws ToyWire.laws).
  - vm_compute. reflexivity.
  - apply run_get_ok. vm_compute. reflexivity.
  - rewrite (run_get_ok tt demo_process) by (vm_compute; reflexivity). destruct (get_ok tt _). reflexivity.
  - apply run_get_ok. vm_compute. reflexivity.
  - vm_compute. discriminate.
  - repeat constructor.
Defined.

Lemma sender_record_invariant_witness :
  exists r, record_at (fst (fst demo_create)) demo_name = Ok r /\ maxStates r = 5 /\ len (states r) <= 5 /\ NoDup (ids r).
Proof.
  assert (record_at (MemoryStore.NewStore None 1) demo_name = Ok (NewRecord 0)) as Hr by reflexivity.
  assert (group_step demo_name (MemoryStore.NewStore None 1) (fst (fst demo_create))) as Hs.
  { apply (do_op demo_name OpCreate _ demo_tape _ (snd (fst demo_create)) (Ok tt)). rewrite <- surjective_pairing.
    cbn [run_op]. erewrite st_bind_run; [reflexivity|]. apply (run_get_ok []). vm_compute. reflexivity. }
  destruct (sender_record_invariant Toy.primitives Toy.xeddsa ToyWire.wire _ demo_store demo_store_laws demo_name
    _ _ _ Hr (NoDup_nil_2) (rtc_once _ _ Hs)) as ((r & H1 & H2 & H3 & H4 & _) & _).
  exists r. rewrite H2 in H3. exact (conj H1 (conj H2 (conj H3 H4))).
Defined.

End demo.
