(* ===== verification/Session.v ===== *)
(** * Sessions: the session package

    A [Session] couples a Double Ratchet state with the post-quantum ratchet and
    the identities of the two parties; a [Record_] keeps the current session and
    the archived ones, and is what the store holds. [Builder] makes sessions
    from the two sides of the handshake; [WireCipher] and the older [Cipher]
    encrypt and decrypt with the record of an address.

    A session's ratchet state and identities are set by every function that
    makes a session, so they are not optional; the archived ratchet states may
    be nil. Ratchet states are values, so [State.Clone] is the identity. The
    record an operation loads lives in memory until it is stored: what a failing
    operation did to it is lost. Decryption works on clones of a session's
    states and changes the session only when it succeeds, so it returns the
    changed session. The world of an operation is the store's and the random
    tape; the clock is an argument. Zeroing of dead buffers is not modelled. *)

From Stdlib Require Import ZArith Lia.
From Stdlib Require Import Strings.Byte.
From stdpp Require Import base gmap strings list list_numbers vector.
From S2P Require Import Prelude Crypto Keys X3dh Ratchet RatchetProofs RatchetCodec SpqrUtil SpqrChain SpqrMlkem SpqrState Protowire Wire Store.
Import Crypto Keys.

Module Session.

(** *** session.go *)

Definition CurrentVersion : Z := 1.

Record Session : Type := mkSession {
  ratchetState : Ratchet.State;
  pqrState : option SpqrState.State;
  localIdentity : IdentityKey;
  remoteIdentity : IdentityKey;
  associatedData : bytes;
  previousStates : list (option Ratchet.State);
  version : Z
}.

Definition set_version (v : Z) (s : Session) : Session :=
  mkSession (ratchetState s) (pqrState s) (localIdentity s) (remoteIdentity s) (associatedData s) (previousStates s) v.
Definition set_pqrState (p : option SpqrState.State) (s : Session) : Session :=
  mkSession (ratchetState s) p (localIdentity s) (remoteIdentity s) (associatedData s) (previousStates s) (version s).
Definition set_ratchetState (r : Ratchet.State) (s : Session) : Session :=
  mkSession r (pqrState s) (localIdentity s) (remoteIdentity s) (associatedData s) (previousStates s) (version s).

Definition NewSession (state : Ratchet.State) (local remote : IdentityKey) (ad : bytes) : Session :=
  mkSession state None local remote ad [] CurrentVersion.

Definition ArchiveState (newState : Ratchet.State) (maxPrevious : Z) (s : Session) : Session :=
  let prev := Some (ratchetState s) :: previousStates s in
  let prev := if (maxPrevious >? 0) && (len prev >? maxPrevious) then take (Z.to_nat maxPrevious) prev else prev in
  mkSession newState (pqrState s) (localIdentity s) (remoteIdentity s) (associatedData s) prev CurrentVersion.

Definition cloneStateSlice (states : list (option Ratchet.State)) : list (option Ratchet.State) :=
  filter is_Some states.

Section clone.
Context `{Primitives} `{MLKEM}.

(** [Clone] of the post-quantum state is nil when it fails. *)
Definition clone (s : Session) : Session :=
  mkSession (ratchetState s) (pqrState s ≫= SpqrState.Clone) (localIdentity s) (remoteIdentity s) (associatedData s)
    (cloneStateSlice (previousStates s)) (version s).
End clone.

(** *** version.go *)

Definition normalizeCiphertextVersion (v : Z) : option Z :=
  if (v >=? Wire.CiphertextMessagePreKyberVersion) && (v <=? Wire.CiphertextMessageCurrentVersion) then Some v else None.

Definition setSessionCiphertextVersion (v : Z) (s : Session) : Session :=
  match normalizeCiphertextVersion v with Some v => set_version v s | None => s end.

Definition ciphertextVersionForSession (s : Session) : Z :=
  default Wire.CiphertextMessageCurrentVersion (normalizeCiphertextVersion (version s)).

Definition ciphertextVersionFromX3DH (msg : X3dh.Message) : Z :=
  if negb (is_nil (X3dh.msg_KyberPreKeyID msg)) || (len (X3dh.msg_KyberCiphertext msg) >? 0)
  then Wire.CiphertextMessageCurrentVersion else Wire.CiphertextMessagePreKyberVersion.

(** *** record.go *)

Definition DefaultMaxArchivedSessions : Z := 5.

Record Record_ : Type := mkRecord { current : Session; archived : list Session; maxArchived : Z }.

Definition set_current (s : Session) (r : Record_) : Record_ := mkRecord s (archived r) (maxArchived r).

Section session.
Context `{Primitives} `{KyberPrims} `{XEdDSA} `{MLKEM} `{Protowire}.

Definition NewRecord (cur : Session) (max : Z) : Record_ :=
  mkRecord (clone cur) [] (if max <=? 0 then DefaultMaxArchivedSessions else max).

(** [next] is the archived session at position [from], or not one of them:
    the code compares pointers. *)
Definition Promote (next : Session) (from : option nat) (r : Record_) : Record_ :=
  let filtered := match from with Some i => delete i (archived r) | None => archived r end in
  let all := clone (current r) :: filtered in
  mkRecord (clone next) (if len all >? maxArchived r then take (Z.to_nat (maxArchived r)) all else all) (maxArchived r).

Definition recordSerializeMagic : bytes := str "SIGR".
Definition recordSerializeVersion : byte := Byte.x01.
Definition recordMinSize : Z := 4 + 1 + 2 + 4 + 2.
Definition sessionSerializeVersion : byte := Byte.x02.
Definition sessionIdentitySize : Z := 1 + 32 + 32.

(** A 32-bit length and the bytes. *)
Definition sized (b : bytes) : bytes := AppendUint32 (u32 (len b)) ++ b.

Definition previous_bytes (st : option Ratchet.State) : bytes :=
  match st with None => AppendUint32 0 | Some st => sized (RatchetCodec.State_Serialize st) end.

Definition serializeSession (s : Session) : bytes :=
  [sessionSerializeVersion; z2b (if version s =? 0 then CurrentVersion else version s)] ++
  IdentityKey_Serialize (localIdentity s) ++ IdentityKey_Serialize (remoteIdentity s) ++
  sized (associatedData s) ++ sized (SpqrState.Serialize (pqrState s)) ++ sized (RatchetCodec.State_Serialize (ratchetState s)) ++
  AppendUint32 (u32 (len (previousStates s))) ++ mjoin (previous_bytes <$> previousStates s).

Definition Serialize (r : Record_) : bytes :=
  let max := if maxArchived r <=? 0 then DefaultMaxArchivedSessions else maxArchived r in
  let arch := if len (archived r) >? max then take (Z.to_nat max) (archived r) else archived r in
  recordSerializeMagic ++ [recordSerializeVersion] ++ AppendUint16 (u16 max) ++ sized (serializeSession (current r)) ++
  AppendUint16 (u16 (len arch)) ++ mjoin ((fun s => sized (serializeSession s)) <$> arch).

(** The identity's own error is replaced. *)
Definition rd_session_identity : reader IdentityKey :=
  _ ← rd_need sessionIdentitySize ErrInvalidMessage;
  b ← rd_take sessionIdentitySize;
  rd_lift (match DeserializeIdentityKey b with Err _ => Err ErrInvalidMessage | r => r end).

Definition rd_pqr : reader (option SpqrState.State) :=
  _ ← rd_need 4 ErrInvalidMessage;
  n ← rd_u32;
  _ ← rd_check (n <? 0) ErrInvalidMessage;
  _ ← rd_need n ErrInvalidMessage;
  b ← rd_take n;
  if n >? 0 then rd_lift (SpqrState.DeserializeState b) else mret None.

(** One iteration of the loop over the previous states. *)
Definition rd_previous (prev : list (option Ratchet.State)) : reader (list (option Ratchet.State)) :=
  _ ← rd_need 4 ErrInvalidMessage;
  n ← rd_u32;
  if n =? 0 then mret (prev ++ [None])
  else
    _ ← rd_check (n <? 0) ErrInvalidMessage;
    _ ← rd_need n ErrInvalidMessage;
    b ← rd_take n;
    st ← rd_lift (RatchetCodec.DeserializeState b);
    mret (prev ++ [Some st]).

Definition rd_session : reader Session :=
  ver ← rd_byte;
  _ ← rd_check (negb (bool_decide (ver = Byte.x01)) && negb (bool_decide (ver = sessionSerializeVersion))) ErrInvalidMessage;
  v ← rd_byte;
  let v := if b2z v =? 0 then CurrentVersion else b2z v in
  localID ← rd_session_identity;
  remoteID ← rd_session_identity;
  _ ← rd_need 4 ErrInvalidMessage;
  adLen ← rd_u32;
  _ ← rd_check (adLen <? 0) ErrInvalidMessage;
  _ ← rd_need adLen ErrInvalidMessage;
  ad ← rd_take adLen;
  pqr ← (if bool_decide (ver = sessionSerializeVersion) then rd_pqr else mret None);
  _ ← rd_need 4 ErrInvalidMessage;
  stateLen ← rd_u32;
  _ ← rd_check (stateLen <=? 0) ErrInvalidMessage;
  _ ← rd_need stateLen ErrInvalidMessage;
  b ← rd_take stateLen;
  st ← rd_lift (RatchetCodec.DeserializeState b);
  _ ← rd_need 4 ErrInvalidMessage;
  prevCount ← rd_u32;
  _ ← rd_check ((prevCount <? 0) || (prevCount >? 1000)) ErrInvalidMessage;
  prev ← rd_for (Z.to_nat prevCount) rd_previous [];
  _ ← rd_eof ErrInvalidMessage;
  mret (mkSession st pqr localID remoteID ad prev v).

Definition deserializeSession (data : bytes) : res Session :=
  _ ← check (len data <? 1 + 1 + sessionIdentitySize * 2 + 4) ErrInvalidMessage;
  rd_run rd_session data.

(** One iteration of the loop over the archived sessions. *)
Definition rd_archived (max : Z) (arch : list Session) : reader (list Session) :=
  _ ← rd_need 4 ErrInvalidMessage;
  n ← rd_u32;
  _ ← rd_check (n <=? 0) ErrInvalidMessage;
  _ ← rd_need n ErrInvalidMessage;
  b ← rd_take n;
  if len arch <? max then s ← rd_lift (deserializeSession b); mret (arch ++ [s]) else mret arch.

(** The number of archived sessions is read without a bounds check. *)
Definition DeserializeRecord (data : bytes) : res Record_ :=
  _ ← check (len data =? 0) ErrInvalidMessage;
  _ ← check (len data <? recordMinSize) ErrInvalidMessage;
  rd_run (
    magic ← rd_take 4;
    _ ← rd_check (negb (bool_decide (magic = recordSerializeMagic))) ErrInvalidMessage;
    ver ← rd_byte;
    _ ← rd_check (negb (bool_decide (ver = recordSerializeVersion))) ErrInvalidMessage;
    _ ← rd_need (2 + 4 + 2) ErrInvalidMessage;
    max ← rd_u16;
    let max := if max <=? 0 then DefaultMaxArchivedSessions else max in
    curLen ← rd_u32;
    _ ← rd_check (curLen <=? 0) ErrInvalidMessage;
    _ ← rd_need curLen ErrInvalidMessage;
    b ← rd_take curLen;
    cur ← rd_lift (deserializeSession b);
    count ← rd_u16;
    arch ← rd_for (Z.to_nat count) (rd_archived max) [];
    _ ← rd_eof ErrInvalidMessage;
    mret (mkRecord cur arch max)) data.

(** *** pqr.go *)

Definition initSessionPQR (s : Session) (result : X3dh.Result) (isInitiator : bool) : res Session :=
  match X3dh.PQRKey result with
  | None => Ok s
  | Some key =>
      let dir := if isInitiator then Util.DirectionA2B else Util.DirectionB2A in
      state ← SpqrState.NewState (vec_to_list key) dir (SpqrChain.mkParams 0 0);
      mret (set_pqrState (Some state) s)
  end.

(** *** builder.go *)

Context {W} `{IdentityKeyStore W} `{PreKeyStore W} `{SignedPreKeyStore W} `{KyberPreKeyStore W} `{SessionStore W}.

Definition x3dh_store : X3dh.PreKeyStore W := X3dh.mkPreKeyStore W LoadPreKey RemovePreKey LoadKyberPreKey.

Definition is_trusted (addr : Address) (k : IdentityKey) (dir : Direction) : ST (W * tape) unit := fun '(w, t) =>
  if IsTrustedIdentity addr (Some k) dir w then ((w, t), Ok tt) else ((w, t), Err ErrUntrustedIdentity).

Definition ProcessPreKeyBundle (addr : Address) (bundle : PreKeyBundle) : ST (W * tape) (Session * X3dh.Message) :=
  localID ← st_fst GetIdentityKeyPair;
  _ ← is_trusted addr (BundleIdentityKey bundle) DirectionSending;
  match localID with
  | None => st_err (ErrText "initiator: identity key required")
  | Some localID =>
      result ← st_snd (X3dh.ProcessPreKeyBundle (X3dh.NewInitiator localID) bundle);
      state ← st_snd (Ratchet.InitializeState result true);
      let session := NewSession state (ikp_PublicKey localID) (BundleIdentityKey bundle) (X3dh.AssociatedDataBytes result) in
      session ← st_lift (initSessionPQR session result true);
      let session := setSessionCiphertextVersion (ciphertextVersionFromX3DH (X3dh.InitialMessage result)) session in
      _ ← st_fst (SaveIdentity addr (Some (BundleIdentityKey bundle)));
      mret (session, X3dh.InitialMessage result)
  end.

Definition ProcessPreKeyMessage (now : Z) (addr : Address) (msg : X3dh.Message) : ST (W * tape) (Session * bytes) :=
  identityKey ← st_fst GetIdentityKeyPair;
  _ ← is_trusted addr (X3dh.msg_IdentityKey msg) DirectionReceiving;
  signedPreKey ← st_fst (LoadSignedPreKey (X3dh.msg_SignedPreKeyID msg));
  match signedPreKey with
  | None => st_err ErrPreKeyNotFound
  | Some spk =>
      '(w, _) ← st_get;
      _ ← st_check (SignedPreKeyExpired (Some spk) now w) ErrPreKeyExpired;
      match identityKey with
      | None => st_err (ErrText "responder: missing keys")
      | Some identityKey =>
          result ← st_fst (X3dh.ProcessInitialMessage (X3dh.mkResponder W identityKey spk x3dh_store true) msg);
          state ← st_snd (Ratchet.InitializeState result false);
          let session := NewSession state (ikp_PublicKey identityKey) (X3dh.msg_IdentityKey msg) (X3dh.AssociatedDataBytes result) in
          session ← st_lift (initSessionPQR session result false);
          let session := setSessionCiphertextVersion (ciphertextVersionFromX3DH msg) session in
          _ ← st_fst (SaveIdentity addr (Some (X3dh.msg_IdentityKey msg)));
          mret (session, X3dh.AssociatedDataBytes result)
      end
  end.

(** *** wire_cipher.go, and the same methods of cipher.go *)

Definition loadRecordOptional (addr : Address) : ST (W * tape) (option Record_) :=
  rec ← st_fst (LoadSession addr);
  match rec with
  | None => mret None
  | Some data =>
      if len data =? 0 then mret None
      else
        record ← st_lift (match DeserializeRecord data with Err _ => Err ErrInvalidMessage | r => r end);
        mret (Some record)
  end.

Definition loadRecordRequired (addr : Address) : ST (W * tape) Record_ :=
  record ← loadRecordOptional addr;
  match record with None => st_err ErrNoSession | Some record => mret record end.

Definition persistRecord (addr : Address) (record : Record_) : ST (W * tape) unit :=
  _ ← st_fst (StoreSession addr (Some (Serialize record)));
  st_fst (EnforceSessionLimit addr).

(** The session after the message, and the message. *)
Definition encryptSignalMessage (session : Session) (plaintext : bytes) : ST tape (Session * Wire.SignalMessage) :=
  let '(state, r) := Ratchet.NextSendingMessageKey (ratchetState session) in
  '(header, mk) ← st_lift r;
  let session := set_ratchetState state session in
  '(session, pqRatchet, salt) ←
    match pqrState session with
    | None => mret (session, [], [])
    | Some p =>
        match SpqrState.Clone p with
        | None => st_err SpqrErrStateDecode
        | Some pqrNext => fun t =>
            let '((pqrNext, t), r) := SpqrState.Send (pqrNext, t) in
            (t, '(pqRatchet, salt) ← r; mret (set_pqrState (Some pqrNext) session, pqRatchet, salt))
        end
    end;
  '(encKey, macKey, iv) ← st_lift (Ratchet.DeriveMessageKeysWithSalt mk salt);
  ciphertext ← st_lift (AESCBCEncrypt encKey iv plaintext);
  msg ← st_lift (Wire.NewSignalMessage (ciphertextVersionForSession session) macKey (Ratchet.hdr_DH header) (Ratchet.hdr_N header)
                   (Ratchet.hdr_PN header) ciphertext (localIdentity session) (remoteIdentity session) pqRatchet);
  mret (session, msg).

Definition decryptSignalWithSession (session : Session) (msg : Wire.SignalMessage) : ST tape (Session * bytes) :=
  let msgVersion := Wire.sm_messageVersion msg in
  let sessionVersion := normalizeCiphertextVersion (version session) in
  _ ← st_check (match sessionVersion with Some v => negb (msgVersion =? v) | None => false end) ErrInvalidMessage;
  let header := Ratchet.mkHeader (Wire.sm_senderRatchet msg) (Wire.sm_previousCounter msg) (Wire.sm_counter msg) in
  '(next, mk) ← (fun t => let '((next, t), r) := Ratchet.AdvanceForHeader header (ratchetState session, t) in
                          (t, mk ← r; mret (next, mk)));
  let pqRatchet := Wire.sm_pqRatchet msg in
  '(pqrNext, salt) ←
    match pqrState session with
    | Some p =>
        match SpqrState.Clone p with
        | None => st_err SpqrErrStateDecode
        | Some pqrNext =>
            let '(pqrNext, r) := SpqrState.Receive pqRatchet pqrNext in
            salt ← st_lift r;
            mret (Some pqrNext, salt)
        end
    | None =>
        _ ← st_check (len pqRatchet >? 0) ErrInvalidMessage;
        mret (None, [])
    end;
  '(encKey, macKey, iv) ← st_lift (Ratchet.DeriveMessageKeysWithSalt mk salt);
  ok ← st_lift (Wire.VerifyMAC msg (remoteIdentity session) (localIdentity session) macKey);
  _ ← st_check (negb ok) ErrInvalidMAC;
  plaintext ← st_lift (match AESCBCDecrypt encKey iv (Wire.sm_ciphertext msg) with Err _ => Err ErrInvalidMAC | r => r end);
  let session := match sessionVersion with None => setSessionCiphertextVersion msgVersion session | Some _ => session end in
  let session := set_ratchetState next session in
  mret (match pqrNext with Some _ => set_pqrState pqrNext session | None => session end, plaintext).

Section try.
(** Decrypting with one session: of the wire format or of the older one. *)
Variable decrypt : Session -> ST tape (Session * bytes).

(** The loop over the archived sessions: the position of the one that decrypts,
    the session after the message and the plaintext. [err] is the error of the
    current session. *)
Fixpoint try_archived (err : error) (i : nat) (l : list Session) : ST tape (nat * Session * bytes) := fun t =>
  match l with
  | [] => (t, Err err)
  | candidate :: l =>
      match decrypt candidate t with
      | (t, Ok (s, plaintext)) => (t, Ok (i, s, plaintext))
      | (t, Err e) => if decide (e = ErrDuplicateMessage) then (t, Err e) else try_archived err (S i) l t
      | (t, Panic) => (t, Panic)
      end
  end.

(** [decryptSignalMessage] and [decryptRatchetMessage]: the record after the
    message. *)
Definition decrypt_record (record : Record_) : ST tape (Record_ * bytes) := fun t =>
  match decrypt (current record) t with
  | (t, Ok (s, plaintext)) => (t, Ok (set_current s record, plaintext))
  | (t, Err e) =>
      if decide (e = ErrDuplicateMessage) then (t, Err e)
      else ('(i, s, plaintext) ← try_archived e 0 (archived record);
            mret (Promote s (Some i) record, plaintext)) t
  | (t, Panic) => (t, Panic)
  end.

(** What both ciphers do with a pre-key message: the sessions there are first,
    then a new one. *)
Definition decrypt_prekey (now : Z) (addr : Address) (record : option Record_) (x3msg : X3dh.Message) : ST (W * tape) bytes :=
  '(done : option (Record_ * bytes)) ←
    match record with
    | None => mret None
    | Some record => fun '(w, t) =>
        match decrypt_record record t with
        | (t, Ok x) => ((w, t), Ok (Some x))
        | (t, Err e) => if decide (e = ErrDuplicateMessage) then ((w, t), Err e) else ((w, t), Ok None)
        | (t, Panic) => ((w, t), Panic)
        end
    end;
  match done with
  | Some (record, plaintext) => _ ← persistRecord addr record; mret plaintext
  | None =>
      '(session, _) ← ProcessPreKeyMessage now addr x3msg;
      '(session, plaintext) ← st_snd (decrypt session);
      let record := match record with
                    | None => NewRecord session DefaultMaxArchivedSessions
                    | Some record => Promote session None record
                    end in
      _ ← persistRecord addr record;
      mret plaintext
  end.
End try.

Definition decryptSignalMessage (record : Record_) (msg : Wire.SignalMessage) : ST tape (Record_ * bytes) :=
  decrypt_record (fun s => decryptSignalWithSession s msg) record.

(** [WireCipher.Encrypt] *)
Definition Encrypt (addr : Address) (plaintext : bytes) : ST (W * tape) bytes :=
  record ← loadRecordRequired addr;
  '(session, msg) ← st_snd (encryptSignalMessage (current record) plaintext);
  _ ← persistRecord addr (set_current session record);
  mret (Wire.sm_serialized msg).

Definition x3dh_message (msg : Wire.PreKeySignalMessage) : X3dh.Message :=
  X3dh.mkMessage (Wire.pm_identityKey msg) (Wire.pm_baseKey msg) (Wire.pm_preKeyID msg) (Wire.pm_signedPreKeyID msg)
    (Wire.pm_kyberPreKeyID msg) (Wire.pm_kyberCiphertext msg) (Wire.sm_serialized (Wire.pm_message msg)).

Definition decryptPreKeyMessage (now : Z) (addr : Address) (record : option Record_) (msg : Wire.PreKeySignalMessage) :
    ST (W * tape) bytes :=
  decrypt_prekey (fun s => decryptSignalWithSession s (Wire.pm_message msg)) now addr record (x3dh_message msg).

(** [WireCipher.Decrypt] *)
Definition Decrypt (now : Z) (addr : Address) (ciphertext : bytes) : ST (W * tape) bytes :=
  record ← loadRecordOptional addr;
  match Wire.ParseSignalMessage ciphertext with
  | Ok msg =>
      match record with
      | None => st_err ErrNoSession
      | Some record =>
          '(record, plaintext) ← st_snd (decryptSignalMessage record msg);
          _ ← persistRecord addr record;
          mret plaintext
      end
  | Err _ =>
      preKeyMsg ← st_lift (Wire.ParsePreKeySignalMessage ciphertext);
      decryptPreKeyMessage now addr record preKeyMsg
  | Panic => st_lift Panic
  end.

Definition no_session (addr : Address) : ST (W * tape) unit := fun '(w, t) =>
  if ContainsSession addr w then ((w, t), Err ErrStaleKeyExchange) else ((w, t), Ok tt).

(** [WireCipher.EncryptWithPreKeyBundle] *)
Definition EncryptWithPreKeyBundle (addr : Address) (bundle : PreKeyBundle) (plaintext : bytes) : ST (W * tape) bytes :=
  _ ← no_session addr;
  '(session, x3msg) ← ProcessPreKeyBundle addr bundle;
  '(session, signalMsg) ← st_snd (encryptSignalMessage session plaintext);
  registrationID ← st_fst GetLocalRegistrationID;
  preKeyMsg ← st_lift (Wire.NewPreKeySignalMessage (ciphertextVersionForSession session) registrationID
    (X3dh.msg_PreKeyID x3msg) (X3dh.msg_SignedPreKeyID x3msg) (X3dh.msg_KyberPreKeyID x3msg) (X3dh.msg_KyberCiphertext x3msg)
    (X3dh.msg_EphemeralKey x3msg) (X3dh.msg_IdentityKey x3msg) signalMsg);
  _ ← persistRecord addr (NewRecord session DefaultMaxArchivedSessions);
  mret (Wire.pm_serialized preKeyMsg).

(** *** cipher.go, prekey_cipher.go: the older envelope format *)

Definition envelopeVersion : byte := Byte.x01.
Definition envelopeTypeSignal : byte := Byte.x01.
Definition envelopeTypePreKey : byte := Byte.x02.

Definition encodeEnvelope (msgType : byte) (payload : bytes) : bytes :=
  [envelopeVersion; msgType] ++ AppendUint32 (u32 (len payload)) ++ payload.

Definition decodeEnvelope (data : bytes) : res (byte * bytes) :=
  _ ← check (len data <? 6) ErrInvalidMessage;
  v ← index data 0;
  _ ← check (negb (bool_decide (v = envelopeVersion))) ErrInvalidMessage;
  msgType ← index data 1;
  l ← slice data 2 6;
  let payloadLen := be_value l in
  payload ← slice data 6 (len data);
  _ ← check ((payloadLen <? 0) || negb (len payload =? payloadLen)) ErrInvalidMessage;
  mret (msgType, payload).

Definition encodeRatchetMessage (msg : Ratchet.Message) : bytes :=
  Ratchet.Header_Serialize (Ratchet.Header_ msg) ++ AppendUint32 (u32 (len (Ratchet.Ciphertext msg))) ++ Ratchet.Ciphertext msg.

Definition decodeRatchetMessage (data : bytes) : res Ratchet.Message :=
  _ ← check (len data <? 40 + 4) ErrInvalidMessage;
  h ← slice data 0 40;
  header ← match Ratchet.DeserializeHeader h with Err _ => Err ErrInvalidMessage | r => r end;
  l ← slice data 40 (40 + 4);
  let ctLen := be_value l in
  ciphertext ← slice data (40 + 4) (len data);
  _ ← check ((ctLen <? 0) || negb (len ciphertext =? ctLen)) ErrInvalidMessage;
  mret (Ratchet.mkMessage header ciphertext).

(** [session.CurrentState().Decrypt(msg, session.AssociatedData())], which
    changes the state only when it succeeds. *)
Definition decrypt_ratchet (session : Session) (msg : Ratchet.Message) : ST tape (Session * bytes) := fun t =>
  let '((state, t), r) := Ratchet.Decrypt msg (associatedData session) (ratchetState session, t) in
  (t, plaintext ← r; mret (set_ratchetState state session, plaintext)).

Definition encrypt_ratchet (session : Session) (plaintext : bytes) : res (Session * Ratchet.Message) :=
  let '(state, r) := Ratchet.Encrypt plaintext (associatedData session) (ratchetState session) in
  msg ← r; mret (set_ratchetState state session, msg).

Definition decryptRatchetMessage (record : Record_) (msg : Ratchet.Message) : ST tape (Record_ * bytes) :=
  decrypt_record (fun s => decrypt_ratchet s msg) record.

Definition Cipher_Encrypt (addr : Address) (plaintext : bytes) : ST (W * tape) bytes :=
  record ← loadRecordRequired addr;
  '(session, msg) ← st_lift (encrypt_ratchet (current record) plaintext);
  _ ← persistRecord addr (set_current session record);
  mret (encodeEnvelope envelopeTypeSignal (encodeRatchetMessage msg)).

Definition Cipher_EncryptWithPreKeyBundle (addr : Address) (bundle : PreKeyBundle) (plaintext : bytes) : ST (W * tape) bytes :=
  _ ← no_session addr;
  '(session, msg) ← ProcessPreKeyBundle addr bundle;
  '(session, ratchetMsg) ← st_lift (encrypt_ratchet session plaintext);
  let msg := X3dh.mkMessage (X3dh.msg_IdentityKey msg) (X3dh.msg_EphemeralKey msg) (X3dh.msg_PreKeyID msg)
    (X3dh.msg_SignedPreKeyID msg) (X3dh.msg_KyberPreKeyID msg) (X3dh.msg_KyberCiphertext msg) (encodeRatchetMessage ratchetMsg) in
  _ ← persistRecord addr (NewRecord session DefaultMaxArchivedSessions);
  preKeyPayload ← st_lift (match X3dh.Message_Serialize msg with Err _ => Err ErrInvalidMessage | r => r end);
  mret (encodeEnvelope envelopeTypePreKey preKeyPayload).

Definition Cipher_decryptPreKeyMessage (now : Z) (addr : Address) (payload : bytes) : ST (W * tape) bytes :=
  msg ← st_lift (match X3dh.DeserializeMessage payload with Err _ => Err ErrInvalidMessage | r => r end);
  _ ← st_check (len (X3dh.msg_Ciphertext msg) =? 0) ErrInvalidMessage;
  ratchetMsg ← st_lift (decodeRatchetMessage (X3dh.msg_Ciphertext msg));
  record ← loadRecordOptional addr;
  decrypt_prekey (fun s => decrypt_ratchet s ratchetMsg) now addr record msg.

Definition Cipher_Decrypt (now : Z) (addr : Address) (data : bytes) : ST (W * tape) bytes :=
  '(msgType, payload) ← st_lift (decodeEnvelope data);
  if bool_decide (msgType = envelopeTypeSignal) then
    msg ← st_lift (decodeRatchetMessage payload);
    record ← loadRecordRequired addr;
    '(record, plaintext) ← st_snd (decryptRatchetMessage record msg);
    _ ← persistRecord addr record;
    mret plaintext
  else if bool_decide (msgType = envelopeTypePreKey) then Cipher_decryptPreKeyMessage now addr payload
  else st_err ErrInvalidMessage.

End session.
End Session.
