(* ===== verification/SessionProofs.v ===== *)
(** * Sessions: the stored records

    Session records are read back from their bytes, and what
    [DeserializeRecord] does on other bytes. *)

From Stdlib Require Import ZArith Lia.
From Stdlib Require Import Strings.Byte.
From stdpp Require Import base gmap strings list list_numbers vector.
From S2P Require Import Prelude Crypto Keys X3dh Ratchet RatchetProofs RatchetCodec SpqrUtil SpqrChain SpqrMlkem SpqrState SpqrStateProofs Protowire Wire Store Session.
Import Crypto Keys Session.

Section codec.
Context `{Primitives} `{MLKEM}.

(** ** The format *)

(** The post-quantum state after a store and a load: a disabled one is not
    stored, the others lose the answer that [SpqrV1.v1_reset] recomputes. *)
Definition pqr_stored (p : option SpqrState.State) : option SpqrState.State :=
  p ← p; if SpqrState.version p =? Util.VersionDisabled then None else Some (SpqrStateProofs.state_reset p).

Definition pqr_wf (p : option SpqrState.State) : Prop :=
  match p with
  | None => True
  | Some p => SpqrState.version p = Util.VersionDisabled \/ SpqrStateProofs.state_wf p
  end.

Definition ratchet_wf (st : Ratchet.State) : Prop :=
  RatchetCodec.serializable st /\ len (RatchetCodec.State_Serialize st) < 2 ^ 32.

Record session_wf (s : Session) : Prop := {
  swf_version : 0 < version s < 256;
  swf_local : IsValidPublicKey (ik_PublicKey (localIdentity s)) = true;
  swf_remote : IsValidPublicKey (ik_PublicKey (remoteIdentity s)) = true;
  swf_ad : len (associatedData s) < 2 ^ 32;
  swf_pqr : pqr_wf (pqrState s) /\ len (SpqrState.Serialize (pqrState s)) < 2 ^ 32;
  swf_ratchet : ratchet_wf (ratchetState s);
  swf_prev : Forall (fun st => match st with Some st => ratchet_wf st | None => True end) (previousStates s);
  swf_prevs : len (previousStates s) <= 1000;
  swf_size : len (serializeSession s) < 2 ^ 32
}.

Definition session_stored (s : Session) : Session := set_pqrState (pqr_stored (pqrState s)) s.

Record record_wf (r : Record_) : Prop := {
  rwf_max : 0 < maxArchived r < 2 ^ 16;
  rwf_count : len (archived r) <= maxArchived r;
  rwf_current : session_wf (current r);
  rwf_archived : Forall session_wf (archived r)
}.

Definition record_stored (r : Record_) : Record_ :=
  mkRecord (session_stored (current r)) (session_stored <$> archived r) (maxArchived r).

(** Reading a length, checked, and the bytes. *)
Lemma reads_sized {A} (bad : Z -> bool) b (k : Z -> bytes -> reader A) enc v :
  len b < 2 ^ 32 -> bad (len b) = false -> reads (k (len b) b) enc v ->
  reads (_ ← rd_need 4 ErrInvalidMessage; n ← rd_u32; _ ← rd_check (bad n) ErrInvalidMessage;
         _ ← rd_need n ErrInvalidMessage; b ← rd_take n; k n b) (sized b ++ enc) v.
Proof.
  intros Hl Hbad Hk. pose proof (len_nonneg b). pose proof (len_nonneg enc). unfold sized. rewrite u32_id by (unfold is_u32; lia).
  rewrite <- app_assoc. apply reads_need; [lens|]. eapply reads_bind; [apply reads_uint; lia|]. apply reads_check; [done|].
  apply reads_need; [lens|]. eapply reads_bind; [by apply reads_take|]. done.
Qed.

Lemma reads_end_sized {A} (bad : Z -> bool) b (k : Z -> bytes -> reader A) enc v :
  len b < 2 ^ 32 -> bad (len b) = false -> reads_end (k (len b) b) enc v ->
  reads_end (_ ← rd_need 4 ErrInvalidMessage; n ← rd_u32; _ ← rd_check (bad n) ErrInvalidMessage;
         _ ← rd_need n ErrInvalidMessage; b ← rd_take n; k n b) (sized b ++ enc) v.
Proof.
  intros Hl Hbad Hk. pose proof (len_nonneg b). pose proof (len_nonneg enc). unfold sized. rewrite u32_id by (unfold is_u32; lia).
  rewrite <- app_assoc. apply reads_end_need; [lens|]. eapply reads_end_bind; [apply reads_uint; lia|]. apply reads_end_check; [done|].
  apply reads_end_need; [lens|]. eapply reads_end_bind; [by apply reads_take|]. done.
Qed.

Lemma identity_len k : len (IdentityKey_Serialize k) = sessionIdentitySize.
Proof. unfold IdentityKey_Serialize. by autorewrite with len. Qed.

Lemma reads_session_identity k :
  IsValidPublicKey (ik_PublicKey k) = true -> reads rd_session_identity (IdentityKey_Serialize k) k.
Proof.
  intros Hv. unfold rd_session_identity. apply reads_need; [by rewrite identity_len|].
  eapply reads_bind_end; [by apply reads_take; rewrite identity_len|].
  apply reads_lift. by rewrite DeserializeIdentityKey_serialize.
Qed.

Lemma State_Serialize_len st : 2 <= len (RatchetCodec.State_Serialize st).
Proof. unfold RatchetCodec.State_Serialize. lens. Qed.

Lemma pqr_decode p :
  pqr_wf p -> len (SpqrState.Serialize p) > 0 -> SpqrState.DeserializeState (SpqrState.Serialize p) = Ok (pqr_stored p).
Proof.
  intros Hp Hl. destruct p as [p|]; [|done]. destruct Hp as [Hv|Hwf].
  - unfold SpqrState.Serialize in Hl. by rewrite Hv in Hl.
  - rewrite SpqrStateProofs.SpqrState_roundtrip by done. unfold pqr_stored. cbn [mbind option_bind].
    by rewrite (SpqrStateProofs.sw_version _ Hwf).
Qed.

Lemma pqr_not_stored p : pqr_wf p -> len (SpqrState.Serialize p) <= 0 -> pqr_stored p = None.
Proof.
  intros Hp Hl. destruct p as [p|]; [|done]. cbn. destruct Hp as [->|Hwf]; [done|]. exfalso.
  pose proof (SpqrStateProofs.SpqrState_roundtrip p Hwf) as Hr. revert Hr. destruct (SpqrState.Serialize (Some p)) as [|x l].
  - done.
  - rewrite len_cons in Hl. pose proof (len_nonneg l). lia.
Qed.

Lemma reads_pqr p : pqr_wf p -> len (SpqrState.Serialize p) < 2 ^ 32 -> reads rd_pqr (sized (SpqrState.Serialize p)) (pqr_stored p).
Proof.
  intros Hp Hl. rewrite <- (app_nil_r (sized _)). unfold rd_pqr. pose proof (len_nonneg (SpqrState.Serialize p)).
  apply (reads_sized (fun n => n <? 0)); [done|by apply Z.ltb_ge|].
  destruct (Z.gtb_spec (len (SpqrState.Serialize p)) 0).
  - apply reads_lift, pqr_decode; [done|lia].
  - rewrite pqr_not_stored by done. apply reads_ret.
Qed.

Lemma reads_previous l :
  Forall (fun st => match st with Some st => ratchet_wf st | None => True end) l ->
  reads (rd_for (length l) rd_previous []) (mjoin (previous_bytes <$> l)) l.
Proof.
  intros Hl. eapply reads_eq; [apply (reads_for _ previous_bytes (fun acc st => acc ++ [st]))|apply (foldl_snoc [])].
  intros acc [st|] Hin; rewrite Forall_forall in Hl; specialize (Hl _ Hin); unfold rd_previous, previous_bytes; cbn beta iota.
  - destruct Hl as [Hs Hlen]. pose proof (State_Serialize_len st). unfold sized. rewrite u32_id by (unfold is_u32; lia).
    apply reads_need; [lens|]. eapply reads_bind; [apply reads_uint; lia|]. rewrite (proj2 (Z.eqb_neq _ 0)) by lia.
    apply reads_check; [apply Z.ltb_ge; lia|]. apply reads_need; [lens|]. eapply reads_bind_end; [by apply reads_take|].
    eapply reads_bind_nil; [by apply reads_lift, RatchetCodec.DeserializeState_serialize|]. apply reads_ret.
  - apply reads_need; [lens|]. eapply reads_bind_end; [by apply reads_uint|]. apply reads_ret.
Qed.

Lemma reads_session s : session_wf s -> reads_end rd_session (serializeSession s) (session_stored s).
Proof.
  intros [Hv Hlo Hre Had [Hp Hpl] [Hra Hral] Hpr Hcnt _]. unfold rd_session, serializeSession.
  rewrite (proj2 (Z.eqb_neq (version s) 0)) by lia. pose proof (len_nonneg (associatedData s)). pose proof (len_nonneg (previousStates s)).
  change ([?x; ?y] ++ ?l) with ([x] ++ [y] ++ l).
  eapply reads_end_bind; [apply reads_byte|]. apply reads_end_check; [done|].
  eapply reads_end_bind; [apply reads_byte|]. rewrite b2z_z2b, Z.mod_small by lia. rewrite (proj2 (Z.eqb_neq (version s) 0)) by lia.
  eapply reads_end_bind; [by apply reads_session_identity|]. eapply reads_end_bind; [by apply reads_session_identity|].
  apply (reads_end_sized (fun n => n <? 0)); [done|by apply Z.ltb_ge|].
  rewrite bool_decide_true by done. eapply reads_end_bind; [by apply reads_pqr|].
  pose proof (State_Serialize_len (ratchetState s)).
  apply (reads_end_sized (fun n => n <=? 0)); [done|apply Z.leb_gt; lia|].
  eapply reads_end_nil; [by apply reads_lift, RatchetCodec.DeserializeState_serialize|].
  rewrite u32_id by (unfold is_u32; lia). apply reads_end_need; [lens|]. eapply reads_end_bind; [apply reads_uint; lia|].
  apply reads_end_check.
  { apply orb_false_iff. split; [by apply Z.ltb_ge|]. rewrite Z.gtb_ltb. by apply Z.ltb_ge. }
  unfold len at 1. rewrite Nat2Z.id. eapply reads_end_last; [by apply reads_previous|].
  apply reads_end_eof, reads_end_of, reads_ret.
Qed.

Lemma deserializeSession_serialize s : session_wf s -> deserializeSession (serializeSession s) = Ok (session_stored s).
Proof.
  intros Hs. unfold deserializeSession. rewrite (proj2 (Z.ltb_ge _ _)).
  - by apply reads_end_run, reads_session.
  - unfold serializeSession, sized, IdentityKey_Serialize, sessionIdentitySize. lens.
Qed.

Lemma serializeSession_len s : 0 < len (serializeSession s).
Proof. unfold serializeSession. lens. Qed.

Lemma reads_archived max l acc :
  Forall session_wf l -> len acc + len l <= max ->
  reads (rd_for (length l) (rd_archived max) acc) (mjoin ((fun s => sized (serializeSession s)) <$> l)) (acc ++ (session_stored <$> l)).
Proof.
  revert acc. induction l as [|s l IH]; intros acc Hl Hmax.
  - cbn. rewrite app_nil_r. apply reads_ret.
  - inversion Hl as [|? ? Hs Hl']; subst. rewrite len_cons in Hmax. pose proof (len_nonneg l).
    cbn [length rd_for fmap list_fmap mjoin list_join]. eapply (reads_bind _ _ _ (acc ++ [session_stored s])).
    + rewrite <- (app_nil_r (sized _)). unfold rd_archived. pose proof (serializeSession_len s).
      apply (reads_sized (fun n => n <=? 0)); [apply Hs|apply Z.leb_gt; lia|].
      rewrite (proj2 (Z.ltb_lt _ _)) by lia. eapply reads_bind_nil; [by apply reads_lift, deserializeSession_serialize|]. apply reads_ret.
    + eapply reads_eq; [apply IH; [done|]|by rewrite <- app_assoc]. rewrite len_app, len_cons, len_nil. lia.
Qed.

Lemma serializeSession_min s : 136 <= len (serializeSession s).
Proof. unfold serializeSession, sized, IdentityKey_Serialize. lens. Qed.

#[local] Ltac record_lens :=
  try match goal with |- context [mjoin ?l] => generalize (mjoin l); intros end;
  change recordMinSize with 13; unfold sized; lens.

Lemma DeserializeRecord_stored r : record_wf r -> DeserializeRecord (Serialize r) = Ok (record_stored r).
Proof.
  intros [Hmax Hcnt Hc Ha]. unfold DeserializeRecord, Serialize.
  rewrite (proj2 (Z.leb_gt (maxArchived r) 0)) by lia. rewrite (Z.gtb_ltb (len (archived r))), (proj2 (Z.ltb_ge (maxArchived r) _)) by lia.
  pose proof (serializeSession_min (current r)). pose proof (len_nonneg (archived r)).
  rewrite (proj2 (Z.eqb_neq _ 0)), (proj2 (Z.ltb_ge _ recordMinSize)); [cbn [check mbind res_bind]|record_lens..].
  apply reads_end_run. eapply reads_end_bind; [by apply reads_take|]. apply reads_end_check; [done|].
  eapply reads_end_bind; [apply reads_byte|]. apply reads_end_check; [done|].
  rewrite !u16_id by (unfold is_u16; lia). apply reads_end_need; [record_lens|].
  eapply reads_end_bind; [apply reads_uint; lia|]. rewrite (proj2 (Z.leb_gt (maxArchived r) 0)) by lia.
  unfold sized at 1. rewrite u32_id by (split; [lia|apply Hc]). rewrite <- app_assoc.
  eapply reads_end_bind; [apply reads_uint; split; [lia|apply Hc]|]. apply reads_end_check; [apply Z.leb_gt; lia|].
  apply reads_end_need; [lens|]. eapply reads_end_bind; [by apply reads_take|].
  eapply reads_end_nil; [by apply reads_lift, deserializeSession_serialize|].
  eapply reads_end_bind; [apply reads_uint; lia|]. unfold len at 1. rewrite Nat2Z.id.
  eapply reads_end_last; [apply reads_archived; [done|by rewrite len_nil]|].
  apply reads_end_eof, reads_end_of, reads_ret.
Qed.

(** The bytes of a record up to the number of archived sessions. *)
Definition record_prefix (max : Z) (cur : Session) : bytes :=
  recordSerializeMagic ++ [recordSerializeVersion] ++ AppendUint16 (u16 max) ++ sized (serializeSession cur).

Lemma DeserializeRecord_truncated cur max :
  session_wf cur -> 0 < max < 2 ^ 16 -> DeserializeRecord (record_prefix max cur) = Panic.
Proof.
  intros Hc Hmax. unfold DeserializeRecord, record_prefix. pose proof (serializeSession_min cur).
  rewrite (proj2 (Z.eqb_neq _ 0)), (proj2 (Z.ltb_ge _ recordMinSize)); [cbn [check mbind res_bind]|record_lens..].
  apply reads_panic_run. eapply reads_panic_bind; [by apply reads_take|]. apply reads_panic_check; [done|].
  eapply reads_panic_bind; [apply reads_byte|]. apply reads_panic_check; [done|].
  rewrite !u16_id by (unfold is_u16; lia). apply reads_panic_need; [unfold sized; lens|].
  eapply reads_panic_bind; [apply reads_uint; lia|]. unfold sized. rewrite u32_id by (split; [lia|apply Hc]).
  eapply reads_panic_bind; [apply reads_uint; split; [lia|apply Hc]|]. apply reads_panic_check; [apply Z.leb_gt; lia|].
  apply reads_panic_need; [done|]. rewrite <- (app_nil_r (serializeSession cur)) at 2. eapply reads_panic_bind; [by apply reads_take|].
  eapply (reads_panic_bind _ _ [] _ []); [by apply reads_lift, deserializeSession_serialize|].
  apply reads_panic_here, reads_panic_uint. by rewrite len_nil.
Qed.

Lemma wp_identity data pos (Q : IdentityKey -> Z -> Prop) :
  0 <= pos -> (forall k pos', 0 <= pos' <= len data -> Q k pos') -> rd_wp rd_session_identity data pos Q.
Proof.
  intros Hp HQ. unfold rd_session_identity, sessionIdentitySize. wp_steps.
  match goal with |- context [DeserializeIdentityKey ?b] => pose proof (DeserializeIdentityKey_no_panic b) as Hn;
    destruct (DeserializeIdentityKey b); [|by apply wp_lift|done] end.
  apply wp_lift; [done|]. intros k _. apply HQ. lia.
Qed.

Lemma wp_pqr data pos (Q : option SpqrState.State -> Z -> Prop) :
  0 <= pos -> (forall p pos', 0 <= pos' <= len data -> Q p pos') -> rd_wp rd_pqr data pos Q.
Proof.
  intros Hp HQ. unfold rd_pqr. wp_steps. destruct (_ >? 0).
  - apply wp_lift; [apply SpqrStateProofs.SpqrState_no_panic|]. intros p _. apply HQ. lia.
  - apply wp_ret, HQ. lia.
Qed.

Lemma wp_previous prev data pos (Q : list (option Ratchet.State) -> Z -> Prop) :
  0 <= pos -> (forall l pos', 0 <= pos' <= len data -> Q l pos') -> rd_wp (rd_previous prev) data pos Q.
Proof.
  intros Hp HQ. unfold rd_previous. wp_steps. destruct (Z.eqb_spec z 0).
  - apply wp_ret, HQ. lia.
  - wp_steps. apply wp_lift; [apply RatchetCodec.DeserializeState_no_panic|]. intros st _. wp_steps. apply HQ. lia.
Qed.

Lemma deserializeSession_no_panic data : deserializeSession data <> Panic.
Proof.
  unfold deserializeSession, sessionIdentitySize. destruct (Z.ltb_spec (len data) (1 + 1 + (1 + 32 + 32) * 2 + 4)); [done|].
  cbn [check mbind res_bind]. apply wp_run. unfold rd_session. wp_steps. apply wp_identity; [lia|]. intros lo p1 Hp1. wp_steps.
  apply wp_identity; [lia|]. intros re p2 Hp2. wp_steps.
  apply (wp_mono _ _ _ (fun _ p' => 0 <= p' <= len data)).
  { destruct (bool_decide (b = sessionSerializeVersion)); [apply wp_pqr; [lia|done]|apply wp_ret; lia]. }
  intros pqr p3 Hp3. wp_steps. apply wp_lift; [apply RatchetCodec.DeserializeState_no_panic|]. intros st _. wp_steps.
  apply (wp_for _ _ _ (fun _ => True)); [|done|lia|].
  { intros prev p _ Hp. apply wp_previous; [lia|]. intros; split; [done|lia]. }
  intros prev p4 _ Hp4. wp_steps. done.
Qed.
End codec.

(** ** Properties *)

(** C35: persistence of sessions. A record whose sessions hold serializable
    states (at most 1000 previous ratchet states each, a record's archive within
    its capacity) is restored from its [Serialize] bytes: the same sessions in
    the same order, with the same identities, versions and ratchet states, each
    post-quantum state as its own format restores it, a disabled one absent. *)
Theorem session_record_roundtrip (P : Primitives) (M : MLKEM) r :
  record_wf r -> DeserializeRecord (Serialize r) = Ok (record_stored r).
Proof. apply DeserializeRecord_stored. Qed.

(** Damaged session records. [deserializeSession] returns on every input
    without a panic. [DeserializeRecord] does not: it reads the number of
    archived sessions without a bounds check, so every record cut right after
    its current session makes it panic instead of returning an error. *)
Theorem session_record_truncated (P : Primitives) (M : MLKEM) cur max data :
  session_wf cur -> 0 < max < 2 ^ 16 ->
  deserializeSession data <> Panic /\
  (exists rest, record_prefix max cur ++ rest = Serialize (mkRecord cur [] max)) /\
  DeserializeRecord (record_prefix max cur) = Panic.
Proof.
  intros Hc Hm. split; [apply deserializeSession_no_panic|]. split; [|by apply DeserializeRecord_truncated].
  exists (AppendUint16 0). unfold record_prefix, Serialize. cbn [maxArchived archived current]. rewrite (proj2 (Z.leb_gt max 0)) by lia.
  rewrite (Z.gtb_ltb (len [])), (proj2 (Z.ltb_ge max _)) by (rewrite len_nil; lia). by rewrite <- !app_assoc.
Qed.

(** An example: the initiator's session after a handshake without the
    post-quantum part, archived twice. *)
Definition demo_ratchet : Ratchet.State :=
  get_ok (Ratchet.empty_state zero32) (snd (@Ratchet.InitializeState Toy.primitives (RatchetProofs.demo_result true None) true [])).

Definition demo_session : Session :=
  mkSession demo_ratchet None (ikp_PublicKey (X3dh.demo_identity 90)) (ikp_PublicKey (X3dh.demo_identity 41)) (str "ad")
    [Some demo_ratchet; None] 3.

Lemma demo_ratchet_wf : @ratchet_wf demo_ratchet.
Proof.
  split; [|vm_compute; reflexivity]. apply RatchetCodec.st_ok_serializable; [|vm_compute; reflexivity].
  assert (exists t, @Ratchet.InitializeState Toy.primitives (RatchetProofs.demo_result true None) true [] = (t, Ok demo_ratchet)) as [t E].
  { eexists. vm_compute. reflexivity. }
  by apply (@RatchetProofs.InitializeState_st_ok Toy.primitives) in E.
Qed.

Lemma demo_session_wf : @session_wf Toy.primitives demo_session.
Proof.
  split; cbn [demo_session version localIdentity remoteIdentity associatedData pqrState ratchetState previousStates];
    [done|vm_compute; reflexivity|vm_compute; reflexivity|done|done|apply demo_ratchet_wf| |done|vm_compute; reflexivity].
  apply Forall_cons. split; [apply demo_ratchet_wf|]. by apply Forall_cons.
Qed.

Lemma session_record_roundtrip_witness :
  let P := Toy.primitives in let M := ToyMlkem.mlkem in
  let r := mkRecord demo_session [demo_session; demo_session] 5 in DeserializeRecord (Serialize r) = Ok (record_stored r).
Proof.
  intros P M r. apply (session_record_roundtrip P M r). split; [done|done|apply demo_session_wf|].
  pose proof demo_session_wf. by repeat apply Forall_cons_2.
Defined.

Lemma session_record_truncated_witness :
  let P := Toy.primitives in let M := ToyMlkem.mlkem in DeserializeRecord (record_prefix 5 demo_session) = Panic.
Proof. intros P M. apply (session_record_truncated P M demo_session 5 []); [apply demo_session_wf|done]. Defined.
