(* ===== verification/SessionSafety.v ===== *)
(** * Sessions: what failing operations leave

    The session ciphers against the store's interface: an operation that fails
    leaves the stored sessions as they were, one that succeeds changes the
    session of its own address. *)

From Stdlib Require Import ZArith Lia.
From Stdlib Require Import Strings.Byte.
From stdpp Require Import base gmap strings list list_numbers vector.
From S2P Require Import Prelude Crypto Keys X3dh Ratchet SpqrMlkem Protowire Wire Store MemoryStore Session SessionProofs.
Import Crypto Keys Store Session.

Section safety.
Context `{Primitives} `{KyberPrims} `{XEdDSA} `{MLKEM} `{Protowire}.
Context {W} {I : IdentityKeyStore W} {PK : PreKeyStore W} {SP : SignedPreKeyStore W} {KP : KyberPreKeyStore W} {S : SessionStore W}.
Context {L : SessionStoreLaws S} {PL : ProtocolStoreLaws I PK SP KP L}.

(** The same sessions are stored. *)
Definition same (w w' : W) : Prop := forall a, sess_view w' a = sess_view w a.

#[local] Instance same_preorder : PreOrder same.
Proof. split; [by intros w a|]. intros w1 w2 w3 E1 E2 a. by rewrite E2, E1. Qed.

(** Sessions are kept by a computation on the store, by one on the store and
    the tape. *)
Definition keeps {A} (m : ST W A) : Prop := forall w, same w (fst (m w)).
Definition tkeeps {A} (m : ST (W * tape) A) : Prop := forall w t, same w (fst (fst (m (w, t)))).

(** A record was stored for the address, and other sessions were at most
    evicted. *)
Definition touched (addr : Address) (w w' : W) : Prop :=
  (exists rec, sess_view w' addr = Some (Serialize rec)) /\
  forall a, a <> addr -> sess_view w' a = sess_view w a \/ sess_view w' a = None.

Definition atomic {A} (addr : Address) (m : ST (W * tape) A) : Prop := forall w t,
  match snd (m (w, t)) with
  | Ok _ => touched addr w (fst (fst (m (w, t))))
  | _ => same w (fst (fst (m (w, t))))
  end.

Lemma keeps_bind {A B} (m : ST W A) (k : A -> ST W B) : keeps m -> (forall a, keeps (k a)) -> keeps (m ≫= k).
Proof.
  intros Hm Hk w. specialize (Hm w). unfold mbind, st_bind. destruct (m w) as [w1 [a| |]]; cbn [fst] in *; [|done|done].
  etrans; [exact Hm|apply Hk].
Qed.

Lemma tkeeps_bind {A B} (m : ST (W * tape) A) (k : A -> ST (W * tape) B) : tkeeps m -> (forall a, tkeeps (k a)) -> tkeeps (m ≫= k).
Proof.
  intros Hm Hk w t. specialize (Hm w t). unfold mbind, st_bind. destruct (m (w, t)) as [[w1 t1] [a| |]]; cbn [fst] in *; [|done|done].
  etrans; [exact Hm|apply Hk].
Qed.

Lemma touched_same addr w1 w2 w3 : same w1 w2 -> touched addr w2 w3 -> touched addr w1 w3.
Proof. intros Hs [Hr Ho]. split; [done|]. intros a Ha. rewrite <- (Hs a). by apply Ho. Qed.

Lemma atomic_bind {A B} addr (m : ST (W * tape) A) (k : A -> ST (W * tape) B) :
  tkeeps m -> (forall a, atomic addr (k a)) -> atomic addr (m ≫= k).
Proof.
  intros Hm Hk w t. specialize (Hm w t). unfold mbind, st_bind. destruct (m (w, t)) as [[w1 t1] [a| |]]; cbn [fst snd] in *; [|done|done].
  specialize (Hk a w1 t1). destruct (snd (k a (w1, t1))); [by eapply touched_same|by etrans..].
Qed.

(** The same, when the second computation relies on what the first returned. *)
Lemma atomic_bind_ok {A B} (Q : A -> Prop) addr (m : ST (W * tape) A) (k : A -> ST (W * tape) B) :
  tkeeps m -> (forall s s' a, m s = (s', Ok a) -> Q a) -> (forall a, Q a -> atomic addr (k a)) -> atomic addr (m ≫= k).
Proof.
  intros Hm HQ Hk w t. specialize (Hm w t). specialize (HQ (w, t)). unfold mbind, st_bind.
  destruct (m (w, t)) as [[w1 t1] [a| |]]; cbn [fst snd] in *; [|done|done].
  specialize (Hk a (HQ _ _ eq_refl) w1 t1). destruct (snd (k a (w1, t1))); [by eapply touched_same|by etrans..].
Qed.

Lemma atomic_err {A} addr e : atomic (A:=A) addr (st_err e). Proof. intros w t. by intros ?. Qed.
Lemma atomic_panic {A} addr : atomic (A:=A) addr (st_lift Panic). Proof. intros w t. by intros ?. Qed.

Lemma keeps_ret {A} (a : A) : keeps (mret a). Proof. intros w. by intros ?. Qed.
Lemma keeps_lift {A} (r : res A) : keeps (st_lift r). Proof. intros w. by intros ?. Qed.
Lemma keeps_err {A} e : keeps (A:=A) (st_err e). Proof. intros w. by intros ?. Qed.
Lemma tkeeps_ret {A} (a : A) : tkeeps (mret a). Proof. intros w t. by intros ?. Qed.
Lemma tkeeps_lift {A} (r : res A) : tkeeps (st_lift r). Proof. intros w t. by intros ?. Qed.
Lemma tkeeps_err {A} e : tkeeps (A:=A) (st_err e). Proof. intros w t. by intros ?. Qed.
Lemma tkeeps_get : tkeeps st_get. Proof. intros w t. by intros ?. Qed.
Lemma tkeeps_fst {A} (m : ST W A) : keeps m -> tkeeps (st_fst m).
Proof. intros Hm w t. specialize (Hm w). unfold st_fst. by destruct (m w). Qed.
Lemma tkeeps_snd {A} (m : ST tape A) : tkeeps (st_snd m).
Proof. intros w t. unfold st_snd. destruct (m t). cbn [fst]. by intros ?. Qed.

#[local] Ltac keeps_step :=
  match goal with
  | |- tkeeps (_ ≫= _) => apply tkeeps_bind
  | |- keeps (_ ≫= _) => apply keeps_bind
  | |- forall _, _ => intros ?
  | |- tkeeps (st_fst _) => apply tkeeps_fst
  | |- _ => first [apply tkeeps_snd | apply tkeeps_ret | apply tkeeps_lift | apply tkeeps_err | apply tkeeps_get
                  | apply keeps_ret | apply keeps_lift | apply keeps_err]
  | |- keeps (GetIdentityKeyPair) => intros ? ?; apply frame_identity
  | |- keeps (GetLocalRegistrationID) => intros ? ?; apply frame_registration
  | |- keeps (SaveIdentity _ _) => intros ? ?; apply frame_save
  | |- keeps (LoadPreKey _) => intros ? ?; apply frame_prekey
  | |- keeps (RemovePreKey _) => intros ? ?; apply frame_remove
  | |- keeps (LoadSignedPreKey _) => intros ? ?; apply frame_signed
  | |- keeps (LoadKyberPreKey _) => intros ? ?; apply frame_kyber
  | |- keeps (LoadSession _) => intros ? ?; by rewrite sess_load
  | |- context [match ?x with _ => _ end] => destruct x
  end.
#[local] Ltac keeps_steps := repeat keeps_step.

Lemma is_trusted_keeps addr k dir : tkeeps (is_trusted addr k dir).
Proof. intros w t. unfold is_trusted. destruct (IsTrustedIdentity _ _ _ _); by intros ?. Qed.

Lemma no_session_keeps addr : tkeeps (no_session addr).
Proof. intros w t. unfold no_session. destruct (ContainsSession _ _); by intros ?. Qed.

Lemma ProcessPreKeyBundle_keeps addr bundle : tkeeps (ProcessPreKeyBundle addr bundle).
Proof. unfold ProcessPreKeyBundle. pose proof is_trusted_keeps. keeps_steps; auto. Qed.

Lemma ProcessInitialMessage_keeps x spk msg :
  keeps (X3dh.ProcessInitialMessage (X3dh.mkResponder W x spk x3dh_store true) msg).
Proof.
  unfold X3dh.ProcessInitialMessage, X3dh.load_dh4, X3dh.responder_secrets, st_check. cbn [X3dh.rsp_store X3dh.LoadPreKey X3dh.RemovePreKey X3dh.LoadKyberPreKey x3dh_store].
  keeps_steps.
Qed.

Lemma ProcessPreKeyMessage_keeps now addr msg : tkeeps (ProcessPreKeyMessage now addr msg).
Proof. unfold ProcessPreKeyMessage, st_check. pose proof is_trusted_keeps. pose proof ProcessInitialMessage_keeps. keeps_steps; auto. Qed.

Lemma loadRecordOptional_keeps addr : tkeeps (loadRecordOptional addr).
Proof. unfold loadRecordOptional. keeps_steps. Qed.

Lemma loadRecordRequired_keeps addr : tkeeps (loadRecordRequired addr).
Proof. unfold loadRecordRequired. pose proof (loadRecordOptional_keeps addr). keeps_steps; auto. Qed.

(** Storing a record succeeds. *)
Lemma persistRecord_stores addr rec w t : exists w', persistRecord addr rec (w, t) = ((w', t), Ok tt) /\
  sess_view w' addr = Some (Serialize rec) /\
  forall a, a <> addr -> sess_view w' a = sess_view w a \/ sess_view w' a = None.
Proof.
  destruct (sess_store addr (Serialize rec) w) as (w1 & E1 & V1). destruct (sess_enforce addr w1) as (w2 & E2 & V2 & V3).
  exists w2. split_and!.
  - unfold persistRecord. rewrite (st_bind_run _ _ _ (w1, t) tt); unfold st_fst; [by rewrite E2|by rewrite E1].
  - rewrite V2, V1. by rewrite decide_True.
  - intros a Ha. specialize (V1 a). rewrite decide_False in V1 by done. rewrite <- V1. apply V3.
Qed.

(** What comes after the record is stored must not fail. *)
Lemma persist_then {A} addr rec (a : A) (k : unit -> ST (W * tape) A) :
  (forall st, k tt st = (st, Ok a)) -> atomic addr (persistRecord addr rec ≫= k).
Proof.
  intros Hk w t. destruct (persistRecord_stores addr rec w t) as (w' & E & Hv & Ho). rewrite (st_bind_run _ _ _ _ _ E), Hk.
  split; [by eexists|done].
Qed.

Lemma persist_last {A} addr rec (a : A) : atomic addr (_ ← persistRecord addr rec; mret a).
Proof. by apply (persist_then _ _ a). Qed.

Lemma decrypt_prekey_atomic decrypt now addr record msg : atomic addr (decrypt_prekey decrypt now addr record msg).
Proof.
  unfold decrypt_prekey. apply atomic_bind.
  - destruct record as [record|]; [|apply tkeeps_ret]. intros w t. destruct (decrypt_record decrypt record t) as [t' [x|e|]]; [done| |done].
    by case_decide.
  - intros [[rec p]|]; [apply persist_last|]. apply atomic_bind; [apply ProcessPreKeyMessage_keeps|]. intros [session ad].
    apply atomic_bind; [apply tkeeps_snd|]. intros [session' p]. destruct record; apply persist_last.
Qed.

Lemma Encrypt_atomic addr p : atomic addr (Encrypt addr p).
Proof.
  apply atomic_bind; [apply loadRecordRequired_keeps|]. intros rec. apply atomic_bind; [apply tkeeps_snd|]. intros [s msg]. apply persist_last.
Qed.

Lemma EncryptWithPreKeyBundle_atomic addr b p : atomic addr (EncryptWithPreKeyBundle addr b p).
Proof.
  apply atomic_bind; [apply no_session_keeps|]. intros _. apply atomic_bind; [apply ProcessPreKeyBundle_keeps|]. intros [s m].
  apply atomic_bind; [apply tkeeps_snd|]. intros [s' m']. apply atomic_bind; [keeps_steps|]. intros id.
  apply atomic_bind; [apply tkeeps_lift|]. intros pm. apply persist_last.
Qed.

Lemma Decrypt_atomic now addr c : atomic addr (Decrypt now addr c).
Proof.
  apply atomic_bind; [apply loadRecordOptional_keeps|]. intros rec. destruct (Wire.ParseSignalMessage c) as [msg|e|].
  - destruct rec as [rec|]; [|apply atomic_err]. apply atomic_bind; [apply tkeeps_snd|]. intros [r p]. apply persist_last.
  - apply atomic_bind; [apply tkeeps_lift|]. intros m. apply decrypt_prekey_atomic.
  - apply atomic_panic.
Qed.

Lemma Cipher_Encrypt_atomic addr p : atomic addr (Cipher_Encrypt addr p).
Proof.
  apply atomic_bind; [apply loadRecordRequired_keeps|]. intros rec. apply atomic_bind; [apply tkeeps_lift|]. intros [s msg]. apply persist_last.
Qed.

Lemma Cipher_Decrypt_atomic now addr c : atomic addr (Cipher_Decrypt now addr c).
Proof.
  apply atomic_bind; [apply tkeeps_lift|]. intros [ty payload]. case_bool_decide; [|case_bool_decide].
  - apply atomic_bind; [apply tkeeps_lift|]. intros msg. apply atomic_bind; [apply loadRecordRequired_keeps|]. intros rec.
    apply atomic_bind; [apply tkeeps_snd|]. intros [r p]. apply persist_last.
  - unfold Cipher_decryptPreKeyMessage. apply atomic_bind; [apply tkeeps_lift|]. intros msg. apply atomic_bind; [apply tkeeps_lift|]. intros _.
    apply atomic_bind; [apply tkeeps_lift|]. intros rm. apply atomic_bind; [apply loadRecordOptional_keeps|]. intros rec. apply decrypt_prekey_atomic.
  - apply atomic_err.
Qed.

(** The message that the builder returns can be serialized. *)
Lemma ProcessPreKeyBundle_serializable addr b st st' session m :
  ProcessPreKeyBundle addr b st = (st', Ok (session, m)) -> X3dh.serializable m.
Proof.
  intros E. unfold ProcessPreKeyBundle in E.
  apply st_bind_ok in E as (s1 & [ik|] & _ & E); apply st_bind_ok in E as (s2 & [] & _ & E); [|done].
  apply st_bind_ok in E as ([w3 t3] & ra & Hra & E). destruct s2 as [w2 t2]. unfold st_snd in Hra.
  destruct (X3dh.ProcessPreKeyBundle _ b t2) as [t4 r] eqn:Er. injection Hra as -> -> ->.
  do 3 apply st_bind_ok in E as (? & ? & _ & E). apply st_ret_ok in E as [_ [= -> ->]].
  by eapply X3dh.initiator_serializable.
Qed.

(** The older cipher stores the session before it serializes the message, which
    cannot fail. *)
Lemma Cipher_EncryptWithPreKeyBundle_atomic addr b p : atomic addr (Cipher_EncryptWithPreKeyBundle addr b p).
Proof.
  apply atomic_bind; [apply no_session_keeps|]. intros _.
  apply (atomic_bind_ok (fun x => X3dh.serializable x.2)); [apply ProcessPreKeyBundle_keeps| |].
  { intros st st' [s m]. apply ProcessPreKeyBundle_serializable. }
  intros [s m] Hm. apply atomic_bind; [apply tkeeps_lift|]. intros [s' msg].
  destruct (Hm (encodeRatchetMessage msg)) as [data Hd]. cbn [snd] in Hd.
  eapply persist_then. intros st. cbn beta. by rewrite Hd.
Qed.

(** The operations of the two ciphers, [WireCipher] and the older [Cipher], of one
    address. *)
Inductive session_op : Type :=
| OpEncrypt (plaintext : bytes)
| OpEncryptWithPreKeyBundle (bundle : PreKeyBundle) (plaintext : bytes)
| OpDecrypt (now : Z) (ciphertext : bytes)
| OpCipherEncrypt (plaintext : bytes)
| OpCipherEncryptWithPreKeyBundle (bundle : PreKeyBundle) (plaintext : bytes)
| OpCipherDecrypt (now : Z) (data : bytes).

Definition run_op (addr : Address) (op : session_op) : ST (W * tape) bytes :=
  match op with
  | OpEncrypt p => Encrypt addr p
  | OpEncryptWithPreKeyBundle b p => EncryptWithPreKeyBundle addr b p
  | OpDecrypt now c => Decrypt now addr c
  | OpCipherEncrypt p => Cipher_Encrypt addr p
  | OpCipherEncryptWithPreKeyBundle b p => Cipher_EncryptWithPreKeyBundle addr b p
  | OpCipherDecrypt now d => Cipher_Decrypt now addr d
  end.

Lemma run_op_atomic addr op : atomic addr (run_op addr op).
Proof.
  destruct op; [apply Encrypt_atomic|apply EncryptWithPreKeyBundle_atomic|apply Decrypt_atomic|
    apply Cipher_Encrypt_atomic|apply Cipher_EncryptWithPreKeyBundle_atomic|apply Cipher_Decrypt_atomic].
Qed.
End safety.

(** C3: the operations of both session ciphers are atomic for the stored sessions.
    Whatever implements the store interfaces, an operation that fails, for
    whatever reason, leaves every stored session as it was; one that succeeds
    stores a record for its own address and changes no other session, except
    that sessions of other addresses may be evicted by the limit on their
    number. This covers the older cipher's [EncryptWithPreKeyBundle], which stores
    the session before it serializes the message: that step cannot fail. *)
Theorem session_ops_atomic (P : Primitives) (K : KyberPrims) (X : XEdDSA) (M : MLKEM) (Pw : Protowire) W
    (I : IdentityKeyStore W) (PK : PreKeyStore W) (SP : SignedPreKeyStore W) (KP : KyberPreKeyStore W) (S : SessionStore W)
    (L : SessionStoreLaws S) addr op w t :
  ProtocolStoreLaws I PK SP KP L ->
  let '((w', _), r) := run_op addr op (w, t) in
  match r with
  | Ok _ => (exists rec, sess_view w' addr = Some (Serialize rec)) /\
      forall a, a <> addr -> sess_view w' a = sess_view w a \/ sess_view w' a = None
  | _ => forall a, sess_view w' a = sess_view w a
  end.
Proof.
  intros HS. pose proof (run_op_atomic addr op w t) as Ha. destruct (run_op addr op (w, t)) as [[w' t'] [c|e|]]; exact Ha.
Qed.

Lemma session_ops_atomic_witness :
  let P := Toy.primitives in let K := Toy.kyber in let X := Toy.xeddsa in let M := ToyMlkem.mlkem in let Pw := ToyWire.wire in
  let I := MemoryStore.identityKeyStore in let PK := MemoryStore.preKeyStore in let SP := MemoryStore.signedPreKeyStore in
  let KP := MemoryStore.kyberPreKeyStore in let S := MemoryStore.sessionStore (fun _ s => (map_to_list s).*1) in
  let w := MemoryStore.set_sessions demo_sessions (MemoryStore.NewStore None 1) in
  let a := mkAddress "bob" 1 in
  MemoryStore.sessions (fst (fst (run_op a (OpDecrypt 0 [Byte.x01]) (w, [])))) !! a = demo_sessions !! a.
Proof.
  intros P K X M Pw I PK SP KP S w a.
  exact (session_ops_atomic P K X M Pw _ I PK SP KP S (MemoryStore.sessionStore_laws _) a (OpDecrypt 0 [Byte.x01]) w []
    (MemoryStore.protocolStore_laws _) a).
Defined.
