(* ===== verification/SessionTalk.v ===== *)
(** * Sessions: conversations

    Two sessions are linked when their ratchets are in step, their post-quantum
    states in order, and their identities and versions match. What one of two
    linked sessions encrypts, the other decrypts, and they are linked again;
    the two sides of a handshake are linked; and all of this survives the
    store. *)

From Stdlib Require Import ZArith Lia.
From Stdlib Require Import Strings.Byte.
From stdpp Require Import base gmap strings list list_numbers vector sorting.
From S2P Require Import Prelude Crypto Keys X3dh Ratchet RatchetProofs RatchetTalk RatchetCodec SpqrUtil SpqrChain SpqrMlkem SpqrV1 SpqrV1Codec SpqrState SpqrV1Proofs SpqrStateProofs SpqrOrder Protowire Wire Store Session SessionProofs SessionSafety.
Import Crypto Keys Session.

Section talk.
Context {HP : Primitives} {HPL : PrimitiveLaws HP} {HM : MLKEM} {HML : MLKEMLaws HM} {HW : Protowire} {HWL : ProtowireLaws HW}.

(** The settings of the post-quantum state of a session. *)
Definition pq_params : bool -> SpqrChain.ChainParams := fun _ => SpqrChain.mkParams 0 0.
Definition pq_mins : bool -> Z := fun _ => Util.VersionDisabled.

Definition pq_linked (auth : bytes) (p : bool) (x y : option SpqrState.State) : Prop :=
  match x, y with
  | Some a, Some b => in_order auth pq_params pq_mins p a b
  | None, None => True
  | _, _ => False
  end.

Definition pq_spent (n : Z) (X : Session) : Prop := forall a, pqrState X = Some a -> spent n a.

(** Two sessions after at most [n] messages. *)
Record linked (auth : bytes) (p : bool) (n : Z) (X Y : Session) : Prop := {
  lk_ratchet : talk (ratchetState X) (ratchetState Y);
  lk_pqr : pq_linked auth p (pqrState X) (pqrState Y);
  lk_local : ik_PublicKey (localIdentity X) = ik_PublicKey (remoteIdentity Y);
  lk_remote : ik_PublicKey (remoteIdentity X) = ik_PublicKey (localIdentity Y);
  lk_spent : pq_spent n X /\ pq_spent n Y;
  lk_valid : IsValidPublicKey (ik_PublicKey (localIdentity X)) = true /\ IsValidPublicKey (ik_PublicKey (remoteIdentity X)) = true;
  lk_prev : previousStates X = [] /\ previousStates Y = [];
  lk_version : version X = version Y /\ Wire.CiphertextMessagePreKyberVersion <= version X <= Wire.CiphertextMessageCurrentVersion
}.

Definition pq_roomy (X : Session) : Prop := forall a, pqrState X = Some a -> roomy a.

Lemma pq_spent_roomy n X : n < 2 ^ 31 - 1 -> pq_spent n X -> pq_roomy X.
Proof. intros Hn Hs a Ha. by apply (spent_roomy n), Hs. Qed.

(** The header that the receiver of a message sees. *)
Definition header_of (msg : Wire.SignalMessage) : Ratchet.Header :=
  Ratchet.mkHeader (Wire.sm_senderRatchet msg) (Wire.sm_previousCounter msg) (Wire.sm_counter msg).

Lemma pq_settings auth : 0 < len auth < 2 ^ 32 -> settings auth pq_params pq_mins.
Proof. intros Ha. split; [done|]. split; [by intros []|]. by intros []. Qed.

Lemma linked_sym auth p n X Y : linked auth p n X Y -> linked auth (negb p) n Y X.
Proof.
  intros [H1 H2 H3 H4 [? ?] [? ?] [? ?] [Hv ?]]. split; [by apply talk_sym| |done|done|done|by rewrite <- H3, <- H4|done|rewrite <- Hv; done].
  destruct (pqrState X), (pqrState Y); try done. by apply in_order_sym.
Qed.

Lemma version_normal v :
  Wire.CiphertextMessagePreKyberVersion <= v <= Wire.CiphertextMessageCurrentVersion -> normalizeCiphertextVersion v = Some v.
Proof.
  intros Hv. unfold normalizeCiphertextVersion. rewrite Z.geb_leb, !(proj2 (Z.leb_le _ _)) by lia. done.
Qed.

(** The MAC covers the Curve25519 halves of the identities only. *)
Lemma VerifyMAC_public msg si si' ri ri' mk :
  ik_PublicKey si = ik_PublicKey si' -> ik_PublicKey ri = ik_PublicKey ri' -> Wire.VerifyMAC msg si ri mk = Wire.VerifyMAC msg si' ri' mk.
Proof. intros Hs Hr. unfold Wire.VerifyMAC, Wire.computeSignalMAC. by rewrite Hs, Hr. Qed.

(** The post-quantum half of a message. *)
Definition pq_send (X : Session) : ST tape (Session * bytes * bytes) :=
  match pqrState X with
  | None => mret (X, [], [])
  | Some p =>
      match SpqrState.Clone p with
      | None => st_err SpqrErrStateDecode
      | Some pqrNext => fun t =>
          let '((pqrNext, t), r) := SpqrState.Send (pqrNext, t) in
          (t, '(pqRatchet, salt) ← r; mret (set_pqrState (Some pqrNext) X, pqRatchet, salt))
      end
  end.

Lemma pq_step auth p n X Y X' t t' pq salt :
  0 < len auth < 2 ^ 32 -> pq_linked auth p (pqrState X) (pqrState Y) -> 0 <= n < 2 ^ 31 - 1 -> pq_spent n X -> pq_spent n Y ->
  pq_send X t = (t', Ok (X', pq, salt)) ->
  exists x', X' = set_pqrState x' X /\ pq_spent (n + 1) X' /\
  match pqrState Y with
  | None => x' = pqrState X /\ pq = [] /\ salt = [] /\ pq_linked auth p x' None
  | Some b => exists b1 b2, SpqrState.Clone b = Some b1 /\ SpqrState.Receive pq b1 = (b2, Ok salt) /\ spent (n + 1) b2 /\ pq_linked auth p x' (Some b2)
  end.
Proof.
  intros Ha Hl Hn HsX HsY E. unfold pq_send in E. unfold pq_spent in *.
  destruct (pqrState X) as [a|] eqn:EX, (pqrState Y) as [b|] eqn:EY; try done.
  - destruct (SpqrState.Clone a) as [a1|] eqn:Ec; [|done].
    destruct (SpqrState.Send (a1, t)) as [[a2 t2] [[m s]| |]] eqn:Es; [|done|done]. injection E as <- <- <- <-.
    destruct (order_step auth pq_params pq_mins (pq_settings auth Ha) p a b a1 t a2 t2 m s) as (b1 & b2 & Ecb & Er & Ho & Hsp);
      eauto using spent_roomy.
    { apply (spent_roomy n); [lia|auto]. } { apply (spent_roomy n); [lia|auto]. }
    destruct (Hsp n) as [Sa Sb]; [lia|auto|auto|]. eexists. split; [reflexivity|]. split; [by intros ? [= <-]|]. by exists b1, b2.
  - apply st_ret_ok in E as [-> [= -> -> ->]]. exists None. split; [destruct X; cbn in *; by subst|].
    split; [|done]. rewrite EX. by intros ?.
Qed.

(** What messages do not change. *)
Definition same_meta (X X' : Session) : Prop :=
  associatedData X' = associatedData X /\ previousStates X' = previousStates X /\ localIdentity X' = localIdentity X /\
  remoteIdentity X' = remoteIdentity X /\ version X' = version X.

(** The post-quantum half of the receiver: the state after the message. *)
Definition pq_received (y : option SpqrState.State) (pq salt : bytes) (y' : option SpqrState.State) : Prop :=
  match y with
  | None => y' = None /\ pq = [] /\ salt = []
  | Some b => exists b1 b2, SpqrState.Clone b = Some b1 /\ SpqrState.Receive pq b1 = (b2, Ok salt) /\ y' = Some b2
  end.

Lemma decrypt_ok Y m stY mk pq salt y' ek mac iv plaintext t t' :
  normalizeCiphertextVersion (version Y) = Some (Wire.sm_messageVersion m) ->
  Ratchet.AdvanceForHeader (header_of m) (ratchetState Y, t) = ((stY, t'), Ok mk) ->
  Wire.sm_pqRatchet m = pq -> pq_received (pqrState Y) pq salt y' ->
  Ratchet.DeriveMessageKeysWithSalt mk salt = Ok (ek, mac, iv) ->
  Wire.VerifyMAC m (remoteIdentity Y) (localIdentity Y) mac = Ok true ->
  AESCBCDecrypt ek iv (Wire.sm_ciphertext m) = Ok plaintext ->
  decryptSignalWithSession Y m t = (t', Ok (set_pqrState y' (set_ratchetState stY Y), plaintext)).
Proof.
  intros Hv Ead Hpq Hrec Ek Hmac Hct. unfold decryptSignalWithSession. rewrite Hv.
  rewrite st_bind_check by (by rewrite Z.eqb_refl). fold (header_of m).
  rewrite (st_bind_run _ _ _ t' (stY, mk)) by (by rewrite Ead). rewrite Hpq.
  rewrite (st_bind_run _ _ _ t' (y', salt)).
  2:{ unfold pq_received in Hrec. destruct (pqrState Y) as [b|].
      - destruct Hrec as (b1 & b2 & -> & -> & ->). by rewrite (st_bind_lift _ _ _ salt).
      - destruct Hrec as (-> & -> & ->). by rewrite st_bind_check. }
  rewrite (st_bind_lift _ _ _ _ Ek), (st_bind_lift _ _ _ _ Hmac), st_bind_check by done.
  rewrite (st_bind_lift _ _ _ plaintext) by (by rewrite Hct).
  unfold mret, st_ret. do 3 f_equal. unfold pq_received in Hrec. destruct Y as [? [b|] ? ? ? ? ?]; cbn in *.
  - by destruct Hrec as (b1 & b2 & _ & _ & ->).
  - by destruct Hrec as (-> & _).
Qed.

(** What goes into a message. *)
Lemma encrypt_inv X X' plaintext msg t t' :
  Wire.CiphertextMessagePreKyberVersion <= version X <= Wire.CiphertextMessageCurrentVersion ->
  encryptSignalMessage X plaintext t = (t', Ok (X', msg)) ->
  exists stX header mk pq salt x' ek mac iv ct,
    Ratchet.NextSendingMessageKey (ratchetState X) = (stX, Ok (header, mk)) /\
    pq_send X t = (t', Ok (set_pqrState x' X, pq, salt)) /\ X' = set_pqrState x' (set_ratchetState stX X) /\
    Ratchet.DeriveMessageKeysWithSalt mk salt = Ok (ek, mac, iv) /\ AESCBCEncrypt ek iv plaintext = Ok ct /\
    Wire.NewSignalMessage (version X) mac (Ratchet.hdr_DH header) (Ratchet.hdr_N header) (Ratchet.hdr_PN header) ct
      (localIdentity X) (remoteIdentity X) pq = Ok msg /\
    header_of msg = header /\ Wire.sm_pqRatchet msg = pq /\ Wire.sm_ciphertext msg = ct /\ Wire.sm_messageVersion msg = version X.
Proof.
  intros Hvr E. unfold encryptSignalMessage in E.
  destruct (Ratchet.NextSendingMessageKey (ratchetState X)) as [stX r] eqn:En.
  apply st_bind_ok in E as (? & [header mk] & [-> ->]%st_lift_ok & E).
  apply st_bind_ok in E as (t3 & [[X1 pq] salt] & Hpqs & E).
  assert (exists x', X1 = set_pqrState x' (set_ratchetState stX X) /\ pq_send X t = (t3, Ok (set_pqrState x' X, pq, salt))) as (x' & -> & Hpq).
  { unfold pq_send. cbn [set_ratchetState pqrState] in Hpqs. destruct (pqrState X) as [a|] eqn:Ex.
    - destruct (SpqrState.Clone a) as [a1|]; [|done]. destruct (SpqrState.Send (a1, t)) as [[a2 t2] [[m s]| |]]; [|done|done].
      injection Hpqs as <- <- <- <-. by exists (Some a2).
    - apply st_ret_ok in Hpqs as [-> [= -> -> ->]]. exists None. destruct X. cbn in *. by subst. }
  apply st_bind_ok in E as (? & [[ek mac] iv] & [-> Ek]%st_lift_ok & E).
  apply st_bind_ok in E as (? & ct & [-> Ect]%st_lift_ok & E). apply st_bind_ok in E as (? & m & [-> Em]%st_lift_ok & E).
  apply st_ret_ok in E as [-> [= -> ->]].
  assert (ciphertextVersionForSession (set_pqrState x' (set_ratchetState stX X)) = version X) as Hver.
  { unfold ciphertextVersionForSession. cbn. by rewrite version_normal. }
  rewrite Hver in Em. pose proof (Wire.NewSignalMessage_shape _ _ _ _ _ _ _ _ _ _ Em) as (mm & _ & _ & Eshape).
  exists stX, header, mk, pq, salt, x', ek, mac, iv, ct. rewrite Eshape in *. split_and!; try done. by destruct header.
Qed.

Lemma encrypt_parses auth p n X Y X' plaintext msg t t' :
  linked auth p n X Y -> encryptSignalMessage X plaintext t = (t', Ok (X', msg)) ->
  Wire.ParseSignalMessage (Wire.sm_serialized msg) = Ok msg.
Proof.
  intros [Hra _ _ _ _ _ _ [_ Hvr]] E. destruct (encrypt_inv _ _ _ _ _ _ Hvr E) as (stX & h & mk & pq & salt & x' & ek & mac & iv & ct & En & _ & _ & _ & _ & Em & _).
  destruct (talk_header _ _ _ _ _ Hra En) as (Hv & Hn & Hp). by eapply Wire.ParseSignalMessage_new.
Qed.

(** One message: what [X] encrypts, [Y] decrypts. *)
Lemma session_step auth p n X Y X' plaintext msg t t1 t2 t2' :
  0 < len auth < 2 ^ 32 -> linked auth p n X Y -> 0 <= n < 2 ^ 31 - 1 ->
  encryptSignalMessage X plaintext t = (t1, Ok (X', msg)) ->
  turn_ok (ratchetState X) (header_of msg) (ratchetState Y) t2 t2' ->
  exists Y', decryptSignalWithSession Y msg t2 = (t2', Ok (Y', plaintext)) /\ linked auth p (n + 1) X' Y' /\
    same_meta X X' /\ same_meta Y Y'.
Proof.
  intros Ha [Hra Hpq Hlo Hre [HsX HsY] Hval [] [Hve Hvr]] Hn E Ht.
  destruct (encrypt_inv _ _ _ _ _ _ Hvr E) as (stX & h & mk & pq & salt & x' & ek & mac & iv & ct & En & Hs & -> & Ek & Ect & Em & <- & Mp & Mc & Mv).
  destruct (pq_step auth p n X Y (set_pqrState x' X) t t1 pq salt) as (x0 & Ex & HsX' & Hpqr); try done.
  assert (x0 = x') as -> by (by apply (f_equal pqrState) in Ex).
  destruct (talk_step _ _ _ _ _ _ _ Hra En Ht) as (stY & Ead & Htalk).
  assert (exists y', pq_received (pqrState Y) pq salt y' /\ (forall b, y' = Some b -> spent (n + 1) b) /\ pq_linked auth p x' y') as (y' & Hrec & HsY' & Hpl).
  { unfold pq_received. destruct (pqrState Y) as [b|].
    - destruct Hpqr as (b1 & b2 & H1 & H2 & H3 & H4). exists (Some b2). split; [by exists b1, b2|]. split; [by intros ? [= <-]|done].
    - destruct Hpqr as (_ & -> & -> & H3). by exists None. }
  exists (set_pqrState y' (set_ratchetState stY Y)). split_and!; [|by split|done|done].
  eapply decrypt_ok; [|exact Ead|exact Mp|exact Hrec|exact Ek| |].
  - rewrite <- Hve, version_normal by done. by rewrite Mv.
  - rewrite <- (VerifyMAC_public msg (localIdentity X) _ (remoteIdentity X)) by done. by eapply Wire.VerifyMAC_new.
  - rewrite Mc. by apply AESCBC_roundtrip.
Qed.

(** ** Storing *)

Lemma mjoin_keys_len (l : list key32) : len (mjoin (vec_to_list <$> l)) = 32 * len l.
Proof.
  induction l as [|k l IH]; [done|]. rewrite fmap_cons, mjoin_cons, len_app, len_cons, vec_list_len, IH. lia.
Qed.

Lemma seen_len st : Z.of_nat (size (Ratchet.SeenDH st)) <= len (RatchetCodec.State_Serialize st).
Proof.
  assert (len (RatchetCodec.sorted_seen (Ratchet.SeenDH st)) = Z.of_nat (size (Ratchet.SeenDH st))) as <-.
  { unfold len, RatchetCodec.sorted_seen, size, set_size. by rewrite merge_sort_Permutation. }
  unfold RatchetCodec.State_Serialize. rewrite !len_app, mjoin_keys_len. len_facts. lia.
Qed.

Lemma pqr_parts a :
  (forall v, SpqrState.v1 a = Some v -> SpqrState.version a = Util.VersionV1 ->
     len (SpqrV1Codec.serializeV1States v) <= len (SpqrState.Serialize (Some a)) /\
     forall c, SpqrState.chain a = Some c -> len (SpqrChain.serializeChain c) <= len (SpqrState.Serialize (Some a))).
Proof.
  intros v Hv Hver. unfold SpqrState.Serialize. rewrite Hv, Hver. cbn [Z.eqb Util.VersionV1 Util.VersionDisabled].
  split; [|intros c ->]; rewrite !len_app; len_facts; lia.
Qed.

(** A session whose bytes have a 32-bit length. *)
Definition fits (X : Session) : Prop := len (serializeSession X) < 2 ^ 32.

Lemma linked_wf auth p n X Y :
  0 < len auth < 2 ^ 32 -> linked auth p n X Y -> n < 2 ^ 31 - 1 -> fits X -> session_wf X.
Proof.
  intros Ha [Hra Hpq _ _ [HsX _] [Hlo Hre] [Hprev _] [_ Hv]] Hn Hlen. pose proof (pq_spent_roomy n X Hn HsX) as Hroom. unfold fits in Hlen.
  assert (len (associatedData X) <= len (serializeSession X) /\ len (SpqrState.Serialize (pqrState X)) <= len (serializeSession X) /\
    len (RatchetCodec.State_Serialize (ratchetState X)) <= len (serializeSession X)) as (L1 & L2 & L3).
  { unfold serializeSession, sized. rewrite !len_app. len_facts. lia. }
  pose proof (seen_len (ratchetState X)) as Hseen. destruct (talk_ok _ _ Hra) as [Hok _].
  split; try done; rewrite ?Hprev; try done; try lia.
  - unfold Wire.CiphertextMessagePreKyberVersion, Wire.CiphertextMessageCurrentVersion in Hv. lia.
  - split; [|lia]. unfold pqr_wf, pq_roomy in *. destruct (pqrState X) as [a|]; [|done]. right.
    destruct (pqrState Y) as [b|]; [|done]. destruct Hpq as (H & sa & sb & Hj & Hst & _).
    pose proof (sti_v1 _ _ _ _ _ _ Hst) as H1. pose proof (sti_version _ _ _ _ _ _ Hst) as H2.
    destruct (pqr_parts a _ H1 H2) as [P1 P2]. destruct (pq_settings auth Ha) as (S1 & S2 & S3).
    eapply (state_inv_state_wf auth pq_params pq_mins S2 S3 S1 H p sa sb); [done|done|auto| |].
    + intros v Hv1. rewrite H1 in Hv1. injection Hv1 as <-. lia.
    + intros c Hc. apply P2 in Hc. lia.
  - split; [|lia]. apply RatchetCodec.st_ok_serializable; [done|lia].
Qed.

(** Storing and loading keeps two sessions linked. *)
Lemma linked_stored auth p n X Y : linked auth p n X Y -> linked auth p n (session_stored X) Y.
Proof.
  intros [Hra Hpq Hlo Hre [HsX HsY] Hval Hprev Hv]. split; try done; cbn [session_stored set_pqrState pqrState].
  - unfold pqr_stored. destruct (pqrState X) as [a|]; [|done]. cbn [mbind option_bind]. destruct (pqrState Y) as [b|]; [|done].
    assert (SpqrState.version a = Util.VersionV1) as ->.
    { destruct Hpq as (H & sa & sb & _ & Hst & _). by apply (sti_version _ _ _ _ _ _ Hst). }
    by apply in_order_reset.
  - split; [|done]. intros a. cbn. unfold pqr_stored. destruct (pqrState X) as [a0|] eqn:E; [|done]. cbn [mbind option_bind].
    destruct (_ =? _); [done|]. intros [= <-]. by apply spent_reset, HsX.
Qed.

(** ** Through the stores *)

Context {HK : KyberPrims} {HX : XEdDSA}.
Context {W} {I : IdentityKeyStore W} {PK : PreKeyStore W} {SP : SignedPreKeyStore W} {KP : KyberPreKeyStore W} {S : SessionStore W}.
Context {L : SessionStoreLaws S} {PL : ProtocolStoreLaws I PK SP KP L}.

(** A store [w1] holds the record [r1] of its peer at [a2], a store [w2] the
    record [r2] of its peer at [a1], and the two sessions are linked. *)
Record connection (auth : bytes) (p : bool) (n : Z) (w1 : W) (a2 : Address) (r1 : Record_) (w2 : W) (a1 : Address) (r2 : Record_) : Prop := {
  cn_auth : 0 < len auth < 2 ^ 32;
  cn_view1 : sess_view w1 a2 = Some (Serialize r1);
  cn_view2 : sess_view w2 a1 = Some (Serialize r2);
  cn_linked : linked auth p n (current r1) (current r2);
  cn_r1 : archived r1 = [] /\ 0 < maxArchived r1 < 2 ^ 16;
  cn_r2 : archived r2 = [] /\ 0 < maxArchived r2 < 2 ^ 16
}.

Lemma connection_sym auth p n w1 a2 r1 w2 a1 r2 : connection auth p n w1 a2 r1 w2 a1 r2 -> connection auth (negb p) n w2 a1 r2 w1 a2 r1.
Proof. intros []. split; try done. by apply linked_sym. Qed.

Lemma fresh_record_wf r : session_wf (current r) -> archived r = [] -> 0 < maxArchived r < 2 ^ 16 -> record_wf r.
Proof. intros Hs Ha Hm. split; rewrite ?Ha; [done|rewrite len_nil; lia|done|done]. Qed.

Lemma load_ok a r w (t : tape) :
  sess_view w a = Some (Serialize r) -> record_wf r -> loadRecordOptional a (w, t) = ((w, t), Ok (Some (record_stored r))).
Proof.
  intros Hv Hr. unfold loadRecordOptional. rewrite (st_bind_run _ _ _ (w, t) (Some (Serialize r))).
  2:{ unfold st_fst. by rewrite sess_load, Hv. }
  assert (len (Serialize r) =? 0 = false) as ->.
  { apply Z.eqb_neq. unfold Serialize, recordSerializeMagic. rewrite len_app. change (len (str "SIGR")) with 4. len_facts. lia. }
  rewrite (st_bind_lift _ _ _ (record_stored r)); [done|]. by rewrite DeserializeRecord_stored.
Qed.

(** One message, from the bytes in one store to the bytes in the other. *)
Lemma exchange_ok auth p n w1 a2 r1 w2 a1 r2 plaintext c t1 w1' t1' t2 t2' now :
  connection auth p n w1 a2 r1 w2 a1 r2 -> 0 <= n < 2 ^ 31 - 1 -> fits (current r1) -> fits (current r2) ->
  Encrypt a2 plaintext (w1, t1) = ((w1', t1'), Ok c) ->
  (forall msg, Wire.ParseSignalMessage c = Ok msg -> turn_ok (ratchetState (current r1)) (header_of msg) (ratchetState (current r2)) t2 t2') ->
  exists w2' r1' r2', Decrypt now a1 c (w2, t2) = ((w2', t2'), Ok plaintext) /\ connection auth p (n + 1) w1' a2 r1' w2' a1 r2' /\
    same_meta (current r1) (current r1') /\ same_meta (current r2) (current r2').
Proof.
  intros [Ha Hv1 Hv2 Hl [Har1 Hm1] [Har2 Hm2]] Hn Hs1 Hs2 E Ht.
  pose proof (linked_wf auth p n _ _ Ha Hl ltac:(lia) Hs1) as Hwf1. pose proof (linked_wf auth (negb p) n _ _ Ha (linked_sym _ _ _ _ _ Hl) ltac:(lia) Hs2) as Hwf2.
  pose proof (fresh_record_wf r1 Hwf1 Har1 Hm1) as Hrw1. pose proof (fresh_record_wf r2 Hwf2 Har2 Hm2) as Hrw2.
  apply linked_stored, linked_sym, linked_stored, linked_sym in Hl. rewrite negb_involutive in Hl.
  unfold Encrypt in E. rewrite (st_bind_run _ _ _ (w1, t1) (record_stored r1)) in E.
  2:{ unfold loadRecordRequired. by rewrite (st_bind_run _ _ _ _ _ (load_ok a2 r1 w1 t1 Hv1 Hrw1)). }
  apply st_bind_ok in E as ([w1a t1a] & [X' msg] & Eenc & E). unfold st_snd in Eenc.
  destruct (encryptSignalMessage (current (record_stored r1)) plaintext t1) as [tt1 rr] eqn:Eenc'. injection Eenc as <- <- ->.
  destruct (persistRecord_stores a2 (set_current X' (record_stored r1)) w1 tt1) as (w1b & Ep & Vp & _).
  rewrite (st_bind_run _ _ _ _ _ Ep) in E. apply st_ret_ok in E as [[= -> ->] ->].
  pose proof (encrypt_parses _ _ _ _ _ _ _ _ _ _ Hl Eenc') as Hparse. specialize (Ht msg Hparse).
  destruct (session_step auth p n _ _ X' plaintext msg t1 tt1 t2 t2' Ha Hl Hn Eenc' Ht)
    as (Y' & Edec & Hl' & Hmx & Hmy).
  destruct (persistRecord_stores a1 (set_current Y' (record_stored r2)) w2 t2') as (w2b & Eq & Vq & _).
  exists w2b, (set_current X' (record_stored r1)), (set_current Y' (record_stored r2)). split_and!; [| |done|done].
  - unfold Decrypt. rewrite (st_bind_run _ _ _ _ _ (load_ok a1 r2 w2 t2 Hv2 Hrw2)), Hparse.
    rewrite (st_bind_run _ _ _ (w2, t2') (set_current Y' (record_stored r2), plaintext)).
    + by rewrite (st_bind_run _ _ _ _ _ Eq).
    + unfold st_snd, decryptSignalMessage, decrypt_record. change (current (record_stored r2)) with (session_stored (current r2)). by rewrite Edec.
  - split; cbn [current archived maxArchived set_current record_stored]; rewrite ?Har1, ?Har2; done.
Qed.
End talk.
