(* ===== verification/SessionStart.v ===== *)
(** * Sessions: the first message

    The two sides of a handshake through the stores: what
    [EncryptWithPreKeyBundle] returns, the owner of the bundle decrypts, and
    the two stored sessions are linked. *)

From Stdlib Require Import ZArith Lia.
From Stdlib Require Import Strings.Byte.
From stdpp Require Import base gmap strings list list_numbers vector.
From S2P Require Import Prelude Crypto Keys X3dh Ratchet RatchetProofs RatchetTalk RatchetCodec SpqrUtil Erasure SpqrChain SpqrMlkem SpqrV1 SpqrV1Codec SpqrState SpqrV1Proofs SpqrStateProofs SpqrOrder Protowire Wire Store Session SessionProofs SessionSafety SessionTalk.
Import Crypto Keys Session.

Section start.
Context {HP : Primitives} {HPL : PrimitiveLaws HP} {HM : MLKEM} {HML : MLKEMLaws HM} {HW : Protowire} {HWL : ProtowireLaws HW}.
Context {HK : KyberPrims} {HKL : KyberLaws HK} {HX : XEdDSA}.

(** The responder uses the Curve25519 half of the initiator's identity only, so
    it reaches the same secrets from the message that went over the wire. *)
Lemma ProcessInitialMessage_public {W} (r : X3dh.Responder W) msg msg' w w' rb :
  ik_PublicKey (X3dh.msg_IdentityKey msg') = ik_PublicKey (X3dh.msg_IdentityKey msg) ->
  X3dh.msg_EphemeralKey msg' = X3dh.msg_EphemeralKey msg -> X3dh.msg_PreKeyID msg' = X3dh.msg_PreKeyID msg ->
  X3dh.msg_SignedPreKeyID msg' = X3dh.msg_SignedPreKeyID msg -> X3dh.msg_KyberPreKeyID msg' = X3dh.msg_KyberPreKeyID msg ->
  X3dh.msg_KyberCiphertext msg' = X3dh.msg_KyberCiphertext msg ->
  X3dh.ProcessInitialMessage r msg w = (w', Ok rb) ->
  X3dh.ProcessInitialMessage r msg' w = (w', Ok (X3dh.mkResult (X3dh.SharedSecret rb) (X3dh.InitialChainKey rb) (X3dh.PQRKey rb)
    (X3dh.AssociatedDataBytes rb) (X3dh.msg_IdentityKey msg') msg' None (X3dh.LocalRatchetKey rb) None)).
Proof.
  intros H1 H2 H3 H4 H5 H6 E. unfold X3dh.ProcessInitialMessage in *. rewrite H4.
  apply st_bind_ok in E as (w0 & u & [-> Hc]%st_check_ok & E). rewrite st_bind_check by done.
  destruct (spk_KeyPair (X3dh.rsp_signedPreKey r)) as [spk|]; [|done]. rewrite H1, H2.
  apply st_bind_ok in E as (w0 & d1 & [-> E1]%st_lift_ok & E). rewrite (st_bind_lift _ _ _ _ E1).
  apply st_bind_ok in E as (w0 & d2 & [-> E2]%st_lift_ok & E). rewrite (st_bind_lift _ _ _ _ E2).
  apply st_bind_ok in E as (w0 & d3 & [-> E3]%st_lift_ok & E). rewrite (st_bind_lift _ _ _ _ E3).
  apply st_bind_ok in E as (w1 & ikm & E4 & E). rewrite (st_bind_run _ _ _ w1 ikm).
  2:{ rewrite <- E4. unfold X3dh.load_dh4. by rewrite H2, H3. }
  apply st_bind_ok in E as (w2 & [[shared chain] pqr] & E5 & E). rewrite (st_bind_run _ _ _ w2 (shared, chain, pqr)).
  2:{ rewrite <- E5. unfold X3dh.responder_secrets. by rewrite H5, H6. }
  apply st_ret_ok in E as [-> ->]. cbn. unfold X3dh.AssociatedData. by rewrite H1.
Qed.

(** The responder's ratchet: it starts with the randomness [b'] when there is no
    initial chain, and without any when there is one. *)
Lemma responder_init ra rb eph spk t t' A a tb tb' b' z :
  paired ra rb eph spk -> Ratchet.InitializeState ra true t = (t', Ok A) -> Ratchet.DHs A = Some a ->
  GenerateKeyPair tb = (tb', Ok b') -> DH (PrivateKey b') (PublicKey a) = Ok z ->
  exists B, Ratchet.InitializeState rb false tb = (if X3dh.InitialChainKey ra then tb else tb', Ok B) /\
    (X3dh.InitialChainKey ra = None -> Ratchet.DHs B = Some b' /\ a = eph).
Proof.
  intros Hp EA HA Hg Hdh.
  assert (X3dh.InitialChainKey ra <> None \/ X3dh.LocalEphemeral ra <> None) as Hor by (right; by rewrite (pr_eph _ _ _ _ Hp)).
  destruct (InitializeState_initiator _ _ _ _ EA Hor) as (a0 & P & z0 & HA0 & HP0 & _ & Hz0 & _ & _ & _ & _ & _ & _ & _ & Hcase).
  rewrite HA in HA0. injection HA0 as <-. rewrite (pr_remote _ _ _ _ Hp) in HP0. injection HP0 as <-.
  assert (X3dh.SharedSecret rb <> zero32) as Hnz.
  { rewrite (pr_secret _ _ _ _ Hp). unfold Ratchet.InitializeState, Ratchet.InitializeStateWithGenerator in EA.
    apply st_bind_ok in EA as (? & ? & [-> Hb]%st_check_ok & _). by apply bool_decide_eq_false in Hb. }
  unfold Ratchet.InitializeState, Ratchet.InitializeStateWithGenerator. cbn [default].
  rewrite st_bind_check by (by apply bool_decide_eq_false). rewrite (pr_spk _ _ _ _ Hp), (pr_chain _ _ _ _ Hp), (pr_msg _ _ _ _ Hp).
  rewrite (st_bind_run _ _ _ tb spk) by done.
  destruct (X3dh.InitialChainKey ra) as [ck|]; [by eexists|].
  rewrite (pr_eph _ _ _ _ Hp) in Hcase. injection Hcase as ->.
  rewrite (st_bind_lift _ _ _ z0) by (by rewrite (DH_comm _ _ _ _ (pr_spk_ok _ _ _ _ Hp) (pr_eph_ok _ _ _ _ Hp))).
  cbn [Ratchet.RK Ratchet.set_DHs Ratchet.set_SeenDH Ratchet.set_DHr Ratchet.empty_state].
  destruct (KDFRoot_ok (X3dh.SharedSecret rb) z0) as (rk & ckr & Hk). rewrite (st_bind_lift _ _ _ _ Hk).
  rewrite (st_bind_run _ _ _ _ _ Hg), (st_bind_lift _ _ _ _ Hdh).
  match goal with |- context [Ratchet.KDFRoot ?x z] => destruct (KDFRoot_ok x z) as (rk2 & cks & Hk2); rewrite (st_bind_lift _ _ _ _ Hk2) end.
  by eexists.
Qed.

(** The key of the post-quantum ratchet; any, when there is none. *)
Definition pq_auth (ra : X3dh.Result) : bytes :=
  match X3dh.PQRKey ra with Some k => vec_to_list k | None => [Byte.x00] end.

Lemma pq_auth_len ra : 0 < len (pq_auth ra) < 2 ^ 32.
Proof. unfold pq_auth. destruct (X3dh.PQRKey ra); [by rewrite vec_list_len|done]. Qed.

Lemma newPolyDecoder_96 : exists d, Erasure.Erasure.newPolyDecoder (SpqrMlkem.mlkemHeaderSize + SpqrMlkem.authenticatorMacSize) = Ok d.
Proof. eexists. vm_compute. reflexivity. Qed.

Lemma NewState_ok auth d : 0 < len auth -> exists s, SpqrState.NewState auth d (SpqrChain.mkParams 0 0) = Ok s.
Proof.
  intros Ha. destruct newPolyDecoder_96 as (dec & Hdec).
  unfold SpqrState.NewState, SpqrState.NewStateWithMinVersion, SpqrState.initV1StateForDirection, SpqrV1.initV1StateA, SpqrV1.initV1StateB,
    SpqrV1.newUnchunkedKeysUnsampled, SpqrV1.newUnchunkedNoHeaderReceived.
  rewrite Hdec. rewrite (proj2 (Z.eqb_neq (len auth) 0)) by lia. destruct d; by eexists.
Qed.

(** Both sides set up the post-quantum ratchet. *)
Lemma initSessionPQR_linked X Y ra rb X' :
  X3dh.PQRKey rb = X3dh.PQRKey ra -> pqrState X = None -> pqrState Y = None -> initSessionPQR X ra true = Ok X' ->
  exists x y Y', initSessionPQR Y rb false = Ok Y' /\ X' = set_pqrState x X /\ Y' = set_pqrState y Y /\ pq_linked (pq_auth ra) true x y /\
    pq_spent 0 X' /\ pq_spent 0 Y'.
Proof.
  intros Hk HX0 HY0 E. unfold initSessionPQR in *. rewrite Hk. unfold pq_auth. destruct (X3dh.PQRKey ra) as [k|].
  - apply res_bind_ok in E as (a & Ea & E). apply Ok_inj in E as <-.
    destruct (NewState_ok (vec_to_list k) Util.DirectionB2A) as (b & Eb); [by rewrite vec_list_len|]. rewrite Eb.
    exists (Some a), (Some b). eexists. split; [reflexivity|]. split; [done|]. split; [done|].
    destruct (order_init (vec_to_list k) pq_params pq_mins a b) as (Ho & Sa & Sb); [exact Ea|exact Eb|].
    split; [exact Ho|]. split; by intros ? [= <-].
  - apply Ok_inj in E as <-. exists None, None, Y. split; [done|]. destruct X, Y. cbn in *. by subst.
Qed.

(** The clone that goes into a new record. *)
Lemma linked_clone auth p n X Y :
  0 < len auth < 2 ^ 32 -> n < 2 ^ 31 - 1 -> linked auth p n X Y -> linked auth p n (clone X) Y.
Proof.
  intros Ha Hn [Hra Hpq Hlo Hre [HsX HsY] Hval [Hp Hq] Hv].
  assert (forall a, pqrState X = Some a -> SpqrState.Clone a = Some (state_reset a)) as Hc.
  { intros a E. rewrite E in Hpq. destruct (pqrState Y) as [b|]; [|done].
    apply (in_order_clone auth pq_params pq_mins (pq_settings auth Ha) p a b Hpq). by apply (spent_roomy n), HsX. }
  split; try done; cbn [clone pqrState previousStates].
  - destruct (pqrState X) as [a|]; [|done]. cbn [mbind option_bind]. rewrite (Hc a eq_refl). destruct (pqrState Y); [|done].
    by apply in_order_reset.
  - split; [|done]. intros a. cbn. destruct (pqrState X) as [a0|] eqn:E; [|done]. cbn [mbind option_bind]. rewrite (Hc a0 eq_refl).
    intros [= <-]. by apply spent_reset, HsX.
  - by rewrite Hp.
Qed.

(** What the initiator's result says. *)
Lemma bundle_result ik b t t' ra :
  X3dh.ProcessPreKeyBundle (X3dh.NewInitiator ik) b t = (t', Ok ra) ->
  IsValidPublicKey (ik_PublicKey (BundleIdentityKey b)) = true /\ IsValidPublicKey (SignedPreKeyPublic b) = true /\
  X3dh.RemoteRatchetKey ra = Some (SignedPreKeyPublic b) /\ X3dh.AssociatedDataBytes ra = X3dh.AssociatedData (ikp_PublicKey ik) (BundleIdentityKey b) /\
  exists eph kct, X3dh.LocalEphemeral ra = Some eph /\ X3dh.InitialMessage ra =
    X3dh.mkMessage (ikp_PublicKey ik) (PublicKey eph) (PreKeyID b) (SignedPreKeyID b) (KyberPreKeyID b) kct [].
Proof.
  intros E. unfold X3dh.ProcessPreKeyBundle in E. cbn [X3dh.ini_identityKey X3dh.NewInitiator X3dh.ini_generateEphemeral X3dh.ini_kyberEncapsulate default] in E.
  inv_steps. destruct v5 as [[[shared chain] pqr] kct]. inv_steps. subst ra. unfold Validate in Hok.
  apply res_bind_ok in Hok as (? & _ & Hok). apply res_bind_ok in Hok as (? & _ & Hok).
  apply res_bind_ok in Hok as (? & Hi%check_ok & Hok). apply res_bind_ok in Hok as (? & Hs%check_ok & Hok).
  apply negb_false_iff in Hi, Hs. split_and!; [done|done|done|done|]. eauto.
Qed.

(** The two ratchets after the handshake: in step, and ready for the first
    message whatever the handshake. *)
Lemma ratchets_start ra rb eph spk t t' A a tb tb' b' z :
  paired ra rb eph spk -> Ratchet.InitializeState ra true t = (t', Ok A) -> Ratchet.DHs A = Some a ->
  IsValidPublicKey (PublicKey a) = true -> IsValidPublicKey (PublicKey eph) = true -> IsValidPublicKey (PublicKey spk) = true ->
  X3dh.InitialChainKey ra = None \/ PublicKey a <> PublicKey eph ->
  GenerateKeyPair tb = (tb', Ok b') -> DH (PrivateKey b') (PublicKey a) = Ok z ->
  IsValidPublicKey (PublicKey b') = true -> PublicKey b' ∉ Ratchet.SeenDH A ->
  exists B tb1, Ratchet.InitializeState rb false tb = (tb1, Ok B) /\ talk A B /\
    forall h, Ratchet.hdr_DH h = PublicKey a -> turn_ok A h B tb1 tb'.
Proof.
  intros Hp EA HA Hva Hve Hvs Hne Hg Hdh Hvb Hseen.
  destruct (responder_init ra rb eph spk t t' A a tb tb' b' z Hp EA HA Hg Hdh) as (B & EB & Hleg).
  exists B. destruct (X3dh.InitialChainKey ra) as [ck|] eqn:Eck; eexists; (split; [exact EB|]).
  - destruct Hne as [?|Hne]; [done|].
    destruct (talk_init_pq ra rb eph spk ck t t' tb tb A B a Hp Eck EA EB HA Hne Hva Hvs) as [_ Ht]. split; [done|].
    destruct (init_pq ra rb eph spk ck t t' tb tb A B Hp Eck EA EB) as (_ & _ & _ & _ & _ & _ & _ & _ & _ & _ & HdB & _).
    intros h Hh. unfold turn_ok, Ratchet.current_dh. rewrite Hh, HdB, bool_decide_eq_false_2 by congruence. by exists b', z.
  - destruct (Hleg eq_refl) as [HB ->].
    destruct (init_legacy ra rb eph spk t t' tb tb' A B Hp Eck EA EB) as (b0 & cb & Hah & Hri & _ & _ & _ & _ & _ & _ & HsA & _ & Hg').
    split.
    + eapply talk_init_legacy; [exact Hp|done|exact EA|exact EB|exact HB| |done|done].
      rewrite HsA in Hseen. intros Eb. apply Hseen. rewrite Eb. by apply elem_of_singleton.
    + intros h Hh. unfold turn_ok, Ratchet.current_dh. rewrite Hh, (ri_dhr _ _ _ _ Hri), bool_decide_eq_true_2 by done. done.
Qed.

(** ** Through the stores *)

Context {W} {I : IdentityKeyStore W} {PK : PreKeyStore W} {SP : SignedPreKeyStore W} {KP : KyberPreKeyStore W} {S : SessionStore W}.
Context {L : SessionStoreLaws S} {PL : ProtocolStoreLaws I PK SP KP L}.

Definition valid_pair (k : KeyPair) : Prop := IsValidPublicKey (PublicKey k) = true.

(** The initiator with the store [w] opens a session with the owner of
    [bundle]: its identity [ik], the handshake's result [ra] with the ephemeral
    key [eph], and the ratchet [A] with its first ratchet key [a]. *)
Record opening (w : W) (t : tape) (peer : Address) (bundle : PreKeyBundle)
    (ik : IdentityKeyPair) (ra : X3dh.Result) (A : Ratchet.State) (eph a : KeyPair) : Prop := {
  op_identity : GetIdentityKeyPair w = (w, Ok (Some ik));
  op_key : key_pair_ok (ikp_PrivateKey ik) (ik_PublicKey (ikp_PublicKey ik));
  op_valid : IsValidPublicKey (ik_PublicKey (ikp_PublicKey ik)) = true;
  op_ra : exists t1 t2, X3dh.ProcessPreKeyBundle (X3dh.NewInitiator ik) bundle t = (t1, Ok ra) /\ Ratchet.InitializeState ra true t1 = (t2, Ok A);
  op_eph : X3dh.LocalEphemeral ra = Some eph /\ valid_pair eph;
  op_a : Ratchet.DHs A = Some a /\ valid_pair a;
  op_distinct : X3dh.InitialChainKey ra = None \/ PublicKey a <> PublicKey eph;
  op_ids : exists w1 w2 reg, SaveIdentity peer (Some (BundleIdentityKey bundle)) w = (w1, Ok tt) /\
    GetLocalRegistrationID w1 = (w2, Ok reg) /\ Wire.wire_ids_ok reg (PreKeyID bundle) (SignedPreKeyID bundle) (KyberPreKeyID bundle)
}.

(** The owner of the bundle, with the store [w], has never talked to the
    initiator, trusts its identity [k], holds the keys of the bundle and has the
    randomness for a ratchet key [b]. *)
Record accepting (w : W) (t t' : tape) (now : Z) (peer : Address) (bundle : PreKeyBundle) (k : IdentityKey)
    (A : Ratchet.State) (a : KeyPair) : Prop := {
  ac_fresh : sess_view w peer = None;
  ac_trust : IsTrustedIdentity peer (Some k) DirectionReceiving w = true;
  ac_serves : exists ik spk w1 w2, GetIdentityKeyPair w = (w, Ok (Some ik)) /\
    LoadSignedPreKey (SignedPreKeyID bundle) w = (w, Ok (Some spk)) /\ SignedPreKeyExpired (Some spk) now w = false /\
    X3dh.serves (X3dh.mkResponder W ik spk x3dh_store true) bundle w w1 /\ SaveIdentity peer (Some k) w1 = (w2, Ok tt);
  ac_ratchet : exists b z, GenerateKeyPair t = (t', Ok b) /\ DH (PrivateKey b) (PublicKey a) = Ok z /\ valid_pair b /\
    PublicKey b ∉ Ratchet.SeenDH A
}.

(** The initiator's session before its first message. *)
Definition opened_by (ik : IdentityKeyPair) (bundle : PreKeyBundle) (ra : X3dh.Result) (A : Ratchet.State) : Session :=
  NewSession A (ikp_PublicKey ik) (BundleIdentityKey bundle) (X3dh.AssociatedDataBytes ra).

Lemma opening_inv w t peer bundle ik ra A eph a plaintext w' t' c :
  opening w t peer bundle ik ra A eph a -> EncryptWithPreKeyBundle peer bundle plaintext (w, t) = ((w', t'), Ok c) ->
  exists X0 X' t2 reg msg pm, let m := X3dh.InitialMessage ra in
    let X := setSessionCiphertextVersion (ciphertextVersionFromX3DH m) X0 in
    initSessionPQR (opened_by ik bundle ra A) ra true = Ok X0 /\
    encryptSignalMessage X plaintext t2 = (t', Ok (X', msg)) /\
    Wire.wire_ids_ok reg (PreKeyID bundle) (SignedPreKeyID bundle) (KyberPreKeyID bundle) /\
    Wire.NewPreKeySignalMessage (ciphertextVersionForSession X') reg (X3dh.msg_PreKeyID m) (X3dh.msg_SignedPreKeyID m) (X3dh.msg_KyberPreKeyID m)
      (X3dh.msg_KyberCiphertext m) (X3dh.msg_EphemeralKey m) (X3dh.msg_IdentityKey m) msg = Ok pm /\ c = Wire.pm_serialized pm /\
    sess_view w' peer = Some (Serialize (NewRecord X' DefaultMaxArchivedSessions)).
Proof.
  intros [Hid _ _ (t1 & t2 & Hra & HA) _ _ _ (w1 & w2 & reg & Hsave & Hreg & Hids)] E. unfold EncryptWithPreKeyBundle in E.
  apply st_bind_ok in E as ([w0 t0] & ? & E0 & E). unfold no_session in E0. destruct (ContainsSession peer w); [done|]. injection E0 as <- <- _.
  apply st_bind_ok in E as ([w3 t3] & [X x3msg] & E1 & E). unfold ProcessPreKeyBundle in E1.
  rewrite (st_bind_run _ _ _ (w, t) (Some ik)) in E1 by (unfold st_fst; by rewrite Hid).
  apply st_bind_ok in E1 as ([w4 t4] & ? & E2 & E1). unfold is_trusted in E2. destruct (IsTrustedIdentity _ _ _ _); [|done]. injection E2 as <- <- _.
  rewrite (st_bind_run _ _ _ (w, t1) ra) in E1 by (unfold st_snd; by rewrite Hra).
  rewrite (st_bind_run _ _ _ (w, t2) A) in E1 by (unfold st_snd; by rewrite HA).
  apply st_bind_ok in E1 as (? & X0 & [-> EX0]%st_lift_ok & E1).
  rewrite (st_bind_run _ _ _ (w1, t2) tt) in E1 by (unfold st_fst; by rewrite Hsave).
  apply st_ret_ok in E1 as [[= -> ->] [= -> ->]].
  apply st_bind_ok in E as ([w5 t5] & [X' msg] & E3 & E). unfold st_snd in E3.
  destruct (encryptSignalMessage _ plaintext t2) as [t6 r] eqn:Ee in E3. injection E3 as -> -> ->.
  rewrite (st_bind_run _ _ _ (w2, t5) reg) in E by (unfold st_fst; by rewrite Hreg).
  apply st_bind_ok in E as (? & pm & [-> Epm]%st_lift_ok & E).
  destruct (persistRecord_stores peer (NewRecord X' DefaultMaxArchivedSessions) w2 t5) as (w6 & Ep & Vp & _).
  rewrite (st_bind_run _ _ _ _ _ Ep) in E. apply st_ret_ok in E as [[= -> ->] ->].
  exists X0, X', t2, reg, msg, pm. split_and!; try done.
Qed.

Lemma version_from_x3dh m X :
  let v := ciphertextVersionFromX3DH m in
  setSessionCiphertextVersion v X = set_version v X /\
  Wire.CiphertextMessagePreKyberVersion <= v <= Wire.CiphertextMessageCurrentVersion.
Proof.
  intros v. assert (Wire.CiphertextMessagePreKyberVersion <= v <= Wire.CiphertextMessageCurrentVersion) as Hv.
  { unfold v, ciphertextVersionFromX3DH. destruct (_ || _); done. }
  split; [|done]. unfold setSessionCiphertextVersion. by rewrite version_normal.
Qed.

(** The two sessions before the first message. *)
Lemma fresh_linked auth A B x y la lb k ka v ad :
  talk A B -> pq_linked auth true x y ->
  pq_spent 0 (set_pqrState x (NewSession A la lb ad)) -> pq_spent 0 (set_pqrState y (NewSession B lb k ad)) ->
  ik_PublicKey la = ka -> ik_PublicKey k = ka -> IsValidPublicKey ka = true -> IsValidPublicKey (ik_PublicKey lb) = true ->
  Wire.CiphertextMessagePreKyberVersion <= v <= Wire.CiphertextMessageCurrentVersion ->
  linked auth true 0 (set_version v (set_pqrState x (NewSession A la lb ad))) (set_version v (set_pqrState y (NewSession B lb k ad))).
Proof. intros Ht Hp Sx Sy <- Hk Hva Hvb Hv. by split. Qed.

(** The owner of the bundle makes its session from the message. *)
Lemma ProcessPreKeyMessage_ok (w w1 w2 : W) t t1 now peer ik spk m m' rb B Y0 :
  GetIdentityKeyPair w = (w, Ok (Some ik)) ->
  IsTrustedIdentity peer (Some (X3dh.msg_IdentityKey m')) DirectionReceiving w = true ->
  LoadSignedPreKey (X3dh.msg_SignedPreKeyID m') w = (w, Ok (Some spk)) -> SignedPreKeyExpired (Some spk) now w = false ->
  ik_PublicKey (X3dh.msg_IdentityKey m') = ik_PublicKey (X3dh.msg_IdentityKey m) ->
  X3dh.msg_EphemeralKey m' = X3dh.msg_EphemeralKey m -> X3dh.msg_PreKeyID m' = X3dh.msg_PreKeyID m ->
  X3dh.msg_SignedPreKeyID m' = X3dh.msg_SignedPreKeyID m -> X3dh.msg_KyberPreKeyID m' = X3dh.msg_KyberPreKeyID m ->
  X3dh.msg_KyberCiphertext m' = X3dh.msg_KyberCiphertext m -> X3dh.InitialMessage rb = m ->
  X3dh.ProcessInitialMessage (X3dh.mkResponder W ik spk x3dh_store true) m w = (w1, Ok rb) ->
  Ratchet.InitializeState rb false t = (t1, Ok B) ->
  initSessionPQR (NewSession B (ikp_PublicKey ik) (X3dh.msg_IdentityKey m') (X3dh.AssociatedDataBytes rb)) rb false = Ok Y0 ->
  SaveIdentity peer (Some (X3dh.msg_IdentityKey m')) w1 = (w2, Ok tt) ->
  ProcessPreKeyMessage now peer m' (w, t) =
    ((w2, t1), Ok (setSessionCiphertextVersion (ciphertextVersionFromX3DH m) Y0, X3dh.AssociatedDataBytes rb)).
Proof.
  intros Hid Htr Hspk Hexp H1 H2 H3 H4 H5 H6 Hm Hp HB HY Hs. unfold ProcessPreKeyMessage.
  rewrite (st_bind_run _ _ _ (w, t) (Some ik)) by (unfold st_fst; by rewrite Hid).
  rewrite (st_bind_run _ _ _ (w, t) tt) by (unfold is_trusted; by rewrite Htr).
  rewrite (st_bind_run _ _ _ (w, t) (Some spk)) by (unfold st_fst; by rewrite Hspk).
  rewrite (st_bind_run _ _ _ (w, t) (w, t)) by done. rewrite st_bind_check by done.
  pose proof (ProcessInitialMessage_public _ _ _ _ _ _ H1 H2 H3 H4 H5 H6 Hp) as Hp'.
  rewrite (st_bind_run _ _ _ (w1, t) _) by (unfold st_fst; rewrite Hp'; reflexivity).
  assert (forall r, Ratchet.InitializeState rb false t = r -> Ratchet.InitializeState (X3dh.mkResult (X3dh.SharedSecret rb) (X3dh.InitialChainKey rb) (X3dh.PQRKey rb)
    (X3dh.AssociatedDataBytes rb) (X3dh.msg_IdentityKey m') m' None (X3dh.LocalRatchetKey rb) None) false t = r) as Hi.
  { intros r <-. unfold Ratchet.InitializeState, Ratchet.InitializeStateWithGenerator. cbn [X3dh.InitialMessage X3dh.LocalRatchetKey X3dh.SharedSecret X3dh.InitialChainKey].
    by rewrite H2, Hm. }
  rewrite (st_bind_run _ _ _ (w1, t1) B) by (unfold st_snd; by rewrite (Hi _ HB)).
  rewrite (st_bind_lift _ _ _ Y0) by exact HY.
  rewrite (st_bind_run _ _ _ (w2, t1) tt) by (unfold st_fst; by rewrite Hs).
  unfold ciphertextVersionFromX3DH. by rewrite H5, H6.
Qed.

Lemma result_message (r : X3dh.Responder W) m w w' rb : X3dh.ProcessInitialMessage r m w = (w', Ok rb) -> X3dh.InitialMessage rb = m.
Proof.
  intros E. pose proof (ProcessInitialMessage_public r m m w w' rb eq_refl eq_refl eq_refl eq_refl eq_refl eq_refl E) as E'.
  rewrite E in E'. injection E' as E'. by rewrite E'.
Qed.

(** The first message, from one store to the other. *)
Lemma start_ok wA tA wA' tA' wB tB tB' now alice bob bundle ik ra A eph a plaintext c :
  opening wA tA bob bundle ik ra A eph a ->
  EncryptWithPreKeyBundle bob bundle plaintext (wA, tA) = ((wA', tA'), Ok c) ->
  accepting wB tB tB' now alice bundle (Wire.wire_identity (ikp_PublicKey ik)) A a ->
  exists wB' r1 r2, Decrypt now alice c (wB, tB) = ((wB', tB'), Ok plaintext) /\
    connection (pq_auth ra) true 1 wA' bob r1 wB' alice r2.
Proof.
  intros Hop EA [Hfresh Htr (ikB & spk & wB1 & wB2 & HidB & Hspk & Hexp & Hserves & HsaveB) (b & z & Hg & Hdh & Hvb & Hseen)].
  destruct (opening_inv _ _ _ _ _ _ _ _ _ _ _ _ _ Hop EA) as (X0 & X' & t2 & reg & msg & pm & EX0 & Eenc & Hids & Epm & -> & VA).
  destruct Hop as [_ HikA HvA (t1 & t2' & Hra & HA) [Heph Hveph] [Ha Hva] Hdist _].
  destruct (bundle_result _ _ _ _ _ Hra) as (HvB & Hvspk & Hrr' & _ & eph' & kct & Heph' & Hmsg). rewrite Heph in Heph'. injection Heph' as <-.
  destruct (X3dh.handshake_agrees _ bundle wB wB1 ik tA t1 ra HikA Hserves Hra)
    as (rb & eph0 & spk0 & Hrb & Hsec & Hck & Hpqr & Had & _ & _ & Heph0 & HephOk & Hbmsg & Hlr & Hspk0 & Hrr).
  rewrite Heph in Heph0. injection Heph0 as <-. assert (paired ra rb eph spk0) as Hpair by (by split).
  assert (PublicKey spk0 = SignedPreKeyPublic bundle) as Espk by (rewrite Hrr in Hrr'; by injection Hrr').
  destruct (ratchets_start ra rb eph spk0 t1 t2' A a tB tB' b z Hpair HA Ha Hva Hveph) as (B & tB1 & EB & Htalk & Hturn); try done; [by rewrite Espk|].
  pose proof (X3dh.serves_identity _ _ _ _ Hserves) as HidB'. cbn [X3dh.rsp_identityKey] in HidB'.
  set (k := Wire.wire_identity (ikp_PublicKey ik)) in *.
  destruct (initSessionPQR_linked (opened_by ik bundle ra A) (NewSession B (ikp_PublicKey ikB) k (X3dh.AssociatedDataBytes rb)) ra rb X0)
    as (x & y & Y0 & EY0 & -> & -> & Hpq & Sx & Sy); [done|done|done|done|].
  destruct (version_from_x3dh (X3dh.InitialMessage ra) (set_pqrState x (opened_by ik bundle ra A))) as [EX Hver]. rewrite EX in Eenc.
  set (v := ciphertextVersionFromX3DH (X3dh.InitialMessage ra)) in *.
  assert (linked (pq_auth ra) true 0 (set_version v (set_pqrState x (opened_by ik bundle ra A)))
    (set_version v (set_pqrState y (NewSession B (ikp_PublicKey ikB) k (X3dh.AssociatedDataBytes rb))))) as Hl.
  { unfold opened_by in *. rewrite Had in Sy |- *. rewrite HidB' in Sx, HvB |- *. by eapply fresh_linked. }
  pose proof (encrypt_parses _ _ _ _ _ _ _ _ _ _ Hl Eenc) as Hparse.
  destruct (encrypt_inv (set_version v _) _ _ _ _ _ Hver Eenc) as (stX & h & mk & pq & salt & x' & ek & mac & iv & ct & En & _ & EX' & _ & _ & _ & Eh & _).
  apply NextSending_ok in En as (d & Hd & _ & _ & Hh & _). cbn in Hd. rewrite Ha in Hd. injection Hd as <-.
  destruct (session_step (pq_auth ra) true 0 _ _ X' plaintext msg t2 tA' tB1 tB' (pq_auth_len ra) Hl ltac:(lia) Eenc) as (Y' & Edec & Hl' & _ & _).
  { apply Hturn. by rewrite Eh, Hh. }
  assert (ciphertextVersionForSession X' = v) as Ev by (rewrite EX'; unfold ciphertextVersionForSession; cbn; by rewrite version_normal).
  rewrite Ev in Epm. destruct (Wire.NewPreKeySignalMessage_shape _ _ _ _ _ _ _ _ _ _ Epm) as (_ & _ & _ & Epm').
  rewrite Hmsg in Epm. cbn in Epm. pose proof (Wire.ParsePreKeySignalMessage_new _ _ _ _ _ _ _ _ _ _ Epm Hparse Hids Hveph HvA) as Hpp.
  destruct (persistRecord_stores alice (NewRecord Y' DefaultMaxArchivedSessions) wB2 tB') as (wB' & Ep & VB & _).
  exists wB', (NewRecord X' DefaultMaxArchivedSessions), (NewRecord Y' DefaultMaxArchivedSessions). split.
  - unfold Decrypt. rewrite (st_bind_run _ _ _ (wB, tB) None).
    2:{ unfold loadRecordOptional. rewrite (st_bind_run _ _ _ (wB, tB) None); [done|]. unfold st_fst. by rewrite sess_load, Hfresh. }
    assert (Wire.ParseSignalMessage (Wire.pm_serialized pm) = Err ErrInvalidMessage) as -> by (rewrite Epm'; apply Wire.prekey_not_signal).
    rewrite (st_bind_lift _ _ _ _ Hpp). unfold decryptPreKeyMessage, decrypt_prekey. rewrite (st_bind_run _ _ _ (wB, tB) None) by done.
    match type of Hpp with _ = Ok ?q => set (pm' := q) in * end.
    assert (X3dh.InitialMessage rb = X3dh.InitialMessage ra) as Hrm by (by eapply result_message).
    rewrite (st_bind_run _ _ _ (wB2, tB1) (set_version v (set_pqrState y (NewSession B (ikp_PublicKey ikB) k (X3dh.AssociatedDataBytes rb))), X3dh.AssociatedDataBytes rb)).
    2:{ rewrite <- (proj1 (version_from_x3dh (X3dh.InitialMessage ra) _)).
        eapply (ProcessPreKeyMessage_ok wB wB1 wB2 tB tB1 now alice ikB spk (X3dh.InitialMessage ra) (x3dh_message pm')); try done; by rewrite Hmsg. }
    rewrite (st_bind_run _ _ _ (wB2, tB') (Y', plaintext)) by (unfold st_snd; change (Wire.pm_message pm') with msg; by rewrite Edec).
    by rewrite (st_bind_run _ _ _ _ _ Ep).
  - apply linked_clone, linked_sym, linked_clone, linked_sym in Hl'; [|apply pq_auth_len|lia|apply pq_auth_len|lia].
    split; try done. apply pq_auth_len.
Qed.

(** ** A conversation *)

(** The record of an address as the ciphers load it. *)
Definition loaded (w : W) (a : Address) : option Record_ :=
  data ← sess_view w a; match DeserializeRecord data with Ok r => Some r | _ => None end.

Definition small (w : W) (a : Address) : Prop := forall data, sess_view w a = Some data -> len data < 2 ^ 32.

(** The receiver's randomness [t], of which [t'] is left, yields a new ratchet
    key when the message [c] starts a new chain. *)
Definition fresh_turn (w1 : W) (a2 : Address) (w2 : W) (a1 : Address) (c : bytes) (t t' : tape) : Prop :=
  forall r1 r2 msg, loaded w1 a2 = Some r1 -> loaded w2 a1 = Some r2 -> Wire.ParseSignalMessage c = Ok msg ->
    turn_ok (ratchetState (current r1)) (header_of msg) (ratchetState (current r2)) t t'.

(** The party with the store [w1] says something to the one with [w2]. *)
Record says (w1 : W) (a2 : Address) (w2 : W) (a1 : Address) (plaintext : bytes) (w1' : W) (c : bytes) (t : tape) : Prop := {
  sy_small : small w1 a2 /\ small w2 a1;
  sy_encrypt : exists t1 t1', Encrypt a2 plaintext (w1, t1) = ((w1', t1'), Ok c);
  sy_fresh : exists t', fresh_turn w1 a2 w2 a1 c t t'
}.

(** Two parties, [alice] and [bob], with a store each: either says something,
    and the other takes it. *)
Inductive exchanged (alice bob : Address) : W * W -> W * W -> Prop :=
| alice_says wA wB plaintext wA' c t now :
    says wA bob wB alice plaintext wA' c t -> exchanged alice bob (wA, wB) (wA', fst (fst (Decrypt now alice c (wB, t))))
| bob_says wA wB plaintext wB' c t now :
    says wB alice wA bob plaintext wB' c t -> exchanged alice bob (wA, wB) (fst (fst (Decrypt now bob c (wA, t))), wB').

Lemma small_fits w a r : sess_view w a = Some (Serialize r) -> small w a -> fits (current r).
Proof.
  intros Hv Hs. specialize (Hs _ Hv). unfold fits. enough (len (serializeSession (current r)) <= len (Serialize r)) by lia.
  unfold Serialize, sized. rewrite !len_app. len_facts. lia.
Qed.

Lemma loaded_ok w a r : sess_view w a = Some (Serialize r) -> record_wf r -> loaded w a = Some (record_stored r).
Proof. intros Hv Hr. unfold loaded. rewrite Hv. cbn [mbind option_bind]. by rewrite DeserializeRecord_stored. Qed.

Lemma connection_loaded auth p n w1 a2 r1 w2 a1 r2 :
  connection auth p n w1 a2 r1 w2 a1 r2 -> n < 2 ^ 31 - 1 -> small w1 a2 -> small w2 a1 ->
  fits (current r1) /\ fits (current r2) /\ loaded w1 a2 = Some (record_stored r1) /\ loaded w2 a1 = Some (record_stored r2).
Proof.
  intros [Ha Hv1 Hv2 Hl [] []] Hn Hs1 Hs2.
  pose proof (small_fits _ _ _ Hv1 Hs1) as F1. pose proof (small_fits _ _ _ Hv2 Hs2) as F2. split_and!; [done|done|..].
  - apply loaded_ok, fresh_record_wf; [done|apply (linked_wf auth p n _ (current r2)); [done|done|lia|done]|done|done].
  - apply loaded_ok, fresh_record_wf; [done|apply (linked_wf auth (negb p) n _ (current r1)); [done|by apply linked_sym|lia|done]|done|done].
Qed.

Lemma says_ok auth p n w1 a2 r1 w2 a1 r2 plaintext w1' c t now :
  connection auth p n w1 a2 r1 w2 a1 r2 -> 0 <= n < 2 ^ 31 - 1 -> says w1 a2 w2 a1 plaintext w1' c t ->
  snd (Decrypt now a1 c (w2, t)) = Ok plaintext /\
  exists r1' r2', connection auth p (n + 1) w1' a2 r1' (fst (fst (Decrypt now a1 c (w2, t)))) a1 r2'.
Proof.
  intros Hc Hn [[Hs1 Hs2] (t1 & t1' & E) (t' & Hf)].
  destruct (connection_loaded _ _ _ _ _ _ _ _ _ Hc ltac:(lia) Hs1 Hs2) as (F1 & F2 & L1 & L2).
  destruct (exchange_ok auth p n w1 a2 r1 w2 a1 r2 plaintext c t1 w1' t1' t t' now Hc Hn F1 F2 E) as (w2' & r1' & r2' & Ed & Hc' & _).
  { intros msg Hm. by apply (Hf (record_stored r1) (record_stored r2) msg L1 L2). }
  rewrite Ed. split; [done|]. by exists r1', r2'.
Qed.

Lemma exchanged_ok auth alice bob n k wA wB w :
  nsteps (exchanged alice bob) k (wA, wB) w -> 0 <= n -> n + Z.of_nat k <= 2 ^ 31 - 1 ->
  (exists r1 r2, connection auth true n wA bob r1 wB alice r2) ->
  exists r1 r2, connection auth true (n + Z.of_nat k) w.1 bob r1 w.2 alice r2.
Proof.
  revert n wA wB. induction k as [|k IH]; intros n wA wB Hr Hn Hk (r1 & r2 & Hc).
  - inversion Hr; subst. exists r1, r2. by rewrite Z.add_0_r.
  - inversion Hr as [|? ? [wA1 wB1] ? Hst Hr']; subst.
    assert (exists r1' r2', connection auth true (n + 1) wA1 bob r1' wB1 alice r2') as Hc'.
    { inversion Hst as [? ? ? ? ? ? now Hs|? ? ? ? ? ? now Hs]; subst.
      - by apply (says_ok auth true n _ _ r1 _ _ r2 _ _ _ _ now) in Hs as [_ ?]; [|done|lia].
      - apply connection_sym in Hc. destruct (says_ok auth false n _ _ r2 _ _ r1 _ _ _ _ now Hc ltac:(lia) Hs) as (_ & r2' & r1' & Hc').
        apply connection_sym in Hc'. by exists r1', r2'. }
    replace (n + Z.of_nat (Datatypes.S k)) with ((n + 1) + Z.of_nat k) by lia. apply (IH _ _ _ Hr'); [lia|lia|done].
Qed.
End start.
