(* ===== verification/SessionConversation.v ===== *)
(** * Sessions: conversations through the stores

    The theorem about whole conversations, from the first message on, with an
    example in two memory stores. *)

From Stdlib Require Import ZArith Lia.
From Stdlib Require Import Strings.Byte.
From stdpp Require Import base gmap strings list list_numbers vector relations.
From S2P Require Import Prelude Crypto Keys X3dh Ratchet RatchetTalk SpqrMlkem Protowire Wire Store MemoryStore Session SessionProofs SessionSafety SessionTalk SessionStart.
Import Crypto Keys Session.

(** ** An example *)

Module Demo.
#[local] Existing Instance Toy.primitives.
#[local] Existing Instance Toy.kyber.
#[local] Existing Instance Toy.xeddsa.
#[local] Existing Instance ToyMlkem.mlkem.
#[local] Existing Instance ToyWire.wire.

Definition range : nat -> gmap Address bytes -> list Address := fun _ s => (map_to_list s).*1.
#[local] Instance ids : IdentityKeyStore MemoryStore.Store := MemoryStore.identityKeyStore.
#[local] Instance sessions : SessionStore MemoryStore.Store := MemoryStore.sessionStore range.
#[local] Instance sessions_laws : SessionStoreLaws sessions := MemoryStore.sessionStore_laws range.

Definition alice : Address := mkAddress "alice" 1.
Definition bob : Address := mkAddress "bob" 1.

Definition kyber_pair : KyberKeyPair := get_ok (mkKyberKeyPair [] []) (snd (GenerateKyber1024KeyPair (replicate 64 Byte.x07))).

Definition bundle : PreKeyBundle :=
  mkPreKeyBundle 12 1 (Some 4) (Some (PublicKey (toy_pair 42))) 9 (PublicKey (toy_pair 41))
    (Toy.sig (PublicKey (toy_pair 40)) (SerializeWirePublicKey (PublicKey (toy_pair 41)))) (Some 5) (kkp_PublicKey kyber_pair)
    (Toy.sig (PublicKey (toy_pair 40)) (kkp_PublicKey kyber_pair)) (ikp_PublicKey (X3dh.demo_identity 40)).

Definition wA : MemoryStore.Store := MemoryStore.NewStore (Some (X3dh.demo_identity 7)) 11.
Definition wB : MemoryStore.Store :=
  MemoryStore.set_kyberKeys {[5 := Some (mkKyberPreKey 5 (Some kyber_pair) [] 0)]}
  (MemoryStore.set_signedKeys {[9 := Some (mkSignedPreKey 9 (Some (toy_pair 41)) [] 1)]}
  (MemoryStore.set_preKeys {[4 := Some (mkPreKey 4 (Some (toy_pair 42)) 0)]}
  (MemoryStore.NewStore (Some (X3dh.demo_identity 40)) 12))).
Definition tA : tape := z2b <$> seqZ 90 250.
Definition tB : tape := z2b <$> seqZ 33 32.

Definition no_result : X3dh.Result :=
  X3dh.mkResult zero32 None None [] (mkIdentityKey zero32 zero32) (X3dh.mkMessage (mkIdentityKey zero32 zero32) zero32 None 0 None [] []) None None None.
Definition x3dh_run := X3dh.ProcessPreKeyBundle (X3dh.NewInitiator (X3dh.demo_identity 7)) bundle tA.
Definition ra : X3dh.Result := get_ok no_result (snd x3dh_run).
Definition init_run := Ratchet.InitializeState ra true (fst x3dh_run).
Definition A : Ratchet.State := get_ok (Ratchet.empty_state zero32) (snd init_run).
Definition eph : KeyPair := default (toy_pair 0) (X3dh.LocalEphemeral ra).
Definition a : KeyPair := default (toy_pair 0) (Ratchet.DHs A).

#[local] Strategy expand [x3dh_run ra init_run A].

Lemma x3dh_ok : exists t1 t2, X3dh.ProcessPreKeyBundle (X3dh.NewInitiator (X3dh.demo_identity 7)) bundle tA = (t1, Ok ra) /\
  Ratchet.InitializeState ra true t1 = (t2, Ok A).
Proof.
  assert (x3dh_run = (fst x3dh_run, Ok ra)) as E1 by (exact (run_get_ok no_result x3dh_run (eq_refl true <: is_ok (snd x3dh_run) = true))).
  assert (init_run = (fst init_run, Ok A)) as E2 by (exact (run_get_ok _ init_run (eq_refl true <: is_ok (snd init_run) = true))).
  exists (fst x3dh_run), (fst init_run). split.
  - unfold x3dh_run at 1 in E1. exact E1.
  - unfold init_run at 1 in E2. exact E2.
Qed.

Lemma opens : opening wA tA bob bundle (X3dh.demo_identity 7) ra A eph a.
Proof.
  split.
  - done.
  - apply toy_pair_ok.
  - vm_compute. reflexivity.
  - exact x3dh_ok.
  - split; vm_compute; reflexivity.
  - split; vm_compute; reflexivity.
  - right. intros E. apply (f_equal vec_to_list) in E. vm_compute in E. discriminate E.
  - do 3 eexists. split; [reflexivity|]. split; [reflexivity|]. split_and!; [done|done|by intros ? [= <-]|by intros ? [= <-]].
Qed.

#[local] Instance prekeys : PreKeyStore MemoryStore.Store := MemoryStore.preKeyStore.
#[local] Instance signed : SignedPreKeyStore MemoryStore.Store := MemoryStore.signedPreKeyStore.
#[local] Instance kybers : KyberPreKeyStore MemoryStore.Store := MemoryStore.kyberPreKeyStore.

Lemma serves_bundle : exists w', X3dh.serves (X3dh.mkResponder _ (X3dh.demo_identity 40) (mkSignedPreKey 9 (Some (toy_pair 41)) [] 1) x3dh_store true) bundle wB w'.
Proof.
  eexists. split.
  - reflexivity.
  - apply toy_pair_ok.
  - exists (toy_pair 41). repeat split; apply toy_pair_ok.
  - exists (mkPreKey 4 (Some (toy_pair 42)) 0), (toy_pair 42). repeat split.
  - split; [done|]. exists (mkKyberPreKey 5 (Some kyber_pair) [] 0), kyber_pair, (replicate 64 Byte.x07).
    destruct (GenerateKyber1024KeyPair (replicate 64 Byte.x07)) as [t' [kp| |]] eqn:E; [|by vm_compute in E..].
    exists t'. split; [reflexivity|]. split; [reflexivity|]. split; [reflexivity|]. do 2 f_equal. unfold kyber_pair. by rewrite E.
Qed.

Definition new_pair : KeyPair := get_ok (toy_pair 0) (snd (GenerateKeyPair tB)).

Lemma accepts : accepting wB tB (fst (GenerateKeyPair tB)) 0 alice bundle (Wire.wire_identity (ikp_PublicKey (X3dh.demo_identity 7))) A a.
Proof.
  split.
  - reflexivity.
  - reflexivity.
  - destruct serves_bundle as [w' Hw]. exists (X3dh.demo_identity 40), (mkSignedPreKey 9 (Some (toy_pair 41)) [] 1), w'. eexists.
    split; [reflexivity|]. split; [reflexivity|]. split; [reflexivity|]. split; [exact Hw|]. reflexivity.
  - exists new_pair. destruct (DH (PrivateKey new_pair) (PublicKey a)) as [z| |] eqn:E; [|by vm_compute in E..]. exists z. split_and!.
    + apply (run_get_ok (toy_pair 0)). vm_compute. reflexivity.
    + reflexivity.
    + vm_compute. reflexivity.
    + assert (bool_decide (PublicKey new_pair ∈ Ratchet.SeenDH A) = false) as Hn by (vm_compute; reflexivity).
      by apply bool_decide_eq_false in Hn.
Qed.

(** The first message, and a second and a third one of the same speaker. *)
Definition start_run := EncryptWithPreKeyBundle bob bundle (str "hello") (wA, tA).
Definition c1 : bytes := get_ok [] (snd start_run).
Definition wA1 : MemoryStore.Store := fst (fst start_run).
Definition wB1 : MemoryStore.Store := fst (fst (Decrypt 0 alice c1 (wB, tB))).

Definition run2 := Encrypt bob (str "are you there?") (wA1, tA).
Definition c2 : bytes := get_ok [] (snd run2).
Definition wA2 : MemoryStore.Store := fst (fst run2).
Definition wB2 : MemoryStore.Store := fst (fst (Decrypt 0 alice c2 (wB1, []))).

Definition run3 := Encrypt bob (str "?") (wA2, tA).
Definition c3 : bytes := get_ok [] (snd run3).
Definition wA3 : MemoryStore.Store := fst (fst run3).

(** No new chain is started. *)
Definition same_chain (w : MemoryStore.Store) (c : bytes) : bool :=
  match loaded w alice, Wire.ParseSignalMessage c with
  | Some r, Ok msg => Ratchet.current_dh (ratchetState (current r)) (Wire.sm_senderRatchet msg)
  | _, _ => false
  end.

Definition stored_small (w : MemoryStore.Store) (a : Address) : bool :=
  match sess_view w a with Some d => len d <? 2 ^ 32 | None => true end.

Lemma says_demo w1 w2 p w1' c t t1 t1' :
  stored_small w1 bob && stored_small w2 alice && same_chain w2 c = true -> Encrypt bob p (w1, t1) = ((w1', t1'), Ok c) ->
  says w1 bob w2 alice p w1' c t.
Proof.
  intros [[H1 H2]%andb_true_iff H3]%andb_true_iff E. split.
  - unfold stored_small in *. split; intros d Hd; [rewrite Hd in H1|rewrite Hd in H2]; lia.
  - eauto.
  - exists t. intros r1 r2 msg _ Hr Hm. unfold same_chain in H3. rewrite Hr, Hm in H3. unfold turn_ok. cbn. by rewrite H3.
Qed.

#[local] Strategy expand [start_run c1 run2 c2 run3 c3 wA1 wB1 wA2 wB2 wA3].

Lemma store_laws : ProtocolStoreLaws ids prekeys signed kybers sessions_laws.
Proof. apply MemoryStore.protocolStore_laws. Qed.

Lemma triple_ok {V T B} (d : B) (x : V * T * res B) : is_ok (snd x) = true -> x = ((fst (fst x), snd (fst x)), Ok (get_ok d (snd x))).
Proof. by destruct x as [[? ?] [?|?|]]. Qed.

Lemma started : EncryptWithPreKeyBundle bob bundle (str "hello") (wA, tA) = ((wA1, snd (fst start_run)), Ok c1).
Proof. exact (triple_ok [] start_run (eq_refl true <: is_ok (snd start_run) = true)). Qed.

Lemma says2 : says wA1 bob wB1 alice (str "are you there?") wA2 c2 [].
Proof.
  apply (says_demo wA1 wB1 _ wA2 c2 [] tA (snd (fst run2))); [vm_compute; reflexivity|].
  exact (triple_ok [] run2 (eq_refl true <: is_ok (snd run2) = true)).
Qed.

Lemma says3 : says wA2 bob wB2 alice (str "?") wA3 c3 [].
Proof.
  apply (says_demo wA2 wB2 _ wA3 c3 [] tA (snd (fst run3))); [vm_compute; reflexivity|].
  exact (triple_ok [] run3 (eq_refl true <: is_ok (snd run3) = true)).
Qed.
End Demo.

(** C1: a conversation. The initiator opens a session from the bundle of a peer
    with [EncryptWithPreKeyBundle], and the peer, who has the keys of the bundle
    and never talked to the initiator, decrypts what comes out: it gets the
    plaintext. From there on the two may exchange fewer than 2^31 - 2 messages,
    whoever speaks, each being delivered before the next is sent and every
    record going through the store as bytes in between: whatever [Encrypt]
    returns on one side, [Decrypt] returns its plaintext on the other. Records
    are assumed to be shorter than 2^32 bytes and the receiver of a new chain to
    draw a ratchet key that the sender has not seen. The stores are any
    implementation of the interfaces. *)
Theorem session_conversation (P : Primitives) (K : KyberPrims) (X : XEdDSA) (M : MLKEM) (Pw : Protowire) W
    (I : IdentityKeyStore W) (PK : PreKeyStore W) (SP : SignedPreKeyStore W) (KP : KyberPreKeyStore W) (S : SessionStore W)
    (L : SessionStoreLaws S) alice bob wA tA wA' tA' wB tB tB' now bundle ik ra A eph a plaintext c :
  PrimitiveLaws P -> KyberLaws K -> MLKEMLaws M -> ProtowireLaws Pw -> ProtocolStoreLaws I PK SP KP L ->
  opening wA tA bob bundle ik ra A eph a ->
  EncryptWithPreKeyBundle bob bundle plaintext (wA, tA) = ((wA', tA'), Ok c) ->
  accepting wB tB tB' now alice bundle (Wire.wire_identity (ikp_PublicKey ik)) A a ->
  snd (Decrypt now alice c (wB, tB)) = Ok plaintext /\
  forall n wA2 wB2, nsteps (exchanged alice bob) n (wA', fst (fst (Decrypt now alice c (wB, tB)))) (wA2, wB2) ->
    Z.of_nat n < 2 ^ 31 - 2 ->
    (forall p wA3 c t now, says wA2 bob wB2 alice p wA3 c t -> snd (Decrypt now alice c (wB2, t)) = Ok p) /\
    (forall p wB3 c t now, says wB2 alice wA2 bob p wB3 c t -> snd (Decrypt now bob c (wA2, t)) = Ok p).
Proof.
  intros HP HK HM HPw HS Hop Hen Hac. destruct (start_ok _ _ _ _ _ _ _ now _ _ _ _ _ _ _ _ _ _ Hop Hen Hac) as (wB' & r1 & r2 & Ed & Hc).
  rewrite Ed. split; [done|]. intros n wA2 wB2 Hst Hn.
  destruct (exchanged_ok (pq_auth ra) alice bob 1 n wA' wB' (wA2, wB2) Hst) as (r1' & r2' & Hc'); [lia|lia|by exists r1, r2|].
  cbn [fst snd] in Hc'. split; intros p w3 c3 t now3 Hs.
  - by apply (says_ok _ _ _ _ _ _ _ _ _ _ _ _ _ now3 Hc' ltac:(lia) Hs).
  - by apply (says_ok _ _ _ _ _ _ _ _ _ _ _ _ _ now3 (connection_sym _ _ _ _ _ _ _ _ _ Hc') ltac:(lia) Hs).
Qed.

Lemma session_conversation_witness :
  let P := Toy.primitives in let K := Toy.kyber in let M := ToyMlkem.mlkem in let W := ToyWire.wire in
  let I := Demo.ids in let PK := Demo.prekeys in let SP := Demo.signed in let KP := Demo.kybers in let S := Demo.sessions in
  snd (Decrypt 0 Demo.alice Demo.c1 (Demo.wB, Demo.tB)) = Ok (str "hello") /\
  snd (Decrypt 0 Demo.alice Demo.c3 (Demo.wB2, [])) = Ok (str "?").
Proof.
  intros P K M W I PK SP KP S.
  destruct (session_conversation P K Toy.xeddsa M W _ I PK SP KP S Demo.sessions_laws Demo.alice Demo.bob Demo.wA Demo.tA Demo.wA1
    (snd (fst Demo.start_run)) Demo.wB Demo.tB _ 0 Demo.bundle _ _ _ _ _ (str "hello") Demo.c1
    Toy.laws Toy.kyber_laws ToyMlkem.laws ToyWire.laws Demo.store_laws Demo.opens Demo.started Demo.accepts) as [H1 H2].
  split; [exact H1|]. destruct (H2 1%nat Demo.wA2 Demo.wB2) as [H3 _]; [|done|].
  - apply nsteps_once. apply (alice_says _ _ Demo.wA1 Demo.wB1 (str "are you there?") Demo.wA2 Demo.c2 [] 0). exact Demo.says2.
  - apply (H3 (str "?") Demo.wA3 Demo.c3 [] 0). exact Demo.says3.
Defined.
