(* ===== verification/Sesame.v ===== *)
(** * The device roster: the sesame package

    [State] is the roster of the users and devices that the local device talks
    to, with marks for the stale ones; [Manager] keeps it in the store and prunes
    it; [Conversation] encrypts to every device of a user that is not stale, over
    the session ciphers.

    The roster an operation works on is always one that [loadState] made, and no
    function stores a nil record in it, so its records are not optional. The Go
    code mutates the records of the loaded state in place; nothing else refers
    to them, so the operations here rebuild the state and store it where the code
    does. A result that does not depend on the order in which Go ranges over a
    map (because it is sorted, or because the entries are independent) is
    written without it; otherwise the order is a parameter. Instants are
    nanoseconds since the zero time; the mutex is not modelled. *)

From Stdlib Require Import ZArith Lia.
From Stdlib Require Import Strings.Byte.
From stdpp Require Import base gmap strings list list_numbers vector sorting.
From S2P Require Import Prelude Crypto Keys SpqrMlkem Protowire Store Session.
Import Crypto Keys Session.

Module Sesame.

(** *** state.go *)

Record deviceRecord : Type := mkDeviceRecord { dev_stale : bool; dev_staleSince : Z }.

Record userRecord : Type := mkUserRecord { usr_stale : bool; usr_staleSince : Z; usr_devices : gmap Z deviceRecord }.

Record State : Type := mkState { users : gmap string userRecord }.

Definition NewState : State := mkState ∅.

Definition user (id : string) (s : State) : option userRecord := users s !! id.

(** The record; the caller puts it back into the state with [set_user]. *)
Definition getOrCreateUser (id : string) (s : State) : userRecord := default (mkUserRecord false 0 ∅) (users s !! id).

Definition set_user (id : string) (u : userRecord) (s : State) : State := mkState (<[id := u]> (users s)).

(** *** serialize.go *)

Definition stateSerializeMagic : bytes := str "SIGS".
Definition stateSerializeVersion : byte := Byte.x01.
Definition stateMinSize : Z := 4 + 1 + 4.

Definition unixSeconds (t : Z) : Z := if t =? 0 then 0 else i64 (t / 10 ^ 9 - unixToInternal).

Definition timeFromUnixSeconds (sec : Z) : Z := if sec =? 0 then 0 else i64 (sec + unixToInternal) * 10 ^ 9.

Definition string_le (a b : string) : Prop := String.leb a b = true.
#[export] Instance string_le_dec a b : Decision (string_le a b) := decide (String.leb a b = true).

Definition sorted_users (m : gmap string userRecord) : list string := merge_sort string_le (map_to_list m).*1.
Definition sorted_devices {A} (m : gmap Z A) : list Z := merge_sort Z.le (map_to_list m).*1.

Definition stale_flag (b : bool) : byte := if b then Byte.x01 else Byte.x00.

Definition device_bytes (m : gmap Z deviceRecord) (id : Z) : bytes :=
  match m !! id with
  | Some dr => AppendUint32 id ++ [stale_flag (dev_stale dr)] ++ AppendUint64 (u64 (unixSeconds (dev_staleSince dr)))
  | None => []
  end.

Definition user_bytes (m : gmap string userRecord) (id : string) : res bytes :=
  match m !! id with
  | Some rec =>
      _ ← check (len (str id) >? 0xffff) ErrInvalidMessage;
      let deviceIDs := sorted_devices (usr_devices rec) in
      mret (AppendUint16 (u16 (len (str id))) ++ str id ++ [stale_flag (usr_stale rec)] ++
            AppendUint64 (u64 (unixSeconds (usr_staleSince rec))) ++
            AppendUint32 (u32 (len deviceIDs)) ++ mjoin (device_bytes (usr_devices rec) <$> deviceIDs))
  | None => Err ErrInvalidMessage
  end.

Fixpoint users_bytes (m : gmap string userRecord) (ids : list string) : res bytes :=
  match ids with
  | [] => mret []
  | id :: ids => b ← user_bytes m id; rest ← users_bytes m ids; mret (b ++ rest)
  end.

Definition Serialize (s : State) : res bytes :=
  let userIDs := sorted_users (users s) in
  body ← users_bytes (users s) userIDs;
  mret (stateSerializeMagic ++ [stateSerializeVersion] ++ AppendUint32 (u32 (len userIDs)) ++ body).

Definition is_stale_flag (b : byte) : bool := Z.land (b2z b) 1 =? 1.

(** One iteration of the loop over the devices of a user. *)
Definition rd_device (m : gmap Z deviceRecord) : reader (gmap Z deviceRecord) :=
  _ ← rd_need (4 + 1 + 8) ErrInvalidMessage;
  deviceID ← rd_u32;
  flags ← rd_byte;
  since ← rd_u64;
  mret (<[deviceID := mkDeviceRecord (is_stale_flag flags) (timeFromUnixSeconds (i64 since))]> m).

(** One iteration of the loop over the users. *)
Definition rd_user (s : State) : reader State :=
  _ ← rd_need 2 ErrInvalidMessage;
  idLen ← rd_u16;
  _ ← rd_check (idLen <? 0) ErrInvalidMessage;
  _ ← rd_need idLen ErrInvalidMessage;
  id ← rd_take idLen;
  _ ← rd_need (1 + 8 + 4) ErrInvalidMessage;
  flags ← rd_byte;
  since ← rd_u64;
  deviceCount ← rd_u32;
  _ ← rd_check (deviceCount <? 0) ErrInvalidMessage;
  let rec := getOrCreateUser (string_of id) s in
  devices ← rd_for (Z.to_nat deviceCount) rd_device (usr_devices rec);
  mret (set_user (string_of id) (mkUserRecord (is_stale_flag flags) (timeFromUnixSeconds (i64 since)) devices) s).

Definition DeserializeState (data : bytes) : res State :=
  _ ← check (len data =? 0) ErrInvalidMessage;
  _ ← check ((len data <? stateMinSize) || negb (bool_decide (take 4 data = stateSerializeMagic))) ErrInvalidMessage;
  rd_run (
    _ ← rd_take 4;
    version ← rd_byte;
    _ ← rd_check (negb (bool_decide (version = stateSerializeVersion))) ErrInvalidMessage;
    _ ← rd_need 4 ErrInvalidMessage;
    userCount ← rd_u32;
    _ ← rd_check (userCount <? 0) ErrInvalidMessage;
    s ← rd_for (Z.to_nat userCount) rd_user NewState;
    _ ← rd_eof ErrInvalidMessage;
    mret s) data.

(** *** manager.go *)

Record Device : Type := mkDevice { DeviceID : Z; DeviceIdentityKey : option IdentityKey }.

Record Manager : Type := mkManager { local : Address; maxLatency : Z }.

Definition is_local (m : Manager) (name : string) (device : Z) : bool :=
  bool_decide (name = addr_Name (local m)) && (device =? addr_Device (local m)).

Definition addr_pair (a : Address) : string * Z := (addr_Name a, addr_Device a).

(** The order by name, then by device. *)
Definition addr_le (a b : Address) : Prop :=
  if decide (addr_Name a = addr_Name b) then addr_Device a <= addr_Device b else string_le (addr_Name a) (addr_Name b).
#[export] Instance addr_le_dec a b : Decision (addr_le a b).
Proof. unfold addr_le. case_decide; apply _. Defined.

Definition shouldPrune (now staleSince maxLatency : Z) : bool :=
  if staleSince =? 0 then false
  else if now <? staleSince then false
  else time_Sub now staleSince >=? maxLatency.

Definition identityEqual (a b : IdentityKey) : bool :=
  bool_decide (ik_PublicKey a = ik_PublicKey b) && bool_decide (ik_SigningPublic a = ik_SigningPublic b).

Section manager.
Context {W} `{IdentityKeyStore W} `{SessionStore W} `{SesameStore W}.

Definition loadState : ST W State :=
  rec ← LoadSesameState;
  match rec with
  | None => mret NewState
  | Some data => if len data =? 0 then mret NewState else st_lift (DeserializeState data)
  end.

Definition persistState (s : State) : ST W unit :=
  data ← st_lift (Serialize s);
  StoreSesameState (Some data).

(** The map of the given devices; a repeated id is refused. *)
Fixpoint device_set (devices : list Device) (set : gmap Z Device) : res (gmap Z Device) :=
  match devices with
  | [] => mret set
  | d :: devices =>
      _ ← check (bool_decide (is_Some (set !! DeviceID d))) ErrInvalidMessage;
      device_set devices (<[DeviceID d := d]> set)
  end.

(** The devices that are not in the list become stale. *)
Definition stale_missing (set : gmap Z Device) (now : Z) (id : Z) (rec : deviceRecord) : option deviceRecord :=
  Some (if bool_decide (is_Some (set !! id)) then rec
        else if dev_stale rec then rec else mkDeviceRecord true now).

(** The loop over the given devices, in the order [ids]: the devices of the
    user and the addresses whose identity changed. *)
Fixpoint apply_devices (m : Manager) (userID : string) (set : gmap Z Device) (ids : list Z)
    (devices : gmap Z deviceRecord) (changed : list Address) : ST W (gmap Z deviceRecord * list Address) :=
  match ids with
  | [] => mret (devices, changed)
  | id :: ids =>
      if is_local m userID id then apply_devices m userID set ids devices changed
      else
        let devices := <[id := mkDeviceRecord false 0]> devices in
        match set !! id ≫= DeviceIdentityKey with
        | None => apply_devices m userID set ids devices changed
        | Some key =>
            let addr := mkAddress userID id in
            existing ← GetIdentity addr;
            match existing with
            | Some existing =>
                if negb (identityEqual existing key) then
                  _ ← DeleteSession addr;
                  apply_devices m userID set ids devices (changed ++ [addr])
                else apply_devices m userID set ids devices changed
            | None => apply_devices m userID set ids devices changed
            end
        end
  end.

Section ranges.
(** The orders in which maps are ranged over. *)
Context (range_set : gmap Z Device -> list Z) (range_users : gmap string userRecord -> list string)
  (range_devices : gmap Z deviceRecord -> list Z).

Definition ApplyDeviceList (m : Manager) (userID : string) (devices : list Device) (now : Z) : ST W unit :=
  _ ← st_check (bool_decide (userID = EmptyString)) ErrInvalidMessage;
  state ← loadState;
  let user := getOrCreateUser userID state in
  set ← st_lift (device_set devices ∅);
  let recs := map_imap (stale_missing set now) (usr_devices user) in
  '(recs, changed) ← apply_devices m userID set (range_set set) recs [];
  _ ← persistState (set_user userID (mkUserRecord false 0 recs) state);
  if decide (changed = []) then mret tt
  else st_err (ErrIdentityChanged (addr_pair <$> merge_sort addr_le changed)).

Definition MarkUserStale (userID : string) (now : Z) : ST W unit :=
  _ ← st_check (bool_decide (userID = EmptyString)) ErrInvalidMessage;
  state ← loadState;
  let user := getOrCreateUser userID state in
  let user := if usr_stale user then user else mkUserRecord true now (usr_devices user) in
  persistState (set_user userID user state).

Definition valid_address (addr : Address) : bool := negb (bool_decide (addr_Name addr = EmptyString) || (addr_Device addr =? 0)).

Definition MarkDeviceStale (m : Manager) (addr : Address) (now : Z) : ST W unit :=
  _ ← st_check (negb (valid_address addr)) ErrInvalidMessage;
  state ← loadState;
  let user := getOrCreateUser (addr_Name addr) state in
  if is_local m (addr_Name addr) (addr_Device addr) then mret tt
  else
    let dev := default (mkDeviceRecord false 0) (usr_devices user !! addr_Device addr) in
    let dev := if dev_stale dev then dev else mkDeviceRecord true now in
    persistState (set_user (addr_Name addr)
      (mkUserRecord (usr_stale user) (usr_staleSince user) (<[addr_Device addr := dev]> (usr_devices user))) state).

Definition TouchDevice (m : Manager) (addr : Address) : ST W unit :=
  _ ← st_check (negb (valid_address addr)) ErrInvalidMessage;
  state ← loadState;
  let user := getOrCreateUser (addr_Name addr) state in
  if is_local m (addr_Name addr) (addr_Device addr)
  then persistState (set_user (addr_Name addr) (mkUserRecord false 0 (usr_devices user)) state)
  else persistState (set_user (addr_Name addr)
         (mkUserRecord false 0 (<[addr_Device addr := mkDeviceRecord false 0]> (usr_devices user))) state).

(** The devices of a user that messages go to. *)
Definition active_devices (m : Manager) (userID : string) (u : userRecord) : gmap Z deviceRecord :=
  filter (fun '(id, rec) => negb (dev_stale rec) && negb (is_local m userID id) = true) (usr_devices u).

Definition NonStaleDevices (m : Manager) (userID : string) : ST W (list Address) :=
  _ ← st_check (bool_decide (userID = EmptyString)) ErrInvalidMessage;
  state ← loadState;
  match user userID state with
  | None => mret []
  | Some u => if usr_stale u then mret [] else mret (mkAddress userID <$> sorted_devices (active_devices m userID u))
  end.

(** [_ = f()]: the error is dropped. *)
Definition st_ignore {A} (f : ST W A) : ST W unit := fun w =>
  match f w with (w, Panic) => (w, Panic) | (w, _) => (w, Ok tt) end.

Fixpoint forget_identities (userID : string) (ids : list Z) : ST W unit :=
  match ids with
  | [] => mret tt
  | id :: ids => _ ← st_ignore (SaveIdentity (mkAddress userID id) None); forget_identities userID ids
  end.

(** The loop over the devices of a user that stays: the devices that are
    left. *)
Fixpoint prune_devices (m : Manager) (now : Z) (userID : string) (ids : list Z) (devices : gmap Z deviceRecord) :
    ST W (gmap Z deviceRecord) :=
  match ids with
  | [] => mret devices
  | id :: ids =>
      match devices !! id with
      | None => prune_devices m now userID ids devices
      | Some dev =>
          if negb (dev_stale dev) || negb (shouldPrune now (dev_staleSince dev) (maxLatency m))
          then prune_devices m now userID ids devices
          else
            let addr := mkAddress userID id in
            _ ← DeleteSession addr;
            _ ← st_ignore (SaveIdentity addr None);
            prune_devices m now userID ids (delete id devices)
      end
  end.

Fixpoint prune_users (m : Manager) (now : Z) (ids : list string) (us : gmap string userRecord) : ST W (gmap string userRecord) :=
  match ids with
  | [] => mret us
  | userID :: ids =>
      match us !! userID with
      | None => prune_users m now ids us
      | Some u =>
          if usr_stale u && shouldPrune now (usr_staleSince u) (maxLatency m) then
            _ ← forget_identities userID (range_devices (usr_devices u));
            _ ← DeleteAllSessions userID;
            prune_users m now ids (delete userID us)
          else
            devices ← prune_devices m now userID (range_devices (usr_devices u)) (usr_devices u);
            prune_users m now ids
              (if bool_decide (devices = ∅) && negb (usr_stale u) then delete userID us
               else <[userID := mkUserRecord (usr_stale u) (usr_staleSince u) devices]> us)
      end
  end.

Definition PruneStale (m : Manager) (now : Z) : ST W unit :=
  _ ← st_check (maxLatency m <=? 0) ErrInvalidMessage;
  state ← loadState;
  us ← prune_users m now (range_users (users state)) (users state);
  persistState (mkState us).
End ranges.
End manager.

(** *** conversation.go *)

Definition DefaultMaxSendAttempts : Z := 3.
Definition ErrRosterChanged : error := ErrText "sesame: roster changed".
Definition ErrSendAttemptsExceeded : error := ErrText "sesame: send attempts exceeded".

(** [errors.Is]: [Unwrap] of the errors that carry addresses. *)
Definition errors_Is (e target : error) : bool :=
  bool_decide (e = target) ||
  match e with
  | ErrIdentityChanged _ => bool_decide (target = ErrUntrustedIdentity)
  | ErrMissingBundle _ => bool_decide (target = ErrNoSession)
  | _ => false
  end.

(** The application's [RosterProvider], with a state of its own. *)
Class RosterProvider (V : Type) : Type := {
  DeviceList : string -> ST V (list Device);
  ProviderPreKeyBundle : Address -> ST V (option PreKeyBundle)
}.

Record Conversation : Type := mkConversation { manager : Manager; maxSendAttempts : Z }.

Definition NewConversation (local : Address) (maxLatency : Z) : Conversation :=
  mkConversation (mkManager local maxLatency) DefaultMaxSendAttempts.

Definition SetMaxSendAttempts (n : Z) (c : Conversation) : Conversation := mkConversation (manager c) n.

Section conversation.
Context `{Primitives} `{KyberPrims} `{XEdDSA} `{MLKEM} `{Protowire}.
Context {W} `{IdentityKeyStore W} `{PreKeyStore W} `{SignedPreKeyStore W} `{KyberPreKeyStore W} `{SessionStore W} `{SesameStore W}.

Definition sessionReady (addr : Address) : ST W bool :=
  rec ← LoadSession addr;
  match rec with
  | None => mret false
  | Some data =>
      if len data =? 0 then mret false
      else
        _ ← st_lift (match DeserializeRecord data with Err _ => Err ErrInvalidMessage | r => r end);
        mret true
  end.

(** The first loop of [Encrypt]: the devices that need a bundle, and those whose
    bundle is missing. *)
Fixpoint check_bundles (bundles : gmap Address PreKeyBundle) (addrs : list Address) (needs : gset Address) (missing : list Address) :
    ST W (gset Address * list Address) :=
  match addrs with
  | [] => mret (needs, missing)
  | addr :: addrs =>
      ready ← sessionReady addr;
      if (ready : bool) then check_bundles bundles addrs needs missing
      else
        match bundles !! addr with
        | None => check_bundles bundles addrs needs (missing ++ [addr])
        | Some _ => check_bundles bundles addrs ({[addr]} ∪ needs) missing
        end
  end.

Definition encrypt_device (plaintext : bytes) (bundles : gmap Address PreKeyBundle) (needs : gset Address) (addr : Address) :
    ST (W * tape) bytes :=
  if bool_decide (addr ∈ needs) then
    match bundles !! addr with
    | Some bundle => EncryptWithPreKeyBundle addr bundle plaintext
    | None => st_err ErrInvalidMessage
    end
  else fun wt =>
    match Session.Encrypt addr plaintext wt with
    | (wt, Err e) =>
        match bundles !! addr with
        | Some bundle => if errors_Is e ErrNoSession then EncryptWithPreKeyBundle addr bundle plaintext wt else (wt, Err e)
        | None => (wt, Err e)
        end
    | r => r
    end.

(** The second loop of [Encrypt]. *)
Fixpoint encrypt_devices (plaintext : bytes) (bundles : gmap Address PreKeyBundle) (needs : gset Address) (addrs : list Address)
    (out : gmap Address bytes) : ST (W * tape) (gmap Address bytes) :=
  match addrs with
  | [] => mret out
  | addr :: addrs =>
      ct ← encrypt_device plaintext bundles needs addr;
      encrypt_devices plaintext bundles needs addrs (<[addr := ct]> out)
  end.

Definition missing_error (missing : list Address) : error := ErrMissingBundle (addr_pair <$> merge_sort addr_le missing).

Definition Encrypt (c : Conversation) (userID : string) (plaintext : bytes) (bundles : gmap Address PreKeyBundle) :
    ST (W * tape) (gmap Address bytes) :=
  _ ← st_check (bool_decide (userID = EmptyString)) ErrInvalidMessage;
  addrs ← st_fst (NonStaleDevices (manager c) userID);
  if decide (addrs = []) then mret ∅
  else
    '(needs, missing) ← st_fst (check_bundles bundles addrs ∅ []);
    if decide (missing = []) then encrypt_devices plaintext bundles needs addrs ∅
    else st_err (missing_error missing).

Section roster.
Context {V} `{RosterProvider V} (range_set : gmap Z Device -> list Z).

(** What collecting the bundles comes to: try again, or the bundles and the
    devices without one. *)
Inductive collected : Type := Retry | Bundles (bundles : gmap Address PreKeyBundle) (missing : list Address).

Fixpoint collect_bundles (addrs : list Address) (bundles : gmap Address PreKeyBundle) (missing : list Address) :
    ST ((W * tape) * V) collected :=
  match addrs with
  | [] => mret (Bundles bundles missing)
  | addr :: addrs =>
      ready ← st_fst (st_fst (sessionReady addr));
      if (ready : bool) then collect_bundles addrs bundles missing
      else fun '(wt, v) =>
        match ProviderPreKeyBundle addr v with
        | (v, Ok None) => collect_bundles addrs bundles (missing ++ [addr]) (wt, v)
        | (v, Ok (Some bundle)) => collect_bundles addrs (<[addr := bundle]> bundles) missing (wt, v)
        | (v, Err e) => ((wt, v), if errors_Is e ErrRosterChanged then Ok Retry else Err e)
        | (v, Panic) => ((wt, v), Panic)
        end
  end.

(** The loop over the attempts. *)
Fixpoint roster_attempts (c : Conversation) (userID : string) (plaintext : bytes) (now : Z) (attempts : nat) :
    ST ((W * tape) * V) (gmap Address bytes) :=
  match attempts with
  | O => st_err ErrSendAttemptsExceeded
  | Datatypes.S attempts => fun '(wt, v) =>
      match DeviceList userID v with
      | (v, Err e) => if errors_Is e ErrRosterChanged then roster_attempts c userID plaintext now attempts (wt, v) else ((wt, v), Err e)
      | (v, Panic) => ((wt, v), Panic)
      | (v, Ok devices) =>
          (_ ← st_fst (st_fst (ApplyDeviceList range_set (manager c) userID devices now));
           addrs ← st_fst (st_fst (NonStaleDevices (manager c) userID));
           r ← collect_bundles addrs ∅ [];
           match r with
           | Retry => roster_attempts c userID plaintext now attempts
           | Bundles bundles missing =>
               if decide (missing = []) then st_fst (Encrypt c userID plaintext bundles)
               else st_err (missing_error missing)
           end) (wt, v)
      end
  end.

(** [clock] is what [time.Now] returns. *)
Definition EncryptWithRoster (c : Conversation) (userID : string) (plaintext : bytes) (now clock : Z) :
    ST ((W * tape) * V) (gmap Address bytes) :=
  _ ← st_check (bool_decide (userID = EmptyString)) ErrInvalidMessage;
  let now := if now =? 0 then clock else now in
  let attempts := if maxSendAttempts c <=? 0 then DefaultMaxSendAttempts else maxSendAttempts c in
  roster_attempts c userID plaintext now (Z.to_nat attempts).
End roster.

(** The end of [Decrypt]: the plaintext, and the error of updating the roster,
    if any. *)
Definition touch_after (m : Manager) (addr : Address) (plaintext : bytes) : ST (W * tape) (bytes * option error) := fun '(w, t) =>
  match TouchDevice m addr w with
  | (w, Ok _) => ((w, t), Ok (plaintext, None))
  | (w, Err e) => ((w, t), Ok (plaintext, Some e))
  | (w, Panic) => ((w, t), Panic)
  end.

Definition Decrypt (c : Conversation) (now : Z) (addr : Address) (ciphertext : bytes) : ST (W * tape) (bytes * option error) :=
  _ ← st_check (negb (valid_address addr)) ErrInvalidMessage;
  plaintext ← Session.Decrypt now addr ciphertext;
  touch_after (manager c) addr plaintext.
End conversation.
End Sesame.
