(* ===== verification/SesameProofs.v ===== *)
(** * The device roster: persistence and the operations of the manager

    The roster survives its bytes up to seconds; the operations of the manager
    refine operations on an abstract roster, which knows of every user whether it
    is stale and which of its devices are not. *)

From Stdlib Require Import ZArith Lia.
From Stdlib Require Import Strings.Byte.
From stdpp Require Import base gmap strings list list_numbers vector sorting.
From S2P Require Import Prelude Crypto Keys Store MemoryStore Sesame.
Import Crypto Keys Sesame.

Section codec.

Lemma unixSeconds_range t : - 2 ^ 63 <= unixSeconds t < 2 ^ 63.
Proof. unfold unixSeconds. destruct (t =? 0); [lia|apply i64_range]. Qed.

(** An instant as it comes back from the store: without the fraction of its
    second, and forgotten when it is the Unix epoch. *)
Definition trunc (t : Z) : Z := timeFromUnixSeconds (unixSeconds t).

Definition stored_device (d : deviceRecord) : deviceRecord := mkDeviceRecord (dev_stale d) (trunc (dev_staleSince d)).
Definition stored_user (u : userRecord) : userRecord :=
  mkUserRecord (usr_stale u) (trunc (usr_staleSince u)) (stored_device <$> usr_devices u).
Definition stored_state (s : State) : State := mkState (stored_user <$> users s).

(** The bounds of the format. *)
Record user_wf (id : string) (u : userRecord) : Prop := {
  uw_id : len (str id) <= 0xffff;
  uw_devices : forall d, is_Some (usr_devices u !! d) -> is_u32 d;
  uw_size : Z.of_nat (size (usr_devices u)) < 2 ^ 32
}.
Record state_wf (s : State) : Prop := {
  sw_users : map_Forall user_wf (users s);
  sw_size : Z.of_nat (size (users s)) < 2 ^ 32
}.

Lemma keys_elem `{Countable K} {A} (m : gmap K A) k : k ∈ (map_to_list m).*1 <-> is_Some (m !! k).
Proof.
  rewrite list_elem_of_fmap. split.
  - intros ([k' x] & -> & Hin%elem_of_map_to_list). by exists x.
  - intros [x Hx]. exists (k, x). split; [done|]. by apply elem_of_map_to_list.
Qed.

Lemma sorted_users_elem m k : k ∈ sorted_users m <-> is_Some (m !! k).
Proof. unfold sorted_users. rewrite merge_sort_Permutation. apply keys_elem. Qed.
Lemma sorted_devices_elem {A} (m : gmap Z A) k : k ∈ sorted_devices m <-> is_Some (m !! k).
Proof. unfold sorted_devices. rewrite merge_sort_Permutation. apply keys_elem. Qed.
Lemma sorted_users_nodup m : NoDup (sorted_users m).
Proof. unfold sorted_users. rewrite merge_sort_Permutation. apply NoDup_fst_map_to_list. Qed.
Lemma sorted_devices_nodup {A} (m : gmap Z A) : NoDup (sorted_devices m).
Proof. unfold sorted_devices. rewrite merge_sort_Permutation. apply NoDup_fst_map_to_list. Qed.
Lemma sorted_users_len m : len (sorted_users m) = Z.of_nat (size m).
Proof. unfold len, sorted_users. by rewrite merge_sort_Permutation, length_fmap, length_map_to_list. Qed.
Lemma sorted_devices_len {A} (m : gmap Z A) : len (sorted_devices m) = Z.of_nat (size m).
Proof. unfold len, sorted_devices. by rewrite merge_sort_Permutation, length_fmap, length_map_to_list. Qed.

Lemma stale_flag_is b : is_stale_flag (stale_flag b) = b.
Proof. by destruct b. Qed.

Lemma time_bytes t : 0 <= u64 (unixSeconds t) < 256 ^ Z.of_nat 8 /\ timeFromUnixSeconds (i64 (u64 (unixSeconds t))) = trunc t.
Proof. split; [apply u64_range|]. by rewrite i64_u64 by apply unixSeconds_range. Qed.

(** One step of the loop over the devices. *)
Definition add_device (m acc : gmap Z deviceRecord) (id : Z) : gmap Z deviceRecord :=
  match m !! id with Some d => <[id := stored_device d]> acc | None => acc end.

Lemma add_devices m l acc :
  (forall k, is_Some (m !! k) -> k ∈ l) -> acc = ∅ -> foldl (add_device m) acc l = stored_device <$> m.
Proof.
  intros Hl ->. apply map_eq. intros k. rewrite lookup_fmap.
  assert (forall acc, foldl (add_device m) acc l !! k = if decide (k ∈ l /\ is_Some (m !! k)) then stored_device <$> m !! k else acc !! k) as Hf.
  { clear Hl. induction l as [|x l IH]; intros acc; cbn [foldl].
    - rewrite decide_False; [done|]. intros [?%not_elem_of_nil _]. done.
    - rewrite IH. unfold add_device. destruct (m !! k) as [d|] eqn:Ek.
      + destruct (decide (k ∈ l)); [rewrite !decide_True; [done|set_solver|set_solver]|]. rewrite decide_False by (by intros []).
        destruct (decide (k = x)) as [->|Hne].
        * rewrite decide_True by (split; [by left|done]). by rewrite Ek, lookup_insert_eq.
        * rewrite decide_False by set_solver. destruct (m !! x); [by rewrite lookup_insert_ne|done].
      + rewrite !decide_False by (intros [_ []]; done). destruct (m !! x) eqn:Ex; [|done]. rewrite lookup_insert_ne; [done|]. intros ->. congruence. }
  rewrite Hf. destruct (m !! k) as [d|] eqn:Ek.
  - rewrite decide_True; [done|]. split; [|done]. apply Hl. by rewrite Ek.
  - rewrite decide_False; [by rewrite lookup_empty|]. by intros [_ []].
Qed.

Lemma reads_device m acc id :
  is_u32 id -> is_Some (m !! id) -> reads (rd_device acc) (device_bytes m id) (add_device m acc id).
Proof.
  intros Hid [d Hd]. unfold device_bytes, add_device. rewrite Hd. destruct (time_bytes (dev_staleSince d)) as [Ht Et].
  apply reads_need; [lens|]. eapply reads_bind; [by apply reads_uint|]. eapply reads_bind; [apply reads_byte|].
  eapply reads_bind_end; [by apply reads_uint|]. rewrite Et, stale_flag_is. apply reads_ret.
Qed.

(** One step of the loop over the users. *)
Definition add_user (m : gmap string userRecord) (acc : State) (id : string) : State :=
  match m !! id with
  | Some u => set_user id (mkUserRecord (usr_stale u) (trunc (usr_staleSince u))
      (foldl (add_device (usr_devices u)) (usr_devices (getOrCreateUser id acc)) (sorted_devices (usr_devices u)))) acc
  | None => acc
  end.

Lemma add_users m l acc :
  NoDup l -> (forall k, is_Some (m !! k) -> k ∈ l \/ users acc !! k = stored_user <$> m !! k) ->
  (forall k, k ∈ l -> users acc !! k = None) -> (forall k, m !! k = None -> users acc !! k = None) ->
  users (foldl (add_user m) acc l) = stored_user <$> m.
Proof.
  intros Hnd. revert acc. induction Hnd as [|x l Hx Hnd IH]; intros acc Hin Hfresh Hout; cbn [foldl].
  - apply map_eq. intros k. rewrite lookup_fmap. destruct (m !! k) as [u|] eqn:E; [|by rewrite Hout].
    destruct (Hin k) as [?%not_elem_of_nil|Hk]; [by rewrite E|done|]. by rewrite Hk, E.
  - assert (forall k, k <> x -> users (add_user m acc x) !! k = users acc !! k) as Hne.
    { intros k Hk. unfold add_user. destruct (m !! x); [|done]. cbn. by rewrite lookup_insert_ne. }
    assert (users (add_user m acc x) !! x = stored_user <$> m !! x) as Heq.
    { unfold add_user. destruct (m !! x) as [u|] eqn:E; [|by rewrite Hout].
      cbn. rewrite lookup_insert_eq. unfold stored_user. do 2 f_equal. apply add_devices; [intros k; by rewrite sorted_devices_elem|].
      unfold getOrCreateUser. rewrite Hfresh by (by left). done. }
    apply IH.
    + intros k Hk. destruct (decide (k = x)) as [->|Hkx]; [right; done|]. rewrite Hne by done. destruct (Hin k Hk) as [?|?]; [left; set_solver|by right].
    + intros k Hk. rewrite Hne by set_solver. apply Hfresh. by right.
    + intros k Hk. destruct (decide (k = x)) as [->|Hkx]; [by rewrite Heq, Hk|]. rewrite Hne by done. auto.
Qed.

Lemma reads_user m acc id b :
  map_Forall user_wf m -> user_bytes m id = Ok b -> reads (rd_user acc) b (add_user m acc id).
Proof.
  intros Hwf E. unfold user_bytes in E. unfold add_user. destruct (m !! id) as [u|] eqn:Eu; [|done].
  destruct (Hwf id u Eu) as [Hid Hdev Hsz]. apply res_bind_ok in E as (? & _ & E). apply Ok_inj in E as <-.
  destruct (time_bytes (usr_staleSince u)) as [Ht Et]. pose proof (len_nonneg (str id)) as Hn.
  rewrite u16_id by (unfold is_u16; lia). rewrite (u32_id (len _)) by (rewrite sorted_devices_len; unfold is_u32; lia).
  apply reads_need; [lens|]. eapply reads_bind; [apply reads_uint; lia|]. apply reads_check; [lia|]. apply reads_need; [lens|].
  eapply reads_bind; [by apply reads_take|]. apply reads_need; [lens|]. eapply reads_bind; [apply reads_byte|].
  eapply reads_bind; [by apply reads_uint|]. eapply reads_bind; [apply reads_uint; rewrite sorted_devices_len; lia|].
  apply reads_check; [rewrite sorted_devices_len; lia|].
  eapply reads_bind_end.
  { unfold len. rewrite Nat2Z.id. apply (reads_for _ _ (add_device (usr_devices u))). intros acc' d Hd.
    apply sorted_devices_elem in Hd. apply reads_device; [by apply Hdev|done]. }
  rewrite string_of_str, Et, stale_flag_is. apply reads_ret.
Qed.

Lemma reads_users m l acc b :
  map_Forall user_wf m -> users_bytes m l = Ok b -> reads (rd_for (length l) rd_user acc) b (foldl (add_user m) acc l).
Proof.
  intros Hwf. revert acc b. induction l as [|id l IH]; intros acc b E; cbn [users_bytes] in E.
  - apply Ok_inj in E as <-. apply reads_ret.
  - apply res_bind_ok in E as (b1 & E1 & E). apply res_bind_ok in E as (b2 & E2 & E). apply Ok_inj in E as <-.
    cbn [length rd_for foldl]. eapply reads_bind; [by apply reads_user|by apply IH].
Qed.

Lemma DeserializeState_bytes s data : state_wf s -> Serialize s = Ok data -> DeserializeState data = Ok (stored_state s).
Proof.
  intros [Hwf Hsz] E. unfold Serialize in E. apply res_bind_ok in E as (body & Eb & E). apply Ok_inj in E as <-.
  rewrite (u32_id (len _)) by (rewrite sorted_users_len; unfold is_u32; lia).
  assert (len stateSerializeMagic = 4) as Hm by done. assert (length stateSerializeMagic = 4%nat) as Hm' by done.
  unfold DeserializeState. rewrite (proj2 (Z.eqb_neq _ _)) by (autorewrite with len; rewrite Hm; len_facts; lia).
  rewrite (proj2 (Z.ltb_ge _ _)) by (autorewrite with len; rewrite Hm; unfold stateMinSize; len_facts; lia).
  rewrite (bool_decide_true (take 4 _ = _)) by (by apply take_app_length'). cbn [check mbind res_bind negb orb].
  apply reads_end_run, (reads_end_bind _ _ stateSerializeMagic stateSerializeMagic); [by apply reads_take|].
  eapply reads_end_bind; [apply reads_byte|]. apply reads_end_check; [done|]. apply reads_end_need; [lens|].
  eapply reads_end_bind; [apply reads_uint; rewrite sorted_users_len; lia|]. apply reads_end_check; [rewrite sorted_users_len; lia|].
  rewrite <- (app_nil_r body). eapply reads_end_bind.
  { unfold len. rewrite Nat2Z.id. by apply reads_users. }
  apply reads_end_eof, reads_end_of. eapply reads_eq; [apply reads_ret|].
  unfold stored_state. rewrite <- (add_users (users s) (sorted_users (users s)) NewState); [by destruct (foldl _ _ _)|apply sorted_users_nodup|..].
  - intros k Hk. left. by apply sorted_users_elem.
  - done.
  - done.
Qed.

Lemma users_bytes_ok m l : map_Forall user_wf m -> (forall k, k ∈ l -> is_Some (m !! k)) -> exists b, users_bytes m l = Ok b.
Proof.
  intros Hwf. induction l as [|id l IH]; intros Hl; [by eexists|]. destruct (Hl id) as [u Hu]; [by left|].
  destruct IH as [b Hb]; [intros k Hk; apply Hl; by right|]. cbn [users_bytes]. unfold user_bytes at 1. rewrite Hu.
  destruct (Hwf id u Hu) as [Hid _ _]. rewrite (Z.gtb_ltb _ 0xffff), (proj2 (Z.ltb_ge _ _)) by lia. cbn [check mbind res_bind]. rewrite Hb. by eexists.
Qed.

Lemma Serialize_total s : state_wf s -> exists data, Serialize s = Ok data /\ 0 < len data.
Proof.
  intros [Hwf _]. destruct (users_bytes_ok (users s) (sorted_users (users s)) Hwf) as [b Hb]; [intros k; by rewrite sorted_users_elem|].
  unfold Serialize. rewrite Hb. eexists. split; [reflexivity|]. rewrite !len_app. change (len stateSerializeMagic) with 4. len_facts. lia.
Qed.

Lemma DeserializeState_total data : DeserializeState data <> Panic.
Proof.
  unfold DeserializeState, stateMinSize. destruct (len data =? 0); [done|]. cbn [check mbind res_bind].
  destruct (Z.ltb_spec (len data) (4 + 1 + 4)); [done|]. cbn [orb]. case_bool_decide; [|done]. cbn [check mbind res_bind negb].
  apply wp_run. wp_steps. apply (wp_for _ _ _ (fun _ => True)); [|done|lia|].
  - intros acc pos _ Hpos. unfold rd_user. wp_steps. apply (wp_for _ _ _ (fun _ => True)); [|done|lia|].
    + intros acc' pos' _ Hpos'. unfold rd_device. wp_steps. split; [done|lia].
    + intros devs pos' _ Hpos'. wp_steps. split; [done|lia].
  - intros st pos _ Hpos. wp_steps. done.
Qed.

Lemma stored_wf s : state_wf s -> state_wf (stored_state s).
Proof.
  intros [Hwf Hsz]. split.
  - intros id u Hu. cbn in Hu. apply lookup_fmap_Some in Hu as (u0 & <- & Hu0). destruct (Hwf id u0 Hu0) as [H1 H2 H3]. split; [done| |].
    + intros d. cbn. rewrite lookup_fmap, fmap_is_Some. apply H2.
    + cbn. by rewrite map_size_fmap.
  - cbn. by rewrite map_size_fmap.
Qed.
End codec.

(** ** The abstract roster *)

(** Of every user: whether it is stale, and its devices that are not, the local
    device excepted. *)
Abbreviation roster := (gmap string (bool * gset Z)).

Definition entry (r : roster) (id : string) : bool * gset Z := default (false, ∅) (r !! id).

Section abstract.
Variable m : Manager.

Definition live (id : string) (u : userRecord) : bool * gset Z := (usr_stale u, dom (active_devices m id u)).
Definition abs (s : State) : roster := map_imap (fun id u => Some (live id u)) (users s).

Lemma abs_lookup s id : abs s !! id = live id <$> users s !! id.
Proof. unfold abs. rewrite map_lookup_imap. by destruct (users s !! id). Qed.

Lemma abs_set_user id u s : abs (set_user id u s) = <[id := live id u]> (abs s).
Proof. unfold abs, set_user. cbn [users]. by rewrite map_imap_insert. Qed.

Lemma abs_entry s id : live id (getOrCreateUser id s) = entry (abs s) id.
Proof.
  unfold entry, getOrCreateUser. rewrite abs_lookup. destruct (users s !! id); [done|]. cbn. unfold live, active_devices. cbn. f_equal.
Qed.

Lemma elem_of_active id u d :
  d ∈ dom (active_devices m id u) <-> exists rec, usr_devices u !! d = Some rec /\ dev_stale rec = false /\ is_local m id d = false.
Proof.
  unfold active_devices. rewrite elem_of_dom. unfold is_Some. setoid_rewrite map_lookup_filter_Some. split.
  - intros (rec & Hr & [H1%negb_true_iff H2%negb_true_iff]%andb_true_iff). eauto.
  - intros (rec & Hr & H1 & H2). exists rec. by rewrite H1, H2.
Qed.

Lemma live_stored id u : live id (stored_user u) = live id u.
Proof.
  unfold live. cbn [stored_user usr_stale]. f_equal. apply set_eq. intros d. rewrite !elem_of_active. cbn [stored_user usr_devices].
  setoid_rewrite lookup_fmap_Some. split.
  - intros (rec & (r0 & <- & Hr) & H1 & H2). eauto.
  - intros (rec & Hr & H1 & H2). exists (stored_device rec). eauto.
Qed.

Lemma abs_stored s : abs (stored_state s) = abs s.
Proof.
  apply map_eq. intros id. rewrite !abs_lookup. cbn. rewrite lookup_fmap. destruct (users s !! id); [|done]. cbn. by rewrite live_stored.
Qed.
End abstract.

(** ** The operations of the manager *)

Section manager.
Context {W} {I : IdentityKeyStore W} {S : SessionStore W} {R : SesameStore W}.
Context {L : SessionStoreLaws S} {LR : SesameStoreLaws R} {RL : RosterStoreLaws L LR}.
Context (m : Manager).

(** The store [w] holds the roster [s]. *)
Definition holds (w : W) (s : State) : Prop := loadState w = (w, Ok s) /\ state_wf s.

(** The sessions and the identities are the same. *)
Definition same_rest (w w' : W) : Prop := forall a, sess_view w' a = sess_view w a /\ id_view w' a = id_view w a.

Lemma manager_persist_ok s w : state_wf s -> exists w', persistState s w = (w', Ok tt) /\ holds w' (stored_state s) /\ same_rest w w'.
Proof.
  intros Hwf. destruct (Serialize_total s Hwf) as (data & Ed & Hl). destruct (ses_store data w) as (w' & Es & Hv). exists w'.
  split_and!.
  - unfold persistState. rewrite (st_bind_lift _ _ _ _ Ed). exact Es.
  - split; [|by apply stored_wf]. unfold loadState. rewrite (st_bind_run _ _ _ w' (Some data)) by (by rewrite ses_load, Hv).
    rewrite (proj2 (Z.eqb_neq _ _)) by lia. unfold st_lift. by rewrite (DeserializeState_bytes s data).
  - intros a. pose proof (frame_ses (Some data) w a) as Hf. by rewrite Es in Hf.
Qed.

(** The operations that the roster's state alone determines. *)
Inductive roster_op : Type :=
| OpMarkUser (userID : string) (now : Z)
| OpMarkDevice (addr : Address) (now : Z)
| OpTouch (addr : Address).

Definition op_user (op : roster_op) : string :=
  match op with OpMarkUser id _ => id | OpMarkDevice a _ => addr_Name a | OpTouch a => addr_Name a end.

Definition run_roster_op (op : roster_op) : ST W unit :=
  match op with
  | OpMarkUser id now => MarkUserStale id now
  | OpMarkDevice a now => MarkDeviceStale m a now
  | OpTouch a => TouchDevice m a
  end.

Definition spec_op (op : roster_op) (r : roster) : roster :=
  match op with
  | OpMarkUser id _ => <[id := (true, snd (entry r id))]> r
  | OpMarkDevice (mkAddress id d) _ =>
      if is_local m id d then r else <[id := (fst (entry r id), snd (entry r id) ∖ {[d]})]> r
  | OpTouch (mkAddress id d) =>
      <[id := (false, (if is_local m id d then ∅ else {[d]}) ∪ snd (entry r id))]> r
  end.

(** The arguments are in range, and the format has room for one more record. *)
Definition op_ok (op : roster_op) (s : State) : Prop :=
  op_user op <> EmptyString /\ len (str (op_user op)) <= 0xffff /\ Z.of_nat (size (users s)) < 2 ^ 32 - 1 /\
  (forall u, users s !! op_user op = Some u -> Z.of_nat (size (usr_devices u)) < 2 ^ 32 - 1) /\
  match op with OpMarkUser _ _ => True | OpMarkDevice a _ | OpTouch a => 0 < addr_Device a /\ is_u32 (addr_Device a) end.

Lemma size_insert_le `{Countable K} {A} (x : A) k (t : gmap K A) : Z.of_nat (size (<[k := x]> t)) <= Z.of_nat (size t) + 1.
Proof. rewrite map_size_insert. destruct (t !! k); cbn; lia. Qed.

Lemma set_user_wf id u s :
  state_wf s -> Z.of_nat (size (users s)) < 2 ^ 32 - 1 -> user_wf id u -> state_wf (set_user id u s).
Proof.
  intros [H1 H2] Hsz Hu. split; cbn [set_user users].
  - by apply map_Forall_insert_2.
  - pose proof (size_insert_le u id (users s)). lia.
Qed.

Lemma created_wf id s : state_wf s -> len (str id) <= 0xffff -> user_wf id (getOrCreateUser id s).
Proof.
  intros [Hwf _] Hl. unfold getOrCreateUser. destruct (users s !! id) as [u|] eqn:E; [by apply Hwf|].
  split; cbn; [done|intros d [? ?]; by rewrite lookup_empty in *|by rewrite map_size_empty].
Qed.

Lemma device_wf id u b t d rec :
  user_wf id u -> is_u32 d -> Z.of_nat (size (usr_devices u)) < 2 ^ 32 - 1 -> user_wf id (mkUserRecord b t (<[d := rec]> (usr_devices u))).
Proof.
  intros [H1 H2 H3] Hd Hs. split; cbn; [done| |].
  - intros d'. rewrite lookup_insert. case_decide; [by subst|auto].
  - pose proof (size_insert_le rec d (usr_devices u)). lia.
Qed.

Lemma live_insert id u b t d rec :
  is_local m id d = false ->
  live m id (mkUserRecord b t (<[d := rec]> (usr_devices u))) =
    (b, if dev_stale rec then dom (active_devices m id u) ∖ {[d]} else {[d]} ∪ dom (active_devices m id u)).
Proof.
  intros Hd. unfold live. cbn [usr_stale]. f_equal. apply set_eq. intros x. rewrite elem_of_active. cbn [usr_devices].
  setoid_rewrite lookup_insert. destruct (dev_stale rec) eqn:Er.
  - rewrite elem_of_difference, elem_of_active, elem_of_singleton. case_decide as Hx.
    + subst. split; [intros (r & [= <-] & H1 & _); congruence|by intros [_ []]].
    + split; [intros H; split; [exact H|congruence]|tauto].
  - rewrite elem_of_union, elem_of_singleton, elem_of_active. case_decide as Hx.
    + subst. split; [by left|]. intros _. eauto.
    + split; [by right|]. intros [->|H]; [done|exact H].
Qed.

Lemma live_fields id u b t : live m id (mkUserRecord b t (usr_devices u)) = (b, snd (live m id u)).
Proof. done. Qed.

Lemma roster_op_refines op w s :
  holds w s -> op_ok op s ->
  exists w' s', run_roster_op op w = (w', Ok tt) /\ holds w' s' /\ abs m s' = spec_op op (abs m s) /\ same_rest w w'.
Proof.
  intros [Hl Hwf] (Hne & Hlen & Hsz & Hdev & Hop).
  pose proof (created_wf (op_user op) s Hwf Hlen) as Hcw.
  assert (Z.of_nat (size (usr_devices (getOrCreateUser (op_user op) s))) < 2 ^ 32 - 1) as Hds.
  { unfold getOrCreateUser. destruct (users s !! op_user op) as [u|] eqn:E; [by apply Hdev|]. cbn. by rewrite map_size_empty. }
  assert (forall u, user_wf (op_user op) u -> exists w' s', persistState (set_user (op_user op) u s) w = (w', Ok tt) /\ holds w' s' /\
    abs m s' = <[op_user op := live m (op_user op) u]> (abs m s) /\ same_rest w w') as Hper.
  { intros u Hu. destruct (manager_persist_ok (set_user (op_user op) u s) w) as (w' & E & Hh & Hr); [by apply set_user_wf|].
    exists w', (stored_state (set_user (op_user op) u s)). split_and!; [done|done| |done]. by rewrite abs_stored, abs_set_user. }
  destruct op as [id now|[id d] now|[id d]]; cbn [op_user addr_Name addr_Device run_roster_op spec_op] in *.
  - unfold MarkUserStale. rewrite st_bind_check by (by apply bool_decide_eq_false). rewrite (st_bind_run _ _ _ _ _ Hl).
    rewrite <- abs_entry. destruct (usr_stale (getOrCreateUser id s)) eqn:Es.
    + destruct (Hper _ Hcw) as (w' & s' & E & Hh & Ha & Hr). exists w', s'. split_and!; try done. rewrite Ha. f_equal.
      unfold live. by rewrite Es.
    + apply Hper. destruct Hcw. by split.
  - destruct Hop as [Hd0 Hd1]. unfold MarkDeviceStale. rewrite st_bind_check.
    2:{ unfold valid_address. cbn. rewrite bool_decide_eq_false_2, (proj2 (Z.eqb_neq _ _)) by (done || lia). done. }
    rewrite (st_bind_run _ _ _ _ _ Hl). cbn [addr_Name addr_Device]. destruct (is_local m id d) eqn:Eloc; [by exists w, s|].
    rewrite <- abs_entry.
    set (dev := default (mkDeviceRecord false 0) (usr_devices (getOrCreateUser id s) !! d)).
    destruct (Hper (mkUserRecord (usr_stale (getOrCreateUser id s)) (usr_staleSince (getOrCreateUser id s))
      (<[d := if dev_stale dev then dev else mkDeviceRecord true now]> (usr_devices (getOrCreateUser id s))))) as (w' & s' & E & Hh & Ha & Hr);
      [by apply device_wf|].
    exists w', s'. split_and!; try done. rewrite Ha. f_equal. rewrite live_insert by done. destruct (dev_stale dev) eqn:Ed; by rewrite ?Ed.
  - destruct Hop as [Hd0 Hd1]. unfold TouchDevice. rewrite st_bind_check.
    2:{ unfold valid_address. cbn. rewrite bool_decide_eq_false_2, (proj2 (Z.eqb_neq _ _)) by (done || lia). done. }
    rewrite (st_bind_run _ _ _ _ _ Hl). cbn [addr_Name addr_Device]. rewrite <- abs_entry. destruct (is_local m id d) eqn:Eloc.
    + destruct (Hper (mkUserRecord false 0 (usr_devices (getOrCreateUser id s)))) as (w' & s' & E & Hh & Ha & Hr); [destruct Hcw; by split|].
      exists w', s'. split_and!; try done. rewrite Ha. f_equal. by rewrite live_fields, union_empty_l_L.
    + destruct (Hper (mkUserRecord false 0 (<[d := mkDeviceRecord false 0]> (usr_devices (getOrCreateUser id s))))) as (w' & s' & E & Hh & Ha & Hr);
        [by apply device_wf|].
      exists w', s'. split_and!; try done. rewrite Ha. f_equal. by rewrite live_insert.
Qed.

(** *** ApplyDeviceList *)

Lemma device_set_ok ds (set : gmap Z Device) :
  NoDup (DeviceID <$> ds) -> (forall d, d ∈ ds -> set !! DeviceID d = None) ->
  exists set', device_set ds set = Ok set' /\
    forall k, set' !! k = match find (fun d => DeviceID d =? k) ds with Some d => Some d | None => set !! k end.
Proof.
  revert set. induction ds as [|d ds IH]; intros set Hnd Hf; [by eexists|]. cbn [device_set]. rewrite fmap_cons in Hnd.
  apply NoDup_cons in Hnd as [Hd Hnd]. rewrite Hf by (by left). rewrite bool_decide_eq_false_2 by (by intros []). cbn [check mbind res_bind].
  destruct (IH (<[DeviceID d := d]> set) Hnd) as (set' & E & Hs).
  { intros d' Hd'. rewrite lookup_insert_ne; [apply Hf; by right|]. intros Heq. apply Hd. rewrite Heq. by apply list_elem_of_fmap_2. }
  exists set'. split; [done|]. intros k. rewrite Hs. cbn [find]. destruct (Z.eqb_spec (DeviceID d) k) as [<-|Hne].
  - destruct (find _ ds) as [d'|] eqn:Ef; [|by rewrite lookup_insert_eq].
    apply find_some in Ef as [Hin Heq]. apply Z.eqb_eq in Heq. exfalso. apply Hd. rewrite <- Heq. by apply list_elem_of_fmap_2, list_elem_of_In.
  - destruct (find _ ds); [done|by rewrite lookup_insert_ne].
Qed.

(** The roster names another identity for the device than the store. *)
Definition identity_changed (w : W) (userID : string) (d : Device) : bool :=
  negb (is_local m userID (DeviceID d)) &&
  match DeviceIdentityKey d, id_view w (mkAddress userID (DeviceID d)) with
  | Some key, Some existing => negb (identityEqual existing key)
  | _, _ => false
  end.

Definition fresh : deviceRecord := mkDeviceRecord false 0.

(** What the loop over the devices [ids] of the list does. *)
Record applied (userID : string) (set : gmap Z Device) (ids : list Z) (devices : gmap Z deviceRecord) (w : W)
    (devices' : gmap Z deviceRecord) (changed : list Address) (w' : W) : Prop := {
  ap_devices k : devices' !! k = if decide (k ∈ ids /\ is_local m userID k = false) then Some fresh else devices !! k;
  ap_changed a : a ∈ changed <-> exists d, DeviceID d ∈ ids /\ set !! DeviceID d = Some d /\ identity_changed w userID d = true /\
    a = mkAddress userID (DeviceID d);
  ap_ses : ses_view w' = ses_view w;
  ap_ids a : id_view w' a = id_view w a;
  ap_sess a : sess_view w' a = if decide (a ∈ changed) then None else sess_view w a
}.

Lemma applied_nil userID set devices w : applied userID set [] devices w devices [] w.
Proof.
  split; try done. intros a. split; [by intros ?%not_elem_of_nil|]. by intros (d & ?%not_elem_of_nil & _).
Qed.

Lemma applied_cons userID set id ids devices w d w1 devices' changed' w' :
  set !! id = Some d -> DeviceID d = id -> ses_view w1 = ses_view w -> (forall a, id_view w1 a = id_view w a) ->
  (forall a, sess_view w1 a = if decide (identity_changed w userID d = true /\ a = mkAddress userID id) then None else sess_view w a) ->
  applied userID set ids (if is_local m userID id then devices else <[id := fresh]> devices) w1 devices' changed' w' ->
  applied userID set (id :: ids) devices w devices' ((if identity_changed w userID d then [mkAddress userID id] else []) ++ changed') w'.
Proof.
  intros Hd Hdid Hv1 Hv2 Hv3 [A1 A2 A3 A4 A5].
  assert (forall x, identity_changed w1 userID x = identity_changed w userID x) as Hic by (intros x; unfold identity_changed; by rewrite Hv2).
  assert (forall a, a ∈ (if identity_changed w userID d then [mkAddress userID id] else []) <-> identity_changed w userID d = true /\ a = mkAddress userID id) as Hhd.
  { intros a. destruct (identity_changed w userID d); set_solver. }
  split.
  - intros k. rewrite A1. destruct (decide (k ∈ ids /\ is_local m userID k = false)) as [[? ?]|Hn].
    { rewrite decide_True; [done|split; [by right|done]]. }
    destruct (decide (k = id)) as [->|Hne].
    + destruct (is_local m userID id) eqn:Eloc; [rewrite decide_False; [done|by intros [_ ?]]|].
      rewrite lookup_insert_eq, decide_True; [done|split; [by left|done]].
    + rewrite decide_False by (rewrite elem_of_cons; tauto). destruct (is_local m userID id); [done|by rewrite lookup_insert_ne].
  - intros a. rewrite elem_of_app, Hhd, A2. setoid_rewrite Hic. split.
    + intros [[H1 ->]|(x & H1 & H2)]; [exists d; rewrite Hdid; split_and!; [by left|done..]|exists x; split; [by right|done]].
    + intros (x & [Heq|H1]%elem_of_cons & H2 & H3 & ->); [left|right; eauto]. rewrite Heq, Hd in H2. injection H2 as <-. by rewrite Heq.
  - by rewrite A3.
  - intros a. by rewrite A4.
  - intros a. rewrite A5, Hv3. destruct (decide (a ∈ _ ++ changed')) as [Ha|Ha]; rewrite elem_of_app, Hhd in Ha; repeat case_decide; tauto.
Qed.

Lemma apply_devices_ok userID (set : gmap Z Device) ids devices changed w :
  (forall k d, set !! k = Some d -> DeviceID d = k) -> (forall k, k ∈ ids -> is_Some (set !! k)) ->
  exists w' devices' changed', apply_devices m userID set ids devices changed w = (w', Ok (devices', changed ++ changed')) /\
    applied userID set ids devices w devices' changed' w'.
Proof.
  intros Hset. revert devices changed w. induction ids as [|id ids IH]; intros devices changed w Hin; cbn [apply_devices].
  { exists w, devices, []. rewrite app_nil_r. split; [done|apply applied_nil]. }
  destruct (Hin id) as [d Hd]; [by left|]. pose proof (Hset id d Hd) as Hdid.
  assert (exists w1, forall changed', ses_view w1 = ses_view w /\ (forall a, id_view w1 a = id_view w a) /\
    (forall a, sess_view w1 a = if decide (identity_changed w userID d = true /\ a = mkAddress userID id) then None else sess_view w a) /\
    apply_devices m userID set (id :: ids) devices changed' w =
    apply_devices m userID set ids (if is_local m userID id then devices else <[id := fresh]> devices)
      (changed' ++ if identity_changed w userID d then [mkAddress userID id] else []) w1) as (w1 & Hw1).
  { cbn [apply_devices]. unfold identity_changed. rewrite Hdid, Hd. cbn [mbind option_bind].
    destruct (is_local m userID id); cbn [negb andb]; [exists w; intros; rewrite app_nil_r; by split_and!|].
    destruct (DeviceIdentityKey d) as [key|]; [|exists w; intros; rewrite app_nil_r; by split_and!].
    destruct (id_view w (mkAddress userID id)) as [ex|] eqn:Ev.
    2:{ exists w. intros. rewrite (st_bind_run _ _ _ w None) by (by rewrite id_load, Ev). rewrite app_nil_r. by split_and!. }
    destruct (identityEqual ex key) eqn:Ee; cbn [negb].
    { exists w. intros. rewrite (st_bind_run _ _ _ w (Some ex)) by (by rewrite id_load, Ev). rewrite Ee, app_nil_r. by split_and!. }
    destruct (sess_delete (mkAddress userID id) w) as (w1 & Ed & S1 & S2 & S3). exists w1. intros changed'. split_and!; try done.
    - intros a. rewrite S3. repeat case_decide; naive_solver.
    - rewrite (st_bind_run _ _ _ w (Some ex)) by (by rewrite id_load, Ev). rewrite Ee. cbn [negb]. by rewrite (st_bind_run _ _ _ _ _ Ed). }
  destruct (Hw1 changed) as (V1 & V2 & V3 & E).
  destruct (IH (if is_local m userID id then devices else <[id := fresh]> devices)
    (changed ++ if identity_changed w userID d then [mkAddress userID id] else []) w1) as (w' & dev' & ch' & E' & Hap);
    [intros k Hk; apply Hin; by right|].
  eexists w', dev', _. split; [|by eapply applied_cons]. cbn [apply_devices] in E. rewrite E, E'. by rewrite <- app_assoc.
Qed.

Context (range_set : gmap Z Device -> list Z) (Hrs : forall s, range_set s ≡ₚ (map_to_list s).*1).

(** The abstract operation: the user's devices are those of the list. *)
Definition spec_apply (userID : string) (ds : list Device) (r : roster) : roster :=
  <[userID := (false, filter (fun d => is_local m userID d = false) (list_to_set (DeviceID <$> ds)))]> r.

Lemma apply_live userID set now u devices' ids t :
  (forall k, devices' !! k = if decide (k ∈ ids /\ is_local m userID k = false) then Some fresh
     else map_imap (stale_missing set now) (usr_devices u) !! k) ->
  (forall k, is_Some (set !! k) <-> k ∈ ids) ->
  live m userID (mkUserRecord false t devices') = (false, filter (fun d => is_local m userID d = false) (list_to_set ids)).
Proof.
  intros Hd Hset. unfold live. cbn [usr_stale]. f_equal. apply set_eq. intros k.
  rewrite elem_of_active, elem_of_filter, elem_of_list_to_set. cbn [usr_devices]. rewrite Hd. split.
  - intros (rec & Hr & H1 & H2). case_decide as Hk; [tauto|]. split; [done|]. rewrite map_lookup_imap in Hr.
    destruct (usr_devices u !! k) as [r0|]; [|done]. injection Hr as <-. case_bool_decide as Hs; [by apply Hset|]. by destruct (dev_stale r0) eqn:E0; rewrite ?E0 in H1.
  - intros [H1 H2]. rewrite decide_True by done. by exists fresh.
Qed.

Lemma apply_wf userID set now s devices' ids :
  state_wf s -> len (str userID) <= 0xffff -> Z.of_nat (size (users s)) < 2 ^ 32 - 1 ->
  (forall k, devices' !! k = if decide (k ∈ ids /\ is_local m userID k = false) then Some fresh
     else map_imap (stale_missing set now) (usr_devices (getOrCreateUser userID s)) !! k) ->
  (forall k, k ∈ ids -> is_u32 k) -> Z.of_nat (size (usr_devices (getOrCreateUser userID s))) + len ids < 2 ^ 32 ->
  state_wf (set_user userID (mkUserRecord false 0 devices') s).
Proof.
  intros Hwf Hl Hsz Hd Hids Hroom. apply set_user_wf; [done|done|]. destruct (created_wf userID s Hwf Hl) as [_ Hu _].
  assert (forall k, is_Some (devices' !! k) -> k ∈ ids \/ is_Some (usr_devices (getOrCreateUser userID s) !! k)) as Hsub.
  { intros k [rec Hr]. rewrite Hd in Hr. case_decide as Hk; [left; tauto|right]. rewrite map_lookup_imap in Hr. by destruct (_ !! k). }
  split; cbn [usr_devices]; [done|intros k Hk; destruct (Hsub k Hk); auto|].
  assert (size devices' <= length ids + size (usr_devices (getOrCreateUser userID s)))%nat; [|unfold len in Hroom; lia].
  rewrite <- !size_dom. change (size (dom devices')) with (length (elements (dom devices'))).
  transitivity (length (ids ++ elements (dom (usr_devices (getOrCreateUser userID s))))); [|by rewrite length_app].
  apply submseteq_length, NoDup_submseteq; [apply NoDup_elements|]. intros k. rewrite elem_of_elements, elem_of_dom, elem_of_app, elem_of_elements, elem_of_dom. apply Hsub.
Qed.

Lemma apply_ok userID ds now w s :
  holds w s -> userID <> EmptyString -> len (str userID) <= 0xffff -> Z.of_nat (size (users s)) < 2 ^ 32 - 1 ->
  NoDup (DeviceID <$> ds) -> (forall d, d ∈ ds -> is_u32 (DeviceID d)) ->
  Z.of_nat (size (usr_devices (getOrCreateUser userID s))) + len ds < 2 ^ 32 ->
  exists w' s' changed, ApplyDeviceList range_set m userID ds now w =
      (w', if decide (changed = []) then Ok tt else Err (ErrIdentityChanged (addr_pair <$> merge_sort addr_le changed))) /\
    holds w' s' /\ abs m s' = spec_apply userID ds (abs m s) /\
    (forall a, a ∈ changed <-> exists d, d ∈ ds /\ identity_changed w userID d = true /\ a = mkAddress userID (DeviceID d)) /\
    forall a, id_view w' a = id_view w a /\ sess_view w' a = if decide (a ∈ changed) then None else sess_view w a.
Proof.
  intros [Hl Hwf] Hne Hlen Hsz Hnd Hu32 Hroom. unfold ApplyDeviceList. rewrite st_bind_check by (by apply bool_decide_eq_false).
  rewrite (st_bind_run _ _ _ _ _ Hl). destruct (device_set_ok ds ∅ Hnd) as (set & Eset & Hset); [done|]. rewrite (st_bind_lift _ _ _ _ Eset).
  assert (forall k, set !! k = find (fun d => DeviceID d =? k) ds) as Hfind by (intros k; rewrite Hset, lookup_empty; by destruct (find _ ds)).
  assert (forall k d, set !! k = Some d -> d ∈ ds /\ DeviceID d = k) as Hin.
  { intros k d Hd. rewrite Hfind in Hd. apply find_some in Hd as [H1 H2]. split; [by apply list_elem_of_In|lia]. }
  assert (forall d, d ∈ ds -> set !! DeviceID d = Some d) as Hof.
  { intros d Hd. rewrite Hfind. destruct (find _ ds) as [d'|] eqn:Ef.
    - apply find_some in Ef as [H1%list_elem_of_In H2]. f_equal. destruct (list_elem_of_lookup_1 _ _ Hd) as [i Hi], (list_elem_of_lookup_1 _ _ H1) as [j Hj].
      assert (i = j) as <-; [|congruence]. eapply (NoDup_lookup (DeviceID <$> ds)); [done|by rewrite list_lookup_fmap, Hi|]. rewrite list_lookup_fmap, Hj. cbn. f_equal. lia.
    - apply list_elem_of_In, (find_none _ _ Ef) in Hd. lia. }
  assert (forall k, is_Some (set !! k) <-> k ∈ (DeviceID <$> ds)) as Hdom.
  { intros k. rewrite list_elem_of_fmap. split; [intros [d [H1 H2]%Hin]; eauto|intros (d & -> & Hd); eexists; by apply Hof]. }
  assert (forall k, k ∈ range_set set <-> k ∈ (DeviceID <$> ds)) as Hrange by (intros k; rewrite Hrs, keys_elem; apply Hdom).
  destruct (apply_devices_ok userID set (range_set set) (map_imap (stale_missing set now) (usr_devices (getOrCreateUser userID s))) [] w)
    as (w1 & devs & changed & E1 & [A1 A2 A3 A4 A5]); [by intros k d [_ ?]%Hin|intros k Hk; by apply Hdom, Hrange|].
  rewrite (st_bind_run _ _ _ _ _ E1). cbn [app].
  assert (forall k, devs !! k = if decide (k ∈ (DeviceID <$> ds) /\ is_local m userID k = false) then Some fresh
     else map_imap (stale_missing set now) (usr_devices (getOrCreateUser userID s)) !! k) as A1'.
  { intros k. rewrite A1. pose proof (Hrange k). repeat case_decide; tauto. }
  destruct (manager_persist_ok (set_user userID (mkUserRecord false 0 devs) s) w1) as (w' & E2 & Hh & Hr).
  { eapply apply_wf; try done; [intros k (d & -> & Hd)%list_elem_of_fmap; auto|by rewrite len_fmap]. }
  rewrite (st_bind_run _ _ _ _ _ E2). exists w', (stored_state (set_user userID (mkUserRecord false 0 devs) s)), changed. split_and!.
  - by case_decide.
  - done.
  - rewrite abs_stored, abs_set_user. unfold spec_apply. f_equal. by eapply apply_live.
  - intros a. rewrite A2. split.
    + intros (d & H1 & H2 & H3 & ->). exists d. split_and!; [by apply (Hin _ _ H2)|done|done].
    + intros (d & H1 & H2 & ->). exists d. split_and!; [by apply Hrange, list_elem_of_fmap_2|by apply Hof|done|done].
  - intros a. destruct (Hr a) as [-> ->]. by rewrite A4, A5.
Qed.

(** *** NonStaleDevices *)

Definition active_list (r : roster) (id : string) : list Address :=
  if fst (entry r id) then [] else mkAddress id <$> merge_sort Z.le (elements (snd (entry r id))).

Lemma nonstale_ok userID w s :
  holds w s -> userID <> EmptyString -> NonStaleDevices m userID w = (w, Ok (active_list (abs m s) userID)).
Proof.
  intros [Hl _] Hne. unfold NonStaleDevices. rewrite st_bind_check by (by apply bool_decide_eq_false). rewrite (st_bind_run _ _ _ _ _ Hl).
  unfold active_list, entry, user. rewrite abs_lookup. destruct (users s !! userID) as [u|]; cbn; [|done].
  destruct (usr_stale u); [done|]. unfold mret, st_ret. do 3 f_equal. unfold sorted_devices.
  apply (StronglySorted_unique Z.le); [apply StronglySorted_merge_sort; apply _..|].
  rewrite !merge_sort_Permutation. apply NoDup_Permutation; [apply NoDup_fst_map_to_list|apply NoDup_elements|].
  intros k. by rewrite keys_elem, elem_of_elements, elem_of_dom.
Qed.

(** *** PruneStale *)

Context (range_users : gmap string userRecord -> list string) (Hru : forall s, range_users s ≡ₚ (map_to_list s).*1)
  (range_devices : gmap Z deviceRecord -> list Z) (Hrd : forall s, range_devices s ≡ₚ (map_to_list s).*1).
Context (now : Z).

Definition prunable (d : deviceRecord) : bool := dev_stale d && shouldPrune now (dev_staleSince d) (maxLatency m).
Definition user_prunable (u : userRecord) : bool := usr_stale u && shouldPrune now (usr_staleSince u) (maxLatency m).

(** What becomes of a user. *)
Definition pruned (u : userRecord) : option userRecord :=
  if user_prunable u then None
  else
    let devices := filter (fun e => prunable e.2 = false) (usr_devices u) in
    if bool_decide (devices = ∅) && negb (usr_stale u) then None else Some (mkUserRecord (usr_stale u) (usr_staleSince u) devices).

(** The views of [w'] are those of [w] without the sessions in [P] and the
    identities in [Q]. *)
Record without (P Q : Address -> Prop) (w w' : W) : Prop := {
  wo_ses : ses_view w' = ses_view w;
  wo_sess a : (P a -> sess_view w' a = None) /\ (~ P a -> sess_view w' a = sess_view w a);
  wo_id a : (Q a -> id_view w' a = None) /\ (~ Q a -> id_view w' a = id_view w a)
}.

Lemma without_nothing (P Q : Address -> Prop) w : (forall a, ~ P a) -> (forall a, ~ Q a) -> without P Q w w.
Proof. intros HP HQ. split; [done|..]; intros a; (split; [|done]); [by intros ?%HP|by intros ?%HQ]. Qed.

(** What is gone stays gone. *)
Lemma without_trans (P1 Q1 P2 Q2 P Q : Address -> Prop) w1 w2 w3 :
  without P1 Q1 w1 w2 -> without P2 Q2 w2 w3 -> (forall a, Decision (P2 a)) -> (forall a, Decision (Q2 a)) ->
  (forall a, P a <-> P1 a \/ P2 a) -> (forall a, Q a <-> Q1 a \/ Q2 a) -> without P Q w1 w3.
Proof.
  intros [A1 A2 A3] [B1 B2 B3] DP DQ HP HQ. split; [by rewrite B1|..]; intros a.
  - rewrite HP. destruct (A2 a) as [A4 A5], (B2 a) as [B4 B5]. split; [|intros Hn; rewrite B5, A5; tauto].
    destruct (DP a) as [Hp|Hn]; [auto|]. intros [H1|?]; [rewrite B5; auto|done].
  - rewrite HQ. destruct (A3 a) as [A4 A5], (B3 a) as [B4 B5]. split; [|intros Hn; rewrite B5, A5; tauto].
    destruct (DQ a) as [Hp|Hn]; [auto|]. intros [H1|?]; [rewrite B5; auto|done].
Qed.

Lemma ignore_forget a w : exists w', st_ignore (SaveIdentity a None) w = (w', Ok tt) /\ without (fun _ => False) (fun a' => a' = a) w w'.
Proof.
  destruct (id_forget a w) as (w' & E & H1 & H2 & H3). exists w'. split; [unfold st_ignore; by rewrite E|]. split; [done|..]; intros a'.
  - by split.
  - rewrite H3. by case_decide.
Qed.

Definition of_user (userID : string) (ids : list Z) (a : Address) : Prop := addr_Name a = userID /\ addr_Device a ∈ ids.

#[local] Instance of_user_dec userID ids a : Decision (of_user userID ids a).
Proof. unfold of_user. apply _. Defined.

Lemma forget_ok userID ids w : exists w', forget_identities userID ids w = (w', Ok tt) /\ without (fun _ => False) (of_user userID ids) w w'.
Proof.
  revert w. induction ids as [|id ids IH]; intros w; cbn [forget_identities].
  { exists w. split; [done|]. apply without_nothing; [tauto|]. by intros a [_ ?%not_elem_of_nil]. }
  destruct (ignore_forget (mkAddress userID id) w) as (w1 & E1 & H1). rewrite (st_bind_run _ _ _ _ _ E1).
  destruct (IH w1) as (w2 & E2 & H2). exists w2. split; [done|]. eapply without_trans; [exact H1|exact H2|apply _|apply _|tauto|].
  intros [n d]. unfold of_user. cbn. rewrite elem_of_cons. naive_solver.
Qed.

(** The device is listed and due. *)
Definition due (userID : string) (ids : list Z) (devices : gmap Z deviceRecord) (a : Address) : Prop :=
  of_user userID ids a /\ from_option prunable false (devices !! addr_Device a) = true.

#[local] Instance due_dec userID ids devices a : Decision (due userID ids devices a).
Proof. unfold due. apply _. Defined.

Lemma prune_devices_ok userID ids devices w :
  exists w' devices', prune_devices m now userID ids devices w = (w', Ok devices') /\
    (forall k, devices' !! k = if decide (due userID ids devices (mkAddress userID k)) then None else devices !! k) /\
    without (due userID ids devices) (due userID ids devices) w w'.
Proof.
  revert devices w. induction ids as [|id ids IH]; intros devices w; cbn [prune_devices].
  { exists w, devices. assert (forall a, ~ due userID [] devices a) as Hno by (by intros a [[_ ?%not_elem_of_nil] _]).
    split_and!; [done| |by apply without_nothing]. intros k. by rewrite decide_False. }
  assert (from_option prunable false (devices !! id) = false -> forall a, due userID (id :: ids) devices a <-> due userID ids devices a) as Hskip.
  { intros Hp [n d]. unfold due, of_user. cbn [addr_Name addr_Device]. rewrite elem_of_cons.
    split; [intros [[-> [->|Hi]] H2]; [congruence|done]|intros [[-> Hi] H2]; split; [split; [done|by right]|done]]. }
  assert (from_option prunable false (devices !! id) = false ->
    exists w' devices', prune_devices m now userID ids devices w = (w', Ok devices') /\
    (forall k, devices' !! k = if decide (due userID (id :: ids) devices (mkAddress userID k)) then None else devices !! k) /\
    without (due userID (id :: ids) devices) (due userID (id :: ids) devices) w w') as Hgo.
  { intros Hp. destruct (IH devices w) as (w' & dev' & E & H1 & H2). exists w', dev'. split_and!; [done| |].
    - intros k. rewrite H1. pose proof (Hskip Hp (mkAddress userID k)). repeat case_decide; tauto.
    - destruct H2 as [B1 B2 B3]. split; [done|..]; intros a; rewrite (Hskip Hp a); auto. }
  destruct (devices !! id) as [dev|] eqn:Ed; [|by apply Hgo]. cbn [from_option] in *.
  assert (negb (dev_stale dev) || negb (shouldPrune now (dev_staleSince dev) (maxLatency m)) = negb (prunable dev)) as ->
    by (unfold prunable; by rewrite negb_andb).
  destruct (prunable dev) eqn:Ep; [|by apply Hgo]. cbn [negb]. clear Hgo Hskip.
  destruct (sess_delete (mkAddress userID id) w) as (w1 & E1 & S1 & S2 & S3). rewrite (st_bind_run _ _ _ _ _ E1).
  assert (without (fun a => a = mkAddress userID id) (fun _ => False) w w1) as Hw1.
  { split; [done|..]; intros a; [rewrite S3; by case_decide|by split]. }
  destruct (ignore_forget (mkAddress userID id) w1) as (w2 & E2 & Hw2). rewrite (st_bind_run _ _ _ _ _ E2).
  destruct (IH (delete id devices) w2) as (w' & dev' & E & H1 & H2). exists w', dev'.
  assert (forall a, due userID (id :: ids) devices a <-> a = mkAddress userID id \/ due userID ids (delete id devices) a) as Hdue.
  { intros [n d]. unfold due, of_user. cbn [addr_Name addr_Device]. rewrite elem_of_cons, lookup_delete. case_decide as Hd.
    - subst d. split; [intros [[-> _] _]; by left|]. intros [[= ->]|[_ ?]]; [|done]. rewrite Ed. cbn. auto.
    - split; [intros [[-> [->|Hi]] H3]; [done|by right]|]. intros [[= -> ->]|[[-> Hi] H3]]; [done|]. auto. }
  split_and!; [done| |].
  - intros k. rewrite H1, lookup_delete. destruct (decide (due userID (id :: ids) devices (mkAddress userID k))) as [Hk|Hk]; rewrite Hdue in Hk.
    + case_decide; [done|]. destruct Hk as [[= ->]|?]; [by rewrite decide_True|done].
    + rewrite decide_False by tauto. rewrite decide_False; [done|]. intros ->. apply Hk. by left.
  - eapply without_trans; [|exact H2|apply _|apply _|exact Hdue|exact Hdue]. eapply without_trans; [exact Hw1|exact Hw2|apply _|apply _|tauto|tauto].
Qed.

(** The sessions and the identities that go with a user or a device. *)
Definition session_due (o : option userRecord) (d : Z) : bool :=
  match o with Some u => user_prunable u || from_option prunable false (usr_devices u !! d) | None => false end.
Definition identity_due (o : option userRecord) (d : Z) : bool :=
  match o with Some u => from_option (fun dev => user_prunable u || prunable dev) false (usr_devices u !! d) | None => false end.

Definition among (ids : list string) (f : option userRecord -> Z -> bool) (us : gmap string userRecord) (a : Address) : Prop :=
  addr_Name a ∈ ids /\ f (us !! addr_Name a) (addr_Device a) = true.

#[local] Instance among_dec ids f us a : Decision (among ids f us a).
Proof. unfold among. apply _. Defined.

(** One user. *)
Definition prune_user (userID : string) (u : userRecord) : ST W (option userRecord) :=
  if user_prunable u then
    _ ← forget_identities userID (range_devices (usr_devices u));
    _ ← DeleteAllSessions userID;
    mret None
  else
    devices ← prune_devices m now userID (range_devices (usr_devices u)) (usr_devices u);
    mret (if bool_decide (devices = ∅) && negb (usr_stale u) then None else Some (mkUserRecord (usr_stale u) (usr_staleSince u) devices)).

Lemma range_elem (s : gmap Z deviceRecord) k : k ∈ range_devices s <-> is_Some (s !! k).
Proof. rewrite Hrd. apply keys_elem. Qed.

Lemma prune_user_ok userID u w :
  exists w', prune_user userID u w = (w', Ok (pruned u)) /\
    without (fun a => addr_Name a = userID /\ session_due (Some u) (addr_Device a) = true)
      (fun a => addr_Name a = userID /\ identity_due (Some u) (addr_Device a) = true) w w'.
Proof.
  unfold prune_user, pruned, session_due, identity_due. destruct (user_prunable u) eqn:Eu; cbn [orb].
  - destruct (forget_ok userID (range_devices (usr_devices u)) w) as (w1 & E1 & H1). rewrite (st_bind_run _ _ _ _ _ E1).
    destruct (sess_delete_all userID w1) as (w2 & E2 & S1 & S2 & S3). rewrite (st_bind_run _ _ _ _ _ E2). exists w2. split; [done|].
    eapply (without_trans _ _ (fun a => addr_Name a = userID) (fun _ => False)); [exact H1| |apply _|apply _|intros a; cbn; tauto|].
    + split; [done|..]; intros a; [rewrite S3; by case_decide|by split].
    + intros a. unfold of_user. rewrite range_elem. destruct (usr_devices u !! addr_Device a); cbn; [|split; [intros [_ ?]|intros [[_ []]|]]; done].
      split; [intros [-> _]; left; by split|intros [[-> _]|[]]; by split].
  - destruct (prune_devices_ok userID (range_devices (usr_devices u)) (usr_devices u) w) as (w1 & devs & E1 & Hd & Hw).
    rewrite (st_bind_run _ _ _ _ _ E1). exists w1.
    assert (forall a, due userID (range_devices (usr_devices u)) (usr_devices u) a <->
      addr_Name a = userID /\ from_option prunable false (usr_devices u !! addr_Device a) = true) as Hdue.
    { intros a. unfold due, of_user. rewrite range_elem. destruct (usr_devices u !! addr_Device a) eqn:E; cbn; [|split; [by intros [_ ?]|by intros [_ ?]]].
      split; [intros [[-> _] ?]; done|intros [-> ?]; done]. }
    assert (devs = filter (fun e => prunable e.2 = false) (usr_devices u)) as ->.
    { apply map_eq. intros k. rewrite Hd, map_lookup_filter. case_decide as Hk; rewrite Hdue in Hk; cbn in Hk.
      - destruct (usr_devices u !! k) as [d|]; [|done]. cbn in *. destruct Hk as [_ Hk]. by rewrite option_guard_False by (by rewrite Hk).
      - destruct (usr_devices u !! k) as [d|]; [|done]. cbn in *. destruct (prunable d) eqn:Ep; [tauto|]. by rewrite option_guard_True. }
    split; [done|]. destruct Hw as [B1 B2 B3].
    split; [done|..]; intros a; specialize (Hdue a); destruct (B2 a), (B3 a); destruct (usr_devices u !! addr_Device a); cbn in *; tauto.
Qed.

Lemma prune_users_step userID ids us u w :
  us !! userID = Some u ->
  prune_users range_devices m now (userID :: ids) us w =
  (o ← prune_user userID u; prune_users range_devices m now ids (partial_alter (fun _ => o) userID us)) w.
Proof.
  intros Hu. cbn [prune_users]. rewrite Hu. unfold prune_user, user_prunable. destruct (_ && _).
  - unfold mbind, st_bind. destruct (forget_identities _ _ w) as [w1 [?| |]]; [|done|done]. by destruct (DeleteAllSessions userID w1) as [w2 [?| |]].
  - unfold mbind, st_bind. destruct (prune_devices _ _ _ _ _ w) as [w1 [?| |]]; [|done|done]. cbn. by destruct (_ && _).
Qed.

Lemma prune_users_ok ids us w :
  NoDup ids ->
  exists w' us', prune_users range_devices m now ids us w = (w', Ok us') /\
    (forall k, us' !! k = if decide (k ∈ ids) then us !! k ≫= pruned else us !! k) /\
    without (among ids session_due us) (among ids identity_due us) w w'.
Proof.
  intros Hnd. revert us w. induction Hnd as [|id ids Hid Hnd IH]; intros us w.
  { exists w, us. split_and!; [done| |apply without_nothing; by intros a [?%not_elem_of_nil _]].
    intros k. rewrite decide_False; [done|apply not_elem_of_nil]. }
  assert (forall o f a, among (id :: ids) f us a <-> (addr_Name a = id /\ f (us !! id) (addr_Device a) = true) \/
    among ids f (partial_alter (fun _ => o) id us) a) as Ham.
  { intros o f a. unfold among. rewrite elem_of_cons. destruct (decide (addr_Name a = id)) as [E|E].
    - rewrite E. tauto.
    - rewrite lookup_partial_alter_ne by done. tauto. }
  destruct (us !! id) as [u|] eqn:Eu.
  - rewrite (prune_users_step _ _ _ _ _ Eu). destruct (prune_user_ok id u w) as (w1 & E1 & H1). rewrite (st_bind_run _ _ _ _ _ E1).
    destruct (IH (partial_alter (fun _ => pruned u) id us) w1) as (w2 & us' & E2 & H2 & H3). exists w2, us'. split_and!; [done| |].
    + intros k. rewrite H2. destruct (decide (k = id)) as [->|Hk].
      * rewrite decide_False, decide_True by (done || by left). rewrite lookup_partial_alter_eq, Eu. done.
      * rewrite lookup_partial_alter_ne by done. pose proof (elem_of_cons ids k id). repeat case_decide; tauto.
    + eapply without_trans; [exact H1|exact H3|apply _|apply _|intros a; apply Ham|intros a; apply Ham].
  - cbn [prune_users]. rewrite Eu. destruct (IH us w) as (w2 & us' & E2 & H2 & H3). exists w2, us'. split_and!; [done| |].
    + intros k. rewrite H2. pose proof (elem_of_cons ids k id). destruct (decide (k = id)) as [->|Hk].
      * rewrite decide_False, decide_True by (done || by left). by rewrite Eu.
      * repeat case_decide; tauto.
    + assert (partial_alter (fun _ => None) id us = us) as Epa.
      { apply map_eq. intros k. destruct (decide (k = id)) as [->|?]; [by rewrite lookup_partial_alter_eq|by rewrite lookup_partial_alter_ne]. }
      destruct H3 as [B1 B2 B3]. split; [done|..]; intros a.
      * rewrite (Ham None session_due a), Epa. destruct (B2 a). cbn. naive_solver.
      * rewrite (Ham None identity_due a), Epa. destruct (B3 a). cbn. naive_solver.
Qed.

Lemma kept_active id u devices :
  devices = filter (fun e => prunable e.2 = false) (usr_devices u) ->
  dom (active_devices m id (mkUserRecord (usr_stale u) (usr_staleSince u) devices)) = dom (active_devices m id u).
Proof.
  intros ->. apply set_eq. intros d. rewrite !elem_of_active. cbn [usr_devices]. setoid_rewrite map_lookup_filter_Some. split.
  - intros (rec & [H1 _] & H2). eauto.
  - intros (rec & H1 & H2 & H3). exists rec. split_and!; [done| |done|done]. cbn. unfold prunable. by rewrite H2.
Qed.

(** Messages go to the same devices as before. *)
Lemma pruned_active (r r' : roster) id o :
  r !! id = live m id <$> o -> r' !! id = live m id <$> (o ≫= pruned) -> active_list r' id = active_list r id.
Proof.
  intros H1 H2. unfold active_list, entry. rewrite H1, H2. destruct o as [u|]; [|done]. cbn [fmap option_fmap option_map mbind option_bind default].
  unfold pruned. destruct (user_prunable u) eqn:Eu.
  { unfold user_prunable in Eu. apply andb_true_iff in Eu as [Es _]. cbn. by rewrite Es. }
  destruct (_ && _) eqn:Ed.
  - apply andb_true_iff in Ed as [Ed%bool_decide_eq_true Es%negb_true_iff]. cbn. rewrite Es. f_equal.
    rewrite <- (kept_active id u _ eq_refl), Ed. reflexivity.
  - cbn [fmap option_fmap option_map]. unfold live. cbn [fst snd usr_stale default from_option]. by rewrite kept_active.
Qed.

Lemma pruned_wf id u u' : user_wf id u -> pruned u = Some u' -> user_wf id u'.
Proof.
  intros [H1 H2 H3] E. unfold pruned in E. destruct (user_prunable u); [done|]. destruct (_ && _); [done|]. injection E as <-.
  split; cbn [usr_devices]; [done| |].
  - intros d [rec Hr]. apply map_lookup_filter_Some in Hr as [Hr _]. apply H2. by eexists.
  - pose proof (map_subseteq_size _ _ (map_filter_subseteq (fun e => prunable e.2 = false) (usr_devices u))). lia.
Qed.

(** What pruning leaves of a user, one way or the other: a user disappears when
    it is due itself, or when it is not stale and all its devices are due; a user
    that stays keeps its mark and exactly the devices that are not due, with
    their marks. The store keeps the seconds of an instant. *)
Definition user_after (o o' : option userRecord) : Prop :=
  match o, o' with
  | None, None => True
  | None, Some _ => False
  | Some u, None => user_prunable u = true \/
      (usr_stale u = false /\ forall d dev, usr_devices u !! d = Some dev -> prunable dev = true)
  | Some u, Some u' => user_prunable u = false /\
      (usr_stale u = true \/ exists d dev, usr_devices u !! d = Some dev /\ prunable dev = false) /\
      usr_stale u' = usr_stale u /\ usr_staleSince u' = trunc (usr_staleSince u) /\
      forall d, match usr_devices u !! d with
        | Some dev => usr_devices u' !! d = if prunable dev then None else Some (stored_device dev)
        | None => usr_devices u' !! d = None
        end
  end.

Lemma pruned_after o : user_after o (stored_user <$> (o ≫= pruned)).
Proof.
  destruct o as [u|]; [|done]. cbn [mbind option_bind]. unfold pruned. destruct (user_prunable u) eqn:Eu; cbn; [by left|].
  set (devices := filter (fun e => prunable e.2 = false) (usr_devices u)).
  assert (forall d, devices !! d = match usr_devices u !! d with Some dev => if prunable dev then None else Some dev | None => None end) as Hd.
  { intros d. unfold devices. rewrite map_lookup_filter. destruct (usr_devices u !! d) as [dev|]; [|done]. cbn.
    destruct (prunable dev) eqn:Ep; [by rewrite option_guard_False by (cbn; congruence)|by rewrite option_guard_True]. }
  destruct (bool_decide_reflect (devices = ∅)) as [He|He]; destruct (usr_stale u) eqn:Es; cbn.
  2: { right. split; [done|]. intros d dev Hdev. specialize (Hd d). rewrite He, lookup_empty, Hdev in Hd. by destruct (prunable dev). }
  all: split_and!; try done; [|by intros d; rewrite lookup_fmap, Hd; destruct (usr_devices u !! d) as [dev|]; [destruct (prunable dev)|]].
  - by left.
  - by left.
  - right. apply map_choose in He as (d & dev & Hdev). exists d, dev. rewrite Hd in Hdev.
    destruct (usr_devices u !! d) as [dev'|]; [|done]. destruct (prunable dev') eqn:Ep; [done|]. by injection Hdev as <-.
Qed.

Lemma prune_ok w s :
  holds w s -> 0 < maxLatency m ->
  exists w' s', PruneStale range_users range_devices m now w = (w', Ok tt) /\ holds w' s' /\
    (forall id, user_after (users s !! id) (users s' !! id)) /\
    (forall id, active_list (abs m s') id = active_list (abs m s) id) /\
    forall a, sess_view w' a = (if session_due (users s !! addr_Name a) (addr_Device a) then None else sess_view w a) /\
      id_view w' a = (if identity_due (users s !! addr_Name a) (addr_Device a) then None else id_view w a).
Proof.
  intros [Hl Hwf] Hmax. unfold PruneStale. rewrite st_bind_check by lia. rewrite (st_bind_run _ _ _ _ _ Hl).
  assert (NoDup (range_users (users s))) as Hnd by (rewrite Hru; apply NoDup_fst_map_to_list).
  destruct (prune_users_ok (range_users (users s)) (users s) w Hnd) as (w1 & us' & E1 & H1 & [B1 B2 B3]). rewrite (st_bind_run _ _ _ _ _ E1).
  assert (forall k, us' !! k = users s !! k ≫= pruned) as Hus.
  { intros k. rewrite H1. case_decide as Hk; [done|]. rewrite Hru, keys_elem in Hk. apply eq_None_not_Some in Hk. by rewrite Hk. }
  destruct (manager_persist_ok (mkState us') w1) as (w' & E2 & Hh & Hr).
  { destruct Hwf as [W1 W2]. split; cbn [users].
    - intros id u' Hu. rewrite Hus in Hu. destruct (users s !! id) as [u|] eqn:E; [|done]. eapply pruned_wf; [by apply W1|done].
    - rewrite <- size_dom in W2 |- *. enough (size (dom us') <= size (dom (users s)))%nat by lia. apply subseteq_size. intros k.
      rewrite !elem_of_dom, Hus. by destruct (users s !! k). }
  exists w', (stored_state (mkState us')). split_and!; [done|done| | |].
  - intros id. cbn [stored_state users]. rewrite lookup_fmap, Hus. apply pruned_after.
  - intros id. apply (pruned_active _ _ _ (users s !! id)); [apply abs_lookup|]. rewrite abs_stored, abs_lookup. cbn. by rewrite Hus.
  - intros a. destruct (Hr a) as [-> ->], (B2 a) as [C1 C2], (B3 a) as [C3 C4]. unfold among in *.
    assert (is_Some (users s !! addr_Name a) -> addr_Name a ∈ range_users (users s)) as Hin by (rewrite Hru, keys_elem; done).
    destruct (users s !! addr_Name a) as [u|]; [|split; (apply C2 || apply C4); cbn; by intros [_ ?]].
    specialize (Hin ltac:(done)). split.
    + destruct (session_due (Some u) (addr_Device a)); [by apply C1|]. apply C2. by intros [_ ?].
    + destruct (identity_due (Some u) (addr_Device a)); [by apply C3|]. apply C4. by intros [_ ?].
Qed.
End manager.

(** ** Properties *)

(** Persistence of the roster. A state within the bounds of the format
    (user ids of at most 65535 bytes, 32-bit device ids and counts) is
    serializable, and its bytes give back the same users and devices with the
    same marks; the instants come back without the fraction of their second.
    [DeserializeState] returns on every input, without a panic. *)
Theorem sesame_state_roundtrip s data :
  state_wf s ->
  (exists b, Serialize s = Ok b /\ DeserializeState b = Ok (stored_state s)) /\ DeserializeState data <> Panic.
Proof.
  intros Hwf. split; [|apply DeserializeState_total]. destruct (Serialize_total s Hwf) as (b & Eb & _). exists b.
  split; [done|by apply DeserializeState_bytes].
Qed.

Definition demo_roster : State :=
  mkState {["bob" := mkUserRecord false 0 {[1 := mkDeviceRecord false 0; 7 := mkDeviceRecord true (10 ^ 20)]};
            "eve" := mkUserRecord true (10 ^ 20 + 5) ∅]}.

Lemma demo_roster_wf : state_wf demo_roster.
Proof.
  split; [|by vm_compute]. unfold demo_roster. cbn [users].
  apply map_Forall_insert_2; [split; [by vm_compute| |by vm_compute]|].
  - intros d. cbn [usr_devices]. rewrite lookup_insert. case_decide; [subst; by intros _|]. rewrite lookup_singleton. case_decide; [subst; by intros _|].
    by intros [x Hx].
  - apply map_Forall_singleton. split; [by vm_compute| |by vm_compute]. intros d [x Hx]. by vm_compute in Hx.
Qed.

Lemma sesame_state_roundtrip_witness : exists b, Serialize demo_roster = Ok b /\ DeserializeState b = Ok (stored_state demo_roster).
Proof. apply (sesame_state_roundtrip demo_roster []). apply demo_roster_wf. Defined.

(** C7: the manager refines an abstract roster, which knows of each user whether
    it is stale and the set of its devices that are not. Whatever the store, on a
    roster within the bounds of the format: marking a user stale sets its mark
    and nothing else; marking a device stale removes it from the user's set, the
    local device excepted; touching a device un-stales the user and adds the
    device; all of these leave the sessions and the identities alone. Applying a
    device list makes the user's set exactly the listed devices without the
    local one, whatever the order in which maps are ranged over, deletes the
    sessions of exactly the listed devices whose identity differs from the stored
    one, and reports exactly those. [NonStaleDevices] lists the set in order, and
    nothing when the user is stale. *)
Theorem sesame_refines W (I : IdentityKeyStore W) (S : SessionStore W) (R : SesameStore W)
    (L : SessionStoreLaws S) (LR : SesameStoreLaws R) (RL : RosterStoreLaws L LR) (m : Manager) range_set (w : W) s :
  (forall x, range_set x ≡ₚ (map_to_list x).*1) -> holds w s ->
  (forall op, op_ok op s ->
     exists w' s', run_roster_op m op w = (w', Ok tt) /\ holds w' s' /\ abs m s' = spec_op m op (abs m s) /\ same_rest w w') /\
  (forall userID ds now, userID <> EmptyString -> len (str userID) <= 0xffff -> Z.of_nat (size (users s)) < 2 ^ 32 - 1 ->
     NoDup (DeviceID <$> ds) -> (forall d, d ∈ ds -> is_u32 (DeviceID d)) ->
     Z.of_nat (size (usr_devices (getOrCreateUser userID s))) + len ds < 2 ^ 32 ->
     exists w' s' changed, ApplyDeviceList range_set m userID ds now w =
         (w', if decide (changed = []) then Ok tt else Err (ErrIdentityChanged (addr_pair <$> merge_sort addr_le changed))) /\
       holds w' s' /\ abs m s' = spec_apply m userID ds (abs m s) /\
       (forall a, a ∈ changed <-> exists d, d ∈ ds /\ identity_changed m w userID d = true /\ a = mkAddress userID (DeviceID d)) /\
       forall a, id_view w' a = id_view w a /\ sess_view w' a = if decide (a ∈ changed) then None else sess_view w a) /\
  (forall userID, userID <> EmptyString -> NonStaleDevices m userID w = (w, Ok (active_list (abs m s) userID))).
Proof.
  intros Hr Hh. split_and!; intros; [by apply roster_op_refines|by apply apply_ok|by apply nonstale_ok].
Qed.

Definition demo_range : nat -> gmap Address bytes -> list Address := fun _ s => (map_to_list s).*1.

Lemma sesame_refines_witness :
  let I := MemoryStore.identityKeyStore in let S := MemoryStore.sessionStore demo_range in let R := MemoryStore.sesameStore in
  let w := MemoryStore.NewStore None 1 in let m := mkManager (mkAddress "alice" 1) 1 in
  exists w' s', TouchDevice m (mkAddress "bob" 2) w = (w', Ok tt) /\ abs m s' = <["bob" := (false, {[2]} ∪ ∅)]> ∅.
Proof.
  intros I S R w m. assert (Permutation := fun n s => reflexivity (R:=Permutation) (demo_range n s)).
  destruct (sesame_refines _ I S R (MemoryStore.sessionStore_laws demo_range) MemoryStore.sesameStore_laws
    (rosterStore_laws demo_range Permutation) m (fun x => (map_to_list x).*1) w NewState) as (H1 & _ & _).
  - intros x. reflexivity.
  - split; [reflexivity|]. split; [by apply map_Forall_empty|by vm_compute].
  - destruct (H1 (OpTouch (mkAddress "bob" 2))) as (w' & s' & E & _ & Ha & _); [|exists w', s'; split; [exact E|exact Ha]].
    split_and!; [done|by vm_compute|by vm_compute|by intros u Hu; vm_compute in Hu|done|done].
Defined.

(** C8: pruning. [PruneStale] takes from the stored roster exactly the stale users
    and devices whose mark is at least [maxLatency] old, and users that are not
    stale and have no other devices; the users and devices that stay keep their
    marks, to the second as the store keeps them. With those that go,
    exactly their sessions and identities go: the session of an
    address goes if and only if its user or its device is due, the identity if
    moreover the device is on the roster; everything else stays, and messages go
    to exactly the same devices as before. The order in which the maps are
    ranged over does not matter. *)
Theorem sesame_prune W (I : IdentityKeyStore W) (S : SessionStore W) (R : SesameStore W)
    (L : SessionStoreLaws S) (LR : SesameStoreLaws R) (RL : RosterStoreLaws L LR) (m : Manager) range_users range_devices now (w : W) s :
  (forall x, range_users x ≡ₚ (map_to_list x).*1) -> (forall x, range_devices x ≡ₚ (map_to_list x).*1) ->
  holds w s -> 0 < maxLatency m ->
  exists w' s', PruneStale range_users range_devices m now w = (w', Ok tt) /\ holds w' s' /\
    (forall id, user_after m now (users s !! id) (users s' !! id)) /\
    (forall id, active_list (abs m s') id = active_list (abs m s) id) /\
    forall a, sess_view w' a = (if session_due m now (users s !! addr_Name a) (addr_Device a) then None else sess_view w a) /\
      id_view w' a = (if identity_due m now (users s !! addr_Name a) (addr_Device a) then None else id_view w a).
Proof. intros Hu Hd Hh Hm. by apply prune_ok. Qed.

Lemma sesame_prune_witness :
  let I := MemoryStore.identityKeyStore in let S := MemoryStore.sessionStore demo_range in let R := MemoryStore.sesameStore in
  let w := MemoryStore.set_sesame (Some (get_ok [] (Serialize demo_roster))) (MemoryStore.set_sessions demo_sessions (MemoryStore.NewStore None 1)) in
  let m := mkManager (mkAddress "alice" 1) (10 ^ 12) in
  exists w' s', PruneStale (fun x => (map_to_list x).*1) (fun x => (map_to_list x).*1) m (2 * 10 ^ 20) w = (w', Ok tt) /\ holds w' s' /\
    users s' !! "eve" = None /\ (exists u, users s' !! "bob" = Some u /\ is_Some (usr_devices u !! 1) /\ usr_devices u !! 7 = None) /\
    MemoryStore.sessions w' !! mkAddress "bob" 1 = Some [Byte.x01] /\ MemoryStore.sessions w' !! mkAddress "eve" 1 = None.
Proof.
  intros I S R w m. assert (Permutation := fun n s => reflexivity (R:=Permutation) (demo_range n s)).
  destruct (sesame_prune _ I S R (MemoryStore.sessionStore_laws demo_range) MemoryStore.sesameStore_laws
    (rosterStore_laws demo_range Permutation) m (fun x => (map_to_list x).*1) (fun x => (map_to_list x).*1) (2 * 10 ^ 20) w (stored_state demo_roster))
    as (w' & s' & E & Hh & Hu & _ & Hv).
  - intros x. reflexivity.
  - intros x. reflexivity.
  - split; [vm_compute; reflexivity|]. apply stored_wf, demo_roster_wf.
  - done.
  - exists w', s'. pose proof (Hu "eve") as H1. pose proof (Hu "bob") as H2.
    split_and!; [exact E|exact Hh| | |exact (proj1 (Hv (mkAddress "bob" 1)))|exact (proj1 (Hv (mkAddress "eve" 1)))].
    + destruct (users s' !! "eve"); [|done]. destruct H1 as [H1 _]. vm_compute in H1. done.
    + destruct (users s' !! "bob") as [u|].
      * exists u. destruct H2 as (_ & _ & _ & _ & H2). pose proof (H2 1) as H3. pose proof (H2 7) as H4.
        split_and!; [done|rewrite H3; by eexists|exact H4].
      * destruct H2 as [H2|[_ H2]]; [by vm_compute in H2|]. specialize (H2 1 _ eq_refl). by vm_compute in H2.
Defined.
