(* ===== verification/SesameConversation.v ===== *)
(** * Sesame conversations

    Encrypting to the devices of a user, over the session ciphers: a message
    goes to exactly the devices that are not stale, and the ones we have a
    conversation with decrypt it; retries are bounded. *)

From Stdlib Require Import ZArith Lia.
From Stdlib Require Import Strings.Byte.
From stdpp Require Import base gmap strings list list_numbers vector sorting.
From S2P Require Import Prelude Crypto Keys X3dh Ratchet RatchetTalk SpqrMlkem Protowire Wire Store MemoryStore Session SessionProofs SessionSafety SessionTalk SessionStart SessionConversation Sesame SesameProofs.
Import Crypto Keys Session.

Section conversation.
Context {HP : Primitives} {HK : KyberPrims} {HX : XEdDSA} {HM : MLKEM} {HW : Protowire}.
Context {W} {I : IdentityKeyStore W} {PK : PreKeyStore W} {SP : SignedPreKeyStore W} {KP : KyberPreKeyStore W} {S : SessionStore W} {R : SesameStore W}.
Context {L : SessionStoreLaws S} {PL : ProtocolStoreLaws I PK SP KP L} {LR : SesameStoreLaws R}.

(** ** What reading the store leaves *)

Lemma loadState_reads (w : W) : exists r, Sesame.loadState w = (w, r).
Proof.
  unfold Sesame.loadState, mbind, st_bind. rewrite ses_load. destruct (ses_view w) as [d|]; [|by eexists].
  destruct (len d =? 0); by eexists.
Qed.

Lemma NonStaleDevices_reads m userID (w : W) : exists r, Sesame.NonStaleDevices m userID w = (w, r).
Proof.
  unfold Sesame.NonStaleDevices, mbind, st_bind, st_check. destruct (bool_decide _); [by eexists|]. cbn.
  destruct (loadState_reads w) as [[s|e|] ->]; [|by eexists|by eexists].
  destruct (Sesame.user userID s) as [u|]; [|by eexists]. destruct (Sesame.usr_stale u); by eexists.
Qed.

Lemma sessionReady_reads addr (w : W) : exists r, Sesame.sessionReady addr w = (w, r).
Proof.
  unfold Sesame.sessionReady, mbind, st_bind. rewrite sess_load. destruct (sess_view w addr) as [d|]; [|by eexists].
  destruct (len d =? 0); [by eexists|]. unfold st_lift. destruct (DeserializeRecord d); by eexists.
Qed.

(** A session that is there is one the cipher accepts. *)
Lemma sessionReady_false addr (w : W) : Sesame.sessionReady addr w = (w, Ok false) -> forall r, sess_view w addr <> Some (Serialize r).
Proof.
  unfold Sesame.sessionReady, mbind, st_bind. rewrite sess_load. intros E r Hv. rewrite Hv in E.
  assert (len (Serialize r) =? 0 = false) as Hn.
  { apply Z.eqb_neq. unfold Serialize, recordSerializeMagic. rewrite len_app. change (len (str "SIGR")) with 4. len_facts. lia. }
  rewrite Hn in E. unfold st_lift in E. by destruct (DeserializeRecord (Serialize r)).
Qed.

(** The devices that need a bundle have none of our sessions, and a bundle. *)
Lemma check_bundles_ok bundles addrs needs missing (w w' : W) needs' missing' :
  Sesame.check_bundles bundles addrs needs missing w = (w', Ok (needs', missing')) ->
  w' = w /\ forall a, a ∈ needs' -> a ∈ needs \/ is_Some (bundles !! a).
Proof.
  revert needs missing. induction addrs as [|addr addrs IH]; intros needs missing E; cbn [Sesame.check_bundles] in E.
  { apply st_ret_ok in E as [-> [= -> ->]]. split; [done|]. by left. }
  destruct (sessionReady_reads addr w) as [r Er]. apply st_bind_ok in E as (w1 & ready & E1 & E). rewrite Er in E1. injection E1 as <- ->.
  destruct ready; [by apply IH in E|]. destruct (bundles !! addr) as [b|] eqn:Eb; [|by apply IH in E].
  apply IH in E as [-> Hn]. split; [done|]. intros a Ha. destruct (Hn a Ha) as [[->%elem_of_singleton|?]%elem_of_union|?]; [right; by rewrite Eb|by left|by right].
Qed.

(** ** Encrypting to one device after the other *)

Lemma encrypt_device_touched plaintext bundles needs addr w t w' t' ct :
  Sesame.encrypt_device plaintext bundles needs addr (w, t) = ((w', t'), Ok ct) -> touched addr w w'.
Proof.
  unfold Sesame.encrypt_device. destruct (bool_decide (addr ∈ needs)).
  - destruct (bundles !! addr) as [b|]; [|done]. intros E. pose proof (EncryptWithPreKeyBundle_atomic addr b plaintext w t) as Ha. by rewrite E in Ha.
  - pose proof (Encrypt_atomic addr plaintext w t) as Ha. destruct (Session.Encrypt addr plaintext (w, t)) as [[w1 t1] [c|e|]]; cbn in Ha.
    + by intros [= <- _ _].
    + destruct (bundles !! addr) as [b|]; [|done]. destruct (Sesame.errors_Is e ErrNoSession); [|done]. intros E.
      pose proof (EncryptWithPreKeyBundle_atomic addr b plaintext w1 t1) as Hb. rewrite E in Hb. by eapply touched_same.
    + done.
Qed.

(** Encrypting to the others keeps our session with a device, or evicts it. *)
Lemma encrypt_devices_others plaintext bundles needs addrs out w t w' t' out' a :
  Sesame.encrypt_devices plaintext bundles needs addrs out (w, t) = ((w', t'), Ok out') -> a ∉ addrs ->
  out' !! a = out !! a /\ (sess_view w' a = sess_view w a \/ sess_view w' a = None).
Proof.
  revert out w t. induction addrs as [|addr addrs IH]; intros out w t E Ha; cbn [Sesame.encrypt_devices] in E.
  { apply st_ret_ok in E as [[= -> ->] ->]. auto. }
  apply st_bind_ok in E as ([w1 t1] & ct & E1 & E). apply encrypt_device_touched in E1 as [_ Ho].
  apply IH in E as [H1 H2]; [|set_solver]. rewrite lookup_insert_ne in H1 by set_solver. split; [done|].
  destruct (Ho a) as [Hv|Hv]; [set_solver|..]; rewrite Hv in H2; tauto.
Qed.

(** A message goes to exactly the given devices. *)
Lemma encrypt_devices_dom plaintext bundles needs addrs out w t w' t' out' :
  Sesame.encrypt_devices plaintext bundles needs addrs out (w, t) = ((w', t'), Ok out') -> dom out' = list_to_set addrs ∪ dom out.
Proof.
  revert out w t. induction addrs as [|addr addrs IH]; intros out w t E; cbn [Sesame.encrypt_devices] in E.
  { apply st_ret_ok in E as [_ ->]. set_solver. }
  apply st_bind_ok in E as ([w1 t1] & ct & E1 & E). apply IH in E as ->. rewrite dom_insert_L, list_to_set_cons. set_solver.
Qed.

(** The moment at which the message for [a] was made. *)
Lemma encrypt_devices_at plaintext bundles needs addrs out w t w' t' out' a c :
  Sesame.encrypt_devices plaintext bundles needs addrs out (w, t) = ((w', t'), Ok out') -> NoDup addrs -> a ∈ addrs -> out' !! a = Some c ->
  exists w1 t1 w2 t2, (sess_view w1 a = sess_view w a \/ sess_view w1 a = None) /\
    Sesame.encrypt_device plaintext bundles needs a (w1, t1) = ((w2, t2), Ok c) /\
    (sess_view w' a = sess_view w2 a \/ sess_view w' a = None).
Proof.
  revert out w t. induction addrs as [|addr addrs IH]; intros out w t E Hnd Hin Hc; [by apply not_elem_of_nil in Hin|].
  cbn [Sesame.encrypt_devices] in E. apply NoDup_cons in Hnd as [Hni Hnd]. apply st_bind_ok in E as ([w1 t1] & ct & E1 & E).
  destruct (decide (a = addr)) as [->|Hne].
  - destruct (encrypt_devices_others _ _ _ _ _ _ _ _ _ _ _ E Hni) as [H1 H2]. rewrite Hc, lookup_insert_eq in H1. injection H1 as ->.
    exists w, t, w1, t1. auto.
  - apply elem_of_cons in Hin as [?|Hin]; [done|]. destruct (IH _ _ _ E Hnd Hin Hc) as (w2 & t2 & w3 & t3 & H1 & H2 & H3).
    exists w2, t2, w3, t3. split; [|done]. apply encrypt_device_touched in E1 as [_ Ho]. destruct (Ho a Hne) as [Hv|Hv]; rewrite Hv in H1; tauto.
Qed.

Lemma nonstale_nodup m userID (w : W) addrs : Sesame.NonStaleDevices m userID w = (w, Ok addrs) -> NoDup addrs.
Proof.
  unfold Sesame.NonStaleDevices. intros E. apply st_bind_ok in E as (w1 & ? & [-> _]%st_check_ok & E).
  apply st_bind_ok in E as (w2 & s & _ & E). destruct (Sesame.user userID s) as [u|]; [|apply st_ret_ok in E as [_ ->]; constructor].
  destruct (Sesame.usr_stale u); apply st_ret_ok in E as [_ ->]; [constructor|]. apply NoDup_fmap_2; [by intros ? ? [=]|apply sorted_devices_nodup].
Qed.

Lemma sesame_encrypt_inv c userID plaintext bundles w t w' t' out :
  Sesame.Encrypt c userID plaintext bundles (w, t) = ((w', t'), Ok out) ->
  exists addrs needs, Sesame.NonStaleDevices (Sesame.manager c) userID w = (w, Ok addrs) /\ NoDup addrs /\
    (forall a, a ∈ needs -> is_Some (bundles !! a)) /\
    Sesame.encrypt_devices plaintext bundles needs addrs ∅ (w, t) = ((w', t'), Ok out).
Proof.
  unfold Sesame.Encrypt. intros E. apply st_bind_ok in E as (wt & ? & [-> _]%st_check_ok & E).
  apply st_bind_ok in E as ([w1 t1] & addrs & E1 & E). unfold st_fst in E1. destruct (NonStaleDevices_reads (Sesame.manager c) userID w) as [r Er].
  rewrite Er in E1. injection E1 as <- <- ->. pose proof (nonstale_nodup _ _ _ _ Er) as Hnd.
  destruct (decide (addrs = [])) as [->|Hne].
  { exists [], ∅. split_and!; [done|done|set_solver|done]. }
  apply st_bind_ok in E as ([w2 t2] & [needs missing] & E2 & E). unfold st_fst in E2.
  destruct (Sesame.check_bundles bundles addrs ∅ [] w) as [w3 r3] eqn:Ec. injection E2 as <- <- ->.
  apply check_bundles_ok in Ec as [-> Hn]. destruct (decide (missing = [])); [|done].
  exists addrs, needs. split_and!; [done|done| |done]. intros a Ha. destruct (Hn a Ha); [set_solver|done].
Qed.

(** A device without a bundle gets what the session cipher makes of our session
    with it. *)
Lemma encrypt_device_session plaintext bundles needs a w t w' t' c :
  (forall a, a ∈ needs -> is_Some (bundles !! a)) -> bundles !! a = None ->
  Sesame.encrypt_device plaintext bundles needs a (w, t) = ((w', t'), Ok c) -> Session.Encrypt a plaintext (w, t) = ((w', t'), Ok c).
Proof.
  intros Hn Hb. unfold Sesame.encrypt_device. rewrite bool_decide_eq_false_2; [|intros [? ?]%Hn; congruence]. rewrite Hb.
  by destruct (Session.Encrypt a plaintext (w, t)) as [[? ?] [?|?|]].
Qed.

Lemma session_needed a plaintext (w : W) t w' t' c : Session.Encrypt a plaintext (w, t) = ((w', t'), Ok c) -> sess_view w a <> None.
Proof.
  intros E Hv. unfold Session.Encrypt, loadRecordRequired, loadRecordOptional in E. unfold mbind, st_bind, st_fst in E.
  by rewrite sess_load, Hv in E.
Qed.

Lemma TouchDevice_no_panic m addr (w : W) : snd (Sesame.TouchDevice m addr w) <> Panic.
Proof.
  assert (forall s w1, snd (Sesame.persistState s w1) <> Panic) as Hp.
  { intros s w1. unfold Sesame.persistState, mbind, st_bind, st_lift. destruct (Sesame.Serialize s) as [d|e|] eqn:Es; [|done|].
    - destruct (ses_store d w1) as (w2 & -> & _). done.
    - exfalso. revert Es. unfold Sesame.Serialize. enough (forall l, Sesame.users_bytes (Sesame.users s) l <> Panic) as Hl.
      { specialize (Hl (Sesame.sorted_users (Sesame.users s))). destruct (Sesame.users_bytes _ _); done. }
      induction l as [|id l IH]; [done|]. cbn [Sesame.users_bytes]. unfold Sesame.user_bytes. destruct (Sesame.users s !! id); [|done].
      destruct (_ >? _); [done|]. cbn. destruct (Sesame.users_bytes _ l); done. }
  unfold Sesame.TouchDevice, mbind, st_bind, st_check. destruct (negb _); [done|]. cbn.
  assert (snd (Sesame.loadState w) <> Panic) as Hl.
  { unfold Sesame.loadState, mbind, st_bind. rewrite ses_load. destruct (ses_view w) as [d|]; [|done]. destruct (len d =? 0); [done|].
    unfold st_lift. cbn. apply DeserializeState_total. }
  destruct (Sesame.loadState w) as [w1 [s|e|]]; [|done|done]. destruct (Sesame.is_local _ _ _); apply Hp.
Qed.

Lemma sesame_decrypt_ok c now a ct (w w' : W) t t' plaintext :
  Sesame.valid_address a = true -> Session.Decrypt now a ct (w, t) = ((w', t'), Ok plaintext) ->
  exists w'' o, Sesame.Decrypt c now a ct (w, t) = ((w'', t'), Ok (plaintext, o)).
Proof.
  intros Ha E. unfold Sesame.Decrypt. rewrite st_bind_check by (by rewrite Ha). rewrite (st_bind_run _ _ _ _ _ E).
  unfold Sesame.touch_after. pose proof (TouchDevice_no_panic (Sesame.manager c) a w') as Hn.
  destruct (Sesame.TouchDevice _ a w') as [w2 [?|e|]]; [by eexists w2, _|by eexists w2, _|done].
Qed.

Context {HPL : PrimitiveLaws HP} {HML : MLKEMLaws HM} {HWL : ProtowireLaws HW}.

(** A device that we are in a conversation with and have no bundle for. *)
Lemma devices_deliver_ok auth p n plaintext bundles needs addrs w t w' t' out a2 r1 w2 a1 r2 ct t2 t2' now :
  connection auth p n w a2 r1 w2 a1 r2 -> 0 <= n < 2 ^ 31 - 1 -> fits (current r1) -> fits (current r2) ->
  NoDup addrs -> (forall a, a ∈ needs -> is_Some (bundles !! a)) ->
  Sesame.encrypt_devices plaintext bundles needs addrs ∅ (w, t) = ((w', t'), Ok out) -> bundles !! a2 = None -> out !! a2 = Some ct ->
  (forall msg, Wire.ParseSignalMessage ct = Ok msg -> turn_ok (ratchetState (current r1)) (header_of msg) (ratchetState (current r2)) t2 t2') ->
  exists w2', Session.Decrypt now a1 ct (w2, t2) = ((w2', t2'), Ok plaintext) /\
    (sess_view w' a2 = None \/ exists r1' r2', connection auth p (n + 1) w' a2 r1' w2' a1 r2').
Proof.
  intros Hc Hn F1 F2 Hnd Hneeds E Hb Hout Ht.
  assert (a2 ∈ addrs) as Hin.
  { apply encrypt_devices_dom in E. apply (elem_of_dom_2 out a2) in Hout. rewrite E, dom_empty_L in Hout. set_solver. }
  destruct (encrypt_devices_at _ _ _ _ _ _ _ _ _ _ _ _ E Hnd Hin Hout) as (w3 & t3 & w4 & t4 & Hv & Ed & Hv').
  apply (encrypt_device_session _ _ _ _ _ _ _ _ _ Hneeds Hb) in Ed. pose proof (session_needed _ _ _ _ _ _ _ Ed) as Hs.
  destruct Hv as [Hv|]; [|done]. destruct Hc as [C1 C2 C3 C4 C5 C6].
  destruct (exchange_ok auth p n w3 a2 r1 w2 a1 r2 plaintext ct t3 w4 t4 t2 t2' now) as (w2' & r1' & r2' & Edec & [D1 D2 D3 D4 D5 D6] & _);
    [split; try done; by rewrite Hv|done|done|done|done|done|].
  exists w2'. split; [done|]. destruct Hv' as [Hv'|]; [right|by left]. exists r1', r2'. split; try done. by rewrite Hv'.
Qed.

Lemma sesame_delivers_ok auth p n c userID plaintext bundles w t w' t' out a2 r1 w2 a1 r2 ct t2 t2' now :
  connection auth p n w a2 r1 w2 a1 r2 -> 0 <= n < 2 ^ 31 - 1 -> fits (current r1) -> fits (current r2) ->
  Sesame.Encrypt c userID plaintext bundles (w, t) = ((w', t'), Ok out) -> bundles !! a2 = None -> out !! a2 = Some ct ->
  (forall msg, Wire.ParseSignalMessage ct = Ok msg -> turn_ok (ratchetState (current r1)) (header_of msg) (ratchetState (current r2)) t2 t2') ->
  exists w2', Session.Decrypt now a1 ct (w2, t2) = ((w2', t2'), Ok plaintext) /\
    (sess_view w' a2 = None \/ exists r1' r2', connection auth p (n + 1) w' a2 r1' w2' a1 r2').
Proof.
  intros Hc Hn F1 F2 E Hb Hout Ht. apply sesame_encrypt_inv in E as (addrs & needs & _ & Hnd & Hneeds & E).
  by eapply devices_deliver_ok.
Qed.

(** ** Retries *)

Section retries.
Context {V} {RP : Sesame.RosterProvider V} (range_set : gmap Z Sesame.Device -> list Z).

(** The provider with a count of the rosters it was asked for. *)
#[export] Instance counting : Sesame.RosterProvider (Z * V) := {|
  Sesame.DeviceList id := fun '(k, v) => let '(v, r) := Sesame.DeviceList id v in ((k + 1, v), r);
  Sesame.ProviderPreKeyBundle a := fun '(k, v) => let '(v, r) := Sesame.ProviderPreKeyBundle a v in ((k, v), r)
|}.

Definition calls {A} (x : ((W * tape) * (Z * V)) * res A) : Z := fst (snd (fst x)).

Lemma collect_calls addrs bundles missing wt k v : calls (Sesame.collect_bundles addrs bundles missing (wt, (k, v))) = k.
Proof.
  revert bundles missing wt v. induction addrs as [|a addrs IH]; intros bundles missing wt v; [done|]. cbn [Sesame.collect_bundles].
  unfold mbind, st_bind. destruct wt as [w t]. unfold st_fst at 1 2. destruct (Sesame.sessionReady a w) as [w1 [[]|e|]]; cbn -[Sesame.collect_bundles]; [apply IH| |done|done].
  destruct (Sesame.ProviderPreKeyBundle a v) as [v' [[b|]|e|]]; cbn -[Sesame.collect_bundles]; [apply IH|apply IH|done|done].
Qed.

Lemma attempts_calls c userID plaintext now n wt k v :
  calls (Sesame.roster_attempts range_set c userID plaintext now n (wt, (k, v))) <= k + Z.of_nat n.
Proof.
  revert wt k v. induction n as [|n IH]; intros wt k v; [cbn; lia|]. cbn [Sesame.roster_attempts Sesame.DeviceList counting].
  destruct (Sesame.DeviceList userID v) as [v' [ds|e|]].
  - unfold mbind, st_bind. destruct wt as [w t]. unfold st_fst at 1 2.
    destruct (Sesame.ApplyDeviceList range_set (Sesame.manager c) userID ds now w) as [w1 [?|e|]]; [|cbn; lia|cbn; lia]. unfold st_fst at 1 2.
    destruct (Sesame.NonStaleDevices (Sesame.manager c) userID w1) as [w2 [addrs|e|]]; [|cbn; lia|cbn; lia].
    pose proof (collect_calls addrs ∅ [] (w2, t) (k + 1) v') as Hc. destruct (Sesame.collect_bundles addrs ∅ [] ((w2, t), (k + 1, v'))) as [[wt3 [k3 v3]] r].
    cbn in Hc. subst k3. destruct r as [[|bundles missing]|e|]; [|destruct (decide (missing = []))|cbn; lia|cbn; lia].
    + specialize (IH wt3 (k + 1) v3). lia.
    + unfold st_fst. destruct (Sesame.Encrypt c userID plaintext bundles wt3) as [? [?|?|]]; cbn; lia.
    + cbn. lia.
  - destruct (Sesame.errors_Is e Sesame.ErrRosterChanged); [specialize (IH wt (k + 1) v'); lia|cbn; lia].
  - cbn. lia.
Qed.

Lemma attempts_exhausted c userID plaintext now n wt k v :
  (forall v : V, exists v', Sesame.DeviceList userID v = (v', Err Sesame.ErrRosterChanged)) ->
  exists v', Sesame.roster_attempts range_set c userID plaintext now n (wt, (k, v)) = ((wt, (k + Z.of_nat n, v')), Err Sesame.ErrSendAttemptsExceeded).
Proof.
  intros Hp. revert k v. induction n as [|n IH]; intros k v; [exists v; cbn; by rewrite Z.add_0_r|].
  cbn [Sesame.roster_attempts Sesame.DeviceList counting]. destruct (Hp v) as [v1 ->].
  change (Sesame.errors_Is Sesame.ErrRosterChanged Sesame.ErrRosterChanged) with true. cbn [orb]. destruct (IH (k + 1) v1) as [v' ->]. exists v'. do 3 f_equal. lia.
Qed.
End retries.
End conversation.

(** ** Properties *)

(** C6: a message to a user reaches the user's devices. When [Encrypt] of a
    conversation succeeds, its result has a ciphertext for exactly the devices
    that [NonStaleDevices] lists. For a device that we are in a conversation with
    and have no bundle for, whatever happened while the message was encrypted to
    the other devices, the ciphertext decrypts to the plaintext on that device,
    with its own conversation's [Decrypt]; and unless the store evicted our
    session meanwhile, the conversation with the device goes on. *)
Theorem sesame_delivers (P : Primitives) (K : KyberPrims) (X : XEdDSA) (M : MLKEM) (Pw : Protowire) W
    (I : IdentityKeyStore W) (PK : PreKeyStore W) (SP : SignedPreKeyStore W) (KP : KyberPreKeyStore W) (S : SessionStore W) (R : SesameStore W)
    (L : SessionStoreLaws S) (LR : SesameStoreLaws R) c userID plaintext bundles (w w' : W) t t' out :
  PrimitiveLaws P -> MLKEMLaws M -> ProtowireLaws Pw -> ProtocolStoreLaws I PK SP KP L ->
  Sesame.Encrypt c userID plaintext bundles (w, t) = ((w', t'), Ok out) ->
  (exists addrs, Sesame.NonStaleDevices (Sesame.manager c) userID w = (w, Ok addrs) /\ dom out = list_to_set addrs) /\
  forall auth p n w2 a2 a1 ct t2 t2' c2 now,
    (exists r1 r2, connection auth p n w a2 r1 w2 a1 r2) -> 0 <= n < 2 ^ 31 - 1 -> small w a2 -> small w2 a1 ->
    bundles !! a2 = None -> out !! a2 = Some ct -> fresh_turn w a2 w2 a1 ct t2 t2' -> Sesame.valid_address a1 = true ->
    exists w2' w2'' o, Session.Decrypt now a1 ct (w2, t2) = ((w2', t2'), Ok plaintext) /\
      Sesame.Decrypt c2 now a1 ct (w2, t2) = ((w2'', t2'), Ok (plaintext, o)) /\
      (sess_view w' a2 = None \/ exists r1' r2', connection auth p (n + 1) w' a2 r1' w2' a1 r2').
Proof.
  intros HP HM HPw HS E. split.
  - apply sesame_encrypt_inv in E as (addrs & needs & E1 & _ & _ & E). exists addrs. split; [done|].
    apply encrypt_devices_dom in E as ->. by rewrite dom_empty_L, union_empty_r_L.
  - intros auth p n w2 a2 a1 ct t2 t2' c2 now (r1 & r2 & Hc) Hn S1 S2 Hb Hout Hf Ha.
    destruct (connection_loaded _ _ _ _ _ _ _ _ _ Hc ltac:(lia) S1 S2) as (F1 & F2 & L1 & L2).
    destruct (sesame_delivers_ok auth p n c userID plaintext bundles w t w' t' out a2 r1 w2 a1 r2 ct t2 t2' now Hc Hn F1 F2 E Hb Hout) as (w2' & Ed & Hr).
    { intros msg Hm. by apply (Hf _ _ msg L1 L2). }
    destruct (sesame_decrypt_ok c2 now a1 ct w2 w2' t2 t2' plaintext Ha Ed) as (w2'' & o & Es). by exists w2', w2'', o.
Qed.

(** An example: the conversation of SessionConversation.v, its initiator with a
    roster. *)
Module SesameDemo.
Import Demo.
#[local] Existing Instance Toy.primitives.
#[local] Existing Instance Toy.kyber.
#[local] Existing Instance Toy.xeddsa.
#[local] Existing Instance ToyMlkem.mlkem.
#[local] Existing Instance ToyWire.wire.
#[local] Existing Instances ids sessions prekeys signed kybers sessions_laws MemoryStore.sesameStore.

Definition conv : Sesame.Conversation := Sesame.NewConversation alice 1.
Definition peer_conv : Sesame.Conversation := Sesame.NewConversation bob 1.
Definition w : MemoryStore.Store := fst (Sesame.TouchDevice (Sesame.manager conv) bob wA1).
Definition run := Sesame.Encrypt conv "bob" (str "again") ∅ (w, tA).
Definition out : gmap Address bytes := get_ok ∅ (snd run).
Definition ct : bytes := default [] (out !! bob).
Definition w' : MemoryStore.Store := fst (fst run).

#[local] Strategy expand [run out w' w].

Lemma ran : Sesame.Encrypt conv "bob" (str "again") ∅ (w, tA) = ((w', snd (fst run)), Ok out).
Proof. exact (triple_ok ∅ run (eq_refl true <: is_ok (snd run) = true)). Qed.

Lemma connected : exists r1 r2, connection (pq_auth ra) true 1 w bob r1 wB1 alice r2.
Proof.
  pose proof Toy.laws as H1. pose proof Toy.kyber_laws as H2. pose proof ToyMlkem.laws as H3. pose proof ToyWire.laws as H4. pose proof store_laws as H5.
  destruct (start_ok wA tA wA1 (snd (fst start_run)) wB tB _ 0 alice bob bundle _ _ _ _ _ (str "hello") c1 opens started accepts)
    as (wB' & r1 & r2 & E & Hc).
  assert (wB1 = wB') as -> by (unfold wB1; by rewrite E). exists r1, r2. destruct Hc as [C1 C2 C3 C4 C5 C6].
  split; [exact C1| |exact C3|exact C4|exact C5|exact C6]. transitivity (sess_view wA1 bob); [vm_compute; reflexivity|exact C2].
Qed.

Lemma small_of w0 a : stored_small w0 a = true -> small w0 a.
Proof. intros Hs d Hd. unfold stored_small in Hs. rewrite Hd in Hs. lia. Qed.

Lemma fresh_of w0 w2 c t : same_chain w2 c = true -> fresh_turn w0 bob w2 alice c t t.
Proof. intros Hs r1 r2 msg _ Hr Hm. unfold same_chain in Hs. rewrite Hr, Hm in Hs. unfold turn_ok. cbn [header_of Ratchet.hdr_DH]. by rewrite Hs. Qed.
End SesameDemo.

Lemma sesame_delivers_witness :
  let P := Toy.primitives in let K := Toy.kyber in let M := ToyMlkem.mlkem in let W := ToyWire.wire in
  let I := Demo.ids in let PK := Demo.prekeys in let SP := Demo.signed in let KP := Demo.kybers in let S := Demo.sessions in
  let R := MemoryStore.sesameStore in
  exists w2'' t' o, Sesame.Decrypt SesameDemo.peer_conv 0 Demo.alice SesameDemo.ct (Demo.wB1, []) = ((w2'', t'), Ok (str "again", o)).
Proof.
  intros P K M W I PK SP KP S R.
  destruct (sesame_delivers P K Toy.xeddsa M W _ I PK SP KP S R Demo.sessions_laws MemoryStore.sesameStore_laws SesameDemo.conv "bob" (str "again") ∅
    SesameDemo.w SesameDemo.w' Demo.tA (snd (fst SesameDemo.run)) SesameDemo.out Toy.laws ToyMlkem.laws ToyWire.laws Demo.store_laws SesameDemo.ran) as [_ H].
  destruct (H (pq_auth Demo.ra) true 1 Demo.wB1 Demo.bob Demo.alice SesameDemo.ct [] [] SesameDemo.peer_conv 0) as (w2' & w2'' & o & _ & E & _).
  - exact SesameDemo.connected.
  - done.
  - apply SesameDemo.small_of. vm_compute. reflexivity.
  - apply SesameDemo.small_of. vm_compute. reflexivity.
  - done.
  - vm_compute. reflexivity.
  - apply SesameDemo.fresh_of. vm_compute. reflexivity.
  - vm_compute. reflexivity.
  - exists w2'', [], o. exact E.
Defined.

(** C31: the retry loop is bounded. [EncryptWithRoster] asks the provider for the
    roster at most as often as the conversation allows (three times when the
    setting is not positive), whatever the provider answers; and when the roster
    is reported to have changed every time, it gives up after exactly that many
    attempts and has not touched the store. *)
Theorem sesame_send_attempts (P : Primitives) (K : KyberPrims) (X : XEdDSA) (M : MLKEM) (Pw : Protowire) W
    (I : IdentityKeyStore W) (S : SessionStore W) (R : SesameStore W) V (RP : Sesame.RosterProvider V)
    range_set c userID plaintext now clock (wt : W * tape) v :
  let max := if Sesame.maxSendAttempts c <=? 0 then 3 else Sesame.maxSendAttempts c in
  calls (Sesame.EncryptWithRoster range_set c userID plaintext now clock (wt, (0, v))) <= max /\
  (userID <> EmptyString -> (forall v : V, exists v', Sesame.DeviceList userID v = (v', Err Sesame.ErrRosterChanged)) ->
   exists v', Sesame.EncryptWithRoster range_set c userID plaintext now clock (wt, (0, v)) = ((wt, (max, v')), Err Sesame.ErrSendAttemptsExceeded)).
Proof.
  intros max. assert (0 < max) as Hmax by (unfold max; destruct (Z.leb_spec (Sesame.maxSendAttempts c) 0); lia).
  change Sesame.DefaultMaxSendAttempts with 3. unfold Sesame.EncryptWithRoster. change (if Sesame.maxSendAttempts c <=? 0 then Sesame.DefaultMaxSendAttempts else Sesame.maxSendAttempts c) with max. split.
  - unfold mbind, st_bind, st_check. destruct (bool_decide _); [cbn; lia|]. cbn [check].
    pose proof (attempts_calls range_set c userID plaintext (if now =? 0 then clock else now) (Z.to_nat max) wt 0 v). cbn in *. lia.
  - intros Hne Hp. rewrite st_bind_check by (by apply bool_decide_eq_false).
    destruct (attempts_exhausted range_set c userID plaintext (if now =? 0 then clock else now) (Z.to_nat max) wt 0 v Hp) as [v' ->].
    exists v'. do 3 f_equal. lia.
Qed.

Lemma sesame_send_attempts_witness :
  let P := Toy.primitives in let K := Toy.kyber in let X := Toy.xeddsa in let M := ToyMlkem.mlkem in let W := ToyWire.wire in
  let I := Demo.ids in let S := Demo.sessions in let R := MemoryStore.sesameStore in
  let RP := {| Sesame.DeviceList _ := fun v : unit => (v, Err Sesame.ErrRosterChanged); Sesame.ProviderPreKeyBundle _ := mret None |} in
  exists v', Sesame.EncryptWithRoster (fun x => (map_to_list x).*1) SesameDemo.conv "bob" [] 0 5 ((Demo.wA, []), (0, tt)) =
    (((Demo.wA, []), (3, v')), Err Sesame.ErrSendAttemptsExceeded).
Proof.
  intros P K X M W I S R RP.
  destruct (sesame_send_attempts P K X M W _ I S R unit RP (fun x => (map_to_list x).*1) SesameDemo.conv "bob" [] 0 5 (Demo.wA, []) tt) as [_ H].
  apply H; [done|]. intros v. by exists v.
Defined.
