(* ===== verification/Facade.v ===== *)
(** * The root package and the protocol package

    The functions of the root package that do more than call another package:
    generating and storing pre-keys and building the bundle to publish
    (prekey.go), telling the formats of ciphertexts apart
    (ciphertext_format.go), encrypting for several devices (fanout.go); and the
    message types of protocol/, which wrap those of [Wire]. The store is
    non-nil; the clock is an argument. *)

From Stdlib Require Import ZArith Lia.
From Stdlib Require Import Strings.Byte.
From stdpp Require Import base gmap strings list list_numbers vector.
From S2P Require Import Prelude Crypto Keys Protowire Wire Ratchet SpqrMlkem X3dh Store MemoryStore Session Sesame SessionProofs SessionSafety SessionTalk SessionStart SessionConversation SesameConversation.
Import Crypto Keys.

Module Facade.

(** *** protocol/: messages behind a pointer that may be nil *)

Inductive CiphertextType : Type := PreKeyType | SignalType.

(** [SignalMessage{inner}] and [PreKeyMessage{inner}]; both pointers may be nil. *)
Record SignalMessage : Type := mkSignal { s_inner : option Wire.SignalMessage }.
Record PreKeyMessage : Type := mkPreKey { p_inner : option Wire.PreKeySignalMessage }.

Definition signal_inner (s : option SignalMessage) : option Wire.SignalMessage := s ≫= s_inner.
Definition prekey_inner (p : option PreKeyMessage) : option Wire.PreKeySignalMessage := p ≫= p_inner.

Section messages.
Context `{Primitives} `{Protowire}.

Definition NewSignalMessage (messageVersion : Z) (macKey : bytes) (senderRatchet : key32) (counter previousCounter : Z)
    (ciphertext : bytes) (senderIdentity receiverIdentity : IdentityKey) (pqRatchet : bytes) : res SignalMessage :=
  msg ← Wire.NewSignalMessage messageVersion macKey senderRatchet counter previousCounter ciphertext senderIdentity
          receiverIdentity pqRatchet;
  mret (mkSignal (Some msg)).

Definition ParseSignalMessage (data : bytes) : res SignalMessage :=
  msg ← Wire.ParseSignalMessage data;
  mret (mkSignal (Some msg)).

Definition DeserializeSignalMessage (data : bytes) : res SignalMessage := ParseSignalMessage data.

Definition SignalMessage_Type (_ : option SignalMessage) : CiphertextType := SignalType.
Definition SignalMessage_Serialize (s : option SignalMessage) : bytes :=
  match signal_inner s with None => [] | Some m => Wire.sm_serialized m end.
Definition SignalMessage_MessageVersion (s : option SignalMessage) : Z :=
  match signal_inner s with None => 0 | Some m => Wire.sm_messageVersion m end.
Definition SenderRatchetKey (s : option SignalMessage) : key32 :=
  match signal_inner s with None => zero32 | Some m => Wire.sm_senderRatchet m end.
Definition Counter (s : option SignalMessage) : Z :=
  match signal_inner s with None => 0 | Some m => Wire.sm_counter m end.
Definition PreviousCounter (s : option SignalMessage) : Z :=
  match signal_inner s with None => 0 | Some m => Wire.sm_previousCounter m end.
Definition SignalMessage_Ciphertext (s : option SignalMessage) : bytes :=
  match signal_inner s with None => [] | Some m => Wire.sm_ciphertext m end.
Definition PQRatchet (s : option SignalMessage) : bytes :=
  match signal_inner s with None => [] | Some m => Wire.sm_pqRatchet m end.
Definition SignalMessage_VerifyMAC (s : option SignalMessage) (senderIdentity receiverIdentity : IdentityKey) (macKey : bytes) :
    res bool :=
  match signal_inner s with
  | None => Err ErrInvalidMessage
  | Some m => Wire.VerifyMAC m senderIdentity receiverIdentity macKey
  end.

Definition NewPreKeyMessage (messageVersion registrationID : Z) (preKeyID : option Z) (signedPreKeyID : Z)
    (kyberPreKeyID : option Z) (kyberCiphertext : bytes) (baseKey : key32) (identityKey : IdentityKey)
    (message : option SignalMessage) : res PreKeyMessage :=
  match signal_inner message with
  | None => Err ErrInvalidMessage
  | Some inner =>
      msg ← Wire.NewPreKeySignalMessage messageVersion registrationID preKeyID signedPreKeyID kyberPreKeyID kyberCiphertext
              baseKey identityKey inner;
      mret (mkPreKey (Some msg))
  end.

Definition ParsePreKeyMessage (data : bytes) : res PreKeyMessage :=
  msg ← Wire.ParsePreKeySignalMessage data;
  mret (mkPreKey (Some msg)).

Definition DeserializePreKeyMessage (data : bytes) : res PreKeyMessage := ParsePreKeyMessage data.

Definition PreKeyMessage_Type (_ : option PreKeyMessage) : CiphertextType := PreKeyType.
Definition PreKeyMessage_Serialize (p : option PreKeyMessage) : bytes :=
  match prekey_inner p with None => [] | Some m => Wire.pm_serialized m end.
Definition PreKeyMessage_MessageVersion (p : option PreKeyMessage) : Z :=
  match prekey_inner p with None => 0 | Some m => Wire.pm_messageVersion m end.
Definition RegistrationID (p : option PreKeyMessage) : Z :=
  match prekey_inner p with None => 0 | Some m => Wire.pm_registrationID m end.
Definition PreKeyID (p : option PreKeyMessage) : option Z := prekey_inner p ≫= Wire.pm_preKeyID.
Definition SignedPreKeyID (p : option PreKeyMessage) : Z :=
  match prekey_inner p with None => 0 | Some m => Wire.pm_signedPreKeyID m end.
Definition KyberPreKeyID (p : option PreKeyMessage) : option Z := prekey_inner p ≫= Wire.pm_kyberPreKeyID.
Definition KyberCiphertext (p : option PreKeyMessage) : bytes :=
  match prekey_inner p with None => [] | Some m => Wire.pm_kyberCiphertext m end.
Definition BaseKey (p : option PreKeyMessage) : key32 :=
  match prekey_inner p with None => zero32 | Some m => Wire.pm_baseKey m end.
Definition PreKeyMessage_IdentityKey (p : option PreKeyMessage) : IdentityKey :=
  match prekey_inner p with None => mkIdentityKey zero32 zero32 | Some m => Wire.pm_identityKey m end.
Definition PreKeyMessage_SignalMessage (p : option PreKeyMessage) : option SignalMessage :=
  match prekey_inner p with None => None | Some m => Some (mkSignal (Some (Wire.pm_message m))) end.
Definition PreKeyMessage_VerifyMAC (p : option PreKeyMessage) (senderIdentity receiverIdentity : IdentityKey) (macKey : bytes) :
    res bool :=
  match PreKeyMessage_SignalMessage p with
  | None => Err ErrInvalidMessage
  | Some msg => SignalMessage_VerifyMAC (Some msg) senderIdentity receiverIdentity macKey
  end.

(** *** ciphertext_format.go *)

Inductive CiphertextFormat : Type := CiphertextUnknown | CiphertextWire | CiphertextEnvelope.

Definition legacyEnvelopeVersion : byte := Byte.x01.
Definition legacyEnvelopeTypeSignal : byte := Byte.x01.
Definition legacyEnvelopeTypePreKey : byte := Byte.x02.

Definition isLegacyEnvelope (ciphertext : bytes) : res bool :=
  if len ciphertext <? 6 then Ok false
  else
    version ← index ciphertext 0;
    if negb (bool_decide (version = legacyEnvelopeVersion)) then Ok false
    else
      msgType ← index ciphertext 1;
      if negb (bool_decide (msgType = legacyEnvelopeTypeSignal)) && negb (bool_decide (msgType = legacyEnvelopeTypePreKey))
      then Ok false
      else
        payload ← slice ciphertext 2 6;
        let payloadLen := be_value payload in
        mret (payloadLen =? len ciphertext - 6).

(** [if _, err := wire.Parse...(ciphertext); err == nil { return true }] *)
Definition isWireCiphertext (ciphertext : bytes) : res bool :=
  match Wire.ParseSignalMessage ciphertext with
  | Ok _ => Ok true
  | Panic => Panic
  | Err _ =>
      match Wire.ParsePreKeySignalMessage ciphertext with
      | Ok _ => Ok true
      | Panic => Panic
      | Err _ => Ok false
      end
  end.

Definition DetectCiphertextFormat (ciphertext : bytes) : res CiphertextFormat :=
  legacy ← isLegacyEnvelope ciphertext;
  if (legacy : bool) then Ok CiphertextEnvelope
  else
    isWire ← isWireCiphertext ciphertext;
    if (isWire : bool) then Ok CiphertextWire else Ok CiphertextUnknown.

End messages.

(** *** prekey.go *)

Section prekeys.
Context `{Primitives} `{KyberPrims} `{XEdDSA}.
Context {W} `{IdentityKeyStore W} `{PreKeyStore W} `{SignedPreKeyStore W} `{KyberPreKeyStore W}.

Definition errIdentityRequired : error := ErrText "identity key required".

Definition GenerateAndStorePreKey (now id : Z) : ST (W * tape) PreKey :=
  pk ← st_snd (GeneratePreKey now id);
  _ ← st_fst (StorePreKey (pk_ID pk) (Some pk));
  mret pk.

Definition GenerateAndStoreSignedPreKey (now id : Z) : ST (W * tape) SignedPreKey :=
  identity ← st_fst GetIdentityKeyPair;
  match identity with
  | None => st_err errIdentityRequired
  | Some identity =>
      spk ← st_snd (GenerateSignedPreKey now identity id);
      _ ← st_fst (StoreSignedPreKey (spk_ID spk) (Some spk));
      mret spk
  end.

Definition GenerateAndStoreKyberPreKey (now id : Z) : ST (W * tape) KyberPreKey :=
  identity ← st_fst GetIdentityKeyPair;
  match identity with
  | None => st_err errIdentityRequired
  | Some identity =>
      kpk ← st_snd (GenerateKyberPreKey now identity id);
      _ ← st_fst (StoreKyberPreKey (kpk_ID kpk) (Some kpk));
      mret kpk
  end.

(** [if id != nil { k, err = load(id); ...; if k == nil { return ErrPreKeyNotFound } }] *)
Definition load_optional {A} (load : Z -> ST W (option A)) (id : option Z) : ST W (option A) :=
  match id with
  | None => mret None
  | Some id =>
      k ← load id;
      _ ← st_check (is_nil k) ErrPreKeyNotFound;
      mret k
  end.

(** The field [identity.PublicKey] of a nil identity is a panic. *)
Definition BuildPreKeyBundle (deviceID : Z) (preKeyID : option Z) (signedPreKeyID : Z) (kyberPreKeyID : option Z) : ST W PreKeyBundle :=
  registrationID ← GetLocalRegistrationID;
  identity ← GetIdentityKeyPair;
  signed ← LoadSignedPreKey signedPreKeyID;
  _ ← st_check (is_nil signed) ErrPreKeyNotFound;
  kyber ← load_optional LoadKyberPreKey kyberPreKeyID;
  preKey ← load_optional LoadPreKey preKeyID;
  match identity with
  | None => st_lift Panic
  | Some identity =>
      bundle ← st_lift (NewPreKeyBundleWithKyber registrationID deviceID preKey signed kyber (ikp_PublicKey identity));
      _ ← st_lift (Validate bundle);
      mret bundle
  end.

End prekeys.

(** *** fanout.go *)

Record Recipient : Type := mkRecipient { rcp_Address : Address; rcp_Bundle : option PreKeyBundle }.

Section fanout.
Context `{Primitives} `{KyberPrims} `{XEdDSA} `{MLKEM} `{Protowire}.
Context {W} `{IdentityKeyStore W} `{PreKeyStore W} `{SignedPreKeyStore W} `{KyberPreKeyStore W} `{SessionStore W}.

(** The body of the loop: the existing session, or the bundle. *)
Definition fanout_one (plaintext : bytes) (recipient : Recipient) : ST (W * tape) bytes := fun wt =>
  match Session.Encrypt (rcp_Address recipient) plaintext wt with
  | (wt', Ok ciphertext) => (wt', Ok ciphertext)
  | (wt', Panic) => (wt', Panic)
  | (wt', Err err) =>
      match rcp_Bundle recipient with
      | Some bundle =>
          if Sesame.errors_Is err ErrNoSession then Session.EncryptWithPreKeyBundle (rcp_Address recipient) bundle plaintext wt'
          else (wt', Err err)
      | None => (wt', Err err)
      end
  end.

Fixpoint fanout_loop (plaintext : bytes) (recipients : list Recipient) (out : gmap Address bytes) :
    ST (W * tape) (gmap Address bytes) :=
  match recipients with
  | [] => mret out
  | recipient :: recipients =>
      ciphertext ← fanout_one plaintext recipient;
      fanout_loop plaintext recipients (<[rcp_Address recipient := ciphertext]> out)
  end.

Definition FanoutCipher_Encrypt (plaintext : bytes) (recipients : list Recipient) : ST (W * tape) (gmap Address bytes) :=
  fanout_loop plaintext recipients ∅.

End fanout.
End Facade.
Import Facade.

(** ** Publishing a bundle *)

Section publishing.
Context {HP : Primitives} {HK : KyberPrims} {HKL : KyberLaws HK} {HX : XEdDSA} {HXL : XEdDSALaws HP HX}.
Context {W} {I : IdentityKeyStore W} {PK : PreKeyStore W} {SP : SignedPreKeyStore W} {KP : KyberPreKeyStore W}.
Context {L : KeyStoreLaws I PK SP KP}.

Lemma GenerateAndStorePreKey_inv now id w t w' t' pk :
  GenerateAndStorePreKey now id (w, t) = ((w', t'), Ok pk) ->
  GeneratePreKey now id t = (t', Ok pk) /\ ident_view w' = ident_view w /\ reg_view w' = reg_view w /\
  signed_view w' = signed_view w /\ kyber_view w' = kyber_view w /\
  forall i, pre_view w' i = if decide (i = id) then Some pk else pre_view w i.
Proof.
  unfold GenerateAndStorePreKey. intros E. apply st_bind_ok in E as ([w1 t1] & pk1 & E1 & E).
  unfold st_snd in E1. destruct (GeneratePreKey now id t) as [t2 [pk2|e|]] eqn:Eg; try done. injection E1 as <- <- <-.
  apply st_bind_ok in E as ([w2 t3] & [] & E2 & E). unfold st_fst in E2.
  assert (pk_ID pk2 = id) as Hid by (clear - Eg; unfold GeneratePreKey in Eg; inv_steps; by subst pk2).
  destruct (pre_store (pk_ID pk2) pk2 w) as (w3 & Es & H1 & H2 & H3 & H4 & H5). rewrite Es in E2. injection E2 as <- <-.
  apply st_ret_ok in E as [[= -> ->] ->]. rewrite Hid in H5. by split_and!.
Qed.

Lemma GenerateAndStoreSignedPreKey_inv now id w t w' t' spk :
  GenerateAndStoreSignedPreKey now id (w, t) = ((w', t'), Ok spk) ->
  exists ik, ident_view w = Some ik /\ GenerateSignedPreKey now ik id t = (t', Ok spk) /\
  ident_view w' = ident_view w /\ reg_view w' = reg_view w /\ pre_view w' = pre_view w /\ kyber_view w' = kyber_view w /\
  forall i, signed_view w' i = if decide (i = id) then Some spk else signed_view w i.
Proof.
  unfold GenerateAndStoreSignedPreKey. intros E. apply st_bind_ok in E as ([w1 t1] & ident & E1 & E).
  unfold st_fst in E1. rewrite ident_load in E1. injection E1 as <- <- <-. destruct (ident_view w) as [ik|] eqn:Eik; [|done]. exists ik.
  apply st_bind_ok in E as ([w1 t1] & spk1 & E1 & E). unfold st_snd in E1.
  destruct (GenerateSignedPreKey now ik id t) as [t2 [spk2|e|]] eqn:Eg; try done. injection E1 as <- <- <-.
  apply st_bind_ok in E as ([w2 t3] & [] & E2 & E). unfold st_fst in E2.
  destruct (GenerateSignedPreKey_ok _ _ _ _ _ _ Eg) as (_ & _ & Hid & _).
  destruct (signed_store (spk_ID spk2) spk2 w) as (w3 & Es & H1 & H2 & H3 & H4 & H5). rewrite Es in E2. injection E2 as <- <-.
  apply st_ret_ok in E as [[= -> ->] ->]. rewrite Hid in H5. rewrite Eik in H1. by split_and!.
Qed.

Lemma GenerateAndStoreKyberPreKey_inv now id w t w' t' kpk :
  GenerateAndStoreKyberPreKey now id (w, t) = ((w', t'), Ok kpk) ->
  exists ik, ident_view w = Some ik /\ GenerateKyberPreKey now ik id t = (t', Ok kpk) /\
  ident_view w' = ident_view w /\ reg_view w' = reg_view w /\ pre_view w' = pre_view w /\ signed_view w' = signed_view w /\
  forall i, kyber_view w' i = if decide (i = id) then Some kpk else kyber_view w i.
Proof.
  unfold GenerateAndStoreKyberPreKey. intros E. apply st_bind_ok in E as ([w1 t1] & ident & E1 & E).
  unfold st_fst in E1. rewrite ident_load in E1. injection E1 as <- <- <-. destruct (ident_view w) as [ik|] eqn:Eik; [|done]. exists ik.
  apply st_bind_ok in E as ([w1 t1] & kpk1 & E1 & E). unfold st_snd in E1.
  destruct (GenerateKyberPreKey now ik id t) as [t2 [kpk2|e|]] eqn:Eg; try done. injection E1 as <- <- <-.
  apply st_bind_ok in E as ([w2 t3] & [] & E2 & E). unfold st_fst in E2.
  destruct (GenerateKyberPreKey_ok _ _ _ _ _ _ Eg) as (_ & _ & Hid & _).
  destruct (kyber_store (kpk_ID kpk2) kpk2 w) as (w3 & Es & H1 & H2 & H3 & H4 & H5). rewrite Es in E2. injection E2 as <- <-.
  apply st_ret_ok in E as [[= -> ->] ->]. rewrite Hid in H5. rewrite Eik in H1. by split_and!.
Qed.

(** What [BuildPreKeyBundle] computes, on every branch; it changes nothing. *)
Definition bundle_result_of (w : W) (dev : Z) (pre : option Z) (signed : Z) (kyber : option Z) : res PreKeyBundle :=
  match signed_view w signed with
  | None => Err ErrPreKeyNotFound
  | Some spk =>
      match kyber, kyber ≫= kyber_view w with
      | Some _, None => Err ErrPreKeyNotFound
      | _, kpk =>
          match pre, pre ≫= pre_view w with
          | Some _, None => Err ErrPreKeyNotFound
          | _, pk =>
              match ident_view w with
              | None => Panic
              | Some ik =>
                  b ← NewPreKeyBundleWithKyber (reg_view w) dev pk (Some spk) kpk (ikp_PublicKey ik);
                  _ ← Validate b;
                  mret b
              end
          end
      end
  end.

Lemma BuildPreKeyBundle_eq dev pre signed kyber w :
  BuildPreKeyBundle dev pre signed kyber w = (w, bundle_result_of w dev pre signed kyber).
Proof.
  unfold BuildPreKeyBundle, bundle_result_of, load_optional, mbind, st_bind, st_check, st_lift, check, mret, st_ret.
  rewrite reg_load, ident_load, signed_load. destruct (signed_view w signed) as [spk|]; [|done]. cbn -[NewPreKeyBundleWithKyber Validate].
  destruct kyber as [kid|]; cbn -[NewPreKeyBundleWithKyber Validate]; [rewrite kyber_load; destruct (kyber_view w kid) as [kpk|]; [|done]|];
    (destruct pre as [pid|]; cbn -[NewPreKeyBundleWithKyber Validate]; [rewrite pre_load; destruct (pre_view w pid) as [pk|]; [|done]|]); cbn -[NewPreKeyBundleWithKyber Validate];
    (destruct (ident_view w) as [ik|]; [|done]);
    (destruct (NewPreKeyBundleWithKyber _ _ _ _ _ _) as [b|e|]; [|done..]); cbn -[NewPreKeyBundleWithKyber Validate]; by destruct (Validate b).
Qed.

End publishing.

(** What is published is served: the store holds the private halves of exactly
    the keys in the bundle. *)
Lemma bundle_published (P : Primitives) (K : KyberPrims) (X : XEdDSA) W
    (I : IdentityKeyStore W) (PK : PreKeyStore W) (SP : SignedPreKeyStore W) (KP : KyberPreKeyStore W) (L : KeyStoreLaws I PK SP KP)
    now dev id0 id1 id2 ik (w0 w1 w2 w3 : W) t0 t1 t2 t3 pre spk kpk :
  XEdDSALaws P X -> KyberLaws K ->
  ident_view w0 = Some ik -> key_pair_ok (ikp_PrivateKey ik) (ik_PublicKey (ikp_PublicKey ik)) ->
  IsValidPublicKey (ik_PublicKey (ikp_PublicKey ik)) = true -> id1 <> 0 -> id2 <> 0 ->
  GenerateAndStorePreKey now id0 (w0, t0) = ((w1, t1), Ok pre) ->
  GenerateAndStoreSignedPreKey now id1 (w1, t1) = ((w2, t2), Ok spk) ->
  GenerateAndStoreKyberPreKey now id2 (w2, t2) = ((w3, t3), Ok kpk) ->
  (forall kp, pk_KeyPair pre = Some kp \/ spk_KeyPair spk = Some kp -> IsValidPublicKey (PublicKey kp) = true) ->
  exists bundle w4,
    BuildPreKeyBundle dev (Some id0) id1 (Some id2) w3 = (w3, Ok bundle) /\ Validate bundle = Ok tt /\
    GetIdentityKeyPair w3 = (w3, Ok (Some ik)) /\ LoadSignedPreKey (Keys.SignedPreKeyID bundle) w3 = (w3, Ok (Some spk)) /\
    X3dh.serves (X3dh.mkResponder W ik spk Session.x3dh_store true) bundle w3 w4.
Proof.
  intros HX HK Hik Hok Hvik Hid1 Hid2 (E1 & A1 & B1 & C1 & D1 & F1)%GenerateAndStorePreKey_inv
    (ik1 & Hik1 & E2 & A2 & B2 & C2 & D2 & F2)%GenerateAndStoreSignedPreKey_inv
    (ik2 & Hik2 & E3 & A3 & B3 & C3 & D3 & F3)%GenerateAndStoreKyberPreKey_inv Hvalid.
  assert (ik1 = ik) as -> by congruence. assert (ik2 = ik) as -> by congruence.
  destruct (fresh_bundle_ok (reg_view w3) dev now now now id0 id1 id2 ik pre spk kpk t0 t1 t1 t2 t2 t3 Hok E1 E2 E3 Hid1 Hid2 Hvik Hvalid)
    as (b & kp & skp & kkp & Hkp & Hskp & Hkkp & Hb & Hnew & Hval).
  assert (pre_view w3 id0 = Some pre) as Hpre by (rewrite C3, C2, F1, decide_True; done).
  assert (signed_view w3 id1 = Some spk) as Hsigned by (rewrite D3, F2, decide_True; done).
  assert (kyber_view w3 id2 = Some kpk) as Hkyber by (rewrite F3, decide_True; done).
  destruct (pre_remove id0 w3) as (w4 & Hrm & _ & _ & Hky & _). exists b, w4. split_and!; [|done| | |].
  - rewrite BuildPreKeyBundle_eq. unfold bundle_result_of. cbn [mbind option_bind]. rewrite Hpre, Hsigned, Hkyber, A3, A2, A1, Hik, Hnew.
    cbn [mbind res_bind]. by rewrite Hval.
  - rewrite ident_load. congruence.
  - rewrite signed_load, Hb. cbn [Keys.SignedPreKeyID]. by rewrite Hsigned.
  - destruct (GenerateSignedPreKey_ok _ _ _ _ _ _ E2) as (skp' & ? & Hsid & Hskp' & Hspub & _).
    assert (skp' = skp) as -> by congruence. rewrite Hb. split; cbn.
    + done.
    + done.
    + by exists skp.
    + exists pre, kp. split_and!; [by rewrite pre_load, Hpre|done|done| |done].
      unfold GeneratePreKey in E1. inv_ok E1. injection E1 as _ <-. cbn in Hkp. injection Hkp as <-. by eapply GenerateKeyPair_ok.
    + split; [done|]. unfold GenerateKyberPreKey in E3. inv_ok E3. injection E3 as _ <-. cbn in Hkkp. injection Hkkp as <-.
      eexists _, _, _, _. split_and!; [by rewrite kyber_load, Hky, Hkyber|done|done|exact Hok0].
Qed.

(** C5: from generating keys to the first message. If a one-time pre-key, a signed
    pre-key and a Kyber pre-key are generated and stored, then [BuildPreKeyBundle]
    with their numbers returns a bundle, which passes [Validate]; and whatever
    someone who opens a session from this bundle encrypts first, the owner of the
    store decrypts, and the two are in a conversation. The owner has no session
    with the sender, trusts its identity, can save it, and its signed pre-key has
    not expired; the ratchet key it draws is one the sender has not seen. *)
Theorem published_bundle_delivers (P : Primitives) (K : KyberPrims) (X : XEdDSA) (M : MLKEM) (Pw : Protowire) W
    (I : IdentityKeyStore W) (PK : PreKeyStore W) (SP : SignedPreKeyStore W) (KP : KyberPreKeyStore W) (S : SessionStore W)
    (LK : KeyStoreLaws I PK SP KP) (L : SessionStoreLaws S)
    made dev id0 id1 id2 ikB (w0 w1 w2 wB : W) t0 t1 t2 t3 pre spk kpk :
  PrimitiveLaws P -> KyberLaws K -> XEdDSALaws P X -> MLKEMLaws M -> ProtowireLaws Pw -> ProtocolStoreLaws I PK SP KP L ->
  ident_view w0 = Some ikB -> key_pair_ok (ikp_PrivateKey ikB) (ik_PublicKey (ikp_PublicKey ikB)) ->
  IsValidPublicKey (ik_PublicKey (ikp_PublicKey ikB)) = true -> id1 <> 0 -> id2 <> 0 ->
  GenerateAndStorePreKey made id0 (w0, t0) = ((w1, t1), Ok pre) ->
  GenerateAndStoreSignedPreKey made id1 (w1, t1) = ((w2, t2), Ok spk) ->
  GenerateAndStoreKyberPreKey made id2 (w2, t2) = ((wB, t3), Ok kpk) ->
  (forall kp, pk_KeyPair pre = Some kp \/ spk_KeyPair spk = Some kp -> IsValidPublicKey (PublicKey kp) = true) ->
  exists bundle, BuildPreKeyBundle dev (Some id0) id1 (Some id2) wB = (wB, Ok bundle) /\ Validate bundle = Ok tt /\
    forall alice bob wA tA wA' tA' ik ra A eph a plaintext c now tB tB',
      opening wA tA bob bundle ik ra A eph a ->
      Session.EncryptWithPreKeyBundle bob bundle plaintext (wA, tA) = ((wA', tA'), Ok c) ->
      let k := Wire.wire_identity (ikp_PublicKey ik) in
      sess_view wB alice = None -> IsTrustedIdentity alice (Some k) DirectionReceiving wB = true ->
      SignedPreKeyExpired (Some spk) now wB = false -> (forall w, exists w', SaveIdentity alice (Some k) w = (w', Ok tt)) ->
      (exists b z, GenerateKeyPair tB = (tB', Ok b) /\ DH (PrivateKey b) (PublicKey a) = Ok z /\ valid_pair b /\ PublicKey b ∉ Ratchet.SeenDH A) ->
      exists wB' r1 r2, Session.Decrypt now alice c (wB, tB) = ((wB', tB'), Ok plaintext) /\
        connection (pq_auth ra) true 1 wA' bob r1 wB' alice r2.
Proof.
  intros HP HK HX HM HPw HS Hik Hok Hv H1 H2 E1 E2 E3 Hkeys.
  destruct (bundle_published P K X W I PK SP KP LK made dev id0 id1 id2 ikB w0 w1 w2 wB t0 t1 t2 t3 pre spk kpk
    HX HK Hik Hok Hv H1 H2 E1 E2 E3 Hkeys) as (bundle & w4 & Hb & Hval & Hid & Hsigned & Hserves).
  exists bundle. split; [done|]. split; [done|].
  intros alice bob wA tA wA' tA' ik ra A eph a plaintext c now tB tB' Hop He k Hfresh Htrust Hexp Hsave Hratchet.
  apply (start_ok wA tA wA' tA' wB tB tB' now alice bob bundle ik ra A eph a plaintext c Hop He). split; [done|done| |done].
  destruct (Hsave w4) as [w5 Hw5]. by exists ikB, spk, w4, w5.
Qed.

(** An example: a fresh memory store publishes, and someone writes. *)
Module PublishDemo.
Import Demo.
#[local] Existing Instance Toy.primitives.
#[local] Existing Instance Toy.kyber.
#[local] Existing Instance Toy.xeddsa.
#[local] Existing Instance ToyMlkem.mlkem.
#[local] Existing Instance ToyWire.wire.
#[local] Existing Instances ids sessions prekeys signed kybers sessions_laws.

Definition ikB : IdentityKeyPair := X3dh.demo_identity 40.
Definition w0 : MemoryStore.Store := MemoryStore.NewStore (Some ikB) 12.
Definition run1 := GenerateAndStorePreKey 1 4 (w0, z2b <$> seqZ 0 400).
Definition run2 := GenerateAndStoreSignedPreKey 1 9 (fst run1).
Definition run3 := GenerateAndStoreKyberPreKey 1 5 (fst run2).
Definition pre : PreKey := get_ok (Keys.mkPreKey 0 None 0) (snd run1).
Definition spk : SignedPreKey := get_ok (mkSignedPreKey 0 None [] 0) (snd run2).
Definition kpk : KyberPreKey := get_ok (mkKyberPreKey 0 None [] 0) (snd run3).
Definition wB : MemoryStore.Store := fst (fst run3).
Definition run4 := BuildPreKeyBundle 1 (Some 4) 9 (Some 5) wB.
Definition bundle : PreKeyBundle := get_ok Demo.bundle (snd run4).
Definition x3dh_run := X3dh.ProcessPreKeyBundle (X3dh.NewInitiator (X3dh.demo_identity 7)) bundle tA.
Definition ra : X3dh.Result := get_ok no_result (snd x3dh_run).
Definition init_run := Ratchet.InitializeState ra true (fst x3dh_run).
Definition A : Ratchet.State := get_ok (Ratchet.empty_state zero32) (snd init_run).
Definition eph : KeyPair := default (toy_pair 0) (X3dh.LocalEphemeral ra).
Definition a : KeyPair := default (toy_pair 0) (Ratchet.DHs A).
Definition start_run := Session.EncryptWithPreKeyBundle bob bundle (str "hello") (wA, tA).
Definition c : bytes := get_ok [] (snd start_run).

#[local] Strategy expand [run1 run2 run3 run4 pre spk kpk bundle x3dh_run ra init_run A start_run c].

Lemma ran1 : GenerateAndStorePreKey 1 4 (w0, z2b <$> seqZ 0 400) = ((fst (fst run1), snd (fst run1)), Ok pre).
Proof. exact (triple_ok _ run1 (eq_refl true <: is_ok (snd run1) = true)). Qed.
Lemma ran2 : GenerateAndStoreSignedPreKey 1 9 (fst (fst run1), snd (fst run1)) = ((fst (fst run2), snd (fst run2)), Ok spk).
Proof. rewrite <- surjective_pairing. exact (triple_ok _ run2 (eq_refl true <: is_ok (snd run2) = true)). Qed.
Lemma ran3 : GenerateAndStoreKyberPreKey 1 5 (fst (fst run2), snd (fst run2)) = ((wB, snd (fst run3)), Ok kpk).
Proof. rewrite <- surjective_pairing. exact (triple_ok _ run3 (eq_refl true <: is_ok (snd run3) = true)). Qed.
Lemma ran4 : snd (BuildPreKeyBundle 1 (Some 4) 9 (Some 5) wB) = Ok bundle.
Proof. exact (ok_get Demo.bundle (snd run4) (eq_refl true <: is_ok (snd run4) = true)). Qed.
Lemma valid_pairs kp : pk_KeyPair pre = Some kp \/ spk_KeyPair spk = Some kp -> IsValidPublicKey (PublicKey kp) = true.
Proof.
  assert ((IsValidPublicKey ∘ PublicKey <$> pk_KeyPair pre) = Some true) as E1 by (vm_compute; reflexivity).
  assert ((IsValidPublicKey ∘ PublicKey <$> spk_KeyPair spk) = Some true) as E2 by (vm_compute; reflexivity).
  intros [E|E]; [rewrite E in E1; by injection E1|rewrite E in E2; by injection E2].
Qed.

Lemma publish_x3dh_ok : exists t1 t2, X3dh.ProcessPreKeyBundle (X3dh.NewInitiator (X3dh.demo_identity 7)) bundle tA = (t1, Ok ra) /\
  Ratchet.InitializeState ra true t1 = (t2, Ok A).
Proof.
  exists (fst x3dh_run), (fst init_run). split.
  - exact (run_get_ok no_result x3dh_run (eq_refl true <: is_ok (snd x3dh_run) = true)).
  - exact (run_get_ok _ init_run (eq_refl true <: is_ok (snd init_run) = true)).
Qed.

Lemma publish_opens : opening wA tA bob bundle (X3dh.demo_identity 7) ra A eph a.
Proof.
  split.
  - done.
  - apply toy_pair_ok.
  - vm_compute. reflexivity.
  - exact publish_x3dh_ok.
  - split; vm_compute; reflexivity.
  - split; vm_compute; reflexivity.
  - right. intros E. apply (f_equal vec_to_list) in E. vm_compute in E. discriminate E.
  - assert (Keys.PreKeyID bundle = Some 4 /\ Keys.SignedPreKeyID bundle = 9 /\ Keys.KyberPreKeyID bundle = Some 5) as (-> & -> & ->) by (split_and!; vm_compute; reflexivity).
    do 3 eexists. split; [reflexivity|]. split; [reflexivity|]. split_and!; [done|done|by intros ? [= <-]|by intros ? [= <-]].
Qed.

Lemma publish_started : Session.EncryptWithPreKeyBundle bob bundle (str "hello") (wA, tA) = ((fst (fst start_run), snd (fst start_run)), Ok c).
Proof. exact (triple_ok [] start_run (eq_refl true <: is_ok (snd start_run) = true)). Qed.

Lemma saves k (w : MemoryStore.Store) : exists w', SaveIdentity alice (Some k) w = (w', Ok tt).
Proof. cbn. unfold MemoryStore.SaveIdentity. repeat case_match; eauto. Qed.

Lemma new_ratchet_key : exists b z, GenerateKeyPair tB = (fst (GenerateKeyPair tB), Ok b) /\ DH (PrivateKey b) (PublicKey a) = Ok z /\
  valid_pair b /\ PublicKey b ∉ Ratchet.SeenDH A.
Proof.
  exists new_pair. destruct (DH (PrivateKey new_pair) (PublicKey a)) as [z| |] eqn:E; [|by vm_compute in E..]. exists z. split_and!.
  - apply (run_get_ok (toy_pair 0)). vm_compute. reflexivity.
  - reflexivity.
  - vm_compute. reflexivity.
  - assert (bool_decide (PublicKey new_pair ∈ Ratchet.SeenDH A) = false) as Hn by (vm_compute; reflexivity).
    by apply bool_decide_eq_false in Hn.
Qed.
End PublishDemo.

Lemma published_bundle_delivers_witness :
  let P := Toy.primitives in let K := Toy.kyber in let X := Toy.xeddsa in let M := ToyMlkem.mlkem in let W := ToyWire.wire in
  let I := Demo.ids in let PK := Demo.prekeys in let SP := Demo.signed in let KP := Demo.kybers in let S := Demo.sessions in
  snd (Session.Decrypt 1 Demo.alice PublishDemo.c (PublishDemo.wB, Demo.tB)) = Ok (str "hello").
Proof.
  intros P K X M W I PK SP KP S.
  destruct (published_bundle_delivers P K X M W _ I PK SP KP S MemoryStore.keyStore_laws Demo.sessions_laws 1 1 4 9 5 PublishDemo.ikB
    PublishDemo.w0 (fst (fst PublishDemo.run1)) (fst (fst PublishDemo.run2)) PublishDemo.wB
    (z2b <$> seqZ 0 400) (snd (fst PublishDemo.run1)) (snd (fst PublishDemo.run2)) (snd (fst PublishDemo.run3))
    PublishDemo.pre PublishDemo.spk PublishDemo.kpk) as (b & H1 & _ & H2).
  - exact Toy.laws.
  - exact Toy.kyber_laws.
  - exact Toy.xeddsa_laws.
  - exact ToyMlkem.laws.
  - exact ToyWire.laws.
  - exact Demo.store_laws.
  - reflexivity.
  - apply toy_pair_ok.
  - vm_compute. reflexivity.
  - lia.
  - lia.
  - exact PublishDemo.ran1.
  - exact PublishDemo.ran2.
  - exact PublishDemo.ran3.
  - exact PublishDemo.valid_pairs.
  - pose proof (Ok_inj _ _ (eq_trans (eq_sym (f_equal snd H1)) PublishDemo.ran4)) as Eb.
    rewrite Eb in H2.
    destruct (H2 Demo.alice Demo.bob Demo.wA Demo.tA _ _ _ _ _ _ _ (str "hello") PublishDemo.c 1 Demo.tB (fst (GenerateKeyPair Demo.tB))
      PublishDemo.publish_opens PublishDemo.publish_started) as (wB' & r1 & r2 & E & _).
    + vm_compute. reflexivity.
    + vm_compute. reflexivity.
    + vm_compute. reflexivity.
    + exact (PublishDemo.saves _).
    + exact PublishDemo.new_ratchet_key.
    + rewrite E. reflexivity.
Defined.

(** The branches of [BuildPreKeyBundle] that fail: a missing key is reported; a
    store without an identity makes it panic. *)
Lemma build_bundle_fails (P : Primitives) (K : KyberPrims) (X : XEdDSA) W
    (I : IdentityKeyStore W) (PK : PreKeyStore W) (SP : SignedPreKeyStore W) (KP : KyberPreKeyStore W) (L : KeyStoreLaws I PK SP KP)
    dev pre signed kyber (w : W) :
  (signed_view w signed = None \/ (exists id, kyber = Some id /\ kyber_view w id = None) \/ (exists id, pre = Some id /\ pre_view w id = None) ->
   BuildPreKeyBundle dev pre signed kyber w = (w, Err ErrPreKeyNotFound)) /\
  (is_Some (signed_view w signed) -> kyber = None -> pre = None -> ident_view w = None ->
   BuildPreKeyBundle dev pre signed kyber w = (w, Panic)).
Proof.
  rewrite BuildPreKeyBundle_eq. unfold bundle_result_of. split.
  - intros Hm. f_equal. destruct (signed_view w signed) as [spk|] eqn:Es; [|done].
    destruct kyber as [kid|]; cbn; [destruct (kyber_view w kid) eqn:Ek; [|done]|];
      (destruct pre as [pid|]; cbn; [destruct (pre_view w pid) eqn:Ep; [|done]|]);
      destruct Hm as [?|[(? & [= <-] & ?)|(? & [= <-] & ?)]]; congruence.
  - intros [spk ->] -> -> ->. done.
Qed.

(** ** Telling the formats apart *)

Section formats.
Context `{Primitives} `{Protowire} `{!ProtowireLaws _}.

Lemma isLegacyEnvelope_ok data : exists b, isLegacyEnvelope data = Ok b.
Proof.
  unfold isLegacyEnvelope. destruct (Z.ltb_spec (len data) 6) as [|Hl]; [eauto|].
  destruct data as [|b0 [|b1 rest]]; [by cbn in Hl|by cbn in Hl|]. rewrite index_head. cbn [mbind res_bind].
  destruct (negb _); [eauto|]. change (index (b0 :: b1 :: rest) 1) with (Ok b1). cbn [mbind res_bind].
  destruct (_ && _); [eauto|]. destruct (slice_no_panic (b0 :: b1 :: rest) 2 6) as [x ->]; [lia|lia|]. cbn [mbind res_bind]. eauto.
Qed.

Lemma isWireCiphertext_ok data : exists b, isWireCiphertext data = Ok b.
Proof.
  unfold isWireCiphertext. destruct (ParseSignalMessage_no_panic data) as [Hs _]. destruct (Wire.ParseSignalMessage data); [eauto| |done].
  destruct (ParsePreKeySignalMessage_no_panic data) as [Hp _]. destruct (Wire.ParsePreKeySignalMessage data); [eauto..|done].
Qed.

(** An envelope starts with a byte that no wire message starts with. *)
Lemma legacy_head b rest : isLegacyEnvelope (b :: rest) = Ok true -> b = legacyEnvelopeVersion.
Proof.
  unfold isLegacyEnvelope. destruct (_ <? 6); [done|]. rewrite index_head. cbn [mbind res_bind].
  destruct (bool_decide (b = legacyEnvelopeVersion)) eqn:E; [|done]. by apply bool_decide_eq_true in E.
Qed.

Lemma wire_refuses_legacy rest :
  (exists e, Wire.ParseSignalMessage (legacyEnvelopeVersion :: rest) = Err e) /\
  exists e, Wire.ParsePreKeySignalMessage (legacyEnvelopeVersion :: rest) = Err e.
Proof.
  split.
  - unfold Wire.ParseSignalMessage. destruct (_ <? _); [eauto|]. cbn [check mbind res_bind]. rewrite index_head. cbn [mbind res_bind].
    change (Wire.parseMessageVersion legacyEnvelopeVersion <? _) with true. cbn. eauto.
  - unfold Wire.ParsePreKeySignalMessage. destruct (_ <? _); [eauto|]. cbn [check mbind res_bind]. rewrite index_head. cbn [mbind res_bind].
    change (Wire.parseMessageVersion legacyEnvelopeVersion <? _) with true. cbn. eauto.
Qed.

Lemma legacy_envelope data :
  isLegacyEnvelope data = Ok true <->
  exists msgType payload, Session.decodeEnvelope data = Ok (msgType, payload) /\
    (msgType = Session.envelopeTypeSignal \/ msgType = Session.envelopeTypePreKey).
Proof.
  unfold isLegacyEnvelope, Session.decodeEnvelope. destruct (Z.ltb_spec (len data) 6) as [|Hl]; cbn [check mbind res_bind].
  { split; [done|]. by intros (? & ? & ? & _). }
  destruct data as [|b0 [|b1 rest]]; [by cbn in Hl|by cbn in Hl|]. set (data := b0 :: b1 :: rest) in *.
  change (index data 0) with (Ok b0). change (index data 1) with (Ok b1). cbn [mbind res_bind].
  change Session.envelopeVersion with legacyEnvelopeVersion. destruct (negb (bool_decide (b0 = _))); cbn [check mbind res_bind].
  { split; [done|]. by intros (? & ? & ? & _). }
  destruct (slice_no_panic data 2 6) as [l Hs]; [lia|lia|]. rewrite Hs.
  destruct (slice_no_panic data 6 (len data)) as [payload Hp]; [lia|lia|]. rewrite Hp. cbn [mbind res_bind].
  apply slice_length in Hp as [Hp _]. rewrite Hp. pose proof (be_value_range l).
  replace (be_value l <? 0) with false by (symmetry; apply Z.ltb_ge; lia). cbn [orb].
  rewrite (Z.eqb_sym (len data - 6)). unfold legacyEnvelopeTypeSignal, legacyEnvelopeTypePreKey, Session.envelopeTypeSignal, Session.envelopeTypePreKey.
  destruct (be_value l =? len data - 6); cbn [negb check mbind res_bind].
  - destruct (bool_decide (b1 = Byte.x01)) eqn:E1; [|destruct (bool_decide (b1 = Byte.x02)) eqn:E2]; cbn [negb andb].
    + apply bool_decide_eq_true in E1. split; [eauto|done].
    + apply bool_decide_eq_true in E2. split; [eauto|done].
    + apply bool_decide_eq_false in E1, E2. split; [done|]. intros (? & ? & [= <- _] & [?|?]); done.
  - split; [|by intros (? & ? & ? & _)]. by destruct (negb _ && _).
Qed.

End formats.

(** C40: what [DetectCiphertextFormat] answers. It answers for every input; with
    the envelope format exactly if the older cipher's [decodeEnvelope] accepts the
    bytes as one of its two kinds of message, and with the wire format exactly if
    one of the two wire parsers accepts them. So the two answers never compete:
    no bytes are both. *)
Theorem format_detection (P : Primitives) (Wr : Protowire) data :
  ProtowireLaws Wr ->
  (exists f, DetectCiphertextFormat data = Ok f) /\
  (DetectCiphertextFormat data = Ok CiphertextEnvelope <->
   exists msgType payload, Session.decodeEnvelope data = Ok (msgType, payload) /\
     (msgType = Session.envelopeTypeSignal \/ msgType = Session.envelopeTypePreKey)) /\
  (DetectCiphertextFormat data = Ok CiphertextWire <->
   (exists m, Wire.ParseSignalMessage data = Ok m) \/ (exists m, Wire.ParsePreKeySignalMessage data = Ok m)).
Proof.
  intros HW. rewrite <- legacy_envelope. unfold DetectCiphertextFormat.
  destruct (isLegacyEnvelope_ok data) as [legacy El]. rewrite El. cbn [mbind res_bind].
  destruct (isWireCiphertext_ok data) as [w Ew]. rewrite Ew. cbn [mbind res_bind].
  destruct legacy; [|destruct w].
  - split_and!; [eauto|done|]. split; [done|]. destruct data as [|b rest]; [done|]. apply legacy_head in El as ->.
    destruct (wire_refuses_legacy rest) as [[e1 ->] [e2 ->]]. by intros [[? ?]|[? ?]].
  - split_and!; [eauto|done|]. split; [|done]. intros _. unfold isWireCiphertext in Ew.
    destruct (Wire.ParseSignalMessage data); [eauto| |done]. destruct (Wire.ParsePreKeySignalMessage data); [eauto|done|done].
  - split_and!; [eauto|done|]. split; [done|]. unfold isWireCiphertext in Ew.
    destruct (Wire.ParseSignalMessage data); [done| |done]. destruct (Wire.ParsePreKeySignalMessage data); [done| |done].
    by intros [[? ?]|[? ?]].
Qed.

Lemma format_detection_witness :
  let P := Toy.primitives in let W := ToyWire.wire in
  DetectCiphertextFormat (Wire.sm_serialized toy_signal) = Ok CiphertextWire /\
  DetectCiphertextFormat (Wire.pm_serialized toy_prekey) = Ok CiphertextWire /\
  DetectCiphertextFormat (Session.encodeEnvelope Session.envelopeTypePreKey (str "payload")) = Ok CiphertextEnvelope.
Proof.
  intros P W. split_and!.
  - apply (format_detection P W _ ToyWire.laws). left. exists toy_signal. vm_compute. reflexivity.
  - apply (format_detection P W _ ToyWire.laws). right.
    exists (Wire.mkPreKeySignalMessage 4 11 (Some 3) 9 (Some 2) (str "kyber") toy_key (wire_identity toy_identity) toy_signal
      (Wire.pm_serialized toy_prekey)). vm_compute. reflexivity.
  - apply (format_detection P W _ ToyWire.laws). exists Session.envelopeTypePreKey, (str "payload"). split; [vm_compute; reflexivity|by right].
Defined.

(** ** Encrypting for several devices *)

Section fanout.
Context {HP : Primitives} {HK : KyberPrims} {HX : XEdDSA} {HM : MLKEM} {HW : Protowire}.
Context {W} {I : IdentityKeyStore W} {PK : PreKeyStore W} {SP : SignedPreKeyStore W} {KP : KyberPreKeyStore W} {S : SessionStore W}.

(** The loop is the second loop of [Sesame.Encrypt], with the bundles of the
    recipients. *)
Lemma fanout_devices plaintext recipients bundles out (wt : W * tape) :
  (forall r, r ∈ recipients -> bundles !! rcp_Address r = rcp_Bundle r) ->
  fanout_loop plaintext recipients out wt = Sesame.encrypt_devices plaintext bundles ∅ (rcp_Address <$> recipients) out wt.
Proof.
  revert out wt. induction recipients as [|r recipients IH]; intros out wt Hb; [done|].
  cbn [fanout_loop Sesame.encrypt_devices fmap list_fmap]. unfold mbind, st_bind.
  assert (fanout_one plaintext r wt = Sesame.encrypt_device plaintext bundles ∅ (rcp_Address r) wt) as ->.
  { unfold fanout_one, Sesame.encrypt_device. rewrite bool_decide_eq_false_2 by set_solver. rewrite (Hb r) by (by left).
    by destruct (Session.Encrypt _ _ _) as [? [?|?|]]. }
  destruct (Sesame.encrypt_device _ _ _ _ _) as [wt' [ct|e|]]; [|done..]. apply IH. intros r' Hr'. apply Hb. by right.
Qed.

Definition bundles_of (recipients : list Recipient) : gmap Address PreKeyBundle :=
  omap rcp_Bundle (list_to_map ((fun r => (rcp_Address r, r)) <$> recipients) : gmap Address Recipient).

Lemma bundles_of_lookup recipients r :
  NoDup (rcp_Address <$> recipients) -> r ∈ recipients -> bundles_of recipients !! rcp_Address r = rcp_Bundle r.
Proof.
  intros Hnd Hr. unfold bundles_of. rewrite lookup_omap.
  rewrite (elem_of_list_to_map_1 _ (rcp_Address r) r); [done| |].
  - by rewrite <- list_fmap_compose.
  - apply list_elem_of_fmap. by exists r.
Qed.

End fanout.

(** A message fanned out reaches the devices. When [FanoutCipher.Encrypt]
    succeeds for recipients with different addresses, it has a ciphertext for
    exactly them; sessions with others are as before, or evicted by the limit of
    the store; and a recipient without a bundle that we are in a conversation with
    decrypts its ciphertext to the plaintext, and the conversation goes on. *)
Theorem fanout_delivers (P : Primitives) (K : KyberPrims) (X : XEdDSA) (M : MLKEM) (Pw : Protowire) W
    (I : IdentityKeyStore W) (PK : PreKeyStore W) (SP : SignedPreKeyStore W) (KP : KyberPreKeyStore W) (S : SessionStore W)
    (L : SessionStoreLaws S) plaintext recipients (w w' : W) t t' out :
  PrimitiveLaws P -> MLKEMLaws M -> ProtowireLaws Pw -> ProtocolStoreLaws I PK SP KP L ->
  NoDup (rcp_Address <$> recipients) ->
  FanoutCipher_Encrypt plaintext recipients (w, t) = ((w', t'), Ok out) ->
  dom out = list_to_set (rcp_Address <$> recipients) /\
  (forall a, a ∉ rcp_Address <$> recipients -> sess_view w' a = sess_view w a \/ sess_view w' a = None) /\
  forall auth p n w2 a2 a1 ct t2 t2' now,
    (exists r1 r2, connection auth p n w a2 r1 w2 a1 r2) -> 0 <= n < 2 ^ 31 - 1 -> small w a2 -> small w2 a1 ->
    mkRecipient a2 None ∈ recipients -> out !! a2 = Some ct -> fresh_turn w a2 w2 a1 ct t2 t2' ->
    exists w2', Session.Decrypt now a1 ct (w2, t2) = ((w2', t2'), Ok plaintext) /\
      (sess_view w' a2 = None \/ exists r1' r2', connection auth p (n + 1) w' a2 r1' w2' a1 r2').
Proof.
  intros HP HM HPw HS Hnd E. unfold FanoutCipher_Encrypt in E.
  rewrite (fanout_devices _ _ (bundles_of recipients)) in E by (intros r; by apply bundles_of_lookup). split_and!.
  - apply encrypt_devices_dom in E as ->. by rewrite dom_empty_L, union_empty_r_L.
  - intros a Ha. by apply (encrypt_devices_others _ _ _ _ _ _ _ _ _ _ _ E Ha).
  - intros auth p n w2 a2 a1 ct t2 t2' now (r1 & r2 & Hc) Hn S1 S2 Hin Hout Hf.
    destruct (connection_loaded _ _ _ _ _ _ _ _ _ Hc ltac:(lia) S1 S2) as (F1 & F2 & L1 & L2).
    apply (devices_deliver_ok auth p n plaintext (bundles_of recipients) ∅ (rcp_Address <$> recipients) w t w' t' out a2 r1 w2 a1 r2 ct t2 t2' now);
      try done; [by apply (bundles_of_lookup _ (mkRecipient a2 None))|]. intros msg Hm. by apply (Hf _ _ msg L1 L2).
Qed.

(** An example: the conversation of SessionConversation.v. *)
Module FanoutDemo.
Import Demo.
#[local] Existing Instance Toy.primitives.
#[local] Existing Instance Toy.kyber.
#[local] Existing Instance Toy.xeddsa.
#[local] Existing Instance ToyMlkem.mlkem.
#[local] Existing Instance ToyWire.wire.
#[local] Existing Instances ids sessions prekeys signed kybers.

Definition run := FanoutCipher_Encrypt (str "again") [mkRecipient bob None] (SesameDemo.w, tA).
Definition out : gmap Address bytes := get_ok ∅ (snd run).
Definition ct : bytes := default [] (out !! bob).

#[local] Strategy expand [run out].

Lemma fanout_ran : FanoutCipher_Encrypt (str "again") [mkRecipient bob None] (SesameDemo.w, tA) = ((fst (fst run), snd (fst run)), Ok out).
Proof. exact (triple_ok ∅ run (eq_refl true <: is_ok (snd run) = true)). Qed.
End FanoutDemo.

Lemma fanout_delivers_witness :
  let P := Toy.primitives in let K := Toy.kyber in let X := Toy.xeddsa in let M := ToyMlkem.mlkem in let W := ToyWire.wire in
  let I := Demo.ids in let PK := Demo.prekeys in let SP := Demo.signed in let KP := Demo.kybers in let S := Demo.sessions in
  exists w2', Session.Decrypt 0 Demo.alice FanoutDemo.ct (Demo.wB1, []) = ((w2', []), Ok (str "again")).
Proof.
  intros P K X M W I PK SP KP S.
  destruct (fanout_delivers P K X M W _ I PK SP KP S Demo.sessions_laws (str "again") [mkRecipient Demo.bob None]
    SesameDemo.w _ Demo.tA _ FanoutDemo.out Toy.laws ToyMlkem.laws ToyWire.laws Demo.store_laws (NoDup_singleton _) FanoutDemo.fanout_ran) as (_ & _ & H).
  destruct (H (pq_auth Demo.ra) true 1 Demo.wB1 Demo.bob Demo.alice FanoutDemo.ct [] [] 0) as (w2' & E & _).
  - exact SesameDemo.connected.
  - lia.
  - apply SesameDemo.small_of. vm_compute. reflexivity.
  - apply SesameDemo.small_of. vm_compute. reflexivity.
  - by left.
  - vm_compute. reflexivity.
  - apply SesameDemo.fresh_of. vm_compute. reflexivity.
  - exists w2'. exact E.
Defined.
